(** * Sky Battles: the server-side game room

    A shallow embedding of [GameRoom] (server/index.ts) together with the
    shared types and balance constants (shared/types.ts, shared/constants.ts),
    and the properties of the simulation that the specification states;
    then the socket entry point of the server (the handlers of
    server/index.ts, with their validation helpers and rate limits) and
    the properties the code of both shows.

    Conventions of the embedding.
    - A JavaScript [number] is a rational [Q] with exact arithmetic (no
      rounding, no overflow).  The one place where the source manufactures
      [Infinity], [rayRectIntersect], works over [num], which adds
      [+Infinity], [-Infinity] and [NaN] with their IEEE-754 rules.
    - [Math.cos], [Math.sin], [Math.sqrt] and [Math.atan2] are parameters of
      the model; every theorem holds whatever they compute.
    - [Date.now()] and [Math.random()] are inputs of the operation that reads
      them.
    - A [Map] is an insertion-ordered list.  The maps whose values carry
      their own key ([players], [projectiles], [obstacles], [lobbyPlayers],
      always filled by [set(v.id, v)]) are lists of values looked up by that
      field; the others are lists of pairs.
    - Objects mutated in place are updated in the map that holds them.
    - [io.emit] appends to the room's [emitted] log, most recent first.
    - [setTimeout] and [setInterval] arm an entry of the room's [timers];
      [clearTimeout] and [clearInterval] disarm it; [fire] runs an armed
      entry.  Wall-clock delays are recorded but do not order the firings.
    - In the entry point a handler reads [Date.now()] once; the payload of
      an event is a [JSValue]; [socket.join], [socket.leave] and the
      delivery of messages are not modelled: what the entry point sends is
      logged, with the room code it is sent to.  The headers [getClientIp]
      reads are not modelled: a connection comes with its address.
    - A character of a [string] stands for the UTF-16 code unit of the same
      number; [String.prototype.toUpperCase] is a parameter. *)

From Stdlib Require Import QArith Qminmax Qabs ZArith List String Bool Lia Lqa.
From Stdlib Require Import DecimalString DecimalNat Qround Ascii.
Import ListNotations.
Open Scope string_scope.
Open Scope list_scope.
Open Scope Z_scope.
Open Scope Q_scope.

Set Implicit Arguments.

(** ** Comparisons on numbers *)

Definition Qleb (a b : Q) : bool := Qle_bool a b.
Definition Qltb (a b : Q) : bool := negb (Qle_bool b a).
Definition Qgtb (a b : Q) : bool := Qltb b a.
Definition Qgeb (a b : Q) : bool := Qleb b a.
Definition Qneqb (a b : Q) : bool := negb (Qeq_bool a b).

(** ** Insertion-ordered maps

    [lookup], [insert], [adjust] and [remove] are [Map.get], [Map.set],
    in-place mutation of the stored object, and [Map.delete], for a list of
    entries whose key is computed by [key]. *)

Section Keyed.
Variable A : Type.
Variable key : A -> string.

Fixpoint lookup (k : string) (m : list A) : option A :=
  match m with
  | [] => None
  | a :: m' => if String.eqb (key a) k then Some a else lookup k m'
  end.

Definition has (k : string) (m : list A) : bool :=
  match lookup k m with Some _ => true | None => false end.

Fixpoint insert (a : A) (m : list A) : list A :=
  match m with
  | [] => [a]
  | b :: m' => if String.eqb (key b) (key a) then a :: m' else b :: insert a m'
  end.

Definition adjust (k : string) (f : A -> A) (m : list A) : list A :=
  map (fun a => if String.eqb (key a) k then f a else a) m.

Definition remove (k : string) (m : list A) : list A :=
  filter (fun a => negb (String.eqb (key a) k)) m.

Definition keys (m : list A) : list string := map key m.

End Keyed.

Arguments lookup {A} key k m.
Arguments has {A} key k m.
Arguments insert {A} key a m.
Arguments adjust {A} key k f m.
Arguments remove {A} key k m.
Arguments keys {A} key m.

(** ** Numbers with infinities

    [rayRectIntersect] multiplies by [Infinity]; [num] carries the three
    special values that can result, with the IEEE-754 rules for product,
    comparison, [Math.max] and [Math.min].  Signed zeros are identified. *)

Inductive num : Type :=
| Fin (q : Q)
| PInf
| NInf
| NaN.

Definition num_mul (a b : num) : num :=
  match a, b with
  | NaN, _ | _, NaN => NaN
  | Fin u, Fin v => Fin (u * v)
  | Fin u, PInf | PInf, Fin u =>
      if Qeq_bool u 0 then NaN else if Qltb 0 u then PInf else NInf
  | Fin u, NInf | NInf, Fin u =>
      if Qeq_bool u 0 then NaN else if Qltb 0 u then NInf else PInf
  | PInf, PInf | NInf, NInf => PInf
  | PInf, NInf | NInf, PInf => NInf
  end.

Definition num_ltb (a b : num) : bool :=
  match a, b with
  | NaN, _ | _, NaN => false
  | Fin u, Fin v => Qltb u v
  | Fin _, PInf => true
  | Fin _, NInf => false
  | PInf, _ => false
  | NInf, NInf => false
  | NInf, _ => true
  end.

Definition num_gtb (a b : num) : bool := num_ltb b a.

Definition num_max (a b : num) : num :=
  match a, b with
  | NaN, _ | _, NaN => NaN
  | _, _ => if num_ltb a b then b else a
  end.

Definition num_min (a b : num) : num :=
  match a, b with
  | NaN, _ | _, NaN => NaN
  | _, _ => if num_ltb b a then b else a
  end.

(** [0 <= t] as JavaScript evaluates it: false on [NaN]. *)
Definition num_nonneg (t : num) : Prop :=
  match t with
  | Fin q => 0 <= q
  | PInf => True
  | NInf | NaN => False
  end.

(** ** Shared types (shared/types.ts) *)

Inductive MovementType := WINGS | FIRE_JETPACK | WATER_JETPACK | LEVITATION.

Inductive WeaponType := MACHINE_GUN | PULSE_LASER | SNIPER | ROCKET.

Inductive ArenaId :=
  CENTER | TOP | BOTTOM | LEFT | RIGHT | SPAWN_NW | SPAWN_NE | SPAWN_SW | SPAWN_SE.

Definition MovementType_eqb (a b : MovementType) : bool :=
  match a, b with
  | WINGS, WINGS | FIRE_JETPACK, FIRE_JETPACK
  | WATER_JETPACK, WATER_JETPACK | LEVITATION, LEVITATION => true
  | _, _ => false
  end.

Definition ArenaId_eqb (a b : ArenaId) : bool :=
  match a, b with
  | CENTER, CENTER | TOP, TOP | BOTTOM, BOTTOM | LEFT, LEFT | RIGHT, RIGHT
  | SPAWN_NW, SPAWN_NW | SPAWN_NE, SPAWN_NE
  | SPAWN_SW, SPAWN_SW | SPAWN_SE, SPAWN_SE => true
  | _, _ => false
  end.

Record PlayerState := {
  id : string;
  name : string;
  x : Q;
  y : Q;
  z : Q;
  velocityX : Q;
  velocityY : Q;
  velocityZ : Q;
  angle : Q;
  health : Q;
  maxHealth : Q;
  fuel : Q;
  maxFuel : Q;
  currentArena : ArenaId;
  movement : MovementType;
  weapon : WeaponType;
  isInSpawn : bool;
  isDead : bool;
  kills : Z;
  deaths : Z;
  color : option Z;
  ammo : Z;
  isReloading : bool
}.

Module ProjectileState.
Record t := {
  id : string;
  ownerId : string;
  x : Q;
  y : Q;
  z : Q;
  angle : Q;
  speed : Q;
  damage : Q;
  type : WeaponType;
  arena : ArenaId;
  createdAt : Q
}.
End ProjectileState.

Module InputState.
Record t := {
  up : bool;
  down : bool;
  left : bool;
  right : bool;
  jump : bool;
  crouch : bool;
  shooting : bool;
  mouseAngle : Q;
  timestamp : Q;
  sequence : Z
}.
End InputState.

Module BreakableObstacle.
Record t := {
  id : string;
  x : Q;
  y : Q;
  width : Q;
  height : Q;
  health : Q;
  maxHealth : Q
}.
End BreakableObstacle.

Module RoomPlayer.
Record t := {
  id : string;
  name : string;
  ready : bool;
  loadoutReady : bool;
  movement : MovementType;
  weapon : WeaponType
}.
End RoomPlayer.

(** The anonymous [{ x, y, width, height }] of walls and of the geometry
    helpers. *)
Module Rect.
Record t := { x : Q; y : Q; width : Q; height : Q }.
End Rect.

(** An entry of [ArenaDefinition.breakableObstacles]. *)
Module ObstacleDef.
Record t := { id : string; x : Q; y : Q; width : Q; height : Q; health : Q }.
End ObstacleDef.

(** [ArenaDefinition], without [name], [platforms] and [doors], which the
    server never reads. *)
Module ArenaDefinition.
Record t := {
  id : ArenaId;
  width : Q;
  height : Q;
  walls : list Rect.t;
  breakableObstacles : list ObstacleDef.t;
  spawnPoints : list (Q * Q)
}.
End ArenaDefinition.

Definition rectOfObstacle (o : BreakableObstacle.t) : Rect.t :=
  {| Rect.x := BreakableObstacle.x o; Rect.y := BreakableObstacle.y o;
     Rect.width := BreakableObstacle.width o;
     Rect.height := BreakableObstacle.height o |}.

(** ** Game constants and balance values (shared/constants.ts) *)

Definition GAME_WIDTH : Q := 1024.
Definition GAME_HEIGHT : Q := 768.
Definition TICK_RATE : Q := 20.
Definition PLAYER_RADIUS : Q := 20.
Definition MAX_HEALTH : Q := 100.
Definition KILL_LIMIT : Z := 11.

Definition MIN_Z : Q := 0.
Definition MAX_Z : Q := 100.
Definition DEFAULT_Z : Q := 20.
Definition Z_HIT_TOLERANCE : Q := 15.
Definition GRAVITY : Q := 0.5.

Module MovementStats.
Record t := {
  speed : Q;
  acceleration : Q;
  friction : Q;
  zClimbRate : Q;
  zFallRate : Q;
  fuel : Q;
  fuelDrain : Q;
  fuelRegen : Q;
  canHover : bool
}.
End MovementStats.

Definition MOVEMENT_STATS (m : MovementType) : MovementStats.t :=
  match m with
  | WINGS =>
      {| MovementStats.speed := 8; MovementStats.acceleration := 0.6;
         MovementStats.friction := 0.92; MovementStats.zClimbRate := 1;
         MovementStats.zFallRate := 0.3; MovementStats.fuel := 0;
         MovementStats.fuelDrain := 0; MovementStats.fuelRegen := 0;
         MovementStats.canHover := false |}
  | FIRE_JETPACK =>
      {| MovementStats.speed := 5; MovementStats.acceleration := 0.8;
         MovementStats.friction := 0.88; MovementStats.zClimbRate := 5;
         MovementStats.zFallRate := 2; MovementStats.fuel := 100;
         MovementStats.fuelDrain := 3; MovementStats.fuelRegen := 1.5;
         MovementStats.canHover := false |}
  | WATER_JETPACK =>
      {| MovementStats.speed := 5; MovementStats.acceleration := 0.5;
         MovementStats.friction := 0.9; MovementStats.zClimbRate := 2;
         MovementStats.zFallRate := 1; MovementStats.fuel := 100;
         MovementStats.fuelDrain := 1; MovementStats.fuelRegen := 2.5;
         MovementStats.canHover := true |}
  | LEVITATION =>
      {| MovementStats.speed := 3; MovementStats.acceleration := 0.3;
         MovementStats.friction := 0.95; MovementStats.zClimbRate := 1;
         MovementStats.zFallRate := 0; MovementStats.fuel := 0;
         MovementStats.fuelDrain := 0; MovementStats.fuelRegen := 0;
         MovementStats.canHover := true |}
  end.

Module WeaponStats.
Record t := {
  damage : Q;
  fireRate : Q;
  projectileSpeed : Q;
  range : Q;
  spread : Q;
  clipSize : Z;
  reloadTime : Q;
  isHitscan : bool
}.
End WeaponStats.

Definition WEAPON_STATS (w : WeaponType) : WeaponStats.t :=
  match w with
  | MACHINE_GUN =>
      {| WeaponStats.damage := 8; WeaponStats.fireRate := 10;
         WeaponStats.projectileSpeed := 15; WeaponStats.range := 400;
         WeaponStats.spread := 0.1; WeaponStats.clipSize := 30;
         WeaponStats.reloadTime := 40; WeaponStats.isHitscan := false |}
  | PULSE_LASER =>
      {| WeaponStats.damage := 25; WeaponStats.fireRate := 2;
         WeaponStats.projectileSpeed := 20; WeaponStats.range := 600;
         WeaponStats.spread := 0; WeaponStats.clipSize := 8;
         WeaponStats.reloadTime := 30; WeaponStats.isHitscan := false |}
  | SNIPER =>
      {| WeaponStats.damage := 100; WeaponStats.fireRate := 0.5;
         WeaponStats.projectileSpeed := 0; WeaponStats.range := 1000;
         WeaponStats.spread := 0; WeaponStats.clipSize := 1;
         WeaponStats.reloadTime := 40; WeaponStats.isHitscan := true |}
  | ROCKET =>
      {| WeaponStats.damage := 50; WeaponStats.fireRate := 1;
         WeaponStats.projectileSpeed := 12; WeaponStats.range := 600;
         WeaponStats.spread := 0; WeaponStats.clipSize := 4;
         WeaponStats.reloadTime := 50; WeaponStats.isHitscan := false |}
  end.

Definition PLAYER_COLORS : list Z :=
  [15158332; 3447003; 3066993; 15965202]%Z.

Definition mkRect (x y w h : Q) : Rect.t :=
  {| Rect.x := x; Rect.y := y; Rect.width := w; Rect.height := h |}.

Definition mkObstacleDef (i : string) (x y w h hp : Q) : ObstacleDef.t :=
  {| ObstacleDef.id := i; ObstacleDef.x := x; ObstacleDef.y := y;
     ObstacleDef.width := w; ObstacleDef.height := h;
     ObstacleDef.health := hp |}.

Definition mkArena (i : ArenaId) (w h : Q) (ws : list Rect.t)
    (bs : list ObstacleDef.t) (sp : list (Q * Q)) : ArenaDefinition.t :=
  {| ArenaDefinition.id := i; ArenaDefinition.width := w;
     ArenaDefinition.height := h; ArenaDefinition.walls := ws;
     ArenaDefinition.breakableObstacles := bs;
     ArenaDefinition.spawnPoints := sp |}.

Definition ARENAS (a : ArenaId) : ArenaDefinition.t :=
  match a with
  | CENTER =>
      mkArena CENTER GAME_WIDTH GAME_HEIGHT
        [mkRect 462 334 100 100]
        [mkObstacleDef "center_nw" 200 200 60 60 50;
         mkObstacleDef "center_ne" 764 200 60 60 50;
         mkObstacleDef "center_sw" 200 508 60 60 50;
         mkObstacleDef "center_se" 764 508 60 60 50;
         mkObstacleDef "center_mid_top" 350 150 80 40 35;
         mkObstacleDef "center_mid_bot" 594 578 80 40 35]
        [(100, 100); (924, 100); (100, 668); (924, 668)]
  | TOP =>
      mkArena TOP GAME_WIDTH GAME_HEIGHT
        [mkRect 150 100 60 500; mkRect 400 200 60 400;
         mkRect 600 100 60 500; mkRect 850 200 60 400]
        []
        [(50, 700); (974, 700)]
  | BOTTOM =>
      mkArena BOTTOM GAME_WIDTH GAME_HEIGHT
        [mkRect 200 0 40 300; mkRect 200 400 40 368; mkRect 400 100 40 400;
         mkRect 600 268 40 500; mkRect 800 0 40 400; mkRect 800 500 40 268]
        []
        [(100, 384); (924, 384)]
  | LEFT =>
      mkArena LEFT GAME_WIDTH GAME_HEIGHT
        [mkRect 0 300 400 40; mkRect 300 340 100 200]
        []
        [(200, 200); (800, 650)]
  | RIGHT =>
      mkArena RIGHT GAME_WIDTH GAME_HEIGHT
        [mkRect 150 150 200 40; mkRect 150 150 40 200; mkRect 450 100 40 300;
         mkRect 450 100 200 40; mkRect 650 100 40 200; mkRect 200 450 300 40;
         mkRect 200 450 40 200; mkRect 600 400 40 300; mkRect 600 400 200 40;
         mkRect 750 550 200 40]
        []
        [(80, 80); (944, 688)]
  | SPAWN_NW => mkArena SPAWN_NW 200 200 [] [] [(100, 100)]
  | SPAWN_NE => mkArena SPAWN_NE 200 200 [] [] [(100, 100)]
  | SPAWN_SW => mkArena SPAWN_SW 200 200 [] [] [(100, 100)]
  | SPAWN_SE => mkArena SPAWN_SE 200 200 [] [] [(100, 100)]
  end.

(** Security: max projectiles per player to prevent memory exhaustion
    (server/index.ts). *)
Definition MAX_PROJECTILES_PER_PLAYER : nat := 50.

(** ** Field updates of a player object *)

Definition with_health (h : Q) (p : PlayerState) : PlayerState :=
  {| id := id p; name := name p; x := x p; y := y p; z := z p;
     velocityX := velocityX p; velocityY := velocityY p;
     velocityZ := velocityZ p; angle := angle p; health := h;
     maxHealth := maxHealth p; fuel := fuel p; maxFuel := maxFuel p;
     currentArena := currentArena p; movement := movement p;
     weapon := weapon p; isInSpawn := isInSpawn p; isDead := isDead p;
     kills := kills p; deaths := deaths p; color := color p; ammo := ammo p;
     isReloading := isReloading p |}.

Definition with_isDead (b : bool) (p : PlayerState) : PlayerState :=
  {| id := id p; name := name p; x := x p; y := y p; z := z p;
     velocityX := velocityX p; velocityY := velocityY p;
     velocityZ := velocityZ p; angle := angle p; health := health p;
     maxHealth := maxHealth p; fuel := fuel p; maxFuel := maxFuel p;
     currentArena := currentArena p; movement := movement p;
     weapon := weapon p; isInSpawn := isInSpawn p; isDead := b;
     kills := kills p; deaths := deaths p; color := color p; ammo := ammo p;
     isReloading := isReloading p |}.

Definition with_deaths (n : Z) (p : PlayerState) : PlayerState :=
  {| id := id p; name := name p; x := x p; y := y p; z := z p;
     velocityX := velocityX p; velocityY := velocityY p;
     velocityZ := velocityZ p; angle := angle p; health := health p;
     maxHealth := maxHealth p; fuel := fuel p; maxFuel := maxFuel p;
     currentArena := currentArena p; movement := movement p;
     weapon := weapon p; isInSpawn := isInSpawn p; isDead := isDead p;
     kills := kills p; deaths := n; color := color p; ammo := ammo p;
     isReloading := isReloading p |}.

Definition with_kills (n : Z) (p : PlayerState) : PlayerState :=
  {| id := id p; name := name p; x := x p; y := y p; z := z p;
     velocityX := velocityX p; velocityY := velocityY p;
     velocityZ := velocityZ p; angle := angle p; health := health p;
     maxHealth := maxHealth p; fuel := fuel p; maxFuel := maxFuel p;
     currentArena := currentArena p; movement := movement p;
     weapon := weapon p; isInSpawn := isInSpawn p; isDead := isDead p;
     kills := n; deaths := deaths p; color := color p; ammo := ammo p;
     isReloading := isReloading p |}.

Definition with_ammo (n : Z) (p : PlayerState) : PlayerState :=
  {| id := id p; name := name p; x := x p; y := y p; z := z p;
     velocityX := velocityX p; velocityY := velocityY p;
     velocityZ := velocityZ p; angle := angle p; health := health p;
     maxHealth := maxHealth p; fuel := fuel p; maxFuel := maxFuel p;
     currentArena := currentArena p; movement := movement p;
     weapon := weapon p; isInSpawn := isInSpawn p; isDead := isDead p;
     kills := kills p; deaths := deaths p; color := color p; ammo := n;
     isReloading := isReloading p |}.

Definition with_isReloading (b : bool) (p : PlayerState) : PlayerState :=
  {| id := id p; name := name p; x := x p; y := y p; z := z p;
     velocityX := velocityX p; velocityY := velocityY p;
     velocityZ := velocityZ p; angle := angle p; health := health p;
     maxHealth := maxHealth p; fuel := fuel p; maxFuel := maxFuel p;
     currentArena := currentArena p; movement := movement p;
     weapon := weapon p; isInSpawn := isInSpawn p; isDead := isDead p;
     kills := kills p; deaths := deaths p; color := color p; ammo := ammo p;
     isReloading := b |}.

Definition with_isInSpawn (b : bool) (p : PlayerState) : PlayerState :=
  {| id := id p; name := name p; x := x p; y := y p; z := z p;
     velocityX := velocityX p; velocityY := velocityY p;
     velocityZ := velocityZ p; angle := angle p; health := health p;
     maxHealth := maxHealth p; fuel := fuel p; maxFuel := maxFuel p;
     currentArena := currentArena p; movement := movement p;
     weapon := weapon p; isInSpawn := b; isDead := isDead p;
     kills := kills p; deaths := deaths p; color := color p; ammo := ammo p;
     isReloading := isReloading p |}.

(** ** Pure collision helpers *)

Definition rectCircleCollision (rect : Rect.t) (cx cy r : Q) : bool :=
  let nearestX := Qmax (Rect.x rect) (Qmin cx (Rect.x rect + Rect.width rect)) in
  let nearestY := Qmax (Rect.y rect) (Qmin cy (Rect.y rect + Rect.height rect)) in
  let dx := cx - nearestX in
  let dy := cy - nearestY in
  Qltb (dx * dx + dy * dy) (r * r).

Definition pointInRect (px py rx ry rw rh : Q) : bool :=
  Qgeb px rx && Qleb px (rx + rw) && Qgeb py ry && Qleb py (ry + rh).

(** Ray-AABB intersection: distance [t] along the ray, or [None] for the
    source's [null]. *)
Definition rayRectIntersect (ox oy dx dy : Q) (rect : Rect.t) : option num :=
  let invDx := if Qeq_bool dx 0 then PInf else Fin (1 / dx) in
  let invDy := if Qeq_bool dy 0 then PInf else Fin (1 / dy) in
  let tMin := num_mul (Fin (Rect.x rect - ox)) invDx in
  let tMax := num_mul (Fin (Rect.x rect + Rect.width rect - ox)) invDx in
  let '(tMin, tMax) := if num_gtb tMin tMax then (tMax, tMin) else (tMin, tMax) in
  let tyMin := num_mul (Fin (Rect.y rect - oy)) invDy in
  let tyMax := num_mul (Fin (Rect.y rect + Rect.height rect - oy)) invDy in
  let '(tyMin, tyMax) :=
    if num_gtb tyMin tyMax then (tyMax, tyMin) else (tyMin, tyMax) in
  let tEnter := num_max tMin tyMin in
  let tExit := num_min tMax tyMax in
  if num_gtb tEnter tExit || num_ltb tExit (Fin 0) then None
  else Some (if num_gtb tEnter (Fin 0) then tEnter else tExit).

(** ** The room and its environment *)

(** What the room sends with [io.to(code).emit]. *)
Inductive Event :=
| game_starting (countdown : Z)
| game_started
| loadout_phase
| room_updated (roster : list RoomPlayer.t) (started loadout : bool)
| game_state (ps : list PlayerState) (prs : list ProjectileState.t)
    (obs : list BreakableObstacle.t) (timestamp : Q) (tickNo : Z)
| game_hit (targetId : string) (dmg : Q) (sourceId : string)
| game_kill (killerId victimId : string)
| game_ended (winnerId : string) (scores : list (string * (Z * Z)))
| game_hitscan (sourceId : string) (startX startY endX endY : Q).

(** The callbacks the room hands to [setInterval] and [setTimeout], each
    with the variables its closure captures: the countdown value; the
    player (by id) and the weapon whose stats [startReload] read. *)
Inductive Timer :=
| GameLoopInterval
| CountdownInterval (countdown : Z)
| ReloadTimeout (playerId : string) (w : WeaponType) (reloadDuration : Q)
| SpawnProtectionTimeout (playerId : string)
| RoomUpdatedTimeout.

Record GameRoom := {
  code : string;
  hostId : string;
  lobbyPlayers : list RoomPlayer.t;
  players : list PlayerState;
  projectiles : list ProjectileState.t;
  obstacles : list BreakableObstacle.t;
  playerInputs : list (string * InputState.t);
  gameStarted : bool;
  inLoadoutPhase : bool;
  gameLoop : option nat;
  tick : Z;
  projectileIdCounter : nat;
  lastShotTime : list (string * Q);
  reloadTimers : list (string * nat);
  spawnProtectionTimers : list (string * nat);
  countdownStarted : bool;
  countdownInterval : option nat;
  timers : list (nat * Timer);
  nextTimer : nat;
  emitted : list Event
}.

Definition set_lobbyPlayers (v : list RoomPlayer.t) (r : GameRoom) : GameRoom :=
  {| code := code r; hostId := hostId r; lobbyPlayers := v; players :=
     players r; projectiles := projectiles r; obstacles := obstacles r;
     playerInputs := playerInputs r; gameStarted := gameStarted r;
     inLoadoutPhase := inLoadoutPhase r; gameLoop := gameLoop r; tick :=
     tick r; projectileIdCounter := projectileIdCounter r; lastShotTime :=
     lastShotTime r; reloadTimers := reloadTimers r; spawnProtectionTimers
     := spawnProtectionTimers r; countdownStarted := countdownStarted r;
     countdownInterval := countdownInterval r; timers := timers r; nextTimer
     := nextTimer r; emitted := emitted r |}.

Definition set_players (v : list PlayerState) (r : GameRoom) : GameRoom :=
  {| code := code r; hostId := hostId r; lobbyPlayers := lobbyPlayers r;
     players := v; projectiles := projectiles r; obstacles := obstacles r;
     playerInputs := playerInputs r; gameStarted := gameStarted r;
     inLoadoutPhase := inLoadoutPhase r; gameLoop := gameLoop r; tick :=
     tick r; projectileIdCounter := projectileIdCounter r; lastShotTime :=
     lastShotTime r; reloadTimers := reloadTimers r; spawnProtectionTimers
     := spawnProtectionTimers r; countdownStarted := countdownStarted r;
     countdownInterval := countdownInterval r; timers := timers r; nextTimer
     := nextTimer r; emitted := emitted r |}.

Definition set_projectiles (v : list ProjectileState.t) (r : GameRoom) : GameRoom :=
  {| code := code r; hostId := hostId r; lobbyPlayers := lobbyPlayers r;
     players := players r; projectiles := v; obstacles := obstacles r;
     playerInputs := playerInputs r; gameStarted := gameStarted r;
     inLoadoutPhase := inLoadoutPhase r; gameLoop := gameLoop r; tick :=
     tick r; projectileIdCounter := projectileIdCounter r; lastShotTime :=
     lastShotTime r; reloadTimers := reloadTimers r; spawnProtectionTimers
     := spawnProtectionTimers r; countdownStarted := countdownStarted r;
     countdownInterval := countdownInterval r; timers := timers r; nextTimer
     := nextTimer r; emitted := emitted r |}.

Definition set_obstacles (v : list BreakableObstacle.t) (r : GameRoom) : GameRoom :=
  {| code := code r; hostId := hostId r; lobbyPlayers := lobbyPlayers r;
     players := players r; projectiles := projectiles r; obstacles := v;
     playerInputs := playerInputs r; gameStarted := gameStarted r;
     inLoadoutPhase := inLoadoutPhase r; gameLoop := gameLoop r; tick :=
     tick r; projectileIdCounter := projectileIdCounter r; lastShotTime :=
     lastShotTime r; reloadTimers := reloadTimers r; spawnProtectionTimers
     := spawnProtectionTimers r; countdownStarted := countdownStarted r;
     countdownInterval := countdownInterval r; timers := timers r; nextTimer
     := nextTimer r; emitted := emitted r |}.

Definition set_playerInputs (v : list (string * InputState.t)) (r : GameRoom) : GameRoom :=
  {| code := code r; hostId := hostId r; lobbyPlayers := lobbyPlayers r;
     players := players r; projectiles := projectiles r; obstacles :=
     obstacles r; playerInputs := v; gameStarted := gameStarted r;
     inLoadoutPhase := inLoadoutPhase r; gameLoop := gameLoop r; tick :=
     tick r; projectileIdCounter := projectileIdCounter r; lastShotTime :=
     lastShotTime r; reloadTimers := reloadTimers r; spawnProtectionTimers
     := spawnProtectionTimers r; countdownStarted := countdownStarted r;
     countdownInterval := countdownInterval r; timers := timers r; nextTimer
     := nextTimer r; emitted := emitted r |}.

Definition set_gameStarted (v : bool) (r : GameRoom) : GameRoom :=
  {| code := code r; hostId := hostId r; lobbyPlayers := lobbyPlayers r;
     players := players r; projectiles := projectiles r; obstacles :=
     obstacles r; playerInputs := playerInputs r; gameStarted := v;
     inLoadoutPhase := inLoadoutPhase r; gameLoop := gameLoop r; tick :=
     tick r; projectileIdCounter := projectileIdCounter r; lastShotTime :=
     lastShotTime r; reloadTimers := reloadTimers r; spawnProtectionTimers
     := spawnProtectionTimers r; countdownStarted := countdownStarted r;
     countdownInterval := countdownInterval r; timers := timers r; nextTimer
     := nextTimer r; emitted := emitted r |}.

Definition set_inLoadoutPhase (v : bool) (r : GameRoom) : GameRoom :=
  {| code := code r; hostId := hostId r; lobbyPlayers := lobbyPlayers r;
     players := players r; projectiles := projectiles r; obstacles :=
     obstacles r; playerInputs := playerInputs r; gameStarted := gameStarted
     r; inLoadoutPhase := v; gameLoop := gameLoop r; tick := tick r;
     projectileIdCounter := projectileIdCounter r; lastShotTime :=
     lastShotTime r; reloadTimers := reloadTimers r; spawnProtectionTimers
     := spawnProtectionTimers r; countdownStarted := countdownStarted r;
     countdownInterval := countdownInterval r; timers := timers r; nextTimer
     := nextTimer r; emitted := emitted r |}.

Definition set_gameLoop (v : option nat) (r : GameRoom) : GameRoom :=
  {| code := code r; hostId := hostId r; lobbyPlayers := lobbyPlayers r;
     players := players r; projectiles := projectiles r; obstacles :=
     obstacles r; playerInputs := playerInputs r; gameStarted := gameStarted
     r; inLoadoutPhase := inLoadoutPhase r; gameLoop := v; tick := tick r;
     projectileIdCounter := projectileIdCounter r; lastShotTime :=
     lastShotTime r; reloadTimers := reloadTimers r; spawnProtectionTimers
     := spawnProtectionTimers r; countdownStarted := countdownStarted r;
     countdownInterval := countdownInterval r; timers := timers r; nextTimer
     := nextTimer r; emitted := emitted r |}.

Definition set_tick (v : Z) (r : GameRoom) : GameRoom :=
  {| code := code r; hostId := hostId r; lobbyPlayers := lobbyPlayers r;
     players := players r; projectiles := projectiles r; obstacles :=
     obstacles r; playerInputs := playerInputs r; gameStarted := gameStarted
     r; inLoadoutPhase := inLoadoutPhase r; gameLoop := gameLoop r; tick :=
     v; projectileIdCounter := projectileIdCounter r; lastShotTime :=
     lastShotTime r; reloadTimers := reloadTimers r; spawnProtectionTimers
     := spawnProtectionTimers r; countdownStarted := countdownStarted r;
     countdownInterval := countdownInterval r; timers := timers r; nextTimer
     := nextTimer r; emitted := emitted r |}.

Definition set_projectileIdCounter (v : nat) (r : GameRoom) : GameRoom :=
  {| code := code r; hostId := hostId r; lobbyPlayers := lobbyPlayers r;
     players := players r; projectiles := projectiles r; obstacles :=
     obstacles r; playerInputs := playerInputs r; gameStarted := gameStarted
     r; inLoadoutPhase := inLoadoutPhase r; gameLoop := gameLoop r; tick :=
     tick r; projectileIdCounter := v; lastShotTime := lastShotTime r;
     reloadTimers := reloadTimers r; spawnProtectionTimers :=
     spawnProtectionTimers r; countdownStarted := countdownStarted r;
     countdownInterval := countdownInterval r; timers := timers r; nextTimer
     := nextTimer r; emitted := emitted r |}.

Definition set_lastShotTime (v : list (string * Q)) (r : GameRoom) : GameRoom :=
  {| code := code r; hostId := hostId r; lobbyPlayers := lobbyPlayers r;
     players := players r; projectiles := projectiles r; obstacles :=
     obstacles r; playerInputs := playerInputs r; gameStarted := gameStarted
     r; inLoadoutPhase := inLoadoutPhase r; gameLoop := gameLoop r; tick :=
     tick r; projectileIdCounter := projectileIdCounter r; lastShotTime :=
     v; reloadTimers := reloadTimers r; spawnProtectionTimers :=
     spawnProtectionTimers r; countdownStarted := countdownStarted r;
     countdownInterval := countdownInterval r; timers := timers r; nextTimer
     := nextTimer r; emitted := emitted r |}.

Definition set_reloadTimers (v : list (string * nat)) (r : GameRoom) : GameRoom :=
  {| code := code r; hostId := hostId r; lobbyPlayers := lobbyPlayers r;
     players := players r; projectiles := projectiles r; obstacles :=
     obstacles r; playerInputs := playerInputs r; gameStarted := gameStarted
     r; inLoadoutPhase := inLoadoutPhase r; gameLoop := gameLoop r; tick :=
     tick r; projectileIdCounter := projectileIdCounter r; lastShotTime :=
     lastShotTime r; reloadTimers := v; spawnProtectionTimers :=
     spawnProtectionTimers r; countdownStarted := countdownStarted r;
     countdownInterval := countdownInterval r; timers := timers r; nextTimer
     := nextTimer r; emitted := emitted r |}.

Definition set_spawnProtectionTimers (v : list (string * nat)) (r : GameRoom) : GameRoom :=
  {| code := code r; hostId := hostId r; lobbyPlayers := lobbyPlayers r;
     players := players r; projectiles := projectiles r; obstacles :=
     obstacles r; playerInputs := playerInputs r; gameStarted := gameStarted
     r; inLoadoutPhase := inLoadoutPhase r; gameLoop := gameLoop r; tick :=
     tick r; projectileIdCounter := projectileIdCounter r; lastShotTime :=
     lastShotTime r; reloadTimers := reloadTimers r; spawnProtectionTimers
     := v; countdownStarted := countdownStarted r; countdownInterval :=
     countdownInterval r; timers := timers r; nextTimer := nextTimer r;
     emitted := emitted r |}.

Definition set_countdownStarted (v : bool) (r : GameRoom) : GameRoom :=
  {| code := code r; hostId := hostId r; lobbyPlayers := lobbyPlayers r;
     players := players r; projectiles := projectiles r; obstacles :=
     obstacles r; playerInputs := playerInputs r; gameStarted := gameStarted
     r; inLoadoutPhase := inLoadoutPhase r; gameLoop := gameLoop r; tick :=
     tick r; projectileIdCounter := projectileIdCounter r; lastShotTime :=
     lastShotTime r; reloadTimers := reloadTimers r; spawnProtectionTimers
     := spawnProtectionTimers r; countdownStarted := v; countdownInterval :=
     countdownInterval r; timers := timers r; nextTimer := nextTimer r;
     emitted := emitted r |}.

Definition set_countdownInterval (v : option nat) (r : GameRoom) : GameRoom :=
  {| code := code r; hostId := hostId r; lobbyPlayers := lobbyPlayers r;
     players := players r; projectiles := projectiles r; obstacles :=
     obstacles r; playerInputs := playerInputs r; gameStarted := gameStarted
     r; inLoadoutPhase := inLoadoutPhase r; gameLoop := gameLoop r; tick :=
     tick r; projectileIdCounter := projectileIdCounter r; lastShotTime :=
     lastShotTime r; reloadTimers := reloadTimers r; spawnProtectionTimers
     := spawnProtectionTimers r; countdownStarted := countdownStarted r;
     countdownInterval := v; timers := timers r; nextTimer := nextTimer r;
     emitted := emitted r |}.

Definition set_timers (v : list (nat * Timer)) (r : GameRoom) : GameRoom :=
  {| code := code r; hostId := hostId r; lobbyPlayers := lobbyPlayers r;
     players := players r; projectiles := projectiles r; obstacles :=
     obstacles r; playerInputs := playerInputs r; gameStarted := gameStarted
     r; inLoadoutPhase := inLoadoutPhase r; gameLoop := gameLoop r; tick :=
     tick r; projectileIdCounter := projectileIdCounter r; lastShotTime :=
     lastShotTime r; reloadTimers := reloadTimers r; spawnProtectionTimers
     := spawnProtectionTimers r; countdownStarted := countdownStarted r;
     countdownInterval := countdownInterval r; timers := v; nextTimer :=
     nextTimer r; emitted := emitted r |}.

Definition set_nextTimer (v : nat) (r : GameRoom) : GameRoom :=
  {| code := code r; hostId := hostId r; lobbyPlayers := lobbyPlayers r;
     players := players r; projectiles := projectiles r; obstacles :=
     obstacles r; playerInputs := playerInputs r; gameStarted := gameStarted
     r; inLoadoutPhase := inLoadoutPhase r; gameLoop := gameLoop r; tick :=
     tick r; projectileIdCounter := projectileIdCounter r; lastShotTime :=
     lastShotTime r; reloadTimers := reloadTimers r; spawnProtectionTimers
     := spawnProtectionTimers r; countdownStarted := countdownStarted r;
     countdownInterval := countdownInterval r; timers := timers r; nextTimer
     := v; emitted := emitted r |}.

Definition set_emitted (v : list Event) (r : GameRoom) : GameRoom :=
  {| code := code r; hostId := hostId r; lobbyPlayers := lobbyPlayers r;
     players := players r; projectiles := projectiles r; obstacles :=
     obstacles r; playerInputs := playerInputs r; gameStarted := gameStarted
     r; inLoadoutPhase := inLoadoutPhase r; gameLoop := gameLoop r; tick :=
     tick r; projectileIdCounter := projectileIdCounter r; lastShotTime :=
     lastShotTime r; reloadTimers := reloadTimers r; spawnProtectionTimers
     := spawnProtectionTimers r; countdownStarted := countdownStarted r;
     countdownInterval := countdownInterval r; timers := timers r; nextTimer
     := nextTimer r; emitted := v |}.

(** The math library of the host, a parameter of the model. *)
Module JSMath.
Record t := {
  cos : Q -> Q;
  sin : Q -> Q;
  sqrt : Q -> Q;
  atan2 : Q -> Q -> Q
}.
End JSMath.

Definition emit (e : Event) (r : GameRoom) : GameRoom :=
  set_emitted (e :: emitted r) r.

(** [setTimeout] / [setInterval]: arm a callback under a fresh handle. *)
Definition armTimer (t : Timer) (r : GameRoom) : GameRoom * nat :=
  (set_nextTimer (S (nextTimer r)) (set_timers (timers r ++ [(nextTimer r, t)]) r),
   nextTimer r).

(** [clearTimeout] / [clearInterval]: disarm whatever is armed under [h]. *)
Definition disarm (h : nat) (ts : list (nat * Timer)) : list (nat * Timer) :=
  filter (fun e => negb (Nat.eqb (fst e) h)) ts.

Definition clearTimer (h : nat) (r : GameRoom) : GameRoom :=
  set_timers (disarm h (timers r)) r.

(** [clearTimeout] or [clearInterval] on a handle that may be [null]. *)
Definition clearHandle (h : option nat) (r : GameRoom) : GameRoom :=
  set_timers (match h with Some h => disarm h (timers r) | None => timers r end) r.

(** [for (const timer of m.values()) clearTimeout(timer)]. *)
Definition clearTimers (hs : list nat) (r : GameRoom) : GameRoom :=
  set_timers (fold_left (fun ts h => disarm h ts) hs (timers r)) r.

Definition string_of_nat (n : nat) : string :=
  NilEmpty.string_of_uint (Nat.to_uint n).

Definition skey {V : Type} (e : string * V) : string := fst e.

Definition getInfo (r : GameRoom) : Event :=
  room_updated (lobbyPlayers r) (gameStarted r) (inLoadoutPhase r).

(** ** GameRoom: lobby and loadout phase *)

Definition newGameRoom (code hostId : string) : GameRoom :=
  {| code := code; hostId := hostId; lobbyPlayers := []; players := [];
     projectiles := []; obstacles := []; playerInputs := [];
     gameStarted := false; inLoadoutPhase := false; gameLoop := None;
     tick := 0%Z; projectileIdCounter := 0%nat; lastShotTime := [];
     reloadTimers := []; spawnProtectionTimers := [];
     countdownStarted := false; countdownInterval := None; timers := [];
     nextTimer := 0%nat; emitted := [] |}.

Definition addPlayer (pid nm : string) (r : GameRoom) : GameRoom :=
  set_lobbyPlayers
    (insert RoomPlayer.id
       {| RoomPlayer.id := pid; RoomPlayer.name := nm;
          RoomPlayer.ready := false; RoomPlayer.loadoutReady := false;
          RoomPlayer.movement := WINGS; RoomPlayer.weapon := ROCKET |}
       (lobbyPlayers r)) r.

(** [if (m.has(pid)) clearTimeout(m.get(pid)!)]. *)
Definition clearMapped (pid : string) (m : list (string * nat)) (r : GameRoom)
    : GameRoom :=
  clearHandle (option_map snd (lookup skey pid m)) r.

Definition removePlayer (pid : string) (r : GameRoom) : GameRoom :=
  let r := set_lobbyPlayers (remove RoomPlayer.id pid (lobbyPlayers r)) r in
  let r := set_players (remove id pid (players r)) r in
  let r := set_playerInputs (remove skey pid (playerInputs r)) r in
  let r := set_reloadTimers (remove skey pid (reloadTimers r))
             (clearMapped pid (reloadTimers r) r) in
  set_spawnProtectionTimers (remove skey pid (spawnProtectionTimers r))
    (clearMapped pid (spawnProtectionTimers r) r).

Definition setPlayerReady (pid : string) (b : bool) (r : GameRoom) : GameRoom :=
  set_lobbyPlayers
    (adjust RoomPlayer.id pid
       (fun p =>
          {| RoomPlayer.id := RoomPlayer.id p; RoomPlayer.name := RoomPlayer.name p;
             RoomPlayer.ready := b;
             RoomPlayer.loadoutReady := RoomPlayer.loadoutReady p;
             RoomPlayer.movement := RoomPlayer.movement p;
             RoomPlayer.weapon := RoomPlayer.weapon p |})
       (lobbyPlayers r)) r.

Definition with_loadoutReady (b : bool) (p : RoomPlayer.t) : RoomPlayer.t :=
  {| RoomPlayer.id := RoomPlayer.id p; RoomPlayer.name := RoomPlayer.name p;
     RoomPlayer.ready := RoomPlayer.ready p; RoomPlayer.loadoutReady := b;
     RoomPlayer.movement := RoomPlayer.movement p;
     RoomPlayer.weapon := RoomPlayer.weapon p |}.

Definition startGameFromLoadout (r : GameRoom) : GameRoom :=
  if countdownStarted r then r
  else
    let r := set_gameStarted true (set_countdownStarted true r) in
    let r := emit (game_starting 3) r in
    let '(r, h) := armTimer (CountdownInterval 3) r in
    set_countdownInterval (Some h) r.

Definition checkAllLoadoutReady (r : GameRoom) : GameRoom :=
  if (List.length (lobbyPlayers r) <? 2)%nat then r
  else if forallb RoomPlayer.loadoutReady (lobbyPlayers r) && inLoadoutPhase r
       then startGameFromLoadout r
       else r.

Definition setPlayerLoadoutReady (pid : string) (b : bool) (r : GameRoom)
    : GameRoom :=
  let r := set_lobbyPlayers
             (adjust RoomPlayer.id pid (with_loadoutReady b) (lobbyPlayers r)) r in
  if b then checkAllLoadoutReady r else r.

Definition setPlayerLoadout (pid : string) (m : MovementType) (w : WeaponType)
    (r : GameRoom) : GameRoom :=
  let r := set_lobbyPlayers
             (adjust RoomPlayer.id pid
                (fun p =>
                   {| RoomPlayer.id := RoomPlayer.id p;
                      RoomPlayer.name := RoomPlayer.name p;
                      RoomPlayer.ready := RoomPlayer.ready p;
                      RoomPlayer.loadoutReady := RoomPlayer.loadoutReady p;
                      RoomPlayer.movement := m; RoomPlayer.weapon := w |})
                (lobbyPlayers r)) r in
  match lookup id pid (players r) with
  | None => r
  | Some _ =>
      let r := set_players
                 (adjust id pid
                    (fun p =>
                       {| id := id p; name := name p; x := x p; y := y p;
                          z := z p; velocityX := velocityX p;
                          velocityY := velocityY p; velocityZ := velocityZ p;
                          angle := angle p; health := health p;
                          maxHealth := maxHealth p;
                          fuel := MovementStats.fuel (MOVEMENT_STATS m);
                          maxFuel := MovementStats.fuel (MOVEMENT_STATS m);
                          currentArena := currentArena p; movement := m;
                          weapon := w; isInSpawn := isInSpawn p;
                          isDead := isDead p; kills := kills p;
                          deaths := deaths p; color := color p;
                          ammo := WeaponStats.clipSize (WEAPON_STATS w);
                          isReloading := false |})
                    (players r)) r in
      set_reloadTimers (remove skey pid (reloadTimers r))
        (clearMapped pid (reloadTimers r) r)
  end.

Definition initialPlayer (playerIndex : nat) (lobbyPlayer : RoomPlayer.t)
    : PlayerState :=
  let arena := ARENAS CENTER in
  let spawn := nth (playerIndex mod List.length (ArenaDefinition.spawnPoints arena))
                 (ArenaDefinition.spawnPoints arena) (0, 0) in
  let movementStats := MOVEMENT_STATS (RoomPlayer.movement lobbyPlayer) in
  {| id := RoomPlayer.id lobbyPlayer; name := RoomPlayer.name lobbyPlayer;
     x := fst spawn; y := snd spawn; z := DEFAULT_Z;
     velocityX := 0; velocityY := 0; velocityZ := 0; angle := 0;
     health := MAX_HEALTH; maxHealth := MAX_HEALTH;
     fuel := MovementStats.fuel movementStats;
     maxFuel := MovementStats.fuel movementStats;
     currentArena := CENTER; movement := RoomPlayer.movement lobbyPlayer;
     weapon := RoomPlayer.weapon lobbyPlayer; isInSpawn := false;
     isDead := false; kills := 0%Z; deaths := 0%Z;
     color := nth_error PLAYER_COLORS playerIndex;
     ammo := WeaponStats.clipSize (WEAPON_STATS (RoomPlayer.weapon lobbyPlayer));
     isReloading := false |}.

Fixpoint initializePlayersLoop (playerIndex : nat) (lobby : list RoomPlayer.t)
    (ps : list PlayerState) : list PlayerState :=
  match lobby with
  | [] => ps
  | lobbyPlayer :: rest =>
      initializePlayersLoop (S playerIndex) rest
        (insert id (initialPlayer playerIndex lobbyPlayer) ps)
  end.

Definition obstacleOfDef (o : ObstacleDef.t) : BreakableObstacle.t :=
  {| BreakableObstacle.id := ObstacleDef.id o;
     BreakableObstacle.x := ObstacleDef.x o;
     BreakableObstacle.y := ObstacleDef.y o;
     BreakableObstacle.width := ObstacleDef.width o;
     BreakableObstacle.height := ObstacleDef.height o;
     BreakableObstacle.health := ObstacleDef.health o;
     BreakableObstacle.maxHealth := ObstacleDef.health o |}.

Definition initializePlayers (r : GameRoom) : GameRoom :=
  let r := set_players
             (initializePlayersLoop 0 (lobbyPlayers r) (players r)) r in
  set_obstacles
    (fold_left (fun m o => insert BreakableObstacle.id (obstacleOfDef o) m)
       (ArenaDefinition.breakableObstacles (ARENAS CENTER)) []) r.

Definition startGame (r : GameRoom) : bool * GameRoom :=
  if gameStarted r || inLoadoutPhase r then (false, r)
  else if negb (forallb RoomPlayer.ready (lobbyPlayers r)) then (false, r)
  else if (List.length (lobbyPlayers r) <? 2)%nat then (false, r)
  else
    let r := set_inLoadoutPhase true r in
    let r := set_lobbyPlayers (map (with_loadoutReady false) (lobbyPlayers r)) r in
    let r := initializePlayers r in
    let r := emit loadout_phase r in
    (true, emit (getInfo r) r).

Definition handleInput (playerId : string) (input : InputState.t) (r : GameRoom)
    : GameRoom :=
  set_playerInputs (insert skey (playerId, input) (playerInputs r)) r.

(** ** GameRoom: spawn protection and reload *)

Definition grantSpawnProtection (player : PlayerState) (r : GameRoom) : GameRoom :=
  let r := set_players (adjust id (id player) (with_isInSpawn true) (players r)) r in
  let r := clearMapped (id player) (spawnProtectionTimers r) r in
  let '(r, h) := armTimer (SpawnProtectionTimeout (id player)) r in
  set_spawnProtectionTimers
    (insert skey (id player, h) (spawnProtectionTimers r)) r.

Definition spawnProtectionCallback (playerId : string) (r : GameRoom) : GameRoom :=
  let r := set_players (adjust id playerId (with_isInSpawn false) (players r)) r in
  set_spawnProtectionTimers (remove skey playerId (spawnProtectionTimers r)) r.

Definition startReload (player : PlayerState) (r : GameRoom) : GameRoom :=
  let r := set_players
             (adjust id (id player) (with_isReloading true) (players r)) r in
  let weaponStats := WEAPON_STATS (weapon player) in
  let reloadDuration := (WeaponStats.reloadTime weaponStats / TICK_RATE) * 1000 in
  let '(r, h) := armTimer (ReloadTimeout (id player) (weapon player) reloadDuration) r in
  set_reloadTimers (insert skey (id player, h) (reloadTimers r)) r.

(** The callback [startReload] arms.  [player] is the object the closure
    captured, found again under its id. *)
Definition reloadCallback (playerId : string) (w : WeaponType) (r : GameRoom)
    : GameRoom :=
  match lookup id playerId (players r) with
  | Some player =>
      if isDead player then r
      else
        let r := set_players
                   (adjust id playerId
                      (fun p => with_ammo (WeaponStats.clipSize (WEAPON_STATS w))
                                  (with_isReloading false p))
                      (players r)) r in
        set_reloadTimers (remove skey playerId (reloadTimers r)) r
  | None => set_reloadTimers (remove skey playerId (reloadTimers r)) r
  end.

Definition manualReload (playerId : string) (r : GameRoom) : GameRoom :=
  match lookup id playerId (players r) with
  | None => r
  | Some player =>
      if isDead player || isReloading player then r
      else if (WeaponStats.clipSize (WEAPON_STATS (weapon player)) <=? ammo player)%Z
           then r
           else startReload player r
  end.

(** ** GameRoom: damage and end of match *)

Definition endGame (winnerId : string) (r : GameRoom) : GameRoom :=
  let r := set_gameLoop None (clearHandle (gameLoop r) r) in
  let scores := map (fun p => (id p, (kills p, deaths p))) (players r) in
  let r := emit (game_ended winnerId scores) r in
  let r := set_gameStarted false r in
  let r := set_inLoadoutPhase false r in
  let r := set_countdownStarted false r in
  let r := set_players [] r in
  let r := set_projectiles [] r in
  let r := set_obstacles [] r in
  let r := set_playerInputs [] r in
  let r := set_lastShotTime [] r in
  let r := set_reloadTimers [] (clearTimers (map snd (reloadTimers r)) r) in
  let r := set_spawnProtectionTimers []
             (clearTimers (map snd (spawnProtectionTimers r)) r) in
  let r := set_lobbyPlayers
             (map (fun p =>
                     {| RoomPlayer.id := RoomPlayer.id p;
                        RoomPlayer.name := RoomPlayer.name p;
                        RoomPlayer.ready := false;
                        RoomPlayer.loadoutReady := false;
                        RoomPlayer.movement := RoomPlayer.movement p;
                        RoomPlayer.weapon := RoomPlayer.weapon p |})
                (lobbyPlayers r)) r in
  fst (armTimer RoomUpdatedTimeout r).

(** [player] is the object to damage; it is mutated where the map holds it,
    and so is the source, if the map holds one ([if (source) source.kills++]). *)
Definition damagePlayer (player : PlayerState) (damage : Q) (sourceId : string)
    (r : GameRoom) : GameRoom :=
  let newHealth := health player - damage in
  if Qleb newHealth 0 then
    let r := set_players
               (adjust id (id player)
                  (fun p => with_deaths (deaths p + 1)
                              (with_isDead true (with_health 0 p)))
                  (players r)) r in
    let r := set_players
               (adjust id sourceId (fun s => with_kills (kills s + 1) s)
                  (players r)) r in
    let r := emit (game_kill sourceId (id player)) r in
    match lookup id sourceId (players r) with
    | Some source =>
        if (KILL_LIMIT <=? kills source)%Z then endGame (id source) r else r
    | None => r
    end
  else
    set_players (adjust id (id player) (with_health newHealth) (players r)) r.

(** ** GameRoom: hitscan *)

(** The test [t !== null && t > 0 && t < closestObsDist], with the value to
    store when it passes.  [NaN] and [-Infinity] fail [t > 0]; [+Infinity]
    fails [t < closestObsDist]. *)
Definition rayBlocks (t : option num) (closestObsDist : Q) : option Q :=
  match t with
  | Some (Fin q) => if Qgtb q 0 && Qltb q closestObsDist then Some q else None
  | _ => None
  end.

Definition hitscanWalls (startX startY dirX dirY : Q) (walls : list Rect.t)
    (st : Q * option string) : Q * option string :=
  fold_left
    (fun st wall =>
       match rayBlocks (rayRectIntersect startX startY dirX dirY wall) (fst st) with
       | Some t => (t, None)
       | None => st
       end)
    walls st.

Definition hitscanObstacles (startX startY dirX dirY : Q)
    (obs : list BreakableObstacle.t) (st : Q * option string)
    : Q * option string :=
  fold_left
    (fun st o =>
       match rayBlocks
               (rayRectIntersect startX startY dirX dirY (rectOfObstacle o))
               (fst st) with
       | Some t => (t, Some (BreakableObstacle.id o))
       | None => st
       end)
    obs st.

(** The eligibility tests shared by hitscan and projectile collision:
    not dead, same arena, not under spawn protection, altitude within
    [Z_HIT_TOLERANCE]. *)
Definition eligible (target : PlayerState) (arena : ArenaId) (z0 : Q) : bool :=
  negb (isDead target)
  && ArenaId_eqb (currentArena target) arena
  && negb (isInSpawn target)
  && negb (Qgtb (Qabs (z target - z0)) Z_HIT_TOLERANCE).

(** Ray-circle intersection: the near root, when the discriminant allows. *)
Definition rayCircle (Math : JSMath.t) (startX startY dirX dirY : Q)
    (target : PlayerState) : option Q :=
  let dx := x target - startX in
  let dy := y target - startY in
  let a := dirX * dirX + dirY * dirY in
  let b := 2 * (dirX * (- dx) + dirY * (- dy)) in
  let c := dx * dx + dy * dy - PLAYER_RADIUS * PLAYER_RADIUS in
  let discriminant := b * b - 4 * a * c in
  if Qgeb discriminant 0
  then Some ((- b - JSMath.sqrt Math discriminant) / (2 * a))
  else None.

(** One turn of "Find closest player hit", on the pair
    [(closestHit, closestPlayerDist)]. *)
Definition hitscanPlayerStep (Math : JSMath.t) (player : PlayerState)
    (startX startY dirX dirY : Q) (st : option PlayerState * Q)
    (target : PlayerState) : option PlayerState * Q :=
  if String.eqb (id target) (id player) then st
  else if negb (eligible target (currentArena player) (z player)) then st
  else match rayCircle Math startX startY dirX dirY target with
       | Some t => if Qgtb t 0 && Qltb t (snd st) then (Some target, t) else st
       | None => st
       end.

Definition hitscanPlayers (Math : JSMath.t) (player : PlayerState)
    (startX startY dirX dirY : Q) (targets : list PlayerState)
    (st : option PlayerState * Q) : option PlayerState * Q :=
  fold_left (hitscanPlayerStep Math player startX startY dirX dirY) targets st.

Definition damageObstacle (obsId : string) (damage : Q)
    (obs : list BreakableObstacle.t) : list BreakableObstacle.t :=
  match lookup BreakableObstacle.id obsId obs with
  | Some o =>
      if Qleb (BreakableObstacle.health o - damage) 0
      then remove BreakableObstacle.id obsId obs
      else adjust BreakableObstacle.id obsId
             (fun o =>
                {| BreakableObstacle.id := BreakableObstacle.id o;
                   BreakableObstacle.x := BreakableObstacle.x o;
                   BreakableObstacle.y := BreakableObstacle.y o;
                   BreakableObstacle.width := BreakableObstacle.width o;
                   BreakableObstacle.height := BreakableObstacle.height o;
                   BreakableObstacle.health := BreakableObstacle.health o - damage;
                   BreakableObstacle.maxHealth := BreakableObstacle.maxHealth o |})
             obs
  | None => obs
  end.

Definition handleHitscan (Math : JSMath.t) (player : PlayerState)
    (angle damage range : Q) (r : GameRoom) : GameRoom :=
  let startX := x player in
  let startY := y player in
  let dirX := JSMath.cos Math angle in
  let dirY := JSMath.sin Math angle in
  let arena := ARENAS (currentArena player) in
  let st := hitscanWalls startX startY dirX dirY (ArenaDefinition.walls arena)
              (range, None) in
  let st := hitscanObstacles startX startY dirX dirY (obstacles r) st in
  let closestObsDist := fst st in
  let hitBreakableId := snd st in
  let hit := hitscanPlayers Math player startX startY dirX dirY (players r)
               (None, closestObsDist) in
  let closestHit := fst hit in
  let closestPlayerDist := snd hit in
  let endDist := match closestHit with
                 | Some _ => closestPlayerDist
                 | None => closestObsDist
                 end in
  let endX := startX + dirX * endDist in
  let endY := startY + dirY * endDist in
  let r := emit (game_hitscan (id player) startX startY endX endY) r in
  match closestHit with
  | Some target =>
      let r := damagePlayer target damage (id player) r in
      emit (game_hit (id target) damage (id player)) r
  | None =>
      match hitBreakableId with
      | Some obsId =>
          if String.eqb obsId "" then r
          else set_obstacles (damageObstacle obsId damage (obstacles r)) r
      | None => r
      end
  end.

(** ** GameRoom: shooting *)

Definition countOwned (owner : string) (prs : list ProjectileState.t) : nat :=
  List.length
    (filter (fun p => String.eqb (ProjectileState.ownerId p) owner) prs).

(** [now] is what [Date.now()] returns and [rnd] what [Math.random()]
    returns during the call. *)
Definition tryShoot (Math : JSMath.t) (now rnd : Q) (player : PlayerState)
    (r : GameRoom) : GameRoom :=
  if (ammo player <=? 0)%Z || isReloading player then r
  else
    let weaponStats := WEAPON_STATS (weapon player) in
    let lastShot := match lookup skey (id player) (lastShotTime r) with
                    | Some (_, t) => t
                    | None => 0
                    end in
    let cooldown := 1000 / WeaponStats.fireRate weaponStats in
    if Qltb (now - lastShot) cooldown then r
    else
      let playerProjectileCount := countOwned (id player) (projectiles r) in
      if (MAX_PROJECTILES_PER_PLAYER <=? playerProjectileCount)%nat then r
      else
        let r := set_lastShotTime
                   (insert skey (id player, now) (lastShotTime r)) r in
        let r := set_players
                   (adjust id (id player) (fun p => with_ammo (ammo p - 1) p)
                      (players r)) r in
        let player := with_ammo (ammo player - 1) player in
        let r := if (ammo player <=? 0)%Z then startReload player r else r in
        let spread := (rnd - 0.5) * WeaponStats.spread weaponStats in
        let angle := angle player + spread in
        if WeaponStats.isHitscan weaponStats then
          handleHitscan Math player angle (WeaponStats.damage weaponStats)
            (WeaponStats.range weaponStats) r
        else
          let projectile :=
            {| ProjectileState.id :=
                 ("proj_" ++ string_of_nat (projectileIdCounter r))%string;
               ProjectileState.ownerId := id player;
               ProjectileState.x :=
                 x player + JSMath.cos Math angle * (PLAYER_RADIUS + 5);
               ProjectileState.y :=
                 y player + JSMath.sin Math angle * (PLAYER_RADIUS + 5);
               ProjectileState.z := z player;
               ProjectileState.angle := angle;
               ProjectileState.speed := WeaponStats.projectileSpeed weaponStats;
               ProjectileState.damage := WeaponStats.damage weaponStats;
               ProjectileState.type := weapon player;
               ProjectileState.arena := currentArena player;
               ProjectileState.createdAt := now |} in
          let r := set_projectileIdCounter (S (projectileIdCounter r)) r in
          set_projectiles (insert ProjectileState.id projectile (projectiles r)) r.

(** ** GameRoom: the per-tick update *)

Definition targetVelocity (Math : JSMath.t) (stats : MovementStats.t)
    (input : InputState.t) : Q * Q :=
  let targetVelX := 0 in
  let targetVelY := 0 in
  let targetVelX := if InputState.left input
                    then targetVelX - MovementStats.speed stats else targetVelX in
  let targetVelX := if InputState.right input
                    then targetVelX + MovementStats.speed stats else targetVelX in
  let targetVelY := if InputState.up input
                    then targetVelY - MovementStats.speed stats else targetVelY in
  let targetVelY := if InputState.down input
                    then targetVelY + MovementStats.speed stats else targetVelY in
  if Qneqb targetVelX 0 && Qneqb targetVelY 0 then
    let factor := 1 / JSMath.sqrt Math 2 in
    (targetVelX * factor, targetVelY * factor)
  else (targetVelX, targetVelY).

(** "Handle fuel for jetpacks": the new fuel and whether the ascent is
    still wanted. *)
Definition fuelStep (stats : MovementStats.t) (isGrounded jump : bool) (fuel : Q)
    : Q * bool :=
  if Qgtb (MovementStats.fuel stats) 0 then
    let '(fuel, wantsToAscend) :=
      if jump && Qgtb fuel 0
      then (Qmax 0 (fuel - MovementStats.fuelDrain stats), jump)
      else if jump && Qleb fuel 0 then (fuel, false)
      else (fuel, jump) in
    let fuel := if isGrounded && negb wantsToAscend
                then Qmin (MovementStats.fuel stats)
                       (fuel + MovementStats.fuelRegen stats)
                else fuel in
    (fuel, wantsToAscend)
  else (fuel, jump).

(** "Calculate vertical velocity". *)
Definition verticalVelocity (stats : MovementStats.t) (m : MovementType)
    (wantsToAscend wantsToDescend : bool) (velX velY : Q) : Q :=
  if wantsToAscend then MovementStats.zClimbRate stats
  else if wantsToDescend then - MovementStats.zClimbRate stats
  else if MovementStats.canHover stats then 0
  else
    let isMoving := Qgtb (Qabs velX) 0.5 || Qgtb (Qabs velY) 0.5 in
    let fallRate :=
      if MovementType_eqb m WINGS
      then (if isMoving then MovementStats.zFallRate stats else GRAVITY)
      else MovementStats.zFallRate stats in
    - fallRate.

(** "Wall collision": push the player out of each wall in turn. *)
Definition pushOutOfWalls (Math : JSMath.t) (walls : list Rect.t) (pos : Q * Q)
    : Q * Q :=
  fold_left
    (fun pos wall =>
       if rectCircleCollision wall (fst pos) (snd pos) PLAYER_RADIUS then
         let centerX := Rect.x wall + Rect.width wall / 2 in
         let centerY := Rect.y wall + Rect.height wall / 2 in
         let angle := JSMath.atan2 Math (snd pos - centerY) (fst pos - centerX) in
         (centerX + JSMath.cos Math angle * (Rect.width wall / 2 + PLAYER_RADIUS + 1),
          centerY + JSMath.sin Math angle * (Rect.height wall / 2 + PLAYER_RADIUS + 1))
       else pos)
    walls pos.

(** [updatePlayer] up to, and without, "Handle shooting": the player object
    after the movement part of the tick. *)
Definition movePlayer (Math : JSMath.t) (input : InputState.t)
    (player : PlayerState) : PlayerState :=
  let stats := MOVEMENT_STATS (movement player) in
  let target := targetVelocity Math stats input in
  let velX := velocityX player
              + (fst target - velocityX player) * MovementStats.acceleration stats in
  let velY := velocityY player
              + (snd target - velocityY player) * MovementStats.acceleration stats in
  let velX := velX * MovementStats.friction stats in
  let velY := velY * MovementStats.friction stats in
  let isGrounded := Qleb (z player) (MIN_Z + 5) in
  let fs := fuelStep stats isGrounded (InputState.jump input) (fuel player) in
  let velZ := verticalVelocity stats (movement player) (snd fs)
                (InputState.crouch input) velX velY in
  let posX := x player + velX in
  let posY := y player + velY in
  let posZ := Qmax MIN_Z (Qmin MAX_Z (z player + velZ)) in
  let arena := ARENAS (currentArena player) in
  let posX := Qmax PLAYER_RADIUS
                (Qmin (ArenaDefinition.width arena - PLAYER_RADIUS) posX) in
  let posY := Qmax PLAYER_RADIUS
                (Qmin (ArenaDefinition.height arena - PLAYER_RADIUS) posY) in
  let pos := pushOutOfWalls Math (ArenaDefinition.walls arena) (posX, posY) in
  {| id := id player; name := name player; x := fst pos; y := snd pos;
     z := posZ; velocityX := velX; velocityY := velY; velocityZ := velZ;
     angle := InputState.mouseAngle input; health := health player;
     maxHealth := maxHealth player; fuel := fst fs; maxFuel := maxFuel player;
     currentArena := currentArena player; movement := movement player;
     weapon := weapon player; isInSpawn := isInSpawn player;
     isDead := isDead player; kills := kills player; deaths := deaths player;
     color := color player; ammo := ammo player;
     isReloading := isReloading player |}.

Definition updatePlayer (Math : JSMath.t) (now rnd : Q) (player : PlayerState)
    (input : InputState.t) (r : GameRoom) : GameRoom :=
  let r := set_players
             (adjust id (id player) (movePlayer Math input) (players r)) r in
  if InputState.shooting input
  then tryShoot Math now rnd (movePlayer Math input player) r
  else r.

(** "Update all players".  The loop runs over the map while its body may
    clear it (a kill that ends the match): an entry that is gone when its
    turn comes is not visited. *)
Definition updatePlayers (Math : JSMath.t) (now : Q) (rnd : string -> Q)
    (r : GameRoom) : GameRoom :=
  fold_left
    (fun r pid =>
       match lookup id pid (players r) with
       | None => r
       | Some player =>
           if isDead player then r
           else match lookup skey pid (playerInputs r) with
                | Some (_, input) => updatePlayer Math now (rnd pid) player input r
                | None => r
                end
       end)
    (keys id (players r)) r.

Definition moveProjectile (Math : JSMath.t) (proj : ProjectileState.t)
    : ProjectileState.t :=
  {| ProjectileState.id := ProjectileState.id proj;
     ProjectileState.ownerId := ProjectileState.ownerId proj;
     ProjectileState.x :=
       ProjectileState.x proj
       + JSMath.cos Math (ProjectileState.angle proj) * ProjectileState.speed proj;
     ProjectileState.y :=
       ProjectileState.y proj
       + JSMath.sin Math (ProjectileState.angle proj) * ProjectileState.speed proj;
     ProjectileState.z := ProjectileState.z proj;
     ProjectileState.angle := ProjectileState.angle proj;
     ProjectileState.speed := ProjectileState.speed proj;
     ProjectileState.damage := ProjectileState.damage proj;
     ProjectileState.type := ProjectileState.type proj;
     ProjectileState.arena := ProjectileState.arena proj;
     ProjectileState.createdAt := ProjectileState.createdAt proj |}.

Definition inObstacle (proj : ProjectileState.t) (o : BreakableObstacle.t) : bool :=
  pointInRect (ProjectileState.x proj) (ProjectileState.y proj)
    (BreakableObstacle.x o) (BreakableObstacle.y o)
    (BreakableObstacle.width o) (BreakableObstacle.height o).

(** The body of [updateProjectiles], over the projectiles in map order,
    threading the obstacles; it returns the projectiles that stay. *)
Fixpoint updateProjectilesLoop (Math : JSMath.t) (now : Q)
    (prs : list ProjectileState.t) (obs : list BreakableObstacle.t)
    : list ProjectileState.t * list BreakableObstacle.t :=
  match prs with
  | [] => ([], obs)
  | proj :: rest =>
      let proj := moveProjectile Math proj in
      let arena := ARENAS (ProjectileState.arena proj) in
      let age := now - ProjectileState.createdAt proj in
      let maxAge := 5000 in
      if Qltb (ProjectileState.x proj) 0
         || Qgtb (ProjectileState.x proj) (ArenaDefinition.width arena)
         || Qltb (ProjectileState.y proj) 0
         || Qgtb (ProjectileState.y proj) (ArenaDefinition.height arena)
         || Qgtb age maxAge
      then updateProjectilesLoop Math now rest obs
      else if existsb
                (fun wall =>
                   pointInRect (ProjectileState.x proj) (ProjectileState.y proj)
                     (Rect.x wall) (Rect.y wall) (Rect.width wall) (Rect.height wall))
                (ArenaDefinition.walls arena)
      then updateProjectilesLoop Math now rest obs
      else match find (inObstacle proj) obs with
           | Some o =>
               updateProjectilesLoop Math now rest
                 (damageObstacle (BreakableObstacle.id o)
                    (ProjectileState.damage proj) obs)
           | None =>
               let res := updateProjectilesLoop Math now rest obs in
               (proj :: fst res, snd res)
           end
  end.

Definition updateProjectiles (Math : JSMath.t) (now : Q) (r : GameRoom)
    : GameRoom :=
  let res := updateProjectilesLoop Math now (projectiles r) (obstacles r) in
  set_obstacles (snd res) (set_projectiles (fst res) r).

(** The inner loop of [checkCollisions] stops at the first player that
    passes every test. *)
Definition collides (Math : JSMath.t) (proj : ProjectileState.t)
    (player : PlayerState) : bool :=
  negb (String.eqb (id player) (ProjectileState.ownerId proj))
  && eligible player (ProjectileState.arena proj) (ProjectileState.z proj)
  && (let dx := x player - ProjectileState.x proj in
      let dy := y player - ProjectileState.y proj in
      let dist := JSMath.sqrt Math (dx * dx + dy * dy) in
      Qltb dist PLAYER_RADIUS).

Definition checkCollisions (Math : JSMath.t) (r : GameRoom) : GameRoom :=
  fold_left
    (fun r projId =>
       match lookup ProjectileState.id projId (projectiles r) with
       | None => r
       | Some proj =>
           match find (collides Math proj) (players r) with
           | Some player =>
               let r := damagePlayer player (ProjectileState.damage proj)
                          (ProjectileState.ownerId proj) r in
               let r := emit (game_hit (id player) (ProjectileState.damage proj)
                                (ProjectileState.ownerId proj)) r in
               set_projectiles
                 (remove ProjectileState.id projId (projectiles r)) r
           | None => r
           end
       end)
    (keys ProjectileState.id (projectiles r)) r.

Definition update (Math : JSMath.t) (now : Q) (rnd : string -> Q) (r : GameRoom)
    : GameRoom :=
  checkCollisions Math (updateProjectiles Math now (updatePlayers Math now rnd r)).

Definition broadcastState (now : Q) (r : GameRoom) : GameRoom :=
  emit (game_state (players r) (projectiles r) (obstacles r) now (tick r)) r.

(** ** GameRoom: respawn, game loop and timers *)

Fixpoint indexOf (k : string) (l : list string) : nat :=
  match l with
  | [] => 0
  | k' :: l' => if String.eqb k' k then 0%nat else S (indexOf k l')
  end.

Definition respawned (spawn : Q * Q) (p : PlayerState) : PlayerState :=
  {| id := id p; name := name p; x := fst spawn; y := snd spawn; z := DEFAULT_Z;
     velocityX := 0; velocityY := 0; velocityZ := 0; angle := angle p;
     health := MAX_HEALTH; maxHealth := maxHealth p; fuel := maxFuel p;
     maxFuel := maxFuel p; currentArena := CENTER; movement := movement p;
     weapon := weapon p; isInSpawn := isInSpawn p; isDead := false;
     kills := kills p; deaths := deaths p; color := color p;
     ammo := WeaponStats.clipSize (WEAPON_STATS (weapon p));
     isReloading := false |}.

Definition respawnPlayer (playerId : string) (r : GameRoom) : GameRoom :=
  match lookup id playerId (players r) with
  | None => r
  | Some player =>
      if negb (isDead player) then r
      else
        let playerIndex := indexOf playerId (keys id (players r)) in
        let arena := ARENAS CENTER in
        let spawn :=
          nth (playerIndex mod List.length (ArenaDefinition.spawnPoints arena))
            (ArenaDefinition.spawnPoints arena) (0, 0) in
        let r := set_players
                   (adjust id playerId (respawned spawn) (players r)) r in
        let r := set_reloadTimers (remove skey playerId (reloadTimers r))
                   (clearMapped playerId (reloadTimers r) r) in
        grantSpawnProtection player r
  end.

Definition startGameLoop (r : GameRoom) : GameRoom :=
  let r := fold_left (fun r player => grantSpawnProtection player r) (players r) r in
  let '(r, h) := armTimer GameLoopInterval r in
  set_gameLoop (Some h) r.

(** The body of the game-loop interval: [update(); broadcastState(); tick++]. *)
Definition gameLoopCallback (Math : JSMath.t) (now : Q) (rnd : string -> Q)
    (r : GameRoom) : GameRoom :=
  let r := update Math now rnd r in
  let r := broadcastState now r in
  set_tick (tick r + 1)%Z r.

(** The body of the countdown interval armed under handle [h], whose
    closure holds [countdown]. *)
Definition countdownCallback (h : nat) (countdown : Z) (r : GameRoom) : GameRoom :=
  let countdown := (countdown - 1)%Z in
  let r := set_timers
             (map (fun e => if Nat.eqb (fst e) h
                            then (h, CountdownInterval countdown) else e)
                (timers r)) r in
  if (0 <? countdown)%Z then emit (game_starting countdown) r
  else
    let r := clearHandle (countdownInterval r) r in
    let r := set_countdownInterval None r in
    let r := emit game_started r in
    startGameLoop r.

Definition destroy (r : GameRoom) : GameRoom :=
  let r := set_gameLoop None (clearHandle (gameLoop r) r) in
  let r := set_countdownInterval None (clearHandle (countdownInterval r) r) in
  let r := set_reloadTimers [] (clearTimers (map snd (reloadTimers r)) r) in
  let r := set_spawnProtectionTimers []
             (clearTimers (map snd (spawnProtectionTimers r)) r) in
  let r := set_players [] r in
  let r := set_projectiles [] r in
  let r := set_obstacles [] r in
  let r := set_playerInputs [] r in
  set_lobbyPlayers [] r.

(** The event loop runs the callback armed under [h], if any.  A timeout is
    disarmed as it runs; an interval stays armed. *)
Definition fire (Math : JSMath.t) (h : nat) (now : Q) (rnd : string -> Q)
    (r : GameRoom) : GameRoom :=
  match find (fun e => Nat.eqb (fst e) h) (timers r) with
  | Some (_, GameLoopInterval) => gameLoopCallback Math now rnd r
  | Some (_, CountdownInterval countdown) => countdownCallback h countdown r
  | Some (_, ReloadTimeout playerId w _) =>
      reloadCallback playerId w (clearTimer h r)
  | Some (_, SpawnProtectionTimeout playerId) =>
      spawnProtectionCallback playerId (clearTimer h r)
  | Some (_, RoomUpdatedTimeout) =>
      let r := clearTimer h r in emit (getInfo r) r
  | None => r
  end.

(** ** The room as a machine: one operation per public method or timer *)

Inductive Op :=
| OpAddPlayer (pid nm : string)
| OpRemovePlayer (pid : string)
| OpSetPlayerReady (pid : string) (b : bool)
| OpSetPlayerLoadoutReady (pid : string) (b : bool)
| OpSetPlayerLoadout (pid : string) (m : MovementType) (w : WeaponType)
| OpStartGame
| OpHandleInput (pid : string) (input : InputState.t)
| OpManualReload (pid : string)
| OpRespawnPlayer (pid : string)
| OpFire (h : nat) (now : Q) (rnd : string -> Q)
| OpDestroy.

Definition step (Math : JSMath.t) (r : GameRoom) (op : Op) : GameRoom :=
  match op with
  | OpAddPlayer pid nm => addPlayer pid nm r
  | OpRemovePlayer pid => removePlayer pid r
  | OpSetPlayerReady pid b => setPlayerReady pid b r
  | OpSetPlayerLoadoutReady pid b => setPlayerLoadoutReady pid b r
  | OpSetPlayerLoadout pid m w => setPlayerLoadout pid m w r
  | OpStartGame => snd (startGame r)
  | OpHandleInput pid input => handleInput pid input r
  | OpManualReload pid => manualReload pid r
  | OpRespawnPlayer pid => respawnPlayer pid r
  | OpFire h now rnd => fire Math h now rnd r
  | OpDestroy => destroy r
  end.

Definition run (Math : JSMath.t) (ops : list Op) (r : GameRoom) : GameRoom :=
  fold_left (step Math) ops r.

(** ** A rational math library for the examples

    Exact on the arguments the examples use: [cos 0], [sin 0], [atan2 0 x]
    for positive [x], and square roots of squares; low-order approximations
    elsewhere. *)

Definition sqrtQ (q : Q) : Q :=
  Z.sqrt (Qnum q * Zpos (Qden q)) # Qden q.

Definition exampleMath : JSMath.t :=
  {| JSMath.cos := fun a => 1 - a * a / 2;
     JSMath.sin := fun a => a;
     JSMath.sqrt := sqrtQ;
     JSMath.atan2 := fun b a => if Qltb 0 a then b / a else 0 |}.

(** ** Inputs, players and rooms for the examples *)

Definition mkInput (jump crouch shooting : bool) (mouseAngle : Q) : InputState.t :=
  {| InputState.up := false; InputState.down := false;
     InputState.left := false; InputState.right := false;
     InputState.jump := jump; InputState.crouch := crouch;
     InputState.shooting := shooting; InputState.mouseAngle := mouseAngle;
     InputState.timestamp := 0; InputState.sequence := 0%Z |}.

(** The input record with every flag false. *)
Definition idleInput : InputState.t := mkInput false false false 0.

Definition mkPlayer (pid : string) (px py pz : Q) (m : MovementType)
    (w : WeaponType) (fl : Q) (n : Z) : PlayerState :=
  {| id := pid; name := pid; x := px; y := py; z := pz;
     velocityX := 0; velocityY := 0; velocityZ := 0; angle := 0;
     health := MAX_HEALTH; maxHealth := MAX_HEALTH; fuel := fl;
     maxFuel := MovementStats.fuel (MOVEMENT_STATS m); currentArena := CENTER;
     movement := m; weapon := w; isInSpawn := false; isDead := false;
     kills := 0%Z; deaths := 0%Z; color := None; ammo := n;
     isReloading := false |}.

(** Two players join, ready up, pick the default loadout and the countdown
    runs out: the match has just started and no input has arrived. *)
Definition matchStartOps : list Op :=
  [OpAddPlayer "a" "Ann"; OpAddPlayer "b" "Bob";
   OpSetPlayerReady "a" true; OpSetPlayerReady "b" true; OpStartGame;
   OpSetPlayerLoadoutReady "a" true; OpSetPlayerLoadoutReady "b" true;
   OpFire 0 0 (fun _ => 0); OpFire 0 0 (fun _ => 0); OpFire 0 0 (fun _ => 0)].

Definition matchStart : GameRoom :=
  run exampleMath matchStartOps (newGameRoom "ROOM" "a").

(** A room in the middle of a match holding the given players and
    projectiles, with the game loop armed under handle 0. *)
Definition arenaRoom (ps : list PlayerState) (prs : list ProjectileState.t)
    : GameRoom :=
  {| code := "ROOM"; hostId := "a"; lobbyPlayers := []; players := ps;
     projectiles := prs; obstacles := []; playerInputs := [];
     gameStarted := true; inLoadoutPhase := true; gameLoop := Some 0%nat;
     tick := 0%Z; projectileIdCounter := 0%nat; lastShotTime := [];
     reloadTimers := []; spawnProtectionTimers := [];
     countdownStarted := true; countdownInterval := None;
     timers := [(0%nat, GameLoopInterval)]; nextTimer := 1%nat;
     emitted := [] |}.

(** The occlusion scenario: the shooter stands 100 left of the central wall
    of the arena and aims right; the other player stands 300 away, behind
    the wall, at the same altitude. *)
Definition occlusionShooter : PlayerState :=
  mkPlayer "a" 362 384 20 WINGS SNIPER 0 1.

Definition occlusionRoom : GameRoom :=
  arenaRoom [occlusionShooter; mkPlayer "b" 662 384 20 WINGS ROCKET 0 4] [].

(** A sniper under spawn protection aims at an unprotected player 200 away
    in the open, and its shoot input has arrived. *)
Definition protectedSniper : PlayerState :=
  with_isInSpawn true (mkPlayer "s" 100 100 20 WINGS SNIPER 0 1).

Definition protectedSniperRoom : GameRoom :=
  handleInput "s" (mkInput false false true 0)
    (arenaRoom [protectedSniper; mkPlayer "t" 300 100 20 WINGS ROCKET 0 4] []).

(** A dead player whose rocket is still in flight, one tick away from a
    player with 50 health left. *)
Definition deadOwner : PlayerState :=
  with_isDead true (with_health 0 (mkPlayer "d" 100 100 20 WINGS ROCKET 0 3)).

Definition rocketInFlight : ProjectileState.t :=
  {| ProjectileState.id := "proj_0"; ProjectileState.ownerId := "d";
     ProjectileState.x := 488; ProjectileState.y := 100; ProjectileState.z := 20;
     ProjectileState.angle := 0; ProjectileState.speed := 12;
     ProjectileState.damage := 50; ProjectileState.type := ROCKET;
     ProjectileState.arena := CENTER; ProjectileState.createdAt := 0 |}.

Definition deadOwnerRoom : GameRoom :=
  arenaRoom [deadOwner; with_health 50 (mkPlayer "t" 500 100 20 WINGS ROCKET 0 4)]
    [rocketInFlight].

(** Match point: the sniper has 10 kills and the other player is alive. *)
Definition matchPointSniper : PlayerState :=
  with_kills 10 (mkPlayer "s" 100 100 20 WINGS SNIPER 0 1).

Definition matchPointTarget : PlayerState :=
  mkPlayer "t" 300 100 20 WINGS ROCKET 0 4.

Definition matchPointRoom : GameRoom :=
  arenaRoom [matchPointSniper; matchPointTarget] [].

(** A player that died while reloading, its reload timer still armed under
    handle 5. *)
Definition diedReloading : PlayerState :=
  with_isDead true
    (with_health 0
       (with_isReloading true (mkPlayer "d" 100 100 20 WINGS ROCKET 0 0))).

Definition diedReloadingRoom : GameRoom :=
  set_reloadTimers [("d", 5%nat)]
    (set_timers [(0%nat, GameLoopInterval); (5%nat, ReloadTimeout "d" ROCKET 2500)]
       (set_nextTimer 6%nat
          (arenaRoom [diedReloading; mkPlayer "t" 300 100 20 WINGS ROCKET 0 4] []))).

(** A player that owns as many live projectiles as the cap allows. *)
Definition cappedShooter : PlayerState :=
  mkPlayer "a" 100 100 20 WINGS MACHINE_GUN 0 30.

Definition bulletNo (n : nat) : ProjectileState.t :=
  {| ProjectileState.id := ("proj_" ++ string_of_nat n)%string;
     ProjectileState.ownerId := "a";
     ProjectileState.x := 200; ProjectileState.y := 100; ProjectileState.z := 20;
     ProjectileState.angle := 0; ProjectileState.speed := 15;
     ProjectileState.damage := 8; ProjectileState.type := MACHINE_GUN;
     ProjectileState.arena := CENTER; ProjectileState.createdAt := 0 |}.

Definition cappedRoom : GameRoom :=
  arenaRoom [cappedShooter] (map bulletNo (seq 0 MAX_PROJECTILES_PER_PLAYER)).

(** A short match: after the start, the first player climbs and fires for
    two ticks while the second one's spawn protection runs out. *)
Definition skirmishOps : list Op :=
  matchStartOps
  ++ [OpSetPlayerLoadout "a" FIRE_JETPACK MACHINE_GUN;
      OpHandleInput "a" (mkInput true false true 0);
      OpFire 3 5000 (fun _ => 0.5);
      OpFire 2 5000 (fun _ => 0.5);
      OpFire 3 5100 (fun _ => 0.5);
      OpManualReload "a"].

Definition skirmish : GameRoom :=
  run exampleMath skirmishOps (newGameRoom "ROOM" "a").

(** ** Vocabulary of the properties *)

(** A player object with the four fields that damage resolution writes
    ([health], [isDead], [deaths], [kills]) blanked: two objects with the
    same [unhurt] agree on everything else. *)
Definition unhurt (p : PlayerState) : PlayerState :=
  with_kills 0 (with_deaths 0 (with_isDead false (with_health 0 p))).

(** [p'] is [p] up to its kill count. *)
Definition spared (p p' : PlayerState) : Prop :=
  with_kills 0 p' = with_kills 0 p.

(** Dead or under spawn protection. *)
Definition untargetable (p : PlayerState) : bool := isDead p || isInSpawn p.

(** What damage resolution may do to a player object: nothing outside
    [health], [isDead], [deaths] and [kills], and nothing but [kills]
    unless the player satisfies [T]. *)
Definition hurtOnly (T : PlayerState -> Prop) (p p' : PlayerState) : Prop :=
  unhurt p' = unhurt p /\ (~ T p -> spared p p').

Definition hurt : PlayerState -> PlayerState -> Prop :=
  hurtOnly (fun p => untargetable p = false).

(** What a tick may do to a player object: anything but change its id if
    it is alive and [active]; otherwise only what damage resolution may. *)
Definition moved (active : string -> Prop) (p p' : PlayerState) : Prop :=
  id p' = id p /\ (~ active (id p) \/ isDead p = true -> hurt p p').

(** The match ended and cleared the players, or every player object is
    related to what it was and the buffered inputs are the same. *)
Definition evolves (R : PlayerState -> PlayerState -> Prop) (r r' : GameRoom)
    : Prop :=
  players r' = []
  \/ (Forall2 R (players r) (players r') /\ playerInputs r' = playerInputs r).

(** The bounds of the specification on one player object. *)
Definition playerOk (p : PlayerState) : Prop :=
  (MIN_Z <= z p /\ z p <= MAX_Z)
  /\ (0 <= health p /\ health p <= maxHealth p)
  /\ (0 <= ammo p <= WeaponStats.clipSize (WEAPON_STATS (weapon p)))%Z
  /\ (0 <= fuel p /\ fuel p <= maxFuel p).

(** The two maxima of a player object are those of its loadout. *)
Definition playerWf (p : PlayerState) : Prop :=
  maxHealth p = MAX_HEALTH
  /\ maxFuel p = MovementStats.fuel (MOVEMENT_STATS (movement p)).

(** Every armed reload callback is the one its player's entry of
    [reloadTimers] points to, and that player is stored, holds the weapon
    the callback captured, and is flagged as reloading. *)
Definition reloadsLinked (ps : list PlayerState) (ts : list (nat * Timer))
    (rts : list (string * nat)) : Prop :=
  forall h pid w d,
    In (h, ReloadTimeout pid w d) ts ->
    lookup skey pid rts = Some (pid, h)
    /\ exists p, lookup id pid ps = Some p /\ weapon p = w /\ isReloading p = true.

(** The invariant that carries the bounds, on the parts of the room it
    reads: players, projectiles, timers, reload-timer map, and whether a
    match is under way. *)
Definition roomOkC (ps : list PlayerState) (prs : list ProjectileState.t)
    (ts : list (nat * Timer)) (rts : list (string * nat)) (playing : bool)
    : Prop :=
  Forall (fun p => playerOk p /\ playerWf p) ps
  /\ NoDup (keys id ps)
  /\ Forall (fun pr => 0 <= ProjectileState.damage pr) prs
  /\ reloadsLinked ps ts rts
  /\ (playing = false -> ps = []).

Definition roomOk (r : GameRoom) : Prop :=
  roomOkC (players r) (projectiles r) (timers r) (reloadTimers r)
    (gameStarted r || inLoadoutPhase r).

(** One slab of [rayRectIntersect]: the pair [(tMin, tMax)], or
    [(tyMin, tyMax)], after the swap. *)
Definition slab (lo len o d : Q) : num * num :=
  let inv := if Qeq_bool d 0 then PInf else Fin (1 / d) in
  let t0 := num_mul (Fin (lo - o)) inv in
  let t1 := num_mul (Fin (lo + len - o)) inv in
  if num_gtb t0 t1 then (t1, t0) else (t0, t1).

(** The game-loop and countdown intervals among armed timers. *)
Definition isInterval (t : Timer) : Prop :=
  t = GameLoopInterval \/ exists n, t = CountdownInterval n.

Definition noLoop (r : GameRoom) : Prop :=
  forall h, ~ In (h, GameLoopInterval) (timers r).

Definition noCountdown (r : GameRoom) : Prop :=
  forall h n, ~ In (h, CountdownInterval n) (timers r).

(** Every armed game loop is the one [gameLoop] points to. *)
Definition oneLoop (r : GameRoom) : Prop :=
  forall h, In (h, GameLoopInterval) (timers r) -> gameLoop r = Some h.

(** The discipline of the two intervals: each armed one is the one its
    field points to, a countdown and a game loop are never armed together,
    and none is armed unless a countdown was started. *)
Definition loopsOk (r : GameRoom) : Prop :=
  oneLoop r
  /\ (forall h n, In (h, CountdownInterval n) (timers r) ->
                  countdownInterval r = Some h)
  /\ (noCountdown r \/ noLoop r)
  /\ (countdownStarted r = false -> noCountdown r /\ noLoop r).

(** What a tick needs and keeps: the discipline, and no countdown armed. *)
Definition ticking (r : GameRoom) : Prop := loopsOk r /\ noCountdown r.

(** [r'] arms no interval that [r] did not, and points to the same ones. *)
Definition sameLoops (r r' : GameRoom) : Prop :=
  gameLoop r' = gameLoop r
  /\ countdownInterval r' = countdownInterval r
  /\ countdownStarted r' = countdownStarted r
  /\ (forall h t, In (h, t) (timers r') -> isInterval t -> In (h, t) (timers r)).

(** No player owns more live projectiles than the cap. *)
Definition capped (r : GameRoom) : Prop :=
  forall owner,
    (countOwned owner (projectiles r) <= MAX_PROJECTILES_PER_PLAYER)%nat.

(** The projectiles are what they were, or the match ended and cleared
    them. *)
Definition keepsProjectiles (r r' : GameRoom) : Prop :=
  projectiles r' = projectiles r \/ projectiles r' = [].

Definition hasInput (r : GameRoom) (pid : string) : Prop :=
  lookup skey pid (playerInputs r) <> None.

(** The shape shared by the wall loop and the obstacle loop of
    [handleHitscan]: keep the nearest positive intersection distance below
    the current one, and the tag of the blocker that gave it. *)
Definition scanBlockers {A : Type} (rectOf : A -> Rect.t)
    (tagOf : A -> option string) (sx sy dx dy : Q) (l : list A)
    (st : Q * option string) : Q * option string :=
  fold_left
    (fun st a =>
       match rayBlocks (rayRectIntersect sx sy dx dy (rectOf a)) (fst st) with
       | Some t => (t, tagOf a)
       | None => st
       end)
    l st.

(** The player [pid] is no longer stored in [r'], or it has the ammo, the
    reloading flag and the dead flag of [p]. *)
Definition keepsClip (pid : string) (p : PlayerState) (r' : GameRoom) : Prop :=
  lookup id pid (players r') = None
  \/ exists p', lookup id pid (players r') = Some p'
       /\ ammo p' = ammo p /\ isReloading p' = isReloading p
       /\ isDead p' = isDead p.


(** Every armed handle was handed out by an earlier [setTimeout] or
    [setInterval]: it is below the next handle. *)
Definition timersFresh (r : GameRoom) : Prop :=
  forall h t, In (h, t) (timers r) -> (h < nextTimer r)%nat.

(** The handles of the armed timers are distinct and were all handed out
    before the next one. *)
Definition timersWfC (ts : list (nat * Timer)) (n : nat) : Prop :=
  NoDup (map fst ts) /\ forall h t, In (h, t) ts -> (h < n)%nat.

(** An obstacle with its health back to the maximum. *)
Definition restored (o : BreakableObstacle.t) : BreakableObstacle.t :=
  {| BreakableObstacle.id := BreakableObstacle.id o;
     BreakableObstacle.x := BreakableObstacle.x o;
     BreakableObstacle.y := BreakableObstacle.y o;
     BreakableObstacle.width := BreakableObstacle.width o;
     BreakableObstacle.height := BreakableObstacle.height o;
     BreakableObstacle.health := BreakableObstacle.maxHealth o;
     BreakableObstacle.maxHealth := BreakableObstacle.maxHealth o |}.

(** A breakable obstacle that is still standing: it has health left, no
    more than at the start, and is one of the arena's, where the arena
    puts it. *)
Definition obstacleOk (o : BreakableObstacle.t) : Prop :=
  0 < BreakableObstacle.health o
  /\ BreakableObstacle.health o <= BreakableObstacle.maxHealth o
  /\ In (restored o)
        (map obstacleOfDef (ArenaDefinition.breakableObstacles (ARENAS CENTER))).

(** The ids of the projectiles in flight are distinct and were all drawn
    from the counter, below its current value. *)
Definition projectilesWfC (prs : list ProjectileState.t) (n : nat) : Prop :=
  NoDup (keys ProjectileState.id prs)
  /\ Forall (fun pr => exists k, (k < n)%nat
                /\ ProjectileState.id pr = ("proj_" ++ string_of_nat k)%string) prs.

(** Well-formedness of the room's bookkeeping: timer handles, the roster
    of the lobby, the obstacles left standing and the projectile ids. *)
Definition roomWf (r : GameRoom) : Prop :=
  timersWfC (timers r) (nextTimer r)
  /\ NoDup (keys RoomPlayer.id (lobbyPlayers r))
  /\ NoDup (keys BreakableObstacle.id (obstacles r))
  /\ Forall obstacleOk (obstacles r)
  /\ projectilesWfC (projectiles r) (projectileIdCounter r).

(** [r'] has the code, the host and the roster (by id, in order) of [r]. *)
Definition sameLobby (r r' : GameRoom) : Prop :=
  code r' = code r /\ hostId r' = hostId r
  /\ keys RoomPlayer.id (lobbyPlayers r') = keys RoomPlayer.id (lobbyPlayers r).

(** From [r] to [r'] the lobby is the same and well-formedness is kept. *)
Definition wfStep (r r' : GameRoom) : Prop :=
  sameLobby r r' /\ (roomWf r -> roomWf r').

(** The player objects [initializePlayers] builds for a roster whose first
    entry has index [i]. *)
Fixpoint initialPlayers (i : nat) (lobby : list RoomPlayer.t) : list PlayerState :=
  match lobby with
  | [] => []
  | lobbyPlayer :: rest => initialPlayer i lobbyPlayer :: initialPlayers (S i) rest
  end.

(** A room after [destroy]: every map is empty, no game loop is recorded
    and no interval is armed. *)
Definition closed (r : GameRoom) : Prop :=
  lobbyPlayers r = [] /\ players r = [] /\ projectiles r = [] /\ obstacles r = []
  /\ playerInputs r = [] /\ reloadTimers r = [] /\ spawnProtectionTimers r = []
  /\ gameLoop r = None /\ countdownInterval r = None
  /\ forall h t, In (h, t) (timers r) -> ~ isInterval t.

(** The lobby entry [endGame] leaves for a player: same id, name and
    loadout, both ready flags down. *)
Definition notReady (p : RoomPlayer.t) : RoomPlayer.t :=
  {| RoomPlayer.id := RoomPlayer.id p; RoomPlayer.name := RoomPlayer.name p;
     RoomPlayer.ready := false; RoomPlayer.loadoutReady := false;
     RoomPlayer.movement := RoomPlayer.movement p;
     RoomPlayer.weapon := RoomPlayer.weapon p |}.

(** The lobby entry with a new loadout. *)
Definition with_loadout (m : MovementType) (w : WeaponType) (p : RoomPlayer.t)
    : RoomPlayer.t :=
  {| RoomPlayer.id := RoomPlayer.id p; RoomPlayer.name := RoomPlayer.name p;
     RoomPlayer.ready := RoomPlayer.ready p;
     RoomPlayer.loadoutReady := RoomPlayer.loadoutReady p;
     RoomPlayer.movement := m; RoomPlayer.weapon := w |}.

(** [this.lastShotTime.get(id) || 0]. *)
Definition lastShotOf (pid : string) (r : GameRoom) : Q :=
  match lookup skey pid (lastShotTime r) with
  | Some (_, t) => t
  | None => 0
  end.

(** The projectile a shot of [player] creates, at angle [a], when the
    counter stands at [n]. *)
Definition shotOf (Math : JSMath.t) (now a : Q) (n : nat) (player : PlayerState)
    : ProjectileState.t :=
  {| ProjectileState.id := ("proj_" ++ string_of_nat n)%string;
     ProjectileState.ownerId := id player;
     ProjectileState.x := x player + JSMath.cos Math a * (PLAYER_RADIUS + 5);
     ProjectileState.y := y player + JSMath.sin Math a * (PLAYER_RADIUS + 5);
     ProjectileState.z := z player;
     ProjectileState.angle := a;
     ProjectileState.speed :=
       WeaponStats.projectileSpeed (WEAPON_STATS (weapon player));
     ProjectileState.damage := WeaponStats.damage (WEAPON_STATS (weapon player));
     ProjectileState.type := weapon player;
     ProjectileState.arena := currentArena player;
     ProjectileState.createdAt := now |}.

(** What the hit and kill events may report: nobody hits or kills
    themselves. *)
Definition noSelfHit (e : Event) : Prop :=
  match e with
  | game_hit targetId _ sourceId => targetId <> sourceId
  | game_kill killerId victimId => killerId <> victimId
  | _ => True
  end.

(** From [r] to [r'] the room emitted events that all satisfy [P]. *)
Definition emits (P : Event -> Prop) (r r' : GameRoom) : Prop :=
  exists later, emitted r' = later ++ emitted r /\ Forall P later.

(** The projectile is in the arena, young enough, and in no solid wall. *)
Definition inFlight (now : Q) (proj : ProjectileState.t) : Prop :=
  let arena := ARENAS (ProjectileState.arena proj) in
  (0 <= ProjectileState.x proj /\ ProjectileState.x proj <= ArenaDefinition.width arena)
  /\ (0 <= ProjectileState.y proj
      /\ ProjectileState.y proj <= ArenaDefinition.height arena)
  /\ now - ProjectileState.createdAt proj <= 5000
  /\ forall wall, In wall (ArenaDefinition.walls arena) ->
       pointInRect (ProjectileState.x proj) (ProjectileState.y proj)
         (Rect.x wall) (Rect.y wall) (Rect.width wall) (Rect.height wall) = false.

(** ** What the server entry point adds to the room (server/index.ts)

    The entry point reads [playerCount] and [getFirstPlayerId], assigns
    [hostId], and sends the whole of [getInfo()] to clients. *)

Definition playerCount (r : GameRoom) : nat := List.length (lobbyPlayers r).

(** [this.lobbyPlayers.keys().next().value]. *)
Definition getFirstPlayerId (r : GameRoom) : option string :=
  match lobbyPlayers r with
  | [] => None
  | p :: _ => Some (RoomPlayer.id p)
  end.

(** [room.hostId = newHost]. *)
Definition set_hostId (v : string) (r : GameRoom) : GameRoom :=
  {| code := code r; hostId := v; lobbyPlayers := lobbyPlayers r;
     players := players r; projectiles := projectiles r;
     obstacles := obstacles r; playerInputs := playerInputs r;
     gameStarted := gameStarted r; inLoadoutPhase := inLoadoutPhase r;
     gameLoop := gameLoop r; tick := tick r;
     projectileIdCounter := projectileIdCounter r;
     lastShotTime := lastShotTime r; reloadTimers := reloadTimers r;
     spawnProtectionTimers := spawnProtectionTimers r;
     countdownStarted := countdownStarted r;
     countdownInterval := countdownInterval r; timers := timers r;
     nextTimer := nextTimer r; emitted := emitted r |}.

(** [RoomInfo], as [getInfo()] builds it. *)
Module RoomInfo.
Record t := {
  code : string;
  hostId : string;
  players : list RoomPlayer.t;
  maxPlayers : nat;
  gameStarted : bool;
  inLoadoutPhase : bool
}.
End RoomInfo.

Definition roomInfo (r : GameRoom) : RoomInfo.t :=
  {| RoomInfo.code := code r; RoomInfo.hostId := hostId r;
     RoomInfo.players := lobbyPlayers r; RoomInfo.maxPlayers := 4;
     RoomInfo.gameStarted := gameStarted r;
     RoomInfo.inLoadoutPhase := inLoadoutPhase r |}.

(** ** Values received from clients

    A socket.io payload is whatever the client sent: the handlers test its
    type at run time (or do not).  A character of a [string] stands for
    the UTF-16 code unit of the same number; strings with a code unit
    above 255 are outside the model. *)

Inductive JSValue :=
| JSUndefined
| JSNull
| JSBoolean (b : bool)
| JSNumber (n : num)
| JSString (s : string)
| JSObject (fields : JSFields)
with JSFields :=
| JSNoField
| JSField (name : string) (value : JSValue) (rest : JSFields).

(** What [if (v)] and [!v] read. *)
Definition truthy (v : JSValue) : bool :=
  match v with
  | JSUndefined | JSNull => false
  | JSBoolean b => b
  | JSNumber (Fin q) => negb (Qeq_bool q 0)
  | JSNumber NaN => false
  | JSNumber _ => true
  | JSString s => negb (String.eqb s "")
  | JSObject _ => true
  end.

(** [i.f] on the object [i]: [undefined] when the property is missing. *)
Fixpoint getField (f : string) (fields : JSFields) : JSValue :=
  match fields with
  | JSNoField => JSUndefined
  | JSField name value rest =>
      if String.eqb name f then value else getField f rest
  end.

Definition isBoolean (v : JSValue) : bool :=
  match v with JSBoolean _ => true | _ => false end.

(** ** Constants of the entry point *)

Definition MAX_PLAYERS : nat := 4.
Definition ROOM_CODE_LENGTH : nat := 4.
Definition MAX_ROOMS : nat := 100.
Definition MAX_NAME_LENGTH : nat := 12.
Definition ROOM_CREATE_COOLDOWN_MS : Q := 5000.
Definition MAX_CONNECTIONS_PER_IP : nat := 5.
Definition INPUT_RATE_LIMIT_MS : Q := 16.
Definition RESPAWN_RATE_LIMIT_MS : Q := 1000.
Definition READY_TOGGLE_RATE_LIMIT_MS : Q := 500.
Definition ROOM_IDLE_TIMEOUT_MS : Q := 30 * 60 * 1000.

(** [Math.PI], the double nearest to pi. *)
Definition Math_PI : Q := 884279719003555 # 281474976710656.

(** ** Validation helpers *)

Definition movementOfString (s : string) : option MovementType :=
  if String.eqb s "wings" then Some WINGS
  else if String.eqb s "fire_jetpack" then Some FIRE_JETPACK
  else if String.eqb s "water_jetpack" then Some WATER_JETPACK
  else if String.eqb s "levitation" then Some LEVITATION
  else None.

Definition weaponOfString (s : string) : option WeaponType :=
  if String.eqb s "machine_gun" then Some MACHINE_GUN
  else if String.eqb s "pulse_laser" then Some PULSE_LASER
  else if String.eqb s "sniper" then Some SNIPER
  else if String.eqb s "rocket" then Some ROCKET
  else None.

(** [isValidMovementType(value)], with the enum member it names. *)
Definition isValidMovementType (value : JSValue) : option MovementType :=
  match value with
  | JSString s => movementOfString s
  | _ => None
  end.

Definition isValidWeaponType (value : JSValue) : option WeaponType :=
  match value with
  | JSString s => weaponOfString s
  | _ => None
  end.

(** [isValidInputState(input)], with the fields the room reads from the
    object when it is accepted.  [timestamp] and [sequence] are not
    checked, and the room never reads them. *)
Definition isValidInputState (input : JSValue) : option InputState.t :=
  match input with
  | JSObject i =>
      match getField "up" i, getField "down" i, getField "left" i,
            getField "right" i, getField "jump" i, getField "crouch" i,
            getField "shooting" i, getField "mouseAngle" i with
      | JSBoolean goUp, JSBoolean goDown, JSBoolean goLeft, JSBoolean goRight,
        JSBoolean jump, JSBoolean crouch, JSBoolean shooting,
        JSNumber (Fin mouseAngle) =>
          if Qgeb mouseAngle (- Math_PI * 2) && Qleb mouseAngle (Math_PI * 2)
          then Some {| InputState.up := goUp; InputState.down := goDown;
                       InputState.left := goLeft; InputState.right := goRight;
                       InputState.jump := jump; InputState.crouch := crouch;
                       InputState.shooting := shooting;
                       InputState.mouseAngle := mouseAngle;
                       InputState.timestamp :=
                         match getField "timestamp" i with
                         | JSNumber (Fin t) => t
                         | _ => 0
                         end;
                       InputState.sequence :=
                         match getField "sequence" i with
                         | JSNumber (Fin n) => Qfloor n
                         | _ => 0%Z
                         end |}
          else None
      | _, _, _, _, _, _, _, _ => None
      end
  | _ => None
  end.

(** *** [sanitizeName] *)

Fixpoint filterString (keep : ascii -> bool) (s : string) : string :=
  match s with
  | EmptyString => EmptyString
  | String c s' =>
      if keep c then String c (filterString keep s') else filterString keep s'
  end.

(** The code unit lies in one of the ranges of a character class. *)
Definition inClass (ranges : list (N * N)) (c : ascii) : bool :=
  existsb (fun lh => (fst lh <=? N_of_ascii c)%N && (N_of_ascii c <=? snd lh)%N)
    ranges.

(** [s.replace(/[...]/g, '')] for the class [ranges]. *)
Definition stripClass (ranges : list (N * N)) (s : string) : string :=
  filterString (fun c => negb (inClass ranges c)) s.

(** White space and line terminators: what [trim] removes and [\s]
    matches. *)
Definition whiteSpace : list (N * N) :=
  [(9, 13); (32, 32); (160, 160); (5760, 5760); (8192, 8202); (8232, 8233);
   (8239, 8239); (8287, 8287); (12288, 12288); (65279, 65279)]%N.

Fixpoint trimStart (s : string) : string :=
  match s with
  | EmptyString => EmptyString
  | String c s' => if inClass whiteSpace c then trimStart s' else s
  end.

Fixpoint revString (s acc : string) : string :=
  match s with
  | EmptyString => acc
  | String c s' => revString s' (String c acc)
  end.

Definition trim (s : string) : string :=
  revString (trimStart (revString (trimStart s) "")) "".

(** [s.slice(0, n)]. *)
Fixpoint slice0 (n : nat) (s : string) : string :=
  match n, s with
  | S n', String c s' => String c (slice0 n' s')
  | _, _ => EmptyString
  end.

(** [[a-zA-Z0-9\s\-_.]]. *)
Definition nameChar (c : ascii) : bool :=
  inClass [(97, 122); (65, 90); (48, 57)]%N c
  || inClass whiteSpace c
  || inClass [(45, 45); (95, 95); (46, 46)]%N c.

Definition sanitizeName (name : JSValue) : option string :=
  match name with
  | JSString name =>
      let stripped :=
        stripClass [(8288, 8303)]%N
          (stripClass [(8203, 8207); (8232, 8239); (65279, 65279)]%N
             (stripClass [(0, 31); (127, 159)]%N name)) in
      let trimmed := slice0 MAX_NAME_LENGTH (trim stripped) in
      if (String.length trimmed =? 0)%nat then None
      else
        let sanitized := filterString nameChar trimmed in
        if (String.length sanitized =? 0)%nat then None else Some sanitized
  | _ => None
  end.

(** *** [generateRoomCode] *)

Definition roomCodeChars : string := "ABCDEFGHJKLMNPQRSTUVWXYZ23456789".

(** [chars[i]] for the index [Math.floor(rnd * chars.length)], as [join]
    renders it: nothing when the index is out of range. *)
Definition roomCodeChar (rnd : Q) : string :=
  let i := Qfloor (rnd * inject_Z (Z.of_nat (String.length roomCodeChars))) in
  if (i <? 0)%Z then ""
  else match String.get (Z.to_nat i) roomCodeChars with
       | Some c => String c ""
       | None => ""
       end.

(** One turn of the loop: [ROOM_CODE_LENGTH] calls of [Math.random()],
    the [k]-th call and the following ones of the source [rnd]. *)
Definition roomCodeDraw (rnd : nat -> Q) (k : nat) : string :=
  String.concat "" (map (fun i => roomCodeChar (rnd (k + i)%nat))
                      (seq 0 ROOM_CODE_LENGTH)).

(** The [do ... while (rooms.has(code))] loop, for at most [fuel] turns:
    [None] when it is still looping then. *)
Fixpoint generateRoomCode (fuel : nat) (rnd : nat -> Q) (k : nat)
    (rooms : list GameRoom) : option string :=
  match fuel with
  | O => None
  | S fuel' =>
      let c := roomCodeDraw rnd k in
      if has code c rooms
      then generateRoomCode fuel' rnd (k + ROOM_CODE_LENGTH) rooms
      else Some c
  end.

(** ** The state of the entry point *)

(** What the entry point itself sends: the acknowledgement of a request,
    [io.to(code).emit], [socket.to(code).emit] and [socket.disconnect]. *)
Inductive Message :=
| callback (socketId : string) (room : option RoomInfo.t) (error : option string)
| room_closed (roomCode : string)
| room_info (roomCode : string) (info : RoomInfo.t)
| room_info_others (socketId roomCode : string) (info : RoomInfo.t)
| disconnected (socketId : string).

(** The module-level maps of index.ts.  [sockets] holds the connected
    sockets whose handlers are registered, each with the [clientIp] its
    closure captured; [sent] is the log of what was sent, most recent
    first. *)
Module Server.
Record t := {
  rooms : list GameRoom;
  playerRooms : list (string * string);
  roomCreateCooldowns : list (string * Q);
  connectionsPerIp : list (string * nat);
  socketLastInput : list (string * Q);
  socketLastRespawn : list (string * Q);
  socketLastReady : list (string * Q);
  roomLastActivity : list (string * Q);
  sockets : list (string * string);
  sent : list Message
}.
End Server.

Definition set_rooms (v : list GameRoom) (s : Server.t) : Server.t :=
  {| Server.rooms := v; Server.playerRooms := Server.playerRooms s;
     Server.roomCreateCooldowns := Server.roomCreateCooldowns s;
     Server.connectionsPerIp := Server.connectionsPerIp s;
     Server.socketLastInput := Server.socketLastInput s;
     Server.socketLastRespawn := Server.socketLastRespawn s;
     Server.socketLastReady := Server.socketLastReady s;
     Server.roomLastActivity := Server.roomLastActivity s;
     Server.sockets := Server.sockets s; Server.sent := Server.sent s |}.

Definition set_playerRooms (v : list (string * string)) (s : Server.t) : Server.t :=
  {| Server.rooms := Server.rooms s; Server.playerRooms := v;
     Server.roomCreateCooldowns := Server.roomCreateCooldowns s;
     Server.connectionsPerIp := Server.connectionsPerIp s;
     Server.socketLastInput := Server.socketLastInput s;
     Server.socketLastRespawn := Server.socketLastRespawn s;
     Server.socketLastReady := Server.socketLastReady s;
     Server.roomLastActivity := Server.roomLastActivity s;
     Server.sockets := Server.sockets s; Server.sent := Server.sent s |}.

Definition set_roomCreateCooldowns (v : list (string * Q)) (s : Server.t) : Server.t :=
  {| Server.rooms := Server.rooms s;
     Server.playerRooms := Server.playerRooms s;
     Server.roomCreateCooldowns := v;
     Server.connectionsPerIp := Server.connectionsPerIp s;
     Server.socketLastInput := Server.socketLastInput s;
     Server.socketLastRespawn := Server.socketLastRespawn s;
     Server.socketLastReady := Server.socketLastReady s;
     Server.roomLastActivity := Server.roomLastActivity s;
     Server.sockets := Server.sockets s; Server.sent := Server.sent s |}.

Definition set_connectionsPerIp (v : list (string * nat)) (s : Server.t) : Server.t :=
  {| Server.rooms := Server.rooms s;
     Server.playerRooms := Server.playerRooms s;
     Server.roomCreateCooldowns := Server.roomCreateCooldowns s;
     Server.connectionsPerIp := v;
     Server.socketLastInput := Server.socketLastInput s;
     Server.socketLastRespawn := Server.socketLastRespawn s;
     Server.socketLastReady := Server.socketLastReady s;
     Server.roomLastActivity := Server.roomLastActivity s;
     Server.sockets := Server.sockets s; Server.sent := Server.sent s |}.

Definition set_socketLastInput (v : list (string * Q)) (s : Server.t) : Server.t :=
  {| Server.rooms := Server.rooms s;
     Server.playerRooms := Server.playerRooms s;
     Server.roomCreateCooldowns := Server.roomCreateCooldowns s;
     Server.connectionsPerIp := Server.connectionsPerIp s;
     Server.socketLastInput := v;
     Server.socketLastRespawn := Server.socketLastRespawn s;
     Server.socketLastReady := Server.socketLastReady s;
     Server.roomLastActivity := Server.roomLastActivity s;
     Server.sockets := Server.sockets s; Server.sent := Server.sent s |}.

Definition set_socketLastRespawn (v : list (string * Q)) (s : Server.t) : Server.t :=
  {| Server.rooms := Server.rooms s;
     Server.playerRooms := Server.playerRooms s;
     Server.roomCreateCooldowns := Server.roomCreateCooldowns s;
     Server.connectionsPerIp := Server.connectionsPerIp s;
     Server.socketLastInput := Server.socketLastInput s;
     Server.socketLastRespawn := v;
     Server.socketLastReady := Server.socketLastReady s;
     Server.roomLastActivity := Server.roomLastActivity s;
     Server.sockets := Server.sockets s; Server.sent := Server.sent s |}.

Definition set_socketLastReady (v : list (string * Q)) (s : Server.t) : Server.t :=
  {| Server.rooms := Server.rooms s;
     Server.playerRooms := Server.playerRooms s;
     Server.roomCreateCooldowns := Server.roomCreateCooldowns s;
     Server.connectionsPerIp := Server.connectionsPerIp s;
     Server.socketLastInput := Server.socketLastInput s;
     Server.socketLastRespawn := Server.socketLastRespawn s;
     Server.socketLastReady := v;
     Server.roomLastActivity := Server.roomLastActivity s;
     Server.sockets := Server.sockets s; Server.sent := Server.sent s |}.

Definition set_roomLastActivity (v : list (string * Q)) (s : Server.t) : Server.t :=
  {| Server.rooms := Server.rooms s;
     Server.playerRooms := Server.playerRooms s;
     Server.roomCreateCooldowns := Server.roomCreateCooldowns s;
     Server.connectionsPerIp := Server.connectionsPerIp s;
     Server.socketLastInput := Server.socketLastInput s;
     Server.socketLastRespawn := Server.socketLastRespawn s;
     Server.socketLastReady := Server.socketLastReady s;
     Server.roomLastActivity := v; Server.sockets := Server.sockets s;
     Server.sent := Server.sent s |}.

Definition set_sockets (v : list (string * string)) (s : Server.t) : Server.t :=
  {| Server.rooms := Server.rooms s;
     Server.playerRooms := Server.playerRooms s;
     Server.roomCreateCooldowns := Server.roomCreateCooldowns s;
     Server.connectionsPerIp := Server.connectionsPerIp s;
     Server.socketLastInput := Server.socketLastInput s;
     Server.socketLastRespawn := Server.socketLastRespawn s;
     Server.socketLastReady := Server.socketLastReady s;
     Server.roomLastActivity := Server.roomLastActivity s;
     Server.sockets := v; Server.sent := Server.sent s |}.

Definition set_sent (v : list Message) (s : Server.t) : Server.t :=
  {| Server.rooms := Server.rooms s;
     Server.playerRooms := Server.playerRooms s;
     Server.roomCreateCooldowns := Server.roomCreateCooldowns s;
     Server.connectionsPerIp := Server.connectionsPerIp s;
     Server.socketLastInput := Server.socketLastInput s;
     Server.socketLastRespawn := Server.socketLastRespawn s;
     Server.socketLastReady := Server.socketLastReady s;
     Server.roomLastActivity := Server.roomLastActivity s;
     Server.sockets := Server.sockets s; Server.sent := v |}.

(** ** The handlers of the entry point

    [socketId] is [socket.id], [clientIp] what [getClientIp(socket)]
    returned when the socket connected, [now] what [Date.now()] returns
    while the handler runs.  A room looked up in [rooms] and mutated is
    stored back under its code. *)

Definition send (m : Message) (s : Server.t) : Server.t :=
  set_sent (m :: Server.sent s) s.

(** [map.get(k) || 0]. *)
Definition getOr0 (k : string) (m : list (string * Q)) : Q :=
  match lookup skey k m with
  | Some (_, v) => v
  | None => 0
  end.

(** The room object stored under its code, after a mutation. *)
Definition putRoom (room : GameRoom) (s : Server.t) : Server.t :=
  set_rooms (adjust code (code room) (fun _ => room) (Server.rooms s)) s.

Definition updateRoomActivity (c : string) (now : Q) (s : Server.t) : Server.t :=
  set_roomLastActivity (insert skey (c, now) (Server.roomLastActivity s)) s.

(** The room of a socket: [playerRooms.get(socket.id)], refused when
    missing or empty ([if (!code) return]), then [rooms.get(code)]. *)
Definition roomOf (socketId : string) (s : Server.t) : option GameRoom :=
  match lookup skey socketId (Server.playerRooms s) with
  | None => None
  | Some (_, c) =>
      if String.eqb c "" then None else lookup code c (Server.rooms s)
  end.

Definition leaveCurrentRoom (socketId : string) (s : Server.t) : Server.t :=
  match lookup skey socketId (Server.playerRooms s) with
  | None => s
  | Some (_, c) =>
      if String.eqb c "" then s
      else
        let s :=
          match lookup code c (Server.rooms s) with
          | None => s
          | Some room =>
              let room := removePlayer socketId room in
              if (playerCount room =? 0)%nat then
                let s := send (room_closed c) s in
                let s := set_rooms (remove code c (Server.rooms s)) s in
                set_roomLastActivity (remove skey c (Server.roomLastActivity s)) s
              else
                let room :=
                  if String.eqb (hostId room) socketId then
                    match getFirstPlayerId room with
                    | Some newHost =>
                        if String.eqb newHost "" then room
                        else set_hostId newHost room
                    | None => room
                    end
                  else room in
                send (room_info c (roomInfo room)) (putRoom room s)
          end in
        set_playerRooms (remove skey socketId (Server.playerRooms s)) s
  end.

(** [io.on('connection')]: the connection limit per IP; a socket that
    passes gets its handlers. *)
Definition onConnection (socketId clientIp : string) (s : Server.t) : Server.t :=
  let currentConnections :=
    match lookup skey clientIp (Server.connectionsPerIp s) with
    | Some (_, n) => n
    | None => O
    end in
  if (MAX_CONNECTIONS_PER_IP <=? currentConnections)%nat
  then send (disconnected socketId) s
  else
    let s := set_connectionsPerIp
               (insert skey (clientIp, S currentConnections)
                  (Server.connectionsPerIp s)) s in
    set_sockets (insert skey (socketId, clientIp) (Server.sockets s)) s.

(** ['room:create'].  [None] when [generateRoomCode] is still looping
    after [fuel] turns. *)
Definition roomCreate (fuel : nat) (rnd : nat -> Q) (socketId clientIp : string)
    (name : JSValue) (now : Q) (s : Server.t) : option Server.t :=
  match sanitizeName name with
  | None => Some (send (callback socketId None None) s)
  | Some sanitizedName =>
      let lastCreate := getOr0 clientIp (Server.roomCreateCooldowns s) in
      if Qltb (now - lastCreate) ROOM_CREATE_COOLDOWN_MS
      then Some (send (callback socketId None None) s)
      else if (MAX_ROOMS <=? List.length (Server.rooms s))%nat
      then Some (send (callback socketId None None) s)
      else
        let s := leaveCurrentRoom socketId s in
        match generateRoomCode fuel rnd 0 (Server.rooms s) with
        | None => None
        | Some c =>
            let room := addPlayer socketId sanitizedName (newGameRoom c socketId) in
            let s := set_rooms (insert code room (Server.rooms s)) s in
            let s := set_roomCreateCooldowns
                       (insert skey (clientIp, now) (Server.roomCreateCooldowns s))
                       s in
            let s := updateRoomActivity c now s in
            let s := set_playerRooms
                       (insert skey (socketId, c) (Server.playerRooms s)) s in
            Some (send (callback socketId (Some (roomInfo room)) None) s)
        end
  end.

(** ['room:join'].  [room] is looked up before [leaveCurrentRoom] runs:
    afterwards it is the stored object if the code is still registered,
    and otherwise the object that [leaveCurrentRoom] has just emptied,
    destroyed and taken out of [rooms]. *)
Definition roomJoin (toUpperCase : string -> string) (socketId : string)
    (roomCode name : JSValue) (now : Q) (s : Server.t) : Server.t :=
  match sanitizeName name with
  | None => send (callback socketId None (Some "Invalid name")) s
  | Some sanitizedName =>
      match roomCode with
      | JSString c =>
          if negb (String.length c =? ROOM_CODE_LENGTH)%nat
          then send (callback socketId None (Some "Invalid room code")) s
          else
            match lookup code (toUpperCase c) (Server.rooms s) with
            | None => send (callback socketId None (Some "Room not found")) s
            | Some room =>
                if gameStarted room || inLoadoutPhase room
                then send (callback socketId None
                             (Some "Game already in progress")) s
                else if (MAX_PLAYERS <=? playerCount room)%nat
                then send (callback socketId None (Some "Room is full")) s
                else
                  let s := leaveCurrentRoom socketId s in
                  let '(room, registered) :=
                    match lookup code (toUpperCase c) (Server.rooms s) with
                    | Some room => (room, true)
                    | None => (destroy (removePlayer socketId room), false)
                    end in
                  let room := addPlayer socketId sanitizedName room in
                  let s := if registered then putRoom room s else s in
                  let s := set_playerRooms
                             (insert skey (socketId, toUpperCase c)
                                (Server.playerRooms s)) s in
                  let s := updateRoomActivity (toUpperCase c) now s in
                  let s := send (callback socketId (Some (roomInfo room)) None) s in
                  send (room_info_others socketId (toUpperCase c) (roomInfo room)) s
            end
      | _ => send (callback socketId None (Some "Invalid room code")) s
      end
  end.

(** ['room:ready']. *)
Definition roomReady (socketId : string) (ready : JSValue) (now : Q)
    (s : Server.t) : Server.t :=
  let lastReady := getOr0 socketId (Server.socketLastReady s) in
  if Qltb (now - lastReady) READY_TOGGLE_RATE_LIMIT_MS then s
  else
    let s := set_socketLastReady
               (insert skey (socketId, now) (Server.socketLastReady s)) s in
    match ready with
    | JSBoolean ready =>
        match roomOf socketId s with
        | None => s
        | Some room =>
            let room := setPlayerReady socketId ready room in
            send (room_info (code room) (roomInfo room)) (putRoom room s)
        end
    | _ => s
    end.

(** ['room:start'] (host only). *)
Definition roomStart (socketId : string) (s : Server.t) : Server.t :=
  match roomOf socketId s with
  | None => s
  | Some room =>
      if negb (String.eqb (hostId room) socketId) then s
      else if (playerCount room <? 2)%nat then s
      else putRoom (snd (startGame room)) s
  end.

(** ['player:loadout']. *)
Definition playerLoadout (socketId : string) (movement weapon : JSValue)
    (s : Server.t) : Server.t :=
  match isValidMovementType movement, isValidWeaponType weapon with
  | Some m, Some w =>
      match roomOf socketId s with
      | None => s
      | Some room =>
          let room := setPlayerLoadout socketId m w room in
          send (room_info (code room) (roomInfo room)) (putRoom room s)
      end
  | _, _ => s
  end.

(** ['player:loadoutReady'].  The payload is not checked; the room stores
    it and reads it back as a condition, so it is kept by its truthiness. *)
Definition playerLoadoutReady (socketId : string) (ready : JSValue)
    (s : Server.t) : Server.t :=
  match roomOf socketId s with
  | None => s
  | Some room =>
      let room := setPlayerLoadoutReady socketId (truthy ready) room in
      send (room_info (code room) (roomInfo room)) (putRoom room s)
  end.

(** ['player:input']. *)
Definition playerInput (socketId : string) (input : JSValue) (now : Q)
    (s : Server.t) : Server.t :=
  let lastInput := getOr0 socketId (Server.socketLastInput s) in
  if Qltb (now - lastInput) INPUT_RATE_LIMIT_MS then s
  else
    let s := set_socketLastInput
               (insert skey (socketId, now) (Server.socketLastInput s)) s in
    match isValidInputState input with
    | None => s
    | Some input =>
        match roomOf socketId s with
        | None => s
        | Some room =>
            let s := updateRoomActivity (code room) now s in
            putRoom (handleInput socketId input room) s
        end
    end.

(** ['player:respawn']. *)
Definition playerRespawn (socketId : string) (now : Q) (s : Server.t) : Server.t :=
  let lastRespawn := getOr0 socketId (Server.socketLastRespawn s) in
  if Qltb (now - lastRespawn) RESPAWN_RATE_LIMIT_MS then s
  else
    let s := set_socketLastRespawn
               (insert skey (socketId, now) (Server.socketLastRespawn s)) s in
    match roomOf socketId s with
    | None => s
    | Some room => putRoom (respawnPlayer socketId room) s
    end.

(** ['player:reload']. *)
Definition playerReload (socketId : string) (s : Server.t) : Server.t :=
  match roomOf socketId s with
  | None => s
  | Some room => putRoom (manualReload socketId room) s
  end.

(** ['disconnect']. *)
Definition onDisconnect (socketId clientIp : string) (s : Server.t) : Server.t :=
  let s := leaveCurrentRoom socketId s in
  let currentCount :=
    match lookup skey clientIp (Server.connectionsPerIp s) with
    | Some (_, O) | None => 1%nat
    | Some (_, n) => n
    end in
  let s := if (currentCount <=? 1)%nat
           then set_connectionsPerIp
                  (remove skey clientIp (Server.connectionsPerIp s)) s
           else set_connectionsPerIp
                  (insert skey (clientIp, (currentCount - 1)%nat)
                     (Server.connectionsPerIp s)) s in
  let s := set_socketLastInput (remove skey socketId (Server.socketLastInput s)) s in
  let s := set_socketLastRespawn
             (remove skey socketId (Server.socketLastRespawn s)) s in
  let s := set_socketLastReady (remove skey socketId (Server.socketLastReady s)) s in
  set_sockets (remove skey socketId (Server.sockets s)) s.

(** [cleanupIdleRooms], over the entries of [roomLastActivity]. *)
Definition cleanupIdleRooms (now : Q) (s : Server.t) : Server.t :=
  fold_left
    (fun s c =>
       match lookup skey c (Server.roomLastActivity s) with
       | None => s
       | Some (_, lastActivity) =>
           if Qgtb (now - lastActivity) ROOM_IDLE_TIMEOUT_MS then
             let s := match lookup code c (Server.rooms s) with
                      | Some room =>
                          let s := send (room_closed c) s in
                          set_rooms (remove code c (Server.rooms s)) s
                      | None => s
                      end in
             set_roomLastActivity (remove skey c (Server.roomLastActivity s)) s
           else s
       end)
    (keys skey (Server.roomLastActivity s)) s.

(** A timer of a registered room fires. *)
Definition roomTimer (Math : JSMath.t) (c : string) (h : nat) (now : Q)
    (rnd : string -> Q) (s : Server.t) : Server.t :=
  match lookup code c (Server.rooms s) with
  | None => s
  | Some room => putRoom (fire Math h now rnd room) s
  end.

(** ** The entry point as a machine

    An event of a socket runs its handler if the socket is connected,
    with the [clientIp] captured at connection.  socket.io never gives a
    new socket the id of a connected one. *)

Inductive Request :=
| Connect (socketId clientIp : string)
| RoomCreate (socketId : string) (name : JSValue) (now : Q) (fuel : nat)
    (rnd : nat -> Q)
| RoomJoin (socketId : string) (roomCode name : JSValue) (now : Q)
| RoomLeave (socketId : string)
| RoomReady (socketId : string) (ready : JSValue) (now : Q)
| RoomStart (socketId : string)
| PlayerLoadout (socketId : string) (movement weapon : JSValue)
| PlayerLoadoutReady (socketId : string) (ready : JSValue)
| PlayerInput (socketId : string) (input : JSValue) (now : Q)
| PlayerRespawn (socketId : string) (now : Q)
| PlayerReload (socketId : string)
| Disconnect (socketId : string)
| CleanupIdleRooms (now : Q)
| RoomTimer (roomCode : string) (h : nat) (now : Q) (rnd : string -> Q).

Definition newServer : Server.t :=
  {| Server.rooms := []; Server.playerRooms := [];
     Server.roomCreateCooldowns := []; Server.connectionsPerIp := [];
     Server.socketLastInput := []; Server.socketLastRespawn := [];
     Server.socketLastReady := []; Server.roomLastActivity := [];
     Server.sockets := []; Server.sent := [] |}.

(** The handler of a connected socket, given its [clientIp]. *)
Definition onSocket (socketId : string) (s : Server.t)
    (handler : string -> option Server.t) : option Server.t :=
  match lookup skey socketId (Server.sockets s) with
  | Some (_, clientIp) => handler clientIp
  | None => Some s
  end.

Definition serve (Math : JSMath.t) (toUpperCase : string -> string)
    (s : Server.t) (req : Request) : option Server.t :=
  match req with
  | Connect socketId clientIp =>
      if has skey socketId (Server.sockets s) then Some s
      else Some (onConnection socketId clientIp s)
  | RoomCreate socketId name now fuel rnd =>
      onSocket socketId s
        (fun clientIp => roomCreate fuel rnd socketId clientIp name now s)
  | RoomJoin socketId roomCode name now =>
      onSocket socketId s
        (fun _ => Some (roomJoin toUpperCase socketId roomCode name now s))
  | RoomLeave socketId =>
      onSocket socketId s (fun _ => Some (leaveCurrentRoom socketId s))
  | RoomReady socketId ready now =>
      onSocket socketId s (fun _ => Some (roomReady socketId ready now s))
  | RoomStart socketId =>
      onSocket socketId s (fun _ => Some (roomStart socketId s))
  | PlayerLoadout socketId movement weapon =>
      onSocket socketId s
        (fun _ => Some (playerLoadout socketId movement weapon s))
  | PlayerLoadoutReady socketId ready =>
      onSocket socketId s (fun _ => Some (playerLoadoutReady socketId ready s))
  | PlayerInput socketId input now =>
      onSocket socketId s (fun _ => Some (playerInput socketId input now s))
  | PlayerRespawn socketId now =>
      onSocket socketId s (fun _ => Some (playerRespawn socketId now s))
  | PlayerReload socketId =>
      onSocket socketId s (fun _ => Some (playerReload socketId s))
  | Disconnect socketId =>
      onSocket socketId s (fun clientIp => Some (onDisconnect socketId clientIp s))
  | CleanupIdleRooms now => Some (cleanupIdleRooms now s)
  | RoomTimer c h now rnd => Some (roomTimer Math c h now rnd s)
  end.

(** A run of the entry point: [None] if a request did not return. *)
Fixpoint serveAll (Math : JSMath.t) (toUpperCase : string -> string)
    (reqs : list Request) (s : Server.t) : option Server.t :=
  match reqs with
  | [] => Some s
  | req :: rest =>
      match serve Math toUpperCase s req with
      | Some s' => serveAll Math toUpperCase rest s'
      | None => None
      end
  end.

(** ** Vocabulary of the properties of the entry point *)

Definition memberOf (socketId : string) (room : GameRoom) : Prop :=
  In socketId (keys RoomPlayer.id (lobbyPlayers room)).

(** The three invariants of a room: the bounds, the bookkeeping and the
    discipline of the intervals. *)
Definition roomSound (room : GameRoom) : Prop :=
  roomOk room /\ roomWf room /\ loopsOk room.

(** What holds of a registered room, given [playerRooms]. *)
Definition registeredOk (playerRooms : list (string * string)) (room : GameRoom)
    : Prop :=
  roomSound room
  /\ String.length (code room) = ROOM_CODE_LENGTH
  /\ (1 <= playerCount room <= MAX_PLAYERS)%nat
  /\ memberOf (hostId room) room
  /\ forall socketId, memberOf socketId room ->
       lookup skey socketId playerRooms = Some (socketId, code room).

Definition registryOk (rooms : list GameRoom) (playerRooms sockets : list (string * string))
    : Prop :=
  NoDup (keys code rooms)
  /\ (List.length rooms <= MAX_ROOMS)%nat
  /\ Forall (registeredOk playerRooms) rooms
  /\ (forall socketId c,
        lookup skey socketId playerRooms = Some (socketId, c) ->
        c <> "" /\ has skey socketId sockets = true)
  /\ ~ In "" (keys skey sockets).

(** The connected sockets of an IP. *)
Definition connectionsOf (clientIp : string) (sockets : list (string * string)) : nat :=
  List.length (filter (fun e => String.eqb (snd e) clientIp) sockets).

(** [connectionsPerIp.get(ip) || 0]. *)
Definition countOf (clientIp : string) (connectionsPerIp : list (string * nat)) : nat :=
  match lookup skey clientIp connectionsPerIp with
  | Some (_, n) => n
  | None => O
  end.

Definition connectionsOk (sockets : list (string * string))
    (connectionsPerIp : list (string * nat)) : Prop :=
  NoDup (keys skey sockets)
  /\ (forall clientIp, countOf clientIp connectionsPerIp = connectionsOf clientIp sockets)
  /\ (forall clientIp, (connectionsOf clientIp sockets <= MAX_CONNECTIONS_PER_IP)%nat).

Definition serverOk (s : Server.t) : Prop :=
  registryOk (Server.rooms s) (Server.playerRooms s) (Server.sockets s)
  /\ connectionsOk (Server.sockets s) (Server.connectionsPerIp s).

(** What the environment guarantees of a request: [Math.random()] returns
    a number in [0, 1), and socket.io gives a socket a non-empty id. *)
Definition validRequest (req : Request) : Prop :=
  match req with
  | RoomCreate _ _ _ _ rnd => forall k, 0 <= rnd k /\ rnd k < 1
  | Connect socketId _ => socketId <> ""
  | _ => True
  end.

(** The operations of a room that leave its roster alone. *)
Definition keepsRoster (op : Op) : Prop :=
  match op with
  | OpAddPlayer _ _ | OpRemovePlayer _ | OpDestroy => False
  | _ => True
  end.

(** Every character of the string passes the test. *)
Fixpoint allChars (p : ascii -> bool) (s : string) : bool :=
  match s with
  | EmptyString => true
  | String c s' => p c && allChars p s'
  end.

(** Letters, digits, hyphen, underscore, full stop, space and no-break
    space. *)
Definition plainNameChar (c : ascii) : bool :=
  inClass [(97, 122); (65, 90); (48, 57); (45, 45); (95, 95); (46, 46);
           (32, 32); (160, 160)]%N c.

(** Letters, digits, hyphen, underscore and full stop. *)
Definition wordChar (c : ascii) : bool :=
  inClass [(97, 122); (65, 90); (48, 57); (45, 45); (95, 95); (46, 46)]%N c.

(** A character of the alphabet of room codes. *)
Definition roomCodeLetter (c : ascii) : bool :=
  existsb (Ascii.eqb c) (list_ascii_of_string roomCodeChars).

(** ** An example run of the entry point

    Two sockets connect from one address; the first creates a room (the
    random source always returns 0, so its code is AAAA) and the second
    joins it. *)

Definition exampleRequests : list Request :=
  [Connect "s1" "10.0.0.1"; Connect "s2" "10.0.0.1";
   RoomCreate "s1" (JSString "Ann") 10000 1 (fun _ => 0);
   RoomJoin "s2" (JSString "AAAA") (JSString "Bob") 10001].

(** The state after the requests, with codes sent in upper case. *)
Definition serverAfter (reqs : list Request) : Server.t :=
  match serveAll exampleMath (fun c => c) reqs newServer with
  | Some s => s
  | None => newServer
  end.

Definition exampleServer : Server.t := serverAfter exampleRequests.


(** One socket alone in the room it created. *)
Definition soloServer : Server.t :=
  serverAfter [Connect "s1" "10.0.0.1";
               RoomCreate "s1" (JSString "Ann") 10000 1 (fun _ => 0)].

(** Two sockets connected, the first one alone in the room it created. *)
Definition lobbyServer : Server.t := serverAfter (firstn 3 exampleRequests).

(** * Properties *)

(** ** Facts about comparisons *)

Lemma Qleb_le a b : Qleb a b = true <-> a <= b.
Proof. apply Qle_bool_iff. Qed.

Lemma Qleb_gt a b : Qleb a b = false <-> b < a.
Proof.
  unfold Qleb. split; intro H.
  - apply Qnot_le_lt. intro L. apply Qle_bool_iff in L. congruence.
  - destruct (Qle_bool a b) eqn:E; [|reflexivity].
    apply Qle_bool_iff in E. lra.
Qed.

Lemma Qltb_lt a b : Qltb a b = true <-> a < b.
Proof.
  unfold Qltb. rewrite negb_true_iff. apply Qleb_gt.
Qed.

Lemma Qltb_ge a b : Qltb a b = false <-> b <= a.
Proof.
  unfold Qltb. rewrite negb_false_iff. apply Qleb_le.
Qed.

(** ** Facts about insertion-ordered maps *)

Section KeyedFacts.
Variable A : Type.
Variable key : A -> string.

Lemma lookup_adjust_ne k k' f m :
  k' <> k -> (forall a, key (f a) = key a) ->
  lookup key k' (adjust key k f m) = lookup key k' m.
Proof.
  intros Hne Hk. induction m as [|a m IH]; simpl; [reflexivity|].
  destruct (String.eqb (key a) k) eqn:E.
  - rewrite Hk. apply String.eqb_eq in E.
    destruct (String.eqb (key a) k') eqn:E'.
    + apply String.eqb_eq in E'. congruence.
    + exact IH.
  - destruct (String.eqb (key a) k'); [reflexivity | exact IH].
Qed.

Lemma lookup_adjust_eq k f m :
  (forall a, key (f a) = key a) ->
  lookup key k (adjust key k f m) = option_map f (lookup key k m).
Proof.
  intros Hk. induction m as [|a m IH]; simpl; [reflexivity|].
  destruct (String.eqb (key a) k) eqn:E.
  - rewrite Hk, E. reflexivity.
  - rewrite E. exact IH.
Qed.

Lemma lookup_adjust k k' f m :
  (forall a, key (f a) = key a) ->
  lookup key k' (adjust key k f m) =
  if String.eqb k' k then option_map f (lookup key k' m) else lookup key k' m.
Proof.
  intros Hk. destruct (String.eqb k' k) eqn:E.
  - apply String.eqb_eq in E. subst. apply lookup_adjust_eq, Hk.
  - apply String.eqb_neq in E. apply lookup_adjust_ne; assumption.
Qed.

Lemma lookup_In k m a : lookup key k m = Some a -> In a m /\ key a = k.
Proof.
  induction m as [|b m IH]; simpl; [discriminate|].
  destruct (String.eqb (key b) k) eqn:E.
  - intros [= ->]. apply String.eqb_eq in E. auto.
  - intro H. destruct (IH H). auto.
Qed.

Lemma In_lookup m a :
  NoDup (keys key m) -> In a m -> lookup key (key a) m = Some a.
Proof.
  induction m as [|b m IH]; simpl; [contradiction|].
  intros ND [->|Hin].
  - rewrite String.eqb_refl. reflexivity.
  - inversion ND as [|? ? Hnotin ND']; subst.
    destruct (String.eqb (key b) (key a)) eqn:E.
    + apply String.eqb_eq in E. exfalso. apply Hnotin.
      rewrite E. apply in_map. exact Hin.
    + apply IH; assumption.
Qed.

Lemma keys_adjust k f m :
  (forall a, key (f a) = key a) -> keys key (adjust key k f m) = keys key m.
Proof.
  intros Hk. unfold keys, adjust. rewrite map_map.
  apply map_ext. intro a. destruct (String.eqb (key a) k); auto.
Qed.

Lemma lookup_remove_ne k k' m :
  k' <> k -> lookup key k' (remove key k m) = lookup key k' m.
Proof.
  intros Hne. induction m as [|a m IH]; simpl; [reflexivity|].
  destruct (String.eqb (key a) k) eqn:E; simpl.
  - apply String.eqb_eq in E.
    destruct (String.eqb (key a) k') eqn:E'; [|exact IH].
    apply String.eqb_eq in E'. congruence.
  - destruct (String.eqb (key a) k'); [reflexivity | exact IH].
Qed.

Lemma lookup_remove_eq k m : lookup key k (remove key k m) = None.
Proof.
  induction m as [|a m IH]; simpl; [reflexivity|].
  destruct (String.eqb (key a) k) eqn:E; simpl; [exact IH|].
  rewrite E. exact IH.
Qed.

Lemma lookup_insert_eq a m : lookup key (key a) (insert key a m) = Some a.
Proof.
  induction m as [|b m IH]; simpl.
  - rewrite String.eqb_refl. reflexivity.
  - destruct (String.eqb (key b) (key a)) eqn:E; simpl.
    + rewrite String.eqb_refl. reflexivity.
    + rewrite E. exact IH.
Qed.

Lemma lookup_insert_ne a k m :
  k <> key a -> lookup key k (insert key a m) = lookup key k m.
Proof.
  intros Hne. induction m as [|b m IH]; simpl.
  - destruct (String.eqb (key a) k) eqn:E; [|reflexivity].
    apply String.eqb_eq in E. congruence.
  - destruct (String.eqb (key b) (key a)) eqn:E; simpl.
    + apply String.eqb_eq in E. rewrite E.
      destruct (String.eqb (key a) k) eqn:E'; [|reflexivity].
      apply String.eqb_eq in E'. congruence.
    + destruct (String.eqb (key b) k); [reflexivity | exact IH].
Qed.
End KeyedFacts.

(** ** The ray-rectangle routine *)




(** C9 (evaluation at the failing input).  A ray that starts on the bottom
    edge of a rectangle and runs along it makes [rayRectIntersect] return
    [NaN], which is not a non-negative distance: [0 * Infinity] is [NaN],
    [Math.min] keeps it, and neither rejection test is true of it. *)
Theorem rayRectIntersect_edge_NaN :
  rayRectIntersect 30 60 1 0 (mkRect 0 0 60 60) = Some NaN
  /\ ~ num_nonneg NaN.
Proof.
  split; [vm_compute; reflexivity | simpl; tauto].
Qed.

Lemma Qinv_neg d : d < 0 -> / d < 0.
Proof.
  intro H. 
  assert (E : d * / d == 1) by (apply Qmult_inv_r; lra).
  destruct (Qlt_le_dec (/ d) 0) as [L|L]; [exact L|].
  exfalso. assert (d * / d <= 0) by nra. lra.
Qed.

(** For an origin strictly between the two faces of a slab, the entry
    parameter is negative (or -Infinity) and the exit parameter positive
    (or +Infinity). *)
Lemma slab_inside lo len o d :
  lo < o -> o < lo + len ->
  (d == 0 /\ slab lo len o d = (NInf, PInf))
  \/ (~ d == 0 /\ exists a b, slab lo len o d = (Fin a, Fin b) /\ a < 0 /\ 0 < b).
Proof.
  intros H1 H2. unfold slab.
  destruct (Qeq_bool d 0) eqn:E.
  - left. apply Qeq_bool_eq in E. split; [exact E|].
    cbn [num_mul].
    assert (E1 : Qeq_bool (lo - o) 0 = false).
    { destruct (Qeq_bool (lo - o) 0) eqn:X; [|reflexivity].
      apply Qeq_bool_eq in X. lra. }
    assert (E2 : Qeq_bool (lo + len - o) 0 = false).
    { destruct (Qeq_bool (lo + len - o) 0) eqn:X; [|reflexivity].
      apply Qeq_bool_eq in X. lra. }
    assert (E3 : Qltb 0 (lo - o) = false) by (apply Qltb_ge; lra).
    assert (E4 : Qltb 0 (lo + len - o) = true) by (apply Qltb_lt; lra).
    rewrite E1, E2, E3, E4. reflexivity.
  - right. apply Qeq_bool_neq in E. split; [exact E|].
    cbn [num_mul num_gtb num_ltb].
    destruct (Qlt_le_dec 0 d) as [Hd|Hd].
    + assert (Hi : 0 < 1 / d).
      { unfold Qdiv. rewrite Qmult_1_l. apply Qinv_lt_0_compat, Hd. }
      assert (A : (lo - o) * (1 / d) < 0) by nra.
      assert (B : 0 < (lo + len - o) * (1 / d)) by nra.
      assert (G : Qltb ((lo + len - o) * (1 / d)) ((lo - o) * (1 / d)) = false)
        by (apply Qltb_ge; lra).
      rewrite G. eauto.
    + assert (Hd' : d < 0).
      { destruct (Qlt_le_dec d 0) as [L|L]; [exact L|]. exfalso. apply E. lra. }
      assert (Hi : 1 / d < 0).
      { unfold Qdiv. rewrite Qmult_1_l. apply Qinv_neg, Hd'. }
      assert (A : 0 < (lo - o) * (1 / d)) by nra.
      assert (B : (lo + len - o) * (1 / d) < 0) by nra.
      assert (G : Qltb ((lo + len - o) * (1 / d)) ((lo - o) * (1 / d)) = true)
        by (apply Qltb_lt; lra).
      rewrite G. eauto.
Qed.

Lemma rayRectIntersect_slabs ox oy dx dy rect :
  rayRectIntersect ox oy dx dy rect =
  let sx := slab (Rect.x rect) (Rect.width rect) ox dx in
  let sy := slab (Rect.y rect) (Rect.height rect) oy dy in
  let tEnter := num_max (fst sx) (fst sy) in
  let tExit := num_min (snd sx) (snd sy) in
  if num_gtb tEnter tExit || num_ltb tExit (Fin 0) then None
  else Some (if num_gtb tEnter (Fin 0) then tEnter else tExit).
Proof.
  unfold rayRectIntersect, slab. cbv zeta.
  destruct (num_gtb (num_mul (Fin (Rect.x rect - ox)) _) _);
    destruct (num_gtb (num_mul (Fin (Rect.y rect - oy)) _) _); reflexivity.
Qed.

(** From an origin strictly inside the rectangle, along a direction that
    is not null, [rayRectIntersect] returns a positive, finite exit
    distance. *)
Lemma rayRectIntersect_inside ox oy dx dy rect :
  Rect.x rect < ox -> ox < Rect.x rect + Rect.width rect ->
  Rect.y rect < oy -> oy < Rect.y rect + Rect.height rect ->
  ~ (dx == 0 /\ dy == 0) ->
  exists q, rayRectIntersect ox oy dx dy rect = Some (Fin q) /\ 0 < q.
Proof.
  intros X1 X2 Y1 Y2 Hdir. rewrite rayRectIntersect_slabs. cbv zeta.
  destruct (slab_inside dx X1 X2) as [[Ex ->]|(Ex & a & b & -> & Ha & Hb)];
    destruct (slab_inside dy Y1 Y2) as [[Ey ->]|(Ey & c & e & -> & Hc & He)];
    cbn [fst snd].
  - exfalso. apply Hdir. auto.
  - cbn. assert (G1 : Qltb 0 c = false) by (apply Qltb_ge; lra).
    assert (G2 : Qltb e 0 = false) by (apply Qltb_ge; lra).
    assert (G3 : Qltb e c = false) by (apply Qltb_ge; lra).
    rewrite ?G1, ?G2, ?G3. cbn. rewrite ?G1, ?G2, ?G3. eauto.
  - cbn. assert (G1 : Qltb 0 a = false) by (apply Qltb_ge; lra).
    assert (G2 : Qltb b 0 = false) by (apply Qltb_ge; lra).
    assert (G3 : Qltb b a = false) by (apply Qltb_ge; lra).
    rewrite ?G1, ?G2, ?G3. cbn. rewrite ?G1, ?G2, ?G3. eauto.
  - unfold num_max, num_min, num_gtb, num_ltb.
    destruct (Qltb a c) eqn:M1; destruct (Qltb e b) eqn:M2;
      apply Qltb_lt in M1 || apply Qltb_ge in M1;
      apply Qltb_lt in M2 || apply Qltb_ge in M2.
    all: repeat match goal with
         | |- context [Qltb ?u ?v] =>
             let G := fresh "G" in
             first [ assert (G : Qltb u v = false) by (apply Qltb_ge; lra)
                   | assert (G : Qltb u v = true) by (apply Qltb_lt; lra) ];
             rewrite G
         end; cbn [orb]; eauto.
Qed.

(** ** The movement part of the tick *)

Lemma movePlayer_z_bounds Math input player :
  MIN_Z <= z (movePlayer Math input player) <= MAX_Z.
Proof.
  unfold movePlayer; cbn [z]. split.
  - apply Q.le_max_l.
  - apply Q.max_lub; [unfold MIN_Z, MAX_Z; lra | apply Q.le_min_l].
Qed.

Lemma fuelStep_bounds stats g j f :
  0 <= MovementStats.fuelDrain stats ->
  0 <= MovementStats.fuelRegen stats ->
  0 <= f <= MovementStats.fuel stats ->
  0 <= fst (fuelStep stats g j f) <= MovementStats.fuel stats.
Proof.
  intros Hd Hr [H0 H1]. unfold fuelStep.
  destruct (Qgtb (MovementStats.fuel stats) 0) eqn:Hf; [|simpl; auto].
  assert (Hm : 0 <= Qmax 0 (f - MovementStats.fuelDrain stats)
               <= MovementStats.fuel stats).
  { split; [apply Q.le_max_l | apply Q.max_lub; lra]. }
  assert (Hregen : forall u, 0 <= u <= MovementStats.fuel stats ->
            0 <= Qmin (MovementStats.fuel stats) (u + MovementStats.fuelRegen stats)
              <= MovementStats.fuel stats).
  { intros u [U0 U1]. split; [apply Q.min_glb; lra | apply Q.le_min_l]. }
  destruct (j && Qgtb f 0); [|destruct (j && Qleb f 0)];
    destruct g; cbn [fst snd andb negb]; auto;
    destruct j; cbn [fst snd andb negb]; auto.
Qed.

Lemma stats_rates_nonneg m :
  0 <= MovementStats.fuelDrain (MOVEMENT_STATS m)
  /\ 0 <= MovementStats.fuelRegen (MOVEMENT_STATS m).
Proof. destruct m; simpl; lra. Qed.

(** C3 (counterexample).  A fire-jetpack player in mid-air with a full tank
    that holds "descend" is driven down at the climb rate and its fuel does
    not move; the same player on the ground with half a tank regains fuel
    while it holds "descend". *)
Lemma descending_consumes_no_fuel :
  let airborne := mkPlayer "a" 100 100 50 FIRE_JETPACK ROCKET 100 4 in
  let grounded := mkPlayer "a" 100 100 0 FIRE_JETPACK ROCKET 50 4 in
  let descend := mkInput false true false 0 in
  (velocityZ (movePlayer exampleMath descend airborne) == - 5
   /\ fuel (movePlayer exampleMath descend airborne) == 100)
  /\ (velocityZ (movePlayer exampleMath descend grounded) == - 5
      /\ fuel (movePlayer exampleMath descend grounded) == 51.5).
Proof.
  cbv zeta. repeat split; vm_compute; reflexivity.
Qed.

(** C3 (amended).  For a fuel-based archetype, ascending with fuel left
    climbs at the climb rate and burns [fuelDrain] (never below zero);
    ascending on an empty tank is denied, the player does not rise;
    descending is never gated and burns nothing (the fuel is the same as
    on a tick without it); fuel grows only on a tick that starts grounded
    without a granted ascent, and on such a tick it is topped up by
    [fuelRegen] up to the maximum. *)
Theorem fuel_gates_ascent_only Math input player
    (Hfuel : 0 < MovementStats.fuel (MOVEMENT_STATS (movement player))) :
  let stats := MOVEMENT_STATS (movement player) in
  let player' := movePlayer Math input player in
  let ascent := InputState.jump input && Qgtb (fuel player) 0 in
  let grounded := Qleb (z player) (MIN_Z + 5) in
  (ascent = true ->
     velocityZ player' = MovementStats.zClimbRate stats
     /\ fuel player' = Qmax 0 (fuel player - MovementStats.fuelDrain stats))
  /\ (InputState.jump input = true -> fuel player <= 0 ->
        velocityZ player' <= 0)
  /\ (ascent = false -> InputState.crouch input = true ->
        velocityZ player' = - MovementStats.zClimbRate stats
        /\ fuel player' = if grounded
                          then Qmin (MovementStats.fuel stats)
                                 (fuel player + MovementStats.fuelRegen stats)
                          else fuel player)
  /\ (ascent = false -> grounded = true ->
        fuel player' = Qmin (MovementStats.fuel stats)
                         (fuel player + MovementStats.fuelRegen stats))
  /\ (ascent = false -> grounded = false -> fuel player' = fuel player)
  /\ (fuel player < fuel player' -> ascent = false /\ grounded = true).
Proof.
  intros stats player' ascent grounded.
  assert (Hgt : Qgtb (MovementStats.fuel stats) 0 = true)
    by (apply Qltb_lt; exact Hfuel).
  assert (Hrates := stats_rates_nonneg (movement player)).
  fold stats in Hrates. destruct Hrates as [Hdrain Hregen].
  assert (Hclimb : 0 <= MovementStats.zClimbRate stats
                   /\ 0 <= MovementStats.zFallRate stats /\ 0 <= GRAVITY).
  { unfold stats, GRAVITY. destruct (movement player); simpl; lra. }
  assert (Hfs : fuelStep stats grounded (InputState.jump input) (fuel player) =
                if ascent
                then (Qmax 0 (fuel player - MovementStats.fuelDrain stats), true)
                else (if grounded
                      then Qmin (MovementStats.fuel stats)
                             (fuel player + MovementStats.fuelRegen stats)
                      else fuel player,
                      InputState.jump input && negb (Qleb (fuel player) 0))).
  { unfold fuelStep. rewrite Hgt. unfold ascent.
    destruct (InputState.jump input); cbn [andb negb].
    - destruct (Qgtb (fuel player) 0) eqn:E.
      + destruct grounded; reflexivity.
      + apply Qltb_ge in E. apply Qleb_le in E. rewrite E.
        destruct grounded; reflexivity.
    - destruct grounded; reflexivity. }
  assert (Hf' : fuel player' =
                fst (fuelStep stats grounded (InputState.jump input) (fuel player)))
    by reflexivity.
  assert (Hv' : velocityZ player' =
                verticalVelocity stats (movement player)
                  (snd (fuelStep stats grounded (InputState.jump input) (fuel player)))
                  (InputState.crouch input)
                  (velocityX player') (velocityY player'))
    by reflexivity.
  rewrite Hfs in Hf', Hv'.
  assert (Hdenied : ascent = false ->
            InputState.jump input && negb (Qleb (fuel player) 0) = false).
  { unfold ascent. destruct (InputState.jump input); cbn [andb]; auto. }
  repeat split.
  - rewrite Hv'. rewrite H. reflexivity.
  - rewrite Hf'. rewrite H. reflexivity.
  - intros Hj Hle.
    assert (Ha : ascent = false).
    { unfold ascent. rewrite Hj. cbn [andb]. apply Qltb_ge. exact Hle. }
    rewrite Hv', Ha. cbn [snd]. rewrite (Hdenied Ha).
    unfold verticalVelocity.
    destruct (InputState.crouch input); [lra|].
    destruct (MovementStats.canHover stats); [lra|].
    destruct (MovementType_eqb (movement player) WINGS);
      [destruct (_ || _)|]; lra.
  - rewrite Hv', H. cbn [snd]. rewrite (Hdenied H).
    unfold verticalVelocity. rewrite H0. reflexivity.
  - rewrite Hf', H. reflexivity.
  - intros Ha Hg. rewrite Hf', Ha, Hg. reflexivity.
  - intros Ha Hg. rewrite Hf', Ha, Hg. reflexivity.
  - destruct ascent eqn:Ha; [|reflexivity].
    rewrite Hf' in H. cbn [fst] in H.
    unfold ascent in Ha. apply andb_true_iff in Ha. destruct Ha as [_ Ha].
    apply Qltb_lt in Ha.
    assert (Qmax 0 (fuel player - MovementStats.fuelDrain stats) <= fuel player)
      by (apply Q.max_lub; lra).
    lra.
  - destruct grounded eqn:Hg; [reflexivity|].
    rewrite Hf' in H. destruct ascent eqn:Ha; cbn [fst] in H.
    + unfold ascent in Ha. apply andb_true_iff in Ha. destruct Ha as [_ Ha].
      apply Qltb_lt in Ha.
      assert (Qmax 0 (fuel player - MovementStats.fuelDrain stats) <= fuel player)
        by (apply Q.max_lub; lra).
      lra.
    + lra.
Qed.

Lemma fuel_gates_ascent_only_witness :
  let player := mkPlayer "a" 100 100 50 FIRE_JETPACK ROCKET 100 4 in
  let input := mkInput true false false 0 in
  velocityZ (movePlayer exampleMath input player) = 5
  /\ fuel (movePlayer exampleMath input player) = Qmax 0 (100 - 3).
Proof.
  intros player input.
  assert (Hfuel : 0 < MovementStats.fuel (MOVEMENT_STATS (movement player)))
    by (vm_compute; reflexivity).
  destruct (fuel_gates_ascent_only exampleMath input player Hfuel) as [H _].
  apply H. vm_compute. reflexivity.
Defined.

(** ** How damage resolution touches player objects *)

Lemma unhurt_id p p' : unhurt p' = unhurt p -> id p' = id p.
Proof. intro H. apply (f_equal id) in H. exact H. Qed.

Lemma spared_unhurt p p' : spared p p' -> unhurt p' = unhurt p.
Proof.
  unfold spared. intro H.
  change (unhurt p') with
    (with_kills 0 (with_deaths 0 (with_isDead false (with_health 0 (with_kills 0 p'))))).
  rewrite H. reflexivity.
Qed.

Lemma spared_refl p : spared p p.
Proof. reflexivity. Qed.

Lemma spared_trans p q s : spared p q -> spared q s -> spared p s.
Proof. unfold spared. congruence. Qed.

Lemma spared_untargetable p p' :
  spared p p' -> untargetable p' = untargetable p.
Proof.
  unfold spared, untargetable. intro H.
  change (isDead p') with (isDead (with_kills 0 p')).
  change (isInSpawn p') with (isInSpawn (with_kills 0 p')).
  rewrite H. reflexivity.
Qed.

Lemma hurtOnly_refl T p : hurtOnly T p p.
Proof. split; [reflexivity | intros _; apply spared_refl]. Qed.

Lemma hurtOnly_weaken (T T' : PlayerState -> Prop) p p' :
  (T p -> T' p) -> hurtOnly T p p' -> hurtOnly T' p p'.
Proof. intros HT [H1 H2]. split; [exact H1 | intro N; apply H2; tauto]. Qed.

Lemma hurt_trans p q s : hurt p q -> hurt q s -> hurt p s.
Proof.
  intros [U1 S1] [U2 S2]. split; [congruence|].
  intro N. assert (untargetable p = true)
    by (destruct (untargetable p); [reflexivity | exfalso; apply N; reflexivity]).
  assert (Sp : spared p q) by (apply S1; exact N).
  apply spared_trans with q; [exact Sp|].
  apply S2. rewrite (spared_untargetable Sp). congruence.
Qed.

Lemma hurt_id p p' : hurt p p' -> id p' = id p.
Proof. intros [U _]. apply unhurt_id, U. Qed.

Lemma hurt_isDead p p' : hurt p p' -> isDead p = true -> isDead p' = true.
Proof.
  intros [_ S] D.
  assert (Sp : spared p p').
  { apply S. unfold untargetable. rewrite D. discriminate. }
  unfold spared in Sp. change (isDead p') with (isDead (with_kills 0 p')).
  rewrite Sp. exact D.
Qed.

Lemma hurt_moved active p p' : hurt p p' -> moved active p p'.
Proof. intro H. split; [apply hurt_id, H | intros _; exact H]. Qed.

Lemma moved_refl active p : moved active p p.
Proof. apply hurt_moved, hurtOnly_refl. Qed.

Lemma moved_trans active p q s :
  moved active p q -> moved active q s -> moved active p s.
Proof.
  intros [I1 H1] [I2 H2]. split; [congruence|].
  intro C. assert (Hpq := H1 C). apply hurt_trans with q; [exact Hpq|].
  apply H2. rewrite I1. destruct C as [C|C]; [left; exact C|].
  right. apply (hurt_isDead Hpq C).
Qed.

Section Forall2Facts.
Variable R : PlayerState -> PlayerState -> Prop.
Hypothesis R_id : forall a b, R a b -> id b = id a.

Lemma Forall2_same (l : list PlayerState) :
  (forall a, In a l -> R a a) -> Forall2 R l l.
Proof.
  induction l as [|a l IH]; intro H; constructor.
  - apply H. left. reflexivity.
  - apply IH. intros b Hb. apply H. right. exact Hb.
Qed.

Lemma Forall2_adjust k f (l : list PlayerState) :
  (forall a, In a l -> id a = k -> R a (f a)) ->
  (forall a, In a l -> R a a) ->
  Forall2 R l (adjust id k f l).
Proof.
  induction l as [|a l IH]; intros Hf Hr; simpl; constructor.
  - destruct (String.eqb (id a) k) eqn:E.
    + apply Hf; [left; reflexivity | apply String.eqb_eq, E].
    + apply Hr. left. reflexivity.
  - apply IH; intros b Hb; [apply Hf | apply Hr]; right; exact Hb.
Qed.

Lemma Forall2_keys l l' : Forall2 R l l' -> keys id l' = keys id l.
Proof.
  induction 1 as [|a b l l' Hab _ IH]; simpl; [reflexivity|].
  rewrite (R_id Hab), IH. reflexivity.
Qed.

Lemma Forall2_lookup l l' k p :
  Forall2 R l l' -> lookup id k l = Some p ->
  exists p', lookup id k l' = Some p' /\ R p p'.
Proof.
  induction 1 as [|a b l l' Hab _ IH]; simpl; [discriminate|].
  rewrite (R_id Hab). destruct (String.eqb (id a) k).
  - intros [= ->]. exists b. split; [reflexivity | exact Hab].
  - exact IH.
Qed.

Lemma Forall2_chain l1 l2 l3 :
  (forall a b c, R a b -> R b c -> R a c) ->
  Forall2 R l1 l2 -> Forall2 R l2 l3 -> Forall2 R l1 l3.
Proof.
  intros Ht H12. revert l3.
  induction H12 as [|a b l1 l2 Hab _ IH]; intros l3 H23;
    inversion H23; subst; constructor.
  - eapply Ht; eassumption.
  - apply IH. assumption.
Qed.
End Forall2Facts.

Lemma evolves_refl (R : PlayerState -> PlayerState -> Prop) r :
  (forall a, R a a) -> evolves R r r.
Proof.
  intro Hr. right. split; [|reflexivity].
  apply Forall2_same. intros a _. apply Hr.
Qed.

Lemma evolves_trans (R : PlayerState -> PlayerState -> Prop) r1 r2 r3 :
  (forall a b c, R a b -> R b c -> R a c) ->
  evolves R r1 r2 -> evolves R r2 r3 -> evolves R r1 r3.
Proof.
  intros Ht H12 [H23|[H23 I23]]; [left; exact H23|].
  destruct H12 as [H12|[H12 I12]].
  - left. rewrite H12 in H23. inversion H23. reflexivity.
  - right. split; [|congruence]. eapply Forall2_chain; eassumption.
Qed.

Lemma evolves_weaken (R R' : PlayerState -> PlayerState -> Prop) r r' :
  (forall a b, R a b -> R' a b) -> evolves R r r' -> evolves R' r r'.
Proof.
  intros Hw [H|[H I]]; [left; exact H|].
  right. split; [|exact I]. eapply Forall2_impl; eassumption.
Qed.

(** Changing anything but the players and the buffered inputs. *)
Lemma evolves_same (R : PlayerState -> PlayerState -> Prop) r r' r'' :
  evolves R r r' -> players r'' = players r' ->
  playerInputs r'' = playerInputs r' -> evolves R r r''.
Proof.
  intros [H|[H I]] Hp Hi; [left; congruence|].
  right. rewrite Hp, Hi. auto.
Qed.

Lemma evolves_unchanged (R : PlayerState -> PlayerState -> Prop) r r' :
  (forall a, R a a) -> players r' = players r ->
  playerInputs r' = playerInputs r -> evolves R r r'.
Proof.
  intros Hr Hp Hi. eapply evolves_same; [apply evolves_refl, Hr | | ]; auto.
Qed.

Lemma evolves_keys (R : PlayerState -> PlayerState -> Prop) r r' :
  (forall a b, R a b -> id b = id a) ->
  evolves R r r' -> NoDup (keys id (players r)) -> NoDup (keys id (players r')).
Proof.
  intros Hid [H|[H _]] ND.
  - rewrite H. constructor.
  - rewrite (Forall2_keys Hid H). exact ND.
Qed.

Lemma evolves_lookup (R : PlayerState -> PlayerState -> Prop) r r' k p :
  (forall a b, R a b -> id b = id a) ->
  evolves R r r' -> lookup id k (players r) = Some p ->
  players r' = [] \/ exists p', lookup id k (players r') = Some p' /\ R p p'.
Proof.
  intros Hid [H|[H _]] L; [left; exact H|].
  right. eapply Forall2_lookup; eassumption.
Qed.

(** ** Damage resolution *)

Lemma players_endGame w r : players (endGame w r) = [].
Proof. reflexivity. Qed.

(** [damagePlayer] touches the damage fields of the objects stored under
    the target's id, the kill count of the source, and nothing else, unless
    it ends the match. *)
Lemma damagePlayer_hurtOnly player damage sourceId r :
  evolves (hurtOnly (fun p => id p = id player)) r
    (damagePlayer player damage sourceId r).
Proof.
  set (T := fun p => id p = id player).
  assert (Hkills : forall l,
            Forall2 (hurtOnly T) l
              (adjust id sourceId (fun s => with_kills (kills s + 1) s) l)).
  { intro l. apply Forall2_adjust.
    - intros a _ _. split; [reflexivity | intros _; reflexivity].
    - intros a _. apply hurtOnly_refl. }
  assert (Ht : forall a b c, hurtOnly T a b -> hurtOnly T b c -> hurtOnly T a c).
  { intros a b c [U1 S1] [U2 S2]. split; [congruence|].
    intro N. apply spared_trans with b; [apply S1, N|].
    apply S2. unfold T in *. rewrite (unhurt_id U1). exact N. }
  unfold damagePlayer.
  destruct (Qleb (health player - damage) 0).
  - match goal with
    | |- evolves _ _ (match ?l with _ => _ end) =>
        assert (Hmid : evolves (hurtOnly T) r
                  (emit (game_kill sourceId (id player))
                     (set_players
                        (adjust id sourceId (fun s => with_kills (kills s + 1) s)
                           (adjust id (id player)
                              (fun p => with_deaths (deaths p + 1)
                                          (with_isDead true (with_health 0 p)))
                              (players r)))
                        r)))
    end.
    { right. split; [|reflexivity]. simpl.
      eapply Forall2_chain; [exact Ht | | apply Hkills].
      apply Forall2_adjust.
      - intros a _ Ha. split; [reflexivity|]. intro N. exfalso. apply N, Ha.
      - intros a _. apply hurtOnly_refl. }
    simpl in *.
    destruct (lookup id sourceId _) as [source|]; [|exact Hmid].
    destruct (KILL_LIMIT <=? kills source)%Z; [|exact Hmid].
    left. reflexivity.
  - right. split; [|reflexivity]. simpl. apply Forall2_adjust.
    + intros a _ Ha. split; [reflexivity|]. intro N. exfalso. apply N, Ha.
    + intros a _. apply hurtOnly_refl.
Qed.

Lemma NoDup_keys_inj (l : list PlayerState) a b :
  NoDup (keys id l) -> In a l -> In b l -> id a = id b -> a = b.
Proof.
  intros ND Ha Hb E.
  assert (La := In_lookup id l a ND Ha).
  assert (Lb := In_lookup id l b ND Hb).
  rewrite E in La. congruence.
Qed.

Lemma Forall2_impl_In (R R' : PlayerState -> PlayerState -> Prop) l l' :
  (forall a b, In a l -> R a b -> R' a b) -> Forall2 R l l' -> Forall2 R' l l'.
Proof.
  intros Hi H. induction H as [|a b l l' Hab _ IH]; constructor.
  - apply Hi; [left; reflexivity | exact Hab].
  - apply IH. intros c d Hc. apply Hi. right. exact Hc.
Qed.

(** With distinct keys, damaging a stored, targetable player hurts nobody
    that is dead or protected. *)
Lemma damagePlayer_hurt player damage sourceId r :
  NoDup (keys id (players r)) -> In player (players r) ->
  untargetable player = false ->
  evolves hurt r (damagePlayer player damage sourceId r).
Proof.
  intros ND Hin Hu.
  destruct (damagePlayer_hurtOnly player damage sourceId r) as [H|[H I]];
    [left; exact H|].
  right. split; [|exact I].
  eapply Forall2_impl_In; [|exact H].
  intros a b Ha Hab. eapply hurtOnly_weaken; [|exact Hab].
  cbv beta. intro E.
  rewrite (NoDup_keys_inj (players r) a player ND Ha Hin E). exact Hu.
Qed.

(** ** Hitscan *)

Lemma rayBlocks_Some t c q :
  rayBlocks t c = Some q -> t = Some (Fin q) /\ 0 < q /\ q < c.
Proof.
  unfold rayBlocks. destruct t as [[u| | |]|]; try discriminate.
  destruct (Qgtb u 0) eqn:E1; [|discriminate].
  destruct (Qltb u c) eqn:E2; [|discriminate].
  intros [= <-]. apply Qltb_lt in E1. apply Qltb_lt in E2. auto.
Qed.

Lemma rayBlocks_None c q :
  rayBlocks (Some (Fin q)) c = None -> 0 < q -> c <= q.
Proof.
  unfold rayBlocks. intros H Hq.
  assert (E1 : Qgtb q 0 = true) by (apply Qltb_lt; exact Hq).
  rewrite E1 in H. destruct (Qltb q c) eqn:E2; [discriminate|].
  apply Qltb_ge in E2. exact E2.
Qed.

Lemma eligible_targetable target arena z0 :
  eligible target arena z0 = true -> untargetable target = false.
Proof.
  unfold eligible, untargetable.
  destruct (isDead target); [discriminate|].
  destruct (isInSpawn target); [|reflexivity].
  rewrite andb_false_r. discriminate.
Qed.

(** What the player loop of [handleHitscan] leaves in its accumulator:
    either what it started with, or a stored, eligible player other than
    the shooter, with the near root of its circle, closer than the start. *)
Lemma hitscanPlayers_spec Math player sx sy dx dy targets st :
  let res := hitscanPlayers Math player sx sy dx dy targets st in
  res = st
  \/ exists t, fst res = Some t /\ In t targets /\ id t <> id player
       /\ eligible t (currentArena player) (z player) = true
       /\ rayCircle Math sx sy dx dy t = Some (snd res)
       /\ 0 < snd res /\ snd res < snd st.
Proof.
  revert st. induction targets as [|a targets IH]; intro st; [left; reflexivity|].
  cbn zeta.
  change (hitscanPlayers Math player sx sy dx dy (a :: targets) st)
    with (hitscanPlayers Math player sx sy dx dy targets
            (hitscanPlayerStep Math player sx sy dx dy st a)).
  unfold hitscanPlayerStep.
  assert (Hkeep :
    hitscanPlayers Math player sx sy dx dy targets st = st
    \/ exists t, fst (hitscanPlayers Math player sx sy dx dy targets st) = Some t
         /\ In t (a :: targets) /\ id t <> id player
         /\ eligible t (currentArena player) (z player) = true
         /\ rayCircle Math sx sy dx dy t
            = Some (snd (hitscanPlayers Math player sx sy dx dy targets st))
         /\ 0 < snd (hitscanPlayers Math player sx sy dx dy targets st)
         /\ snd (hitscanPlayers Math player sx sy dx dy targets st) < snd st).
  { destruct (IH st) as [E|(t & H1 & H2 & H3)]; [left; exact E|].
    right. exists t. split; [exact H1|]. split; [right; exact H2 | exact H3]. }
  destruct (String.eqb (id a) (id player)) eqn:Eid; [exact Hkeep|].
  destruct (eligible a (currentArena player) (z player)) eqn:Eel;
    cbn [negb]; [|exact Hkeep].
  destruct (rayCircle Math sx sy dx dy a) as [t|] eqn:Erc; [|exact Hkeep].
  destruct (Qgtb t 0) eqn:E1; cbn [andb]; [|exact Hkeep].
  destruct (Qltb t (snd st)) eqn:E2; [|exact Hkeep].
  apply Qltb_lt in E1. apply Qltb_lt in E2. apply String.eqb_neq in Eid.
  right. destruct (IH (Some a, t)) as [E|(u & H1 & H2 & H3 & H4 & H5 & H6 & H7)].
  - rewrite E. exists a. cbn [fst snd].
    repeat split; auto. left. reflexivity.
  - exists u. cbn [snd] in H7. repeat split; auto; [right; exact H2 | lra].
Qed.

Section NearestBlocker.
Variable A : Type.
Variable rectOf : A -> Rect.t.
Variable tagOf : A -> option string.
Variables sx sy dx dy : Q.

Local Notation "'scan'" := (scanBlockers rectOf tagOf sx sy dx dy).

(** The distance kept by a blocker loop is a lower bound of the start
    value and of every positive finite intersection distance, and it is
    the start value or one of these distances. *)
Lemma scan_spec l st :
  fst (scan l st) <= fst st
  /\ (forall a q, In a l ->
        rayRectIntersect sx sy dx dy (rectOf a) = Some (Fin q) -> 0 < q ->
        fst (scan l st) <= q)
  /\ (scan l st = st
      \/ exists a, In a l /\ snd (scan l st) = tagOf a
           /\ rayRectIntersect sx sy dx dy (rectOf a) = Some (Fin (fst (scan l st)))
           /\ 0 < fst (scan l st) /\ fst (scan l st) < fst st).
Proof.
  revert st. induction l as [|a l IH]; intro st.
  - simpl. split; [lra|]. split; [intros ? ? []|left; reflexivity].
  - change (scan (a :: l) st) with
      (scan l match rayBlocks (rayRectIntersect sx sy dx dy (rectOf a)) (fst st) with
              | Some t => (t, tagOf a)
              | None => st
              end).
    destruct (rayBlocks (rayRectIntersect sx sy dx dy (rectOf a)) (fst st))
      as [t|] eqn:E.
    + apply rayBlocks_Some in E. destruct E as (Et & Hpos & Hlt).
      destruct (IH (t, tagOf a)) as (H1 & H2 & H3). cbn [fst] in H1.
      split; [lra|]. split.
      * intros b q [<-|Hb] Hq Hq0.
        -- rewrite Et in Hq. injection Hq as <-. exact H1.
        -- eapply H2; eassumption.
      * right. destruct H3 as [H3|(b & Hb & Hb1 & Hb2 & Hb3 & Hb4)].
        -- exists a. rewrite H3. cbn [fst snd]. auto using in_eq.
        -- exists b. cbn [fst] in Hb4. split; [right; exact Hb|].
           repeat split; auto. lra.
    + destruct (IH st) as (H1 & H2 & H3).
      split; [exact H1|]. split.
      * intros b q [<-|Hb] Hq Hq0.
        -- rewrite Hq in E. apply rayBlocks_None in E; [lra | exact Hq0].
        -- eapply H2; eassumption.
      * destruct H3 as [H3|(b & Hb & Hb')]; [left; exact H3|].
        right. exists b. split; [right; exact Hb | exact Hb'].
Qed.
End NearestBlocker.

Lemma hitscanWalls_spec sx sy dx dy walls st :
  let res := hitscanWalls sx sy dx dy walls st in
  fst res <= fst st
  /\ (forall wall q, In wall walls ->
        rayRectIntersect sx sy dx dy wall = Some (Fin q) -> 0 < q -> fst res <= q)
  /\ (res = st
      \/ exists wall, In wall walls /\ snd res = None
           /\ rayRectIntersect sx sy dx dy wall = Some (Fin (fst res))
           /\ 0 < fst res /\ fst res < fst st).
Proof.
  exact (scan_spec (fun w : Rect.t => w) (fun _ => None) sx sy dx dy walls st).
Qed.

Lemma hitscanObstacles_spec sx sy dx dy obs st :
  let res := hitscanObstacles sx sy dx dy obs st in
  fst res <= fst st
  /\ (forall o q, In o obs ->
        rayRectIntersect sx sy dx dy (rectOfObstacle o) = Some (Fin q) -> 0 < q ->
        fst res <= q)
  /\ (res = st
      \/ exists o, In o obs /\ snd res = Some (BreakableObstacle.id o)
           /\ rayRectIntersect sx sy dx dy (rectOfObstacle o) = Some (Fin (fst res))
           /\ 0 < fst res /\ fst res < fst st).
Proof.
  exact (scan_spec rectOfObstacle (fun o => Some (BreakableObstacle.id o))
           sx sy dx dy obs st).
Qed.

(** A shot fired from strictly inside a breakable obstacle is blocked no
    farther than the far side of that obstacle. *)
Lemma hitscan_from_inside_obstacle sx sy dx dy obs st o :
  In o obs ->
  BreakableObstacle.x o < sx -> sx < BreakableObstacle.x o + BreakableObstacle.width o ->
  BreakableObstacle.y o < sy -> sy < BreakableObstacle.y o + BreakableObstacle.height o ->
  ~ (dx == 0 /\ dy == 0) ->
  exists q,
    rayRectIntersect sx sy dx dy (rectOfObstacle o) = Some (Fin q) /\ 0 < q
    /\ fst (hitscanObstacles sx sy dx dy obs st) <= q.
Proof.
  intros Hin X1 X2 Y1 Y2 Hdir.
  destruct (@rayRectIntersect_inside sx sy dx dy (rectOfObstacle o) X1 X2 Y1 Y2 Hdir)
    as (q & Hq & Hpos).
  exists q. split; [exact Hq|]. split; [exact Hpos|].
  destruct (hitscanObstacles_spec sx sy dx dy obs st) as (_ & H2 & _).
  apply (H2 o q Hin Hq Hpos).
Qed.

Lemma damagePlayer_emitted player damage sourceId r :
  exists later, emitted (damagePlayer player damage sourceId r) = later ++ emitted r.
Proof.
  unfold damagePlayer. destruct (Qleb (health player - damage) 0).
  - cbn [players emit set_emitted set_players].
    destruct (lookup id sourceId _) as [source|].
    + destruct (KILL_LIMIT <=? kills source)%Z.
      * eexists [_; _]. reflexivity.
      * eexists [_]. reflexivity.
    + eexists [_]. reflexivity.
  - exists []. reflexivity.
Qed.

(** [handleHitscan] hurts nobody that is dead or protected. *)
Lemma handleHitscan_hurt Math player angle damage range r :
  NoDup (keys id (players r)) ->
  evolves hurt r (handleHitscan Math player angle damage range r).
Proof.
  intro ND. unfold handleHitscan.
  match goal with
  | |- context [hitscanPlayers ?M ?p ?sx ?sy ?dx ?dy ?ts ?st] =>
      destruct (hitscanPlayers_spec M p sx sy dx dy ts st)
        as [E|(t & E & Hin & _ & Hel & _)]
  end.
  - rewrite E. cbn [fst snd].
    destruct (snd (hitscanObstacles _ _ _ _ _ _)) as [obsId|];
      [destruct (String.eqb obsId "")|];
      apply evolves_unchanged; try reflexivity; intro a; apply hurtOnly_refl.
  - rewrite E.
    match goal with
    | |- evolves _ _ (emit _ (damagePlayer ?t ?d ?s ?r0)) =>
        change (evolves hurt r0 (damagePlayer t d s r0));
        apply (damagePlayer_hurt t d s r0 ND Hin)
    end.
    eapply eligible_targetable, Hel.
Qed.

(** C7.  In a hitscan shot, [block] is the smallest of the range and the
    positive intersection distances of the ray with the solid walls and the
    breakable obstacles.  One beam event is emitted whatever the outcome,
    from the shooter to the impact point at distance [endDist] along the
    ray: either an eligible player other than the shooter is hit, strictly
    nearer than [block], or nobody is hit, no player object changes and the
    beam ends at [block], which is the range unless a wall or an obstacle
    is met strictly below it.  A
    player whose circle the ray does not meet nearer than [block] takes no
    damage. *)
Theorem hitscan_occlusion Math player angle damage range r
    (ND : NoDup (keys id (players r))) :
  let sx := x player in
  let sy := y player in
  let dx := JSMath.cos Math angle in
  let dy := JSMath.sin Math angle in
  let walls := ArenaDefinition.walls (ARENAS (currentArena player)) in
  let block :=
    fst (hitscanObstacles sx sy dx dy (obstacles r)
           (hitscanWalls sx sy dx dy walls (range, None))) in
  let r' := handleHitscan Math player angle damage range r in
  block <= range
  /\ (forall wall q, In wall walls ->
        rayRectIntersect sx sy dx dy wall = Some (Fin q) -> 0 < q -> block <= q)
  /\ (forall o q, In o (obstacles r) ->
        rayRectIntersect sx sy dx dy (rectOfObstacle o) = Some (Fin q) -> 0 < q ->
        block <= q)
  /\ (block = range
      \/ exists rect,
           (In rect walls \/ exists o, In o (obstacles r) /\ rect = rectOfObstacle o)
           /\ rayRectIntersect sx sy dx dy rect = Some (Fin block)
           /\ 0 < block /\ block < range)
  /\ (exists endDist later,
        emitted r' =
          later ++ game_hitscan (id player) sx sy (sx + dx * endDist)
                     (sy + dy * endDist) :: emitted r
        /\ ((exists target,
               In target (players r) /\ id target <> id player
               /\ eligible target (currentArena player) (z player) = true
               /\ rayCircle Math sx sy dx dy target = Some endDist
               /\ 0 < endDist /\ endDist < block)
            \/ (endDist = block /\ players r' = players r)))
  /\ (forall pid p,
        lookup id pid (players r) = Some p ->
        (forall t, rayCircle Math sx sy dx dy p = Some t -> block <= t) ->
        players r' = []
        \/ exists p', lookup id pid (players r') = Some p' /\ spared p p').
Proof.
  intros sx sy dx dy walls block r'.
  destruct (hitscanWalls_spec sx sy dx dy walls (range, None)) as (W1 & W2 & W3).
  destruct (hitscanObstacles_spec sx sy dx dy (obstacles r)
              (hitscanWalls sx sy dx dy walls (range, None))) as (O1 & O2 & O3).
  fold block in O1, O2, O3. cbn [fst] in W1.
  split; [lra|]. split.
  { intros wall q Hw Hq Hq0. specialize (W2 wall q Hw Hq Hq0). lra. }
  split; [exact O2|]. split.
  { destruct O3 as [O3|(o & Ho & _ & Hray & Hpos & Hlt)].
    - unfold block. rewrite O3.
      destruct W3 as [W3|(wall & Hw & _ & Hray & Hpos & Hlt)].
      + left. rewrite W3. reflexivity.
      + right. exists wall. cbn [fst] in Hlt. auto.
    - right. exists (rectOfObstacle o).
      split; [right; exists o; auto|]. split; [exact Hray|]. split; [exact Hpos|].
      lra. }
  assert (Hcases :
    hitscanPlayers Math player sx sy dx dy (players r) (None, block) = (None, block)
    \/ exists t, fst (hitscanPlayers Math player sx sy dx dy (players r) (None, block))
                 = Some t
         /\ In t (players r) /\ id t <> id player
         /\ eligible t (currentArena player) (z player) = true
         /\ rayCircle Math sx sy dx dy t
            = Some (snd (hitscanPlayers Math player sx sy dx dy (players r) (None, block)))
         /\ 0 < snd (hitscanPlayers Math player sx sy dx dy (players r) (None, block))
         /\ snd (hitscanPlayers Math player sx sy dx dy (players r) (None, block))
            < block)
    by apply hitscanPlayers_spec.
  assert (Hr' : r' = handleHitscan Math player angle damage range r) by reflexivity.
  unfold handleHitscan in Hr'.
  fold sx sy dx dy walls in Hr'. fold block in Hr'.
  destruct Hcases as [E|(t & E & Hin & Hneq & Hel & Hray & Hpos & Hlt)].
  - rewrite E in Hr'. cbn [fst snd] in Hr'.
    assert (Hsame : players r' = players r /\
                    emitted r' = game_hitscan (id player) sx sy (sx + dx * block)
                                   (sy + dy * block) :: emitted r).
    { rewrite Hr'.
      destruct (snd (hitscanObstacles sx sy dx dy (obstacles r)
                       (hitscanWalls sx sy dx dy walls (range, None))))
        as [obsId|]; [destruct (String.eqb obsId "")|]; split; reflexivity. }
    destruct Hsame as [Hp He]. split.
    + exists block, []. split; [exact He | right; auto].
    + intros pid p L _. right. exists p. rewrite Hp. split; [exact L | reflexivity].
  - rewrite E in Hr'. cbn iota in Hr'.
    set (d := snd (hitscanPlayers Math player sx sy dx dy (players r) (None, block)))
      in *.
    set (r0 := emit (game_hitscan (id player) sx sy (sx + dx * d) (sy + dy * d)) r)
      in *.
    split.
    + exists d.
      destruct (damagePlayer_emitted t damage (id player) r0) as [later Hl].
      exists (game_hit (id t) damage (id player) :: later).
      split; [rewrite Hr'; cbn [emit set_emitted emitted]; rewrite Hl; reflexivity|].
      left. exists t. repeat split; assumption.
    + intros pid p L Hocc.
      assert (Hev : evolves (hurtOnly (fun q => id q = id t)) r r').
      { rewrite Hr'.
        change (evolves (hurtOnly (fun q => id q = id t)) r0
                  (damagePlayer t damage (id player) r0)).
        apply damagePlayer_hurtOnly. }
      destruct (evolves_lookup pid
                  (fun a b (H : hurtOnly (fun q => id q = id t) a b) =>
                     unhurt_id (proj1 H)) Hev L) as [Hnil|(p' & L' & _ & Hsp)];
        [left; exact Hnil|].
      right. exists p'. split; [exact L'|]. apply Hsp.
      intro Eid. destruct (lookup_In id pid (players r) L) as [Hp _].
      assert (p = t) by (apply (NoDup_keys_inj (players r) p t ND Hp Hin Eid)).
      subst p. specialize (Hocc d Hray). lra.
Qed.

Lemma hitscan_occlusion_witness :
  let r' := handleHitscan exampleMath occlusionShooter 0 100 1000 occlusionRoom in
  NoDup (keys id (players occlusionRoom))
  /\ (players r' = []
      \/ exists p', lookup id "b" (players r') = Some p'
           /\ spared (mkPlayer "b" 662 384 20 WINGS ROCKET 0 4) p').
Proof.
  assert (ND : NoDup (keys id (players occlusionRoom))).
  { repeat constructor; simpl; intuition discriminate. }
  split; [exact ND|].
  apply (@hitscan_occlusion exampleMath occlusionShooter 0 100 1000 occlusionRoom ND).
  - reflexivity.
  - intros t Ht. vm_compute in Ht. injection Ht as <-.
    vm_compute. discriminate.
Defined.

(** The scenario of the specification: the wall at distance 100 stops the
    ray; the player behind it keeps its health and the beam ends on the
    wall. *)
Example occlusion_scenario :
  let r' := handleHitscan exampleMath occlusionShooter 0 100 1000 occlusionRoom in
  map health (players r') = [100; 100]
  /\ exists endX endY,
       emitted r' = [game_hitscan "a" 362 384 endX endY]
       /\ endX == 362 + 100 /\ endY == 384.
Proof.
  split; [vm_compute; reflexivity|].
  eexists. eexists. split; [vm_compute; reflexivity|].
  split; vm_compute; reflexivity.
Qed.

(** ** Loops over the room *)

Lemma fold_players_empty (X : Type) (step : GameRoom -> X -> GameRoom) :
  (forall r x, players r = [] -> players (step r x) = []) ->
  forall xs r, players r = [] -> players (fold_left step xs r) = [].
Proof.
  intros Hs xs. induction xs as [|x xs IH]; intros r Hr; simpl; auto.
Qed.

Lemma fold_evolves (X : Type) (R : PlayerState -> PlayerState -> Prop)
    (inputs : list (string * InputState.t)) (step : GameRoom -> X -> GameRoom) :
  (forall a, R a a) ->
  (forall a b c, R a b -> R b c -> R a c) ->
  (forall a b, R a b -> id b = id a) ->
  (forall r x, players r = [] -> players (step r x) = []) ->
  (forall r x, NoDup (keys id (players r)) -> playerInputs r = inputs ->
               evolves R r (step r x)) ->
  forall xs r, NoDup (keys id (players r)) -> playerInputs r = inputs ->
               evolves R r (fold_left step xs r).
Proof.
  intros Hrefl Htrans Hid Hempty Hstep xs.
  induction xs as [|x xs IH]; intros r ND HI; simpl.
  - apply evolves_refl, Hrefl.
  - assert (H1 := Hstep r x ND HI).
    destruct H1 as [Hnil|[HF HI1]].
    + left. apply fold_players_empty; assumption.
    + apply evolves_trans with (step r x); [exact Htrans | right; auto |].
      apply IH; [|congruence].
      rewrite (Forall2_keys Hid HF). exact ND.
Qed.

Lemma players_damagePlayer_empty player damage sourceId r :
  players r = [] -> players (damagePlayer player damage sourceId r) = [].
Proof.
  intro H. destruct (damagePlayer_hurtOnly player damage sourceId r) as [E|[E _]];
    [exact E|].
  rewrite H in E. inversion E. reflexivity.
Qed.

(** ** Projectile collisions *)

Lemma collides_eligible Math proj player :
  collides Math proj player = true ->
  eligible player (ProjectileState.arena proj) (ProjectileState.z proj) = true.
Proof.
  unfold collides. intro H.
  apply andb_true_iff in H. destruct H as [H _].
  apply andb_true_iff in H. destruct H as [_ H]. exact H.
Qed.

(** [checkCollisions] hurts nobody that is dead or protected. *)
Lemma checkCollisions_hurt Math r :
  NoDup (keys id (players r)) -> evolves hurt r (checkCollisions Math r).
Proof.
  intro ND. unfold checkCollisions.
  apply fold_evolves with (inputs := playerInputs r); try assumption; try reflexivity.
  - intro a. apply hurtOnly_refl.
  - exact hurt_trans.
  - exact hurt_id.
  - intros r0 projId H0.
    destruct (lookup ProjectileState.id projId (projectiles r0)); [|exact H0].
    rewrite H0. cbn [find]. exact H0.
  - intros r0 projId ND0 _.
    destruct (lookup ProjectileState.id projId (projectiles r0)) as [proj|];
      [|apply evolves_refl; intro a; apply hurtOnly_refl].
    destruct (find (collides Math proj) (players r0)) as [player|] eqn:F;
      [|apply evolves_refl; intro a; apply hurtOnly_refl].
    apply find_some in F. destruct F as [Hin Hc].
    match goal with
    | |- evolves _ _ (set_projectiles _ (emit _ (damagePlayer ?t ?d ?s ?r1))) =>
        change (evolves hurt r1 (damagePlayer t d s r1))
    end.
    apply damagePlayer_hurt; [exact ND0 | exact Hin |].
    eapply eligible_targetable, collides_eligible, Hc.
Qed.

(** ** The player phase of the tick *)

Lemma adjust_actor active (l : list PlayerState) player f :
  NoDup (keys id l) -> lookup id (id player) l = Some player ->
  active (id player) -> isDead player = false ->
  (forall a, id (f a) = id a) ->
  Forall2 (moved active) l (adjust id (id player) f l)
  /\ NoDup (keys id (adjust id (id player) f l))
  /\ lookup id (id player) (adjust id (id player) f l) = Some (f player).
Proof.
  intros ND L Hact Halive Hid. split; [|split].
  - apply Forall2_adjust.
    + intros a Ha Ea. split; [apply Hid|].
      destruct (lookup_In id _ _ L) as [Hp _].
      rewrite (NoDup_keys_inj l a player ND Ha Hp Ea).
      intros [N|N]; [contradiction | congruence].
    + intros a _. apply moved_refl.
  - rewrite keys_adjust; [exact ND | exact Hid].
  - rewrite lookup_adjust_eq; [rewrite L; reflexivity | exact Hid].
Qed.

Lemma moved_id active p p' : moved active p p' -> id p' = id p.
Proof. intros [H _]. exact H. Qed.

(** A shot changes the shooter and, through [handleHitscan], only hurts
    the others. *)
Lemma tryShoot_moved Math now rnd player r active :
  NoDup (keys id (players r)) ->
  lookup id (id player) (players r) = Some player ->
  active (id player) -> isDead player = false ->
  evolves (moved active) r (tryShoot Math now rnd player r).
Proof.
  intros ND L Hact Halive. unfold tryShoot.
  destruct ((ammo player <=? 0)%Z || isReloading player);
    [apply evolves_refl, moved_refl|].
  destruct (Qltb _ _); [apply evolves_refl, moved_refl|].
  destruct (MAX_PROJECTILES_PER_PLAYER <=? _)%nat; [apply evolves_refl, moved_refl|].
  destruct (@adjust_actor active (players r) player
              (fun p => with_ammo (ammo p - 1) p) ND L Hact Halive
              (fun a => eq_refl)) as (F1 & ND1 & L1).
  cbv zeta.
  set (player1 := with_ammo (ammo player - 1) player) in *.
  set (r1 := set_players
               (adjust id (id player) (fun p => with_ammo (ammo p - 1) p) (players r))
               (set_lastShotTime (insert skey (id player, now) (lastShotTime r)) r)).
  assert (E1 : evolves (moved active) r r1) by (right; split; [exact F1 | reflexivity]).
  set (r2 := if (ammo player1 <=? 0)%Z then startReload player1 r1 else r1).
  assert (E2 : evolves (moved active) r r2
               /\ NoDup (keys id (players r2))).
  { unfold r2. destruct (ammo player1 <=? 0)%Z; [|split; [exact E1 | exact ND1]].
    destruct (@adjust_actor active (players r1) player1 (with_isReloading true)
                ND1 L1 Hact Halive (fun a => eq_refl)) as (F2 & ND2 & _).
    split; [|exact ND2].
    apply evolves_trans with r1; [apply moved_trans | exact E1 |].
    right. split; [exact F2 | reflexivity]. }
  destruct E2 as [E2 ND2].
  destruct (WeaponStats.isHitscan (WEAPON_STATS (weapon player))).
  - apply evolves_trans with r2; [apply moved_trans | exact E2 |].
    eapply evolves_weaken; [|apply handleHitscan_hurt, ND2].
    intros a b. apply hurt_moved.
  - eapply evolves_same; [exact E2 | reflexivity | reflexivity].
Qed.

Lemma updatePlayer_moved Math now rnd player input r active :
  NoDup (keys id (players r)) ->
  lookup id (id player) (players r) = Some player ->
  active (id player) -> isDead player = false ->
  evolves (moved active) r (updatePlayer Math now rnd player input r).
Proof.
  intros ND L Hact Halive. unfold updatePlayer.
  destruct (@adjust_actor active (players r) player (movePlayer Math input)
              ND L Hact Halive (fun a => eq_refl)) as (F1 & ND1 & L1).
  set (r1 := set_players (adjust id (id player) (movePlayer Math input) (players r)) r).
  assert (E1 : evolves (moved active) r r1) by (right; split; [exact F1 | reflexivity]).
  destruct (InputState.shooting input); [|exact E1].
  apply evolves_trans with r1; [apply moved_trans | exact E1 |].
  apply tryShoot_moved; assumption.
Qed.

(** The player phase of a tick leaves a player that is dead, or whose input
    has not arrived, to what the others' shots do to it. *)
Lemma updatePlayers_moved Math now rnd r :
  NoDup (keys id (players r)) ->
  evolves (moved (hasInput r)) r (updatePlayers Math now rnd r).
Proof.
  intro ND. unfold updatePlayers.
  apply fold_evolves with (inputs := playerInputs r); try assumption; try reflexivity.
  - apply moved_refl.
  - apply moved_trans.
  - apply moved_id.
  - intros r0 pid H0. rewrite H0. cbn [lookup]. exact H0.
  - intros r0 pid ND0 HI.
    destruct (lookup id pid (players r0)) as [player|] eqn:L;
      [|apply evolves_refl, moved_refl].
    destruct (isDead player) eqn:D; [apply evolves_refl, moved_refl|].
    destruct (lookup skey pid (playerInputs r0)) as [[k input]|] eqn:LI;
      [|apply evolves_refl, moved_refl].
    destruct (lookup_In id pid (players r0) L) as [_ Eid].
    apply updatePlayer_moved; try assumption.
    + rewrite Eid. exact L.
    + unfold hasInput. rewrite Eid, <- HI, LI. discriminate.
Qed.

Lemma update_moved Math now rnd r :
  NoDup (keys id (players r)) ->
  evolves (moved (hasInput r)) r (update Math now rnd r).
Proof.
  intro ND. unfold update.
  assert (E1 := @updatePlayers_moved Math now rnd r ND).
  set (r1 := updatePlayers Math now rnd r) in *.
  assert (ND1 : NoDup (keys id (players r1)))
    by (apply (evolves_keys (@moved_id (hasInput r)) E1 ND)).
  apply evolves_trans with (updateProjectiles Math now r1); [apply moved_trans | |].
  - eapply evolves_same; [exact E1 | reflexivity | reflexivity].
  - eapply evolves_weaken; [|apply checkCollisions_hurt; exact ND1].
    intros a b. apply hurt_moved.
Qed.

Lemma spared_fields p p' :
  spared p p' ->
  health p' = health p /\ isDead p' = isDead p /\ deaths p' = deaths p
  /\ x p' = x p /\ y p' = y p /\ z p' = z p
  /\ velocityX p' = velocityX p /\ velocityY p' = velocityY p
  /\ velocityZ p' = velocityZ p
  /\ fuel p' = fuel p /\ ammo p' = ammo p /\ isReloading p' = isReloading p
  /\ isInSpawn p' = isInSpawn p.
Proof.
  unfold spared. intro H.
  repeat split;
    match goal with
    | |- ?f p' = ?f p =>
        change (f (with_kills 0 p') = f (with_kills 0 p)); rewrite H; reflexivity
    end.
Qed.

Lemma unhurt_fields p p' :
  unhurt p' = unhurt p ->
  x p' = x p /\ y p' = y p /\ z p' = z p
  /\ velocityX p' = velocityX p /\ velocityY p' = velocityY p
  /\ velocityZ p' = velocityZ p /\ angle p' = angle p
  /\ fuel p' = fuel p /\ ammo p' = ammo p /\ isReloading p' = isReloading p.
Proof.
  intro H.
  repeat split;
    match goal with
    | |- ?f p' = ?f p =>
        change (f (unhurt p') = f (unhurt p)); rewrite H; reflexivity
    end.
Qed.

(** ** Spawn protection, death and missing input *)

(** C1 (counterexample).  A sniper under spawn protection fires during a
    tick and kills an unprotected player: protection does not stop its
    holder from dealing damage. *)
Lemma protected_player_deals_damage :
  let r' := update exampleMath 5000 (fun _ => 0.5) protectedSniperRoom in
  option_map isInSpawn (lookup id "s" (players protectedSniperRoom)) = Some true
  /\ option_map health (lookup id "t" (players protectedSniperRoom)) = Some 100
  /\ option_map health (lookup id "t" (players r')) = Some 0
  /\ option_map kills (lookup id "s" (players r')) = Some 1%Z.
Proof.
  cbv zeta. repeat split; vm_compute; reflexivity.
Qed.

(** C1 (amended).  A player whose spawn-protection flag is set fails the
    eligibility test of both the hitscan and the projectile check, and
    neither resolution changes anything of it but its kill count; its own
    shots are not restrained. *)
Theorem protected_player_takes_no_damage Math r pid p
    (ND : NoDup (keys id (players r)))
    (L : lookup id pid (players r) = Some p)
    (Hprot : isInSpawn p = true) :
  (forall arena z0, eligible p arena z0 = false)
  /\ (forall shooter angle damage range,
        let r' := handleHitscan Math shooter angle damage range r in
        players r' = []
        \/ exists p', lookup id pid (players r') = Some p' /\ spared p p')
  /\ (let r' := checkCollisions Math r in
      players r' = []
      \/ exists p', lookup id pid (players r') = Some p' /\ spared p p').
Proof.
  assert (Hu : ~ untargetable p = false).
  { unfold untargetable. rewrite Hprot, orb_true_r. discriminate. }
  split; [|split].
  - intros arena z0. unfold eligible. rewrite Hprot.
    destruct (isDead p), (ArenaId_eqb (currentArena p) arena); reflexivity.
  - intros shooter angle damage range r'.
    destruct (evolves_lookup pid hurt_id
                (@handleHitscan_hurt Math shooter angle damage range r ND) L)
      as [H|(p' & L' & _ & Hs)]; [left; exact H|].
    right. exists p'. auto.
  - intros r'.
    destruct (evolves_lookup pid hurt_id (@checkCollisions_hurt Math r ND) L)
      as [H|(p' & L' & _ & Hs)]; [left; exact H|].
    right. exists p'. auto.
Qed.

Lemma protected_player_takes_no_damage_witness :
  NoDup (keys id (players protectedSniperRoom))
  /\ lookup id "s" (players protectedSniperRoom) = Some protectedSniper
  /\ isInSpawn protectedSniper = true
  /\ eligible protectedSniper CENTER 20 = false.
Proof.
  assert (ND : NoDup (keys id (players protectedSniperRoom))).
  { repeat constructor; simpl; intuition discriminate. }
  split; [exact ND|]. split; [reflexivity|]. split; [reflexivity|].
  apply (@protected_player_takes_no_damage exampleMath protectedSniperRoom "s"
           protectedSniper ND eq_refl eq_refl).
Defined.

(** C6 (counterexample).  A dead player's rocket, fired before it died,
    kills another player during a tick: the dead player's kill count goes
    from 0 to 1. *)
Lemma dead_player_kill_count_changes :
  let r' := update exampleMath 1000 (fun _ => 0.5) deadOwnerRoom in
  option_map isDead (lookup id "d" (players deadOwnerRoom)) = Some true
  /\ option_map kills (lookup id "d" (players deadOwnerRoom)) = Some 0%Z
  /\ option_map kills (lookup id "d" (players r')) = Some 1%Z
  /\ option_map isDead (lookup id "d" (players r')) = Some true.
Proof.
  cbv zeta. repeat split; vm_compute; reflexivity.
Qed.

(** C6 (amended).  While its dead flag is set, a player is not eligible as
    a target, and neither a hitscan shot, nor the projectile collision
    check, nor a whole tick changes anything of it but its kill count
    (which one of its own projectiles still in flight can raise): health,
    death count, position, velocity, fuel and ammo stay as they are, unless
    the match ends and the players are cleared. *)
Theorem dead_player_is_left_alone Math r pid p
    (ND : NoDup (keys id (players r)))
    (L : lookup id pid (players r) = Some p)
    (Hdead : isDead p = true) :
  (forall arena z0, eligible p arena z0 = false)
  /\ (forall shooter angle damage range,
        let r' := handleHitscan Math shooter angle damage range r in
        players r' = []
        \/ exists p', lookup id pid (players r') = Some p' /\ spared p p')
  /\ (let r' := checkCollisions Math r in
      players r' = []
      \/ exists p', lookup id pid (players r') = Some p' /\ spared p p')
  /\ (forall now rnd,
        let r' := update Math now rnd r in
        players r' = []
        \/ exists p', lookup id pid (players r') = Some p' /\ spared p p').
Proof.
  assert (Hu : ~ untargetable p = false).
  { unfold untargetable. rewrite Hdead. discriminate. }
  split; [|split; [|split]].
  - intros arena z0. unfold eligible. rewrite Hdead. reflexivity.
  - intros shooter angle damage range r'.
    destruct (evolves_lookup pid hurt_id
                (@handleHitscan_hurt Math shooter angle damage range r ND) L)
      as [H|(p' & L' & _ & Hs)]; [left; exact H|].
    right. exists p'. auto.
  - intros r'.
    destruct (evolves_lookup pid hurt_id (@checkCollisions_hurt Math r ND) L)
      as [H|(p' & L' & _ & Hs)]; [left; exact H|].
    right. exists p'. auto.
  - intros now rnd r'.
    destruct (evolves_lookup pid (@moved_id (hasInput r))
                (@update_moved Math now rnd r ND) L)
      as [H|(p' & L' & _ & Hm)]; [left; exact H|].
    right. exists p'. split; [exact L'|].
    destruct Hm as [_ Hs]; [right; exact Hdead|]. apply Hs, Hu.
Qed.

Lemma dead_player_is_left_alone_witness :
  NoDup (keys id (players deadOwnerRoom))
  /\ lookup id "d" (players deadOwnerRoom) = Some deadOwner
  /\ isDead deadOwner = true
  /\ (let r' := update exampleMath 1000 (fun _ => 0.5) deadOwnerRoom in
      players r' = []
      \/ exists p', lookup id "d" (players r') = Some p' /\ spared deadOwner p').
Proof.
  assert (ND : NoDup (keys id (players deadOwnerRoom))).
  { repeat constructor; simpl; intuition discriminate. }
  split; [exact ND|]. split; [reflexivity|]. split; [reflexivity|].
  apply (@dead_player_is_left_alone exampleMath deadOwnerRoom "d" deadOwner
           ND eq_refl eq_refl).
Defined.

(** C2 (counterexample).  At the start of a match no input has arrived.  A
    tick leaves the first player, alive and on wings, at altitude 20; had
    the all-false input record been received, the same tick would have let
    it fall to 19.5. *)
Lemma no_input_is_not_idle_input :
  let r := matchStart in
  let r_idle := handleInput "a" idleInput matchStart in
  lookup skey "a" (playerInputs r) = None
  /\ option_map isDead (lookup id "a" (players r)) = Some false
  /\ option_map z (lookup id "a" (players (update exampleMath 0 (fun _ => 0.5) r)))
     = Some 20
  /\ option_map z (lookup id "a" (players (update exampleMath 0 (fun _ => 0.5) r_idle)))
     = Some 19.5.
Proof.
  cbv zeta. repeat split; vm_compute; reflexivity.
Qed.

(** C2 (amended).  For a player for which no input record has arrived, the
    movement and weapon update of the tick is skipped: after the tick its
    position, velocity, facing angle, fuel, ammo and reloading flag are what
    they were (no friction, gravity, integration or clamping is applied);
    only damage resolution may have written its health, dead flag, death
    count and kill count, unless the match ended and the players were
    cleared. *)
Theorem no_input_skips_update Math now rnd r pid p
    (ND : NoDup (keys id (players r)))
    (L : lookup id pid (players r) = Some p)
    (Hnone : lookup skey pid (playerInputs r) = None) :
  let r' := update Math now rnd r in
  players r' = []
  \/ exists p', lookup id pid (players r') = Some p' /\ unhurt p' = unhurt p.
Proof.
  intro r'.
  destruct (evolves_lookup pid (@moved_id (hasInput r))
              (@update_moved Math now rnd r ND) L)
    as [H|(p' & L' & _ & Hm)]; [left; exact H|].
  right. exists p'. split; [exact L'|].
  destruct Hm as [Hu _]; [|exact Hu].
  left. unfold hasInput. destruct (lookup_In id pid (players r) L) as [_ ->].
  rewrite Hnone. intro N. apply N. reflexivity.
Qed.

Lemma no_input_skips_update_witness :
  NoDup (keys id (players matchStart))
  /\ lookup skey "a" (playerInputs matchStart) = None
  /\ exists p,
       lookup id "a" (players matchStart) = Some p
       /\ (let r' := update exampleMath 0 (fun _ => 0.5) matchStart in
           players r' = []
           \/ exists p', lookup id "a" (players r') = Some p'
                /\ unhurt p' = unhurt p).
Proof.
  assert (ND : NoDup (keys id (players matchStart))).
  { repeat constructor; simpl; intuition discriminate. }
  split; [exact ND|]. split; [reflexivity|].
  eexists. split; [reflexivity|].
  apply (@no_input_skips_update exampleMath 0 (fun _ => 0.5) matchStart "a" _
           ND eq_refl eq_refl).
Defined.

(** ** A reload that completes after its owner died *)

Lemma lookup_respawnPlayer pid p r :
  lookup id pid (players r) = Some p -> isDead p = true ->
  exists spawn,
    lookup id pid (players (respawnPlayer pid r))
    = Some (with_isInSpawn true (respawned spawn p)).
Proof.
  intros L D. unfold respawnPlayer. rewrite L, D. cbn [negb].
  destruct (lookup_In id pid (players r) L) as [_ Eid].
  eexists. unfold grantSpawnProtection, armTimer, clearMapped, clearHandle.
  cbn [players set_players set_reloadTimers set_timers set_nextTimer
       set_spawnProtectionTimers fst snd].
  rewrite Eid.
  rewrite lookup_adjust_eq by reflexivity.
  rewrite lookup_adjust_eq by reflexivity.
  rewrite L. reflexivity.
Qed.

(** What leaves the clip of a dead player alone *)

Lemma keepsClip_here pid p r : lookup id pid (players r) = Some p -> keepsClip pid p r.
Proof. intro L. right. exists p. auto. Qed.

Lemma keepsClip_same pid p r r' :
  players r' = players r -> keepsClip pid p r -> keepsClip pid p r'.
Proof. unfold keepsClip. intros ->. auto. Qed.

Lemma keepsClip_adjust pid p k f r r' :
  (forall q, id (f q) = id q) ->
  (k = pid ->
   forall q, ammo (f q) = ammo q /\ isReloading (f q) = isReloading q
             /\ isDead (f q) = isDead q) ->
  players r' = adjust id k f (players r) ->
  keepsClip pid p r -> keepsClip pid p r'.
Proof.
  unfold keepsClip. intros Hid Hf -> H. rewrite (lookup_adjust id k pid f _ Hid).
  destruct (String.eqb pid k) eqn:E; [|exact H].
  apply String.eqb_eq in E. symmetry in E.
  destruct H as [H|(p' & L & A & B & C)]; [left; rewrite H; reflexivity|].
  right. rewrite L. exists (f p'). split; [reflexivity|].
  destruct (Hf E p') as (X & Y & Z). repeat split; congruence.
Qed.

Lemma keepsClip_remove pid p k r r' :
  players r' = remove id k (players r) -> keepsClip pid p r -> keepsClip pid p r'.
Proof.
  unfold keepsClip. intros -> H. destruct (String.eqb pid k) eqn:E.
  - apply String.eqb_eq in E. subst k. left. apply lookup_remove_eq.
  - apply String.eqb_neq in E. rewrite lookup_remove_ne by exact E. exact H.
Qed.

Lemma keepsClip_gone pid p r : players r = [] -> keepsClip pid p r.
Proof. intro H. left. rewrite H. reflexivity. Qed.

Lemma players_clearHandle h r : players (clearHandle h r) = players r.
Proof. reflexivity. Qed.

Lemma grantSpawnProtection_keepsClip pid p player r :
  keepsClip pid p r -> keepsClip pid p (grantSpawnProtection player r).
Proof.
  apply keepsClip_adjust with (k := id player) (f := with_isInSpawn true).
  - reflexivity.
  - intros _ q. repeat split.
  - unfold grantSpawnProtection, armTimer, clearMapped.
    cbn [players set_spawnProtectionTimers set_nextTimer set_timers fst snd].
    rewrite players_clearHandle. reflexivity.
Qed.

Lemma startGameLoop_keepsClip pid p r :
  keepsClip pid p r -> keepsClip pid p (startGameLoop r).
Proof.
  intro H. unfold startGameLoop.
  assert (G : forall ps r0, keepsClip pid p r0 ->
                keepsClip pid p
                  (fold_left (fun r player => grantSpawnProtection player r) ps r0)).
  { induction ps as [|q ps IH]; intros r0 H0; [exact H0|].
    cbn [fold_left]. apply IH, grantSpawnProtection_keepsClip, H0. }
  apply keepsClip_same with
    (fold_left (fun r player => grantSpawnProtection player r) (players r) r);
    [reflexivity | apply G, H].
Qed.

Lemma update_keepsClip Math now rnd r pid p :
  NoDup (keys id (players r)) ->
  lookup id pid (players r) = Some p -> isDead p = true ->
  players (update Math now rnd r) = []
  \/ exists p', lookup id pid (players (update Math now rnd r)) = Some p'
       /\ ammo p' = ammo p /\ isReloading p' = isReloading p
       /\ isDead p' = isDead p.
Proof.
  intros ND L Hdead.
  destruct (evolves_lookup pid (@moved_id (hasInput r))
              (@update_moved Math now rnd r ND) L)
    as [H|(p' & L' & _ & Hm)]; [left; exact H|].
  right. exists p'. split; [exact L'|].
  assert (Hs : spared p p').
  { destruct Hm as [_ Hs]; [right; exact Hdead|]. apply Hs.
    unfold untargetable. rewrite Hdead. discriminate. }
  destruct (spared_fields Hs) as (_ & Hd & _ & _ & _ & _ & _ & _ & _ & _ & Ha & Hr & _).
  auto.
Qed.

Lemma fire_keepsClip Math h now rnd r pid p :
  NoDup (keys id (players r)) ->
  lookup id pid (players r) = Some p -> isDead p = true ->
  keepsClip pid p (fire Math h now rnd r).
Proof.
  intros ND L Hdead. pose proof (keepsClip_here pid r L) as K.
  unfold fire.
  destruct (find _ (timers r)) as [[h' [| n | k w d | k | ]]|]; [| | | | |exact K].
  - unfold gameLoopCallback, broadcastState. cbv zeta.
    destruct (@update_keepsClip Math now rnd r pid p ND L Hdead) as [E|E].
    + apply keepsClip_gone. exact E.
    + right. exact E.
  - unfold countdownCallback. cbv zeta. destruct (0 <? n - 1)%Z.
    + apply (keepsClip_same (r := r)); [reflexivity | exact K].
    + apply startGameLoop_keepsClip.
      apply (keepsClip_same (r := r)); [|exact K].
      cbn [players emit set_emitted set_countdownInterval].
      rewrite players_clearHandle. reflexivity.
  - unfold reloadCallback. cbn [players clearTimer set_timers].
    destruct (String.eqb k pid) eqn:E.
    + apply String.eqb_eq in E. subst k. rewrite L, Hdead.
      apply (keepsClip_same (r := r)); [reflexivity | exact K].
    + apply String.eqb_neq in E.
      destruct (lookup id k (players r)) as [q|].
      * destruct (isDead q); [apply (keepsClip_same (r := r)); [reflexivity | exact K]|].
        apply keepsClip_adjust with
          (k := k)
          (f := fun p0 => with_ammo (WeaponStats.clipSize (WEAPON_STATS w))
                            (with_isReloading false p0))
          (r := r); [reflexivity | intro X; contradiction | reflexivity | exact K].
      * apply (keepsClip_same (r := r)); [reflexivity | exact K].
  - apply keepsClip_adjust with (k := k) (f := with_isInSpawn false) (r := r);
      [reflexivity | intros _ q; repeat split | reflexivity | exact K].
  - apply (keepsClip_same (r := r)); [reflexivity | exact K].
Qed.

Lemma step_keepsClip Math r pid p op :
  NoDup (keys id (players r)) ->
  lookup id pid (players r) = Some p -> isDead p = true ->
  gameStarted r || inLoadoutPhase r = true ->
  op = OpRespawnPlayer pid
  \/ (exists m w, op = OpSetPlayerLoadout pid m w)
  \/ keepsClip pid p (step Math r op).
Proof.
  intros ND L Hdead Hplay. pose proof (keepsClip_here pid r L) as K.
  destruct op as [k nm|k|k b|k b|k m w| |k input|k|k|h now rnd| ]; cbn [step].
  - right. right. apply (keepsClip_same (r := r)); [reflexivity | exact K].
  - right. right. apply keepsClip_remove with (k := k) (r := r); [|exact K].
    unfold removePlayer, clearMapped. cbv zeta.
    cbn [players set_spawnProtectionTimers set_reloadTimers set_playerInputs
         set_players set_lobbyPlayers reloadTimers spawnProtectionTimers].
    rewrite !players_clearHandle. reflexivity.
  - right. right. apply (keepsClip_same (r := r)); [reflexivity | exact K].
  - right. right. apply (keepsClip_same (r := r)); [|exact K].
    unfold setPlayerLoadoutReady, checkAllLoadoutReady, startGameFromLoadout. cbv zeta.
    cbn [lobbyPlayers set_lobbyPlayers inLoadoutPhase countdownStarted].
    destruct b; [|reflexivity].
    destruct (_ <? 2)%nat; [reflexivity|].
    destruct (_ && _); [|reflexivity].
    destruct (countdownStarted r); reflexivity.
  - destruct (String.eqb k pid) eqn:E.
    + apply String.eqb_eq in E. subst k. right. left. exists m, w. reflexivity.
    + apply String.eqb_neq in E. right. right.
      unfold setPlayerLoadout. cbv zeta. cbn [players set_lobbyPlayers].
      destruct (lookup id k (players r)) as [q|];
        [|apply (keepsClip_same (r := r)); [reflexivity | exact K]].
      match goal with
      | |- keepsClip _ _ (set_reloadTimers _ (clearMapped _ _ (set_players (adjust id k ?g _) _))) =>
          apply keepsClip_adjust with (k := k) (f := g) (r := r);
            [reflexivity | intro X; contradiction | | exact K]
      end.
      unfold clearMapped. cbn [players set_reloadTimers].
      rewrite players_clearHandle. reflexivity.
  - right. right. unfold startGame. rewrite Hplay. exact K.
  - right. right. apply (keepsClip_same (r := r)); [reflexivity | exact K].
  - right. right. unfold manualReload.
    destruct (String.eqb k pid) eqn:E.
    + apply String.eqb_eq in E. subst k. rewrite L, Hdead. exact K.
    + apply String.eqb_neq in E.
      destruct (lookup id k (players r)) as [q|] eqn:Lq; [|exact K].
      destruct (isDead q || isReloading q); [exact K|].
      destruct (_ <=? _)%Z; [exact K|].
      destruct (lookup_In id k _ Lq) as [_ Eq].
      apply keepsClip_adjust with (k := id q) (f := with_isReloading true) (r := r);
        [reflexivity | intro X; congruence | reflexivity | exact K].
  - destruct (String.eqb k pid) eqn:E.
    + apply String.eqb_eq in E. subst k. left. reflexivity.
    + apply String.eqb_neq in E. right. right. unfold respawnPlayer.
      destruct (lookup id k (players r)) as [q|] eqn:Lq; [|exact K].
      destruct (negb (isDead q)); [exact K|]. cbv zeta.
      destruct (lookup_In id k _ Lq) as [_ Eq].
      apply grantSpawnProtection_keepsClip.
      match goal with
      | |- keepsClip _ _ (set_reloadTimers _ (clearMapped _ _ (set_players (adjust id k ?g _) _))) =>
          apply keepsClip_adjust with (k := k) (f := g) (r := r);
            [reflexivity | intro X; contradiction | | exact K]
      end.
      unfold clearMapped. cbn [players set_reloadTimers].
      rewrite players_clearHandle. reflexivity.
  - right. right. apply fire_keepsClip; assumption.
  - right. right. apply keepsClip_gone. reflexivity.
Qed.

(** C10 (counterexample).  A player that died while reloading, with an
    empty clip, gets a loadout change (here to the loadout it has): it is
    still dead and was not respawned, but its clip is full, it is no longer
    flagged as reloading and its reload timer is dropped. *)
Lemma dead_reloader_refilled_by_loadout :
  let r' := step exampleMath diedReloadingRoom (OpSetPlayerLoadout "d" WINGS ROCKET) in
  option_map (fun p => (isDead p, ammo p, isReloading p))
    (lookup id "d" (players diedReloadingRoom)) = Some (true, 0%Z, true)
  /\ option_map (fun p => (isDead p, ammo p, isReloading p))
       (lookup id "d" (players r')) = Some (true, 4%Z, false)
  /\ lookup skey "d" (reloadTimers diedReloadingRoom) = Some ("d", 5%nat)
  /\ lookup skey "d" (reloadTimers r') = None.
Proof.
  cbv zeta. repeat split; vm_compute; reflexivity.
Qed.

(** C10 (amended).  When the reload callback runs while the player it
    captured is dead, it changes nothing: fired from the timer queue, it
    leaves every player object (so the pre-death ammo and the set reloading
    flag) and the reload-timer map as they were.  A manual reload request
    is rejected and a tick leaves the dead player's ammo and flag alone.
    Respawning refills the clip of the player's weapon and clears the
    flag; so does a loadout change, which leaves the player dead.  While a
    match or its loadout phase is under way, every other operation of the
    room either drops the player or leaves its ammo, its reloading flag
    and its dead flag as they were. *)
Theorem stale_reload_on_dead_player Math r pid p w
    (ND : NoDup (keys id (players r)))
    (L : lookup id pid (players r) = Some p)
    (Hdead : isDead p = true) :
  reloadCallback pid w r = r
  /\ (forall h d now rnd,
        find (fun e => Nat.eqb (fst e) h) (timers r) = Some (h, ReloadTimeout pid w d) ->
        players (fire Math h now rnd r) = players r
        /\ reloadTimers (fire Math h now rnd r) = reloadTimers r)
  /\ manualReload pid r = r
  /\ (forall now rnd,
        players (update Math now rnd r) = []
        \/ exists p', lookup id pid (players (update Math now rnd r)) = Some p'
             /\ ammo p' = ammo p /\ isReloading p' = isReloading p)
  /\ (exists p', lookup id pid (players (respawnPlayer pid r)) = Some p'
        /\ ammo p' = WeaponStats.clipSize (WEAPON_STATS (weapon p))
        /\ isReloading p' = false /\ isDead p' = false)
  /\ (forall m w',
        exists p', lookup id pid (players (setPlayerLoadout pid m w' r)) = Some p'
          /\ ammo p' = WeaponStats.clipSize (WEAPON_STATS w')
          /\ isReloading p' = false /\ isDead p' = true)
  /\ (gameStarted r || inLoadoutPhase r = true ->
      forall op,
        op = OpRespawnPlayer pid
        \/ (exists m w', op = OpSetPlayerLoadout pid m w')
        \/ keepsClip pid p (step Math r op)).
Proof.
  split; [|split; [|split; [|split; [|split; [|split]]]]].
  - unfold reloadCallback. rewrite L, Hdead. reflexivity.
  - intros h d now rnd F. unfold fire. rewrite F.
    unfold reloadCallback. cbn [players clearTimer set_timers].
    rewrite L, Hdead. split; reflexivity.
  - unfold manualReload. rewrite L, Hdead. reflexivity.
  - intros now rnd.
    destruct (evolves_lookup pid (@moved_id (hasInput r))
                (@update_moved Math now rnd r ND) L)
      as [H|(p' & L' & _ & Hm)]; [left; exact H|].
    right. exists p'. split; [exact L'|].
    assert (Hs : spared p p').
    { destruct Hm as [_ Hs]; [right; exact Hdead|]. apply Hs.
      unfold untargetable. rewrite Hdead. discriminate. }
    destruct (spared_fields Hs) as (_ & _ & _ & _ & _ & _ & _ & _ & _ & _ & Ha & Hr & _).
    auto.
  - destruct (lookup_respawnPlayer pid r L Hdead) as [spawn Hl].
    eexists. split; [exact Hl|]. repeat split.
  - intros m w'. unfold setPlayerLoadout. cbv zeta.
    cbn [players set_lobbyPlayers]. rewrite L.
    unfold clearMapped. cbn [players set_reloadTimers set_players].
    rewrite players_clearHandle. cbn [players set_players].
    rewrite lookup_adjust_eq by reflexivity. rewrite L.
    eexists. split; [reflexivity|]. repeat split. exact Hdead.
  - intros Hplay op. apply step_keepsClip; assumption.
Qed.

Lemma stale_reload_on_dead_player_witness :
  NoDup (keys id (players diedReloadingRoom))
  /\ lookup id "d" (players diedReloadingRoom) = Some diedReloading
  /\ isDead diedReloading = true
  /\ players (fire exampleMath 5 3000 (fun _ => 0.5) diedReloadingRoom)
     = players diedReloadingRoom
  /\ reloadTimers (fire exampleMath 5 3000 (fun _ => 0.5) diedReloadingRoom)
     = reloadTimers diedReloadingRoom.
Proof.
  assert (ND : NoDup (keys id (players diedReloadingRoom))).
  { repeat constructor; simpl; intuition discriminate. }
  split; [exact ND|]. split; [reflexivity|]. split; [reflexivity|].
  apply (proj1 (proj2 (@stale_reload_on_dead_player exampleMath diedReloadingRoom
                         "d" diedReloading ROCKET ND eq_refl eq_refl))
           5%nat 2500 3000 (fun _ => 0.5)).
  reflexivity.
Defined.

(** ** Reaching the kill limit *)

Lemma In_disarm h e ts : In e (disarm h ts) -> In e ts /\ fst e <> h.
Proof.
  unfold disarm. intro H. apply filter_In in H. destruct H as [H1 H2].
  split; [exact H1|]. apply negb_true_iff in H2. apply Nat.eqb_neq in H2. exact H2.
Qed.

Lemma In_disarm_all hs e ts :
  In e (fold_left (fun ts h => disarm h ts) hs ts) ->
  In e ts /\ ~ In (fst e) hs.
Proof.
  revert ts. induction hs as [|h hs IH]; intros ts H; simpl in *; [tauto|].
  apply IH in H. destruct H as [H1 H2].
  apply In_disarm in H1. destruct H1 as [H1 H3].
  split; [exact H1|]. intros [E|E]; [congruence | contradiction].
Qed.

Lemma lookup_scores (f : PlayerState -> Z * Z) k l :
  lookup skey k (map (fun p => (id p, f p)) l)
  = option_map (fun p => (id p, f p)) (lookup id k l).
Proof.
  induction l as [|a l IH]; simpl; [reflexivity|].
  unfold skey at 1. cbn [fst]. destruct (String.eqb (id a) k); [reflexivity | exact IH].
Qed.

(** A tick on a room without entities leaves it without entities. *)
Lemma gameLoopCallback_no_entities Math now rnd r :
  players r = [] -> projectiles r = [] -> obstacles r = [] ->
  players (gameLoopCallback Math now rnd r) = []
  /\ projectiles (gameLoopCallback Math now rnd r) = []
  /\ obstacles (gameLoopCallback Math now rnd r) = [].
Proof.
  intros Hp Hj Ho.
  unfold gameLoopCallback, update, updatePlayers, updateProjectiles, checkCollisions.
  rewrite Hp. cbn [keys map fold_left]. rewrite Hj, Ho.
  cbn. auto.
Qed.

Lemma ticks_no_entities Math ticks r :
  players r = [] -> projectiles r = [] -> obstacles r = [] ->
  let r' := fold_left (fun r t => gameLoopCallback Math (fst t) (snd t) r) ticks r in
  players r' = [] /\ projectiles r' = [] /\ obstacles r' = [].
Proof.
  revert r. induction ticks as [|t ticks IH]; intros r Hp Hj Ho; simpl; [auto|].
  destruct (gameLoopCallback_no_entities Math (fst t) (snd t) r Hp Hj Ho)
    as (H1 & H2 & H3).
  apply IH; assumption.
Qed.

Lemma endGame_fields w r :
  gameLoop (endGame w r) = None
  /\ emitted (endGame w r)
     = game_ended w (map (fun p => (id p, (kills p, deaths p))) (players r))
         :: emitted r
  /\ timers (endGame w r)
     = fold_left (fun ts h => disarm h ts) (map snd (spawnProtectionTimers r))
         (fold_left (fun ts h => disarm h ts) (map snd (reloadTimers r))
            (match gameLoop r with
             | Some h => disarm h (timers r)
             | None => timers r
             end))
       ++ [(nextTimer r, RoomUpdatedTimeout)]
  /\ players (endGame w r) = [] /\ projectiles (endGame w r) = []
  /\ obstacles (endGame w r) = [] /\ playerInputs (endGame w r) = []
  /\ gameStarted (endGame w r) = false /\ inLoadoutPhase (endGame w r) = false.
Proof. repeat split; reflexivity. Qed.

Lemma reloadTimers_endGame w r : reloadTimers (endGame w r) = [].
Proof. reflexivity. Qed.

Lemma damagePlayer_lethal player damage sourceId r :
  health player - damage <= 0 ->
  damagePlayer player damage sourceId r =
  let ps := adjust id sourceId (fun s => with_kills (kills s + 1) s)
              (adjust id (id player)
                 (fun p => with_deaths (deaths p + 1)
                             (with_isDead true (with_health 0 p)))
                 (players r)) in
  let r1 := emit (game_kill sourceId (id player)) (set_players ps r) in
  match lookup id sourceId ps with
  | Some source =>
      if (KILL_LIMIT <=? kills source)%Z then endGame (id source) r1 else r1
  | None => r1
  end.
Proof.
  intro H. apply Qleb_le in H. unfold damagePlayer. rewrite H. reflexivity.
Qed.

(** C4.  When [damagePlayer] kills its target and the kill brings the
    source to the kill limit, the same call ends the match: the game-loop
    interval is disarmed and its handle dropped, so that no game loop at all
    stays armed where every armed one was the one [gameLoop] pointed to (as
    in every room the operations reach); the final scores (the kill
    and the death just counted included) go out in a game-ended event right
    after the kill event, the players, projectiles, obstacles and buffered
    inputs are cleared and the room is back in the lobby; whatever ticks
    might still run find no entity to advance. *)
Theorem kill_limit_ends_match player damage sourceId source r
    (Lp : lookup id (id player) (players r) = Some player)
    (Hlethal : health player - damage <= 0)
    (Ls : lookup id sourceId (players r) = Some source)
    (Hother : sourceId <> id player)
    (Hlimit : (KILL_LIMIT <= kills source + 1)%Z) :
  let r' := damagePlayer player damage sourceId r in
  gameLoop r' = None
  /\ (forall h, gameLoop r = Some h -> ~ In (h, GameLoopInterval) (timers r'))
  /\ (oneLoop r -> noLoop r')
  /\ (exists scores,
        emitted r' = game_ended sourceId scores
                       :: game_kill sourceId (id player) :: emitted r
        /\ map fst scores = keys id (players r)
        /\ lookup skey sourceId scores
           = Some (sourceId, ((kills source + 1)%Z, deaths source))
        /\ lookup skey (id player) scores
           = Some (id player, (kills player, (deaths player + 1)%Z)))
  /\ players r' = [] /\ projectiles r' = [] /\ obstacles r' = []
  /\ playerInputs r' = []
  /\ gameStarted r' = false /\ inLoadoutPhase r' = false
  /\ (forall Math ticks,
        let r'' := fold_left
                     (fun r t => gameLoopCallback Math (fst t) (snd t) r) ticks r' in
        players r'' = [] /\ projectiles r'' = [] /\ obstacles r'' = []).
Proof.
  intro r'.
  set (hit := fun p => with_deaths (deaths p + 1) (with_isDead true (with_health 0 p))).
  set (credit := fun s => with_kills (kills s + 1) s).
  set (ps := adjust id sourceId credit (adjust id (id player) hit (players r))).
  assert (Lsrc : lookup id sourceId ps = Some (credit source)).
  { unfold ps. rewrite lookup_adjust_eq by reflexivity.
    rewrite lookup_adjust_ne by (auto || reflexivity). rewrite Ls. reflexivity. }
  assert (Ltgt : lookup id (id player) ps = Some (hit player)).
  { unfold ps. rewrite lookup_adjust_ne by (auto || reflexivity).
    rewrite lookup_adjust_eq by reflexivity. rewrite Lp. reflexivity. }
  destruct (lookup_In id sourceId (players r) Ls) as [_ Eid].
  set (r1 := emit (game_kill sourceId (id player)) (set_players ps r)).
  assert (Hr' : r' = endGame sourceId r1).
  { unfold r'. rewrite (damagePlayer_lethal player sourceId r Hlethal).
    cbv zeta. fold hit credit. fold ps. fold r1. rewrite Lsrc.
    assert (Hk : (KILL_LIMIT <=? kills (credit source))%Z = true)
      by (apply Z.leb_le; exact Hlimit).
    rewrite Hk. change (id (credit source)) with (id source).
    rewrite Eid. reflexivity. }
  clearbody r'. subst r'.
  destruct (endGame_fields sourceId r1)
    as (Hloop & Hemit & Htimers & Hp & Hj & Ho & Hi & Hs & Hl).
  split; [exact Hloop|]. split.
  { intros h Hh Hin. rewrite Htimers in Hin.
    change (gameLoop r1) with (gameLoop r) in Hin. rewrite Hh in Hin.
    apply in_app_or in Hin. destruct Hin as [Hin|[Hin|[]]]; [|discriminate].
    apply In_disarm_all in Hin. destruct Hin as [Hin _].
    apply In_disarm_all in Hin. destruct Hin as [Hin _].
    apply In_disarm in Hin. destruct Hin as [_ Hin]. apply Hin. reflexivity. }
  split.
  { intros One h Hin. unfold noLoop in Hin. rewrite Htimers in Hin.
    change (gameLoop r1) with (gameLoop r) in Hin.
    apply in_app_or in Hin. destruct Hin as [Hin|[Hin|[]]]; [|discriminate].
    apply In_disarm_all in Hin. destruct Hin as [Hin _].
    apply In_disarm_all in Hin. destruct Hin as [Hin _].
    destruct (gameLoop r) as [g|] eqn:G.
    - apply In_disarm in Hin. destruct Hin as [Hin Hne].
      apply One in Hin. rewrite G in Hin. injection Hin as ->.
      apply Hne. reflexivity.
    - apply One in Hin. rewrite G in Hin. discriminate. }
  split.
  { eexists. split; [exact Hemit|].
    change (players r1) with ps.
    split; [|split].
    - rewrite map_map. unfold ps.
      change (map (fun p => fst (id p, (kills p, deaths p))))
        with (keys id (A := PlayerState)).
      rewrite !keys_adjust by reflexivity. reflexivity.
    - rewrite (lookup_scores (fun p => (kills p, deaths p))), Lsrc.
      cbn [option_map]. change (id (credit source)) with (id source).
      rewrite Eid. reflexivity.
    - rewrite (lookup_scores (fun p => (kills p, deaths p))), Ltgt. reflexivity. }
  repeat (split; [assumption|]).
  intros Math ticks. exact (ticks_no_entities Math ticks _ Hp Hj Ho).
Qed.

Lemma kill_limit_ends_match_witness :
  let r' := damagePlayer matchPointTarget 100 "s" matchPointRoom in
  gameLoop matchPointRoom = Some 0%nat
  /\ gameLoop r' = None /\ players r' = [] /\ projectiles r' = []
  /\ ~ In (0%nat, GameLoopInterval) (timers r') /\ noLoop r'.
Proof.
  intro r'.
  destruct (@kill_limit_ends_match matchPointTarget 100 "s" matchPointSniper
              matchPointRoom eq_refl)
    as (H1 & H2 & H2' & _ & H3 & H4 & _).
  - vm_compute. discriminate.
  - reflexivity.
  - discriminate.
  - vm_compute. discriminate.
  - split; [reflexivity|]. split; [exact H1|]. split; [exact H3|].
    split; [exact H4|]. split; [apply H2; reflexivity|]. apply H2'.
    intros h [[= <-]|[]]. reflexivity.
Defined.

(** ** The per-player projectile cap *)

Lemma countOwned_cons o a l :
  countOwned o (a :: l)
  = ((if String.eqb (ProjectileState.ownerId a) o then 1 else 0) + countOwned o l)%nat.
Proof.
  unfold countOwned. simpl.
  destruct (String.eqb (ProjectileState.ownerId a) o); reflexivity.
Qed.

Lemma countOwned_remove o k l :
  (countOwned o (remove ProjectileState.id k l) <= countOwned o l)%nat.
Proof.
  induction l as [|a l IH]; [apply Nat.le_refl|].
  unfold remove in *. simpl.
  destruct (negb (String.eqb (ProjectileState.id a) k));
    rewrite ?countOwned_cons; lia.
Qed.

Lemma countOwned_insert o a l :
  (countOwned o (insert ProjectileState.id a l)
   <= (if String.eqb (ProjectileState.ownerId a) o then 1 else 0) + countOwned o l)%nat.
Proof.
  induction l as [|b l IH]; simpl.
  - rewrite countOwned_cons. apply Nat.le_refl.
  - destruct (String.eqb (ProjectileState.id b) (ProjectileState.id a));
      rewrite !countOwned_cons; [lia|].
    destruct (String.eqb (ProjectileState.ownerId b) o); lia.
Qed.

Lemma countOwned_updateProjectilesLoop Math now o prs obs :
  (countOwned o (fst (updateProjectilesLoop Math now prs obs)) <= countOwned o prs)%nat.
Proof.
  revert obs. induction prs as [|proj prs IH]; intro obs; [apply Nat.le_refl|].
  rewrite countOwned_cons. cbn [updateProjectilesLoop].
  destruct (_ || _) as [|]; [specialize (IH obs); lia|].
  destruct (existsb _ _); [specialize (IH obs); lia|].
  destruct (find _ obs) as [ob|].
  - match goal with
    | |- context [updateProjectilesLoop Math now prs ?obs'] => specialize (IH obs')
    end. lia.
  - cbn [fst]. rewrite countOwned_cons. cbn [moveProjectile ProjectileState.ownerId].
    specialize (IH obs). lia.
Qed.

Lemma capped_keeps r r' : capped r -> keepsProjectiles r r' -> capped r'.
Proof.
  intros H [E|E] o; rewrite E; [apply H|]. unfold countOwned. simpl. lia.
Qed.

Lemma keeps_refl r : keepsProjectiles r r.
Proof. left. reflexivity. Qed.

Lemma keeps_damagePlayer player damage sourceId r :
  keepsProjectiles r (damagePlayer player damage sourceId r).
Proof.
  unfold damagePlayer. destruct (Qleb _ _); [|left; reflexivity].
  cbn [players emit set_emitted set_players].
  destruct (lookup id sourceId _) as [source|]; [|left; reflexivity].
  destruct (KILL_LIMIT <=? kills source)%Z; [right|left]; reflexivity.
Qed.

Lemma keeps_handleHitscan Math player angle damage range r :
  keepsProjectiles r (handleHitscan Math player angle damage range r).
Proof.
  unfold handleHitscan.
  destruct (fst (hitscanPlayers _ _ _ _ _ _ _ _)) as [target|].
  - match goal with
    | |- keepsProjectiles _ (emit _ (damagePlayer ?t ?d ?s ?r0)) =>
        change (keepsProjectiles r0 (damagePlayer t d s r0))
    end.
    apply keeps_damagePlayer.
  - destruct (snd (hitscanObstacles _ _ _ _ _ _)) as [obsId|];
      [destruct (String.eqb obsId "")|]; left; reflexivity.
Qed.

(** C8, the guard: at the cap [tryShoot] returns the room as it was. *)
Lemma tryShoot_at_cap Math now rnd player r :
  (MAX_PROJECTILES_PER_PLAYER <= countOwned (id player) (projectiles r))%nat ->
  tryShoot Math now rnd player r = r.
Proof.
  intro H. unfold tryShoot.
  destruct (_ || _); [reflexivity|].
  destruct (Qltb _ _); [reflexivity|].
  apply Nat.leb_le in H. rewrite H. reflexivity.
Qed.

Lemma capped_tryShoot Math now rnd player r :
  capped r -> capped (tryShoot Math now rnd player r).
Proof.
  intro H. unfold tryShoot.
  destruct (_ || _); [exact H|].
  destruct (Qltb _ _); [exact H|].
  destruct (MAX_PROJECTILES_PER_PLAYER <=? _)%nat eqn:Hcap; [exact H|].
  apply Nat.leb_gt in Hcap. cbv zeta.
  set (player1 := with_ammo (ammo player - 1) player).
  set (r1 := set_players _ (set_lastShotTime _ r)).
  set (r2 := if (ammo player1 <=? 0)%Z then startReload player1 r1 else r1).
  assert (E2 : projectiles r2 = projectiles r)
    by (unfold r2; destruct (ammo player1 <=? 0)%Z; reflexivity).
  destruct (WeaponStats.isHitscan _).
  - apply capped_keeps with r2; [|apply keeps_handleHitscan].
    intro o.
    change (countOwned o (projectiles r2) <= MAX_PROJECTILES_PER_PLAYER)%nat.
    rewrite E2. apply H.
  - intro o. unfold set_projectiles, set_projectileIdCounter.
    cbn [projectiles projectileIdCounter].
    eapply Nat.le_trans; [apply countOwned_insert|].
    cbn [ProjectileState.ownerId]. rewrite E2.
    change (id player1) with (id player).
    destruct (String.eqb (id player) o) eqn:Eo.
    + apply String.eqb_eq in Eo. subst o. lia.
    + specialize (H o). lia.
Qed.

Ltac break_match :=
  repeat match goal with
         | |- context [match ?c with _ => _ end] => destruct c
         end.

Lemma capped_updatePlayers Math now rnd r :
  capped r -> capped (updatePlayers Math now rnd r).
Proof.
  unfold updatePlayers. generalize (keys id (players r)). intro ks.
  revert r. induction ks as [|k ks IH]; intros r H; [exact H|].
  cbn [fold_left]. apply IH.
  destruct (lookup id k (players r)) as [player|]; [|exact H].
  destruct (isDead player); [exact H|].
  destruct (lookup skey k (playerInputs r)) as [[k' input]|]; [|exact H].
  unfold updatePlayer. destruct (InputState.shooting input); [|exact H].
  apply capped_tryShoot. exact H.
Qed.

Lemma capped_updateProjectiles Math now r :
  capped r -> capped (updateProjectiles Math now r).
Proof.
  intros H o. unfold updateProjectiles, set_obstacles, set_projectiles.
  cbn [projectiles].
  eapply Nat.le_trans; [apply countOwned_updateProjectilesLoop | apply H].
Qed.

Lemma capped_checkCollisions Math r :
  capped r -> capped (checkCollisions Math r).
Proof.
  unfold checkCollisions. generalize (keys ProjectileState.id (projectiles r)).
  intro ks. revert r. induction ks as [|k ks IH]; intros r H; [exact H|].
  cbn [fold_left]. apply IH.
  destruct (lookup ProjectileState.id k (projectiles r)) as [proj|]; [|exact H].
  destruct (find (collides Math proj) (players r)) as [player|]; [|exact H].
  assert (Hd : capped (damagePlayer player (ProjectileState.damage proj)
                         (ProjectileState.ownerId proj) r))
    by (eapply capped_keeps; [exact H | apply keeps_damagePlayer]).
  intro o. unfold set_projectiles, emit, set_emitted. cbn [projectiles].
  eapply Nat.le_trans; [apply countOwned_remove | apply Hd].
Qed.

Lemma capped_gameLoopCallback Math now rnd r :
  capped r -> capped (gameLoopCallback Math now rnd r).
Proof.
  intro H. unfold gameLoopCallback, update.
  apply (capped_updatePlayers Math now rnd) in H.
  apply (capped_updateProjectiles Math now) in H.
  apply (capped_checkCollisions Math) in H.
  exact H.
Qed.

Lemma projectiles_grantAll ps r :
  projectiles (fold_left (fun r player => grantSpawnProtection player r) ps r)
  = projectiles r.
Proof.
  revert r. induction ps as [|p ps IH]; intro r; [reflexivity|].
  cbn [fold_left]. rewrite IH. reflexivity.
Qed.

Lemma keeps_fire_other h r (Math : JSMath.t) now rnd :
  (forall e, find (fun e => Nat.eqb (fst e) h) (timers r) = Some e ->
             snd e <> GameLoopInterval) ->
  keepsProjectiles r (fire Math h now rnd r).
Proof.
  intro Hk. unfold fire.
  destruct (find _ (timers r)) as [[h' t]|]; [|apply keeps_refl].
  specialize (Hk _ eq_refl). cbn [snd] in Hk.
  destruct t as [|n|pid w d|pid|]; [contradiction| | | |].
  - left. unfold countdownCallback.
    destruct (0 <? n - 1)%Z; [reflexivity|].
    unfold startGameLoop.
    match goal with
    | |- context [fold_left ?f ?ps ?r0] =>
        assert (E := projectiles_grantAll ps r0);
        destruct (fold_left f ps r0)
    end.
    cbn in *. exact E.
  - left. unfold reloadCallback. break_match; reflexivity.
  - left. reflexivity.
  - left. reflexivity.
Qed.

Lemma capped_step Math r op : capped r -> capped (step Math r op).
Proof.
  intro H.
  destruct op as [pid nm|pid|pid b|pid b|pid m w| |pid input|pid|pid|h now rnd| ];
    cbn [step];
    [ apply capped_keeps with r; [exact H|] ..
    | idtac
    | apply capped_keeps with r; [exact H|] ].
  - left. reflexivity.
  - left. reflexivity.
  - left. reflexivity.
  - left. unfold setPlayerLoadoutReady, checkAllLoadoutReady, startGameFromLoadout,
      armTimer.
    break_match; reflexivity.
  - left. unfold setPlayerLoadout. break_match; reflexivity.
  - left. unfold startGame. break_match; reflexivity.
  - left. reflexivity.
  - left. unfold manualReload, startReload, armTimer. break_match; reflexivity.
  - left. unfold respawnPlayer, grantSpawnProtection, armTimer.
    break_match; reflexivity.
  - destruct (find (fun e => Nat.eqb (fst e) h) (timers r)) as [[h' t]|] eqn:F.
    + destruct t;
        try (apply capped_keeps with r; [exact H|];
             apply keeps_fire_other; intros e He; rewrite F in He;
             injection He as <-; discriminate).
      unfold fire. rewrite F. apply capped_gameLoopCallback, H.
    + unfold fire. rewrite F. exact H.
  - right. reflexivity.
Qed.

Lemma capped_run Math ops r : capped r -> capped (run Math ops r).
Proof.
  unfold run. revert r. induction ops as [|op ops IH]; intros r H; [exact H|].
  cbn [fold_left]. apply IH, capped_step, H.
Qed.

(** C8.  Whatever operations a room goes through from its creation, no
    player ever owns more live projectiles than
    [MAX_PROJECTILES_PER_PLAYER]; and a shot attempted at the cap leaves
    the room exactly as it was (no projectile, no round consumed). *)
Theorem projectile_cap Math code hostId ops :
  let r := run Math ops (newGameRoom code hostId) in
  (forall owner,
     (countOwned owner (projectiles r) <= MAX_PROJECTILES_PER_PLAYER)%nat)
  /\ (forall r0 now rnd player,
        (MAX_PROJECTILES_PER_PLAYER <= countOwned (id player) (projectiles r0))%nat ->
        tryShoot Math now rnd player r0 = r0).
Proof.
  split.
  - apply capped_run. intro o. unfold countOwned. simpl. lia.
  - intros r0 now rnd player. apply tryShoot_at_cap.
Qed.

Lemma projectile_cap_witness :
  countOwned "a" (projectiles cappedRoom) = MAX_PROJECTILES_PER_PLAYER
  /\ tryShoot exampleMath 5000 0.5 cappedShooter cappedRoom = cappedRoom.
Proof.
  split; [vm_compute; reflexivity|].
  apply (proj2 (projectile_cap exampleMath "ROOM" "a" [])).
  apply Nat.leb_le. vm_compute. reflexivity.
Defined.

(** ** The bounds invariant *)

Ltac split5 := split; [|split; [|split; [|split]]].

Section RoomOkFacts.
Variables (ps : list PlayerState) (prs : list ProjectileState.t).
Variables (ts : list (nat * Timer)) (rts : list (string * nat)) (playing : bool).
Hypothesis Hok : roomOkC ps prs ts rts playing.

Lemma okC_players p : In p ps -> playerOk p /\ playerWf p.
Proof.
  destruct Hok as (HA & _). rewrite Forall_forall in HA. apply HA.
Qed.

Lemma okC_stored k p : lookup id k ps = Some p -> playerOk p /\ playerWf p.
Proof.
  intro L. apply okC_players. apply (lookup_In id k ps L).
Qed.

Lemma okC_unique a k p : lookup id k ps = Some p -> In a ps -> id a = k -> a = p.
Proof.
  intros L Ha Ea. destruct Hok as (_ & ND & _).
  destruct (lookup_In id k ps L) as [Hp Ep].
  apply (NoDup_keys_inj ps a p ND Ha Hp). congruence.
Qed.

(** Fewer, or other than reload, timers. *)
Lemma okC_timers ts' :
  (forall h pid w d, In (h, ReloadTimeout pid w d) ts' ->
                     In (h, ReloadTimeout pid w d) ts) ->
  roomOkC ps prs ts' rts playing.
Proof.
  intro Hsub. destruct Hok as (HA & HB & HC & HD & HE).
  split5; auto. intros h pid w d Hin. apply (HD h pid w d), Hsub, Hin.
Qed.

Lemma okC_projectiles prs' :
  Forall (fun pr => 0 <= ProjectileState.damage pr) prs' ->
  roomOkC ps prs' ts rts playing.
Proof.
  intro H. destruct Hok as (HA & HB & HC & HD & HE). split5; auto.
Qed.

Lemma okC_playing playing' :
  (playing' = false -> playing = false) -> roomOkC ps prs ts rts playing'.
Proof.
  intro H. destruct Hok as (HA & HB & HC & HD & HE). split5; auto.
Qed.

(** An in-place update of the objects stored under [k] that keeps their
    id, weapon and reloading flag. *)
Lemma okC_adjust k f :
  (forall a, In a ps -> id a = k ->
             playerOk (f a) /\ playerWf (f a)) ->
  (forall a, id (f a) = id a /\ weapon (f a) = weapon a
             /\ isReloading (f a) = isReloading a) ->
  roomOkC (adjust id k f ps) prs ts rts playing.
Proof.
  intros Hf Hkeep. destruct Hok as (HA & HB & HC & HD & HE).
  split5; auto.
  - unfold adjust. apply Forall_map. rewrite Forall_forall in *.
    intros a Ha. destruct (String.eqb (id a) k) eqn:E; [|apply HA, Ha].
    apply Hf; [exact Ha | apply String.eqb_eq, E].
  - rewrite keys_adjust; [exact HB | intro a; apply Hkeep].
  - intros h pid w d Hin. destruct (HD h pid w d Hin) as (H1 & p & Lp & Hw & Hr).
    split; [exact H1|].
    rewrite lookup_adjust by (intro a; apply Hkeep). rewrite Lp.
    destruct (String.eqb pid k); [|exists p; auto].
    exists (f p). destruct (Hkeep p) as (_ & Hw' & Hr').
    split; [reflexivity|]. split; congruence.
  - intro Hp. rewrite (HE Hp). reflexivity.
Qed.
End RoomOkFacts.

Lemma clipSize_nonneg w : (0 <= WeaponStats.clipSize (WEAPON_STATS w))%Z.
Proof. destruct w; simpl; lia. Qed.

Lemma damage_nonneg w : 0 <= WeaponStats.damage (WEAPON_STATS w).
Proof. destruct w; simpl; lra. Qed.

Lemma fuel_nonneg m : 0 <= MovementStats.fuel (MOVEMENT_STATS m).
Proof. destruct m; simpl; lra. Qed.

Section RoomOkTimers.
Variables (ps : list PlayerState) (prs : list ProjectileState.t).
Variables (ts : list (nat * Timer)) (rts : list (string * nat)) (playing : bool).
Hypothesis Hok : roomOkC ps prs ts rts playing.

(** [startReload] on a stored player that is not reloading. *)
Lemma okC_arm_reload player h d :
  lookup id (id player) ps = Some player -> isReloading player = false ->
  roomOkC (adjust id (id player) (with_isReloading true) ps) prs
    (ts ++ [(h, ReloadTimeout (id player) (weapon player) d)])
    (insert skey (id player, h) rts) playing.
Proof.
  intros L Hr. destruct Hok as (HA & HB & HC & HD & HE).
  split5; auto.
  - unfold adjust. apply Forall_map. rewrite Forall_forall in *.
    intros a Ha. destruct (String.eqb (id a) (id player)); apply (HA a Ha).
  - rewrite keys_adjust; [exact HB | reflexivity].
  - intros h' pid w' d' Hin. apply in_app_or in Hin.
    destruct Hin as [Hin|[Hin|[]]].
    + destruct (HD h' pid w' d' Hin) as (H1 & p & Lp & Hw & Hrp).
      assert (Hne : pid <> id player).
      { intro E. subst pid. rewrite L in Lp. injection Lp as <-. congruence. }
      split.
      * rewrite lookup_insert_ne; [exact H1 | exact Hne].
      * exists p. rewrite lookup_adjust_ne; auto.
    + injection Hin as <- <- <- <-. split.
      * apply (lookup_insert_eq skey (id player, h) rts).
      * exists (with_isReloading true player).
        rewrite lookup_adjust_eq by reflexivity. rewrite L. auto.
  - intro Hp. rewrite (HE Hp). reflexivity.
Qed.

(** A reload that completes on a living player. *)
Lemma okC_reload_done pid w h d :
  In (h, ReloadTimeout pid w d) ts ->
  roomOkC
    (adjust id pid
       (fun p => with_ammo (WeaponStats.clipSize (WEAPON_STATS w))
                   (with_isReloading false p)) ps)
    prs (disarm h ts) (remove skey pid rts) playing.
Proof.
  intro Hin. destruct (Hok) as (HA & HB & HC & HD & HE).
  destruct (HD h pid w d Hin) as (Hmap & p & Lp & Hw & _).
  split5; auto.
  - unfold adjust. apply Forall_map. rewrite Forall_forall in *.
    intros a Ha. destruct (String.eqb (id a) pid) eqn:E; [|apply (HA a Ha)].
    apply String.eqb_eq in E.
    assert (a = p) by (apply (okC_unique Hok a Lp Ha E)). subst a.
    destruct (HA p Ha) as ((Hz & Hh & Hammo & Hf) & Hwf).
    split; [|exact Hwf]. split; [exact Hz|]. split; [exact Hh|].
    split; [|exact Hf]. cbn [ammo weapon with_ammo with_isReloading].
    rewrite Hw. split; [apply clipSize_nonneg | apply Z.le_refl].
  - rewrite keys_adjust; [exact HB | reflexivity].
  - intros h' pid' w' d' Hin'. apply In_disarm in Hin'. destruct Hin' as [Hin' Hh'].
    cbn [fst] in Hh'.
    destruct (HD h' pid' w' d' Hin') as (H1 & p' & Lp' & Hw' & Hr').
    assert (Hne : pid' <> pid).
    { intro E. subst pid'. rewrite Hmap in H1. injection H1 as E. congruence. }
    split.
    + rewrite lookup_remove_ne; [exact H1 | exact Hne].
    + exists p'. rewrite lookup_adjust_ne; auto.
  - intro Hp. rewrite (HE Hp). reflexivity.
Qed.

(** Cancelling the reload of [pid] while its player object is replaced,
    reset or removed. *)
Lemma okC_forget pid ps' :
  Forall (fun p => playerOk p /\ playerWf p) ps' ->
  NoDup (keys id ps') ->
  (forall k, k <> pid -> lookup id k ps' = lookup id k ps) ->
  (playing = false -> ps' = []) ->
  roomOkC ps' prs
    (match option_map snd (lookup skey pid rts) with
     | Some h => disarm h ts
     | None => ts
     end)
    (remove skey pid rts) playing.
Proof.
  intros HA' HB' Hsame HE'. destruct Hok as (HA & HB & HC & HD & HE).
  split5; auto.
  intros h' pid' w' d' Hin'.
  assert (Hin : In (h', ReloadTimeout pid' w' d') ts).
  { destruct (option_map snd (lookup skey pid rts)); [|exact Hin'].
    apply In_disarm in Hin'. apply Hin'. }
  destruct (HD h' pid' w' d' Hin) as (H1 & p' & Lp' & Hw' & Hr').
  assert (Hne : pid' <> pid).
  { intro E. subst pid'. rewrite H1 in Hin'. cbn [option_map snd] in Hin'.
    apply In_disarm in Hin'. destruct Hin' as [_ N]. apply N. reflexivity. }
  split.
  - rewrite lookup_remove_ne; [exact H1 | exact Hne].
  - exists p'. rewrite Hsame; auto.
Qed.

(** Clearing the match: no player, no projectile, and every reload timer
    the map knew disarmed. *)
Lemma okC_clear ts' rts' playing' :
  (forall h pid w d, In (h, ReloadTimeout pid w d) ts' ->
                     In (h, ReloadTimeout pid w d) ts /\ ~ In h (map snd rts)) ->
  roomOkC [] [] ts' rts' playing'.
Proof.
  intro Hsub. destruct Hok as (HA & HB & HC & HD & HE).
  split5; [constructor | constructor | constructor | | reflexivity].
  intros h pid w d Hin. exfalso.
  destruct (Hsub h pid w d Hin) as [Hin0 Hnot].
  destruct (HD h pid w d Hin0) as (H1 & _).
  apply Hnot. destruct (lookup_In skey pid rts H1) as [Hm _].
  apply (in_map snd) in Hm. exact Hm.
Qed.
End RoomOkTimers.

(** Filling an empty player map at the start of the loadout phase. *)
Lemma okC_initialize prs ts rts playing ps' :
  roomOkC [] prs ts rts playing ->
  Forall (fun p => playerOk p /\ playerWf p) ps' ->
  NoDup (keys id ps') ->
  roomOkC ps' prs ts rts true.
Proof.
  intros (HA & HB & HC & HD & HE) HA' HB'.
  split5; auto; [|discriminate].
  intros h pid w d Hin. destruct (HD h pid w d Hin) as (_ & p & Lp & _).
  discriminate.
Qed.

Ltac room_simpl :=
  cbn [players projectiles timers reloadTimers gameStarted inLoadoutPhase
       set_lobbyPlayers set_players set_projectiles set_obstacles
       set_playerInputs set_gameStarted set_inLoadoutPhase set_gameLoop set_tick
       set_projectileIdCounter set_lastShotTime set_reloadTimers
       set_spawnProtectionTimers set_countdownStarted set_countdownInterval
       set_timers set_nextTimer set_emitted emit armTimer clearTimer
       clearHandle clearTimers clearMapped fst snd].

(** A change that leaves alone everything the invariant reads. *)
Lemma roomOk_same r r' :
  roomOk r -> players r' = players r -> projectiles r' = projectiles r ->
  timers r' = timers r -> reloadTimers r' = reloadTimers r ->
  gameStarted r' = gameStarted r -> inLoadoutPhase r' = inLoadoutPhase r ->
  roomOk r'.
Proof.
  unfold roomOk. intros H -> -> -> -> -> ->. exact H.
Qed.

Ltac ok_same H := eapply roomOk_same; [exact H | reflexivity ..].

Lemma roomOk_adjust r k f :
  roomOk r ->
  (forall a, In a (players r) -> id a = k -> playerOk (f a) /\ playerWf (f a)) ->
  (forall a, id (f a) = id a /\ weapon (f a) = weapon a
             /\ isReloading (f a) = isReloading a) ->
  roomOk (set_players (adjust id k f (players r)) r).
Proof.
  intros H Hf Hk. unfold roomOk in *. room_simpl. apply okC_adjust; assumption.
Qed.

Lemma endGame_ok w r : roomOk r -> roomOk (endGame w r).
Proof.
  intro H. unfold roomOk in *.
  destruct (endGame_fields w r) as (_ & _ & Ht & Hp & Hj & _ & _ & Hs & Hl).
  rewrite Hp, Hj, Ht, Hs, Hl, reloadTimers_endGame.
  apply (okC_clear H). intros h pid wp d Hin.
  apply in_app_or in Hin. destruct Hin as [Hin|[Hin|[]]]; [|discriminate].
  apply In_disarm_all in Hin. destruct Hin as [Hin _].
  apply In_disarm_all in Hin. destruct Hin as [Hin Hnot]. cbn [fst] in Hnot.
  split; [|exact Hnot].
  destruct (gameLoop r); [apply In_disarm in Hin; apply Hin | exact Hin].
Qed.

Lemma damagePlayer_ok player damage sourceId r :
  roomOk r -> In player (players r) -> 0 <= damage ->
  roomOk (damagePlayer player damage sourceId r).
Proof.
  intros H Hin Hd.
  destruct (okC_players H player Hin) as ((_ & (Hh0 & Hh1) & _) & (Hmax & _)).
  destruct (Qleb (health player - damage) 0) eqn:Hq.
  - apply Qleb_le in Hq. rewrite (damagePlayer_lethal player sourceId r Hq).
    cbv zeta.
    set (r1 := set_players
                 (adjust id (id player)
                    (fun p => with_deaths (deaths p + 1)
                                (with_isDead true (with_health 0 p)))
                    (players r)) r).
    assert (H1 : roomOk r1).
    { apply roomOk_adjust; [exact H | | intro a; auto].
      intros a Ha _. destruct (okC_players H a Ha) as ((Hz & (Ha0 & Ha1) & Hr) & Hw).
      split; [|exact Hw]. split; [exact Hz|]. split; [|exact Hr].
      cbn [health maxHealth with_deaths with_isDead with_health]. split; lra. }
    set (r2 := set_players
                 (adjust id sourceId (fun s => with_kills (kills s + 1) s) (players r1))
                 r1).
    assert (H2 : roomOk r2).
    { apply roomOk_adjust; [exact H1 | | intro a; auto].
      intros a Ha _. apply (okC_players H1 a Ha). }
    set (r3 := emit (game_kill sourceId (id player)) r2).
    assert (H3 : roomOk r3) by (ok_same H2).
    change (roomOk match lookup id sourceId (players r2) with
                   | Some source =>
                       if (KILL_LIMIT <=? kills source)%Z
                       then endGame (id source) r3 else r3
                   | None => r3
                   end).
    destruct (lookup id sourceId (players r2)) as [source|]; [|exact H3].
    destruct (KILL_LIMIT <=? kills source)%Z; [apply endGame_ok|]; exact H3.
  - apply Qleb_gt in Hq. unfold damagePlayer.
    assert (E : Qleb (health player - damage) 0 = false) by (apply Qleb_gt; exact Hq).
    rewrite E. apply roomOk_adjust; [exact H | | intro a; auto].
    intros a Ha _. destruct (okC_players H a Ha) as ((Hz & _ & Hr) & (Hw1 & Hw2)).
    split; [|split; assumption]. split; [exact Hz|]. split; [|exact Hr].
    cbn [health maxHealth with_health]. rewrite Hw1. rewrite Hmax in Hh1.
    split; lra.
Qed.

Lemma handleHitscan_ok Math player angle damage range r :
  roomOk r -> 0 <= damage ->
  roomOk (handleHitscan Math player angle damage range r).
Proof.
  intros H Hd. unfold handleHitscan.
  match goal with
  | |- context [hitscanPlayers ?M ?p ?sx ?sy ?dx ?dy ?l ?st] =>
      destruct (hitscanPlayers_spec M p sx sy dx dy l st)
        as [E|(t & E & Hin & _)]
  end.
  - rewrite E. cbn [fst snd].
    destruct (snd (hitscanObstacles _ _ _ _ _ _)) as [obsId|];
      [destruct (String.eqb obsId "")|];
      ok_same H.
  - rewrite E.
    match goal with
    | |- roomOk (emit ?e (damagePlayer ?t ?d ?s ?r0)) =>
        assert (H0 : roomOk r0) by (ok_same H);
        assert (H1 := @damagePlayer_ok t d s r0 H0 Hin Hd);
        ok_same H1
    end.
Qed.

Lemma startReload_ok player r :
  roomOk r -> lookup id (id player) (players r) = Some player ->
  isReloading player = false -> roomOk (startReload player r).
Proof.
  intros H L Hr. unfold roomOk in *. unfold startReload. room_simpl.
  apply okC_arm_reload; assumption.
Qed.

Lemma Forall_insert_proj (P : ProjectileState.t -> Prop) a l :
  P a -> Forall P l -> Forall P (insert ProjectileState.id a l).
Proof.
  intros Ha Hl. induction Hl as [|b l Hb Hl IH]; simpl.
  - constructor; [exact Ha | constructor].
  - destruct (String.eqb (ProjectileState.id b) (ProjectileState.id a));
      constructor; auto.
Qed.

Lemma tryShoot_ok Math now rnd player r :
  roomOk r -> lookup id (id player) (players r) = Some player ->
  roomOk (tryShoot Math now rnd player r).
Proof.
  intros H L. unfold tryShoot.
  destruct ((ammo player <=? 0)%Z || isReloading player) eqn:G; [exact H|].
  apply orb_false_iff in G. destruct G as [Gammo Grel]. apply Z.leb_gt in Gammo.
  destruct (Qltb _ _); [exact H|].
  destruct (MAX_PROJECTILES_PER_PLAYER <=? _)%nat; [exact H|].
  cbv zeta.
  set (player1 := with_ammo (ammo player - 1) player).
  set (r0 := set_lastShotTime (insert skey (id player, now) (lastShotTime r)) r).
  assert (H0 : roomOk r0) by (ok_same H).
  set (r1 := set_players
               (adjust id (id player) (fun p => with_ammo (ammo p - 1) p) (players r0))
               r0).
  assert (H1 : roomOk r1).
  { apply roomOk_adjust; [exact H0 | | intro a; auto].
    intros a Ha Ea.
    assert (a = player) by (apply (okC_unique H0 a L Ha Ea)). subst a.
    destruct (okC_players H0 player Ha) as ((Hz & Hh & Hammo & Hf) & Hw).
    split; [|exact Hw]. split; [exact Hz|]. split; [exact Hh|]. split; [|exact Hf].
    cbn [ammo weapon with_ammo]. lia. }
  assert (L1 : lookup id (id player1) (players r1) = Some player1).
  { unfold r1. room_simpl. change (id player1) with (id player).
    rewrite lookup_adjust_eq by reflexivity.
    change (players r0) with (players r). rewrite L. reflexivity. }
  set (r2 := if (ammo player1 <=? 0)%Z then startReload player1 r1 else r1).
  assert (H2 : roomOk r2).
  { unfold r2. destruct (ammo player1 <=? 0)%Z; [|exact H1].
    apply startReload_ok; [exact H1 | exact L1 | exact Grel]. }
  destruct (WeaponStats.isHitscan (WEAPON_STATS (weapon player))).
  - apply handleHitscan_ok; [exact H2 | apply damage_nonneg].
  - match goal with
    | |- roomOk (set_projectiles (insert _ ?pr _) (set_projectileIdCounter ?n _)) =>
        set (proj := pr); set (r3 := set_projectileIdCounter n r2)
    end.
    assert (H3 : roomOk r3) by (ok_same H2).
    unfold roomOk in *. room_simpl.
    apply (okC_projectiles H3).
    destruct H3 as (_ & _ & HC & _).
    apply Forall_insert_proj; [apply damage_nonneg | exact HC].
Qed.

Lemma movePlayer_ok Math input a :
  playerOk a /\ playerWf a ->
  playerOk (movePlayer Math input a) /\ playerWf (movePlayer Math input a).
Proof.
  intros ((Hz & Hh & Hammo & Hf) & (Hw1 & Hw2)).
  split; [|split; assumption].
  split; [apply movePlayer_z_bounds|]. split; [exact Hh|]. split; [exact Hammo|].
  change (fuel (movePlayer Math input a))
    with (fst (fuelStep (MOVEMENT_STATS (movement a))
                 (Qleb (z a) (MIN_Z + 5)) (InputState.jump input) (fuel a))).
  change (maxFuel (movePlayer Math input a)) with (maxFuel a).
  rewrite Hw2. destruct (stats_rates_nonneg (movement a)) as [Hd Hr].
  apply fuelStep_bounds; try assumption. rewrite <- Hw2. exact Hf.
Qed.

Lemma updatePlayer_ok Math now rnd player input r :
  roomOk r -> lookup id (id player) (players r) = Some player ->
  roomOk (updatePlayer Math now rnd player input r).
Proof.
  intros H L. unfold updatePlayer.
  set (r1 := set_players (adjust id (id player) (movePlayer Math input) (players r)) r).
  assert (H1 : roomOk r1).
  { apply roomOk_adjust; [exact H | | intro a; auto].
    intros a Ha _. apply movePlayer_ok, (okC_players H a Ha). }
  destruct (InputState.shooting input); [|exact H1].
  apply tryShoot_ok; [exact H1|].
  unfold r1. room_simpl. change (id (movePlayer Math input player)) with (id player).
  rewrite lookup_adjust_eq by reflexivity. rewrite L. reflexivity.
Qed.

Lemma updatePlayers_ok Math now rnd r :
  roomOk r -> roomOk (updatePlayers Math now rnd r).
Proof.
  unfold updatePlayers. generalize (keys id (players r)). intro ks.
  revert r. induction ks as [|k ks IH]; intros r H; [exact H|].
  cbn [fold_left]. apply IH.
  destruct (lookup id k (players r)) as [player|] eqn:L; [|exact H].
  destruct (isDead player); [exact H|].
  destruct (lookup skey k (playerInputs r)) as [[k' input]|]; [|exact H].
  apply updatePlayer_ok; [exact H|].
  destruct (lookup_In id k (players r) L) as [_ ->]. exact L.
Qed.

Lemma updateProjectilesLoop_damage Math now prs obs :
  Forall (fun pr => 0 <= ProjectileState.damage pr) prs ->
  Forall (fun pr => 0 <= ProjectileState.damage pr)
    (fst (updateProjectilesLoop Math now prs obs)).
Proof.
  intro H. revert obs. induction H as [|proj prs Hp Hl IH]; intro obs;
    [constructor|].
  cbn [updateProjectilesLoop].
  destruct (_ || _); [apply IH|].
  destruct (existsb _ _); [apply IH|].
  destruct (find _ obs); [apply IH|].
  cbn [fst]. constructor; [exact Hp | apply IH].
Qed.

Lemma updateProjectiles_ok Math now r :
  roomOk r -> roomOk (updateProjectiles Math now r).
Proof.
  intro H. unfold roomOk in *. unfold updateProjectiles. room_simpl.
  apply (okC_projectiles H). apply updateProjectilesLoop_damage.
  destruct H as (_ & _ & HC & _). exact HC.
Qed.

Lemma checkCollisions_ok Math r :
  roomOk r -> roomOk (checkCollisions Math r).
Proof.
  unfold checkCollisions. generalize (keys ProjectileState.id (projectiles r)).
  intro ks. revert r. induction ks as [|k ks IH]; intros r H; [exact H|].
  cbn [fold_left]. apply IH.
  destruct (lookup ProjectileState.id k (projectiles r)) as [proj|] eqn:L; [|exact H].
  destruct (find (collides Math proj) (players r)) as [player|] eqn:F; [|exact H].
  apply find_some in F. destruct F as [Hin _].
  assert (Hd : 0 <= ProjectileState.damage proj).
  { destruct H as (_ & _ & HC & _). rewrite Forall_forall in HC. apply HC.
    apply (lookup_In ProjectileState.id k (projectiles r) L). }
  assert (H1 := @damagePlayer_ok player (ProjectileState.damage proj)
                  (ProjectileState.ownerId proj) r H Hin Hd).
  set (r1 := damagePlayer player (ProjectileState.damage proj)
               (ProjectileState.ownerId proj) r) in *.
  set (r2 := emit (game_hit (id player) (ProjectileState.damage proj)
                     (ProjectileState.ownerId proj)) r1).
  assert (H2 : roomOk r2) by (ok_same H1).
  unfold roomOk in *. room_simpl. apply (okC_projectiles H2).
  destruct H2 as (_ & _ & HC & _). unfold remove.
  rewrite Forall_forall in *. intros pr Hpr. apply filter_In in Hpr.
  apply HC, Hpr.
Qed.

Lemma gameLoopCallback_ok Math now rnd r :
  roomOk r -> roomOk (gameLoopCallback Math now rnd r).
Proof.
  intro H. unfold gameLoopCallback, update.
  apply (updatePlayers_ok Math now rnd) in H.
  apply (updateProjectiles_ok Math now) in H.
  apply (checkCollisions_ok Math) in H.
  ok_same H.
Qed.

Lemma In_clearHandle_timers (e : nat * Timer) h ts :
  In e (match h with Some h => disarm h ts | None => ts end) -> In e ts.
Proof.
  destruct h; [|auto]. intro H. apply In_disarm in H. apply H.
Qed.

(** Disarming timers and arming one that is not a reload keeps the
    invariant. *)
Lemma roomOk_timers r r' :
  roomOk r -> players r' = players r -> projectiles r' = projectiles r ->
  reloadTimers r' = reloadTimers r ->
  gameStarted r' || inLoadoutPhase r' = gameStarted r || inLoadoutPhase r ->
  (forall h pid w d, In (h, ReloadTimeout pid w d) (timers r') ->
                     In (h, ReloadTimeout pid w d) (timers r)) ->
  roomOk r'.
Proof.
  unfold roomOk. intros H -> -> -> -> Hsub. apply (okC_timers H), Hsub.
Qed.

Lemma grantSpawnProtection_ok player r :
  roomOk r -> roomOk (grantSpawnProtection player r).
Proof.
  intro H.
  set (r1 := set_players (adjust id (id player) (with_isInSpawn true) (players r)) r).
  assert (H1 : roomOk r1).
  { apply roomOk_adjust; [exact H | | intro a; auto].
    intros a Ha _. apply (okC_players H a Ha). }
  apply roomOk_timers with r1; try reflexivity; [exact H1|].
  unfold grantSpawnProtection. room_simpl.
  intros h pid w d Hin. apply in_app_or in Hin.
  destruct Hin as [Hin|[Hin|[]]]; [|discriminate].
  apply In_clearHandle_timers in Hin. exact Hin.
Qed.

Lemma grantAll_ok ps r :
  roomOk r ->
  roomOk (fold_left (fun r player => grantSpawnProtection player r) ps r).
Proof.
  revert r. induction ps as [|p ps IH]; intros r H; [exact H|].
  cbn [fold_left]. apply IH, grantSpawnProtection_ok, H.
Qed.

Lemma startGameLoop_ok r : roomOk r -> roomOk (startGameLoop r).
Proof.
  intro H. unfold startGameLoop.
  assert (H1 := grantAll_ok (players r) H).
  set (r1 := fold_left (fun r player => grantSpawnProtection player r) (players r) r)
    in *.
  apply roomOk_timers with r1; try reflexivity; [exact H1|].
  room_simpl. intros h pid w d Hin. apply in_app_or in Hin.
  destruct Hin as [Hin|[Hin|[]]]; [exact Hin | discriminate].
Qed.

Lemma countdownCallback_ok h n r : roomOk r -> roomOk (countdownCallback h n r).
Proof.
  intro H. unfold countdownCallback.
  set (r1 := set_timers
               (map (fun e => if Nat.eqb (fst e) h
                              then (h, CountdownInterval (n - 1)) else e)
                  (timers r)) r).
  assert (H1 : roomOk r1).
  { apply roomOk_timers with r; try reflexivity; [exact H|].
    unfold r1. room_simpl. intros h' pid w d Hin.
    apply in_map_iff in Hin. destruct Hin as (e & He & Hin).
    destruct (Nat.eqb (fst e) h); [discriminate|]. subst e. exact Hin. }
  destruct (0 <? n - 1)%Z; [ok_same H1|].
  apply startGameLoop_ok.
  apply roomOk_timers with r1; try reflexivity; [exact H1|].
  room_simpl. intros h' pid w d Hin. apply In_clearHandle_timers in Hin. exact Hin.
Qed.

Lemma fire_reload_ok h pid w d r :
  roomOk r -> In (h, ReloadTimeout pid w d) (timers r) ->
  roomOk (reloadCallback pid w (clearTimer h r)).
Proof.
  intros H Hin.
  assert (Hcl : roomOk (clearTimer h r)).
  { apply roomOk_timers with r; try reflexivity; [exact H|].
    room_simpl. intros h' pid' w' d' Hin'. apply In_disarm in Hin'. apply Hin'. }
  unfold reloadCallback. change (players (clearTimer h r)) with (players r).
  destruct (lookup id pid (players r)) as [player|] eqn:L.
  - destruct (isDead player); [exact Hcl|].
    unfold roomOk in *. room_simpl. apply (okC_reload_done H _ _ _ _ Hin).
  - exfalso. destruct H as (_ & _ & _ & HD & _).
    destruct (HD h pid w d Hin) as (_ & p & Lp & _). congruence.
Qed.

Lemma spawnProtectionCallback_ok pid r :
  roomOk r -> roomOk (spawnProtectionCallback pid r).
Proof.
  intro H. unfold spawnProtectionCallback.
  set (r1 := set_players (adjust id pid (with_isInSpawn false) (players r)) r).
  assert (H1 : roomOk r1).
  { apply roomOk_adjust; [exact H | | intro a; auto].
    intros a Ha _. apply (okC_players H a Ha). }
  ok_same H1.
Qed.

Lemma fire_ok Math h now rnd r : roomOk r -> roomOk (fire Math h now rnd r).
Proof.
  intro H. unfold fire.
  destruct (find (fun e => Nat.eqb (fst e) h) (timers r)) as [[h' t]|] eqn:F;
    [|exact H].
  apply find_some in F. destruct F as [Hin Hh]. cbn [fst] in Hh.
  apply Nat.eqb_eq in Hh. subst h'.
  assert (Hcl : roomOk (clearTimer h r)).
  { apply roomOk_timers with r; try reflexivity; [exact H|].
    room_simpl. intros h' pid' w' d' Hin'. apply In_disarm in Hin'. apply Hin'. }
  destruct t as [|n|pid w d|pid|].
  - apply gameLoopCallback_ok, H.
  - apply countdownCallback_ok, H.
  - apply (@fire_reload_ok h pid w d r H Hin).
  - apply spawnProtectionCallback_ok, Hcl.
  - cbv zeta. ok_same Hcl.
Qed.

Lemma In_keys_insert a k (l : list PlayerState) :
  In k (keys id (insert id a l)) -> k = id a \/ In k (keys id l).
Proof.
  induction l as [|b l IH]; simpl.
  - intros [H|[]]; auto.
  - destruct (String.eqb (id b) (id a)) eqn:E; simpl.
    + intros [H|H]; auto.
    + intros [H|H]; auto. destruct (IH H); auto.
Qed.

Lemma NoDup_keys_insert a (l : list PlayerState) :
  NoDup (keys id l) -> NoDup (keys id (insert id a l)).
Proof.
  induction l as [|b l IH]; simpl; intro ND.
  - constructor; [intros [] | constructor].
  - inversion ND as [|? ? Hnot ND']; subst.
    destruct (String.eqb (id b) (id a)) eqn:E; simpl.
    + apply String.eqb_eq in E. rewrite <- E. constructor; assumption.
    + apply String.eqb_neq in E. constructor; [|apply IH, ND'].
      intro Hin. apply In_keys_insert in Hin. destruct Hin as [Hin|Hin]; auto.
Qed.

Lemma Forall_insert_player (P : PlayerState -> Prop) a l :
  P a -> Forall P l -> Forall P (insert id a l).
Proof.
  intros Ha Hl. induction Hl as [|b l Hb Hl IH]; simpl.
  - constructor; [exact Ha | constructor].
  - destruct (String.eqb (id b) (id a)); constructor; auto.
Qed.

Lemma initialPlayer_ok i lp :
  playerOk (initialPlayer i lp) /\ playerWf (initialPlayer i lp).
Proof.
  split; [|split; reflexivity].
  unfold playerOk, initialPlayer.
  cbn [z health maxHealth ammo weapon fuel maxFuel].
  split; [unfold MIN_Z, MAX_Z, DEFAULT_Z; lra|].
  split; [unfold MAX_HEALTH; lra|].
  split; [split; [apply clipSize_nonneg | apply Z.le_refl]|].
  split; [apply fuel_nonneg | lra].
Qed.

Lemma initializePlayersLoop_ok i lobby ps :
  Forall (fun p => playerOk p /\ playerWf p) ps -> NoDup (keys id ps) ->
  Forall (fun p => playerOk p /\ playerWf p) (initializePlayersLoop i lobby ps)
  /\ NoDup (keys id (initializePlayersLoop i lobby ps)).
Proof.
  revert i ps. induction lobby as [|lp lobby IH]; intros i ps HA HB; [auto|].
  cbn [initializePlayersLoop]. apply IH.
  - apply Forall_insert_player; [apply initialPlayer_ok | exact HA].
  - apply NoDup_keys_insert, HB.
Qed.

Lemma NoDup_keys_remove k (l : list PlayerState) :
  NoDup (keys id l) -> NoDup (keys id (remove id k l)).
Proof.
  induction l as [|b l IH]; simpl; intro ND; [constructor|].
  inversion ND as [|? ? Hnot ND']; subst.
  destruct (negb (String.eqb (id b) k)); [|apply IH, ND'].
  simpl. constructor; [|apply IH, ND'].
  intro Hin. apply Hnot. unfold keys, remove in *.
  apply in_map_iff in Hin. destruct Hin as (c & Ec & Hc).
  apply filter_In in Hc. apply in_map_iff. exists c. tauto.
Qed.

Lemma removePlayer_ok pid r : roomOk r -> roomOk (removePlayer pid r).
Proof.
  intro H. unfold removePlayer. cbv zeta.
  set (r3 := set_playerInputs _ (set_players _ (set_lobbyPlayers _ r))).
  set (r4 := set_reloadTimers (remove skey pid (reloadTimers r3))
               (clearMapped pid (reloadTimers r3) r3)).
  assert (H4 : roomOk r4).
  { unfold roomOk in *. unfold r4, r3. room_simpl.
    destruct (H) as (HA & HB & _ & _ & HE).
    apply (okC_forget H).
    - unfold remove. rewrite Forall_forall in *. intros a Ha.
      apply filter_In in Ha. apply HA, Ha.
    - apply NoDup_keys_remove, HB.
    - intros k Hk. apply lookup_remove_ne, Hk.
    - intro Hp. rewrite (HE Hp). reflexivity. }
  apply roomOk_timers with r4; try reflexivity; [exact H4|].
  room_simpl. intros h p w d Hin. apply In_clearHandle_timers in Hin. exact Hin.
Qed.

Lemma startGameFromLoadout_ok r : roomOk r -> roomOk (startGameFromLoadout r).
Proof.
  intro H. unfold startGameFromLoadout.
  destruct (countdownStarted r); [exact H|].
  unfold roomOk in *. room_simpl.
  apply (okC_timers (okC_playing H (playing' := true) (fun E => ltac:(discriminate)))).
  intros h pid w d Hin. apply in_app_or in Hin.
  destruct Hin as [Hin|[Hin|[]]]; [exact Hin | discriminate].
Qed.

Lemma setPlayerLoadoutReady_ok pid b r :
  roomOk r -> roomOk (setPlayerLoadoutReady pid b r).
Proof.
  intro H. unfold setPlayerLoadoutReady, checkAllLoadoutReady. cbv zeta.
  set (r1 := set_lobbyPlayers _ r).
  assert (H1 : roomOk r1) by (ok_same H).
  destruct b; [|exact H1].
  destruct (List.length (lobbyPlayers r1) <? 2)%nat; [exact H1|].
  destruct (forallb _ _ && inLoadoutPhase r1); [|exact H1].
  apply startGameFromLoadout_ok, H1.
Qed.

Lemma setPlayerLoadout_ok pid m w r :
  roomOk r -> roomOk (setPlayerLoadout pid m w r).
Proof.
  intro H. unfold setPlayerLoadout. cbv zeta.
  set (r1 := set_lobbyPlayers _ r).
  assert (H1 : roomOk r1) by (ok_same H).
  destruct (lookup id pid (players r1)); [|exact H1].
  unfold roomOk in *. room_simpl.
  destruct (H1) as (HA & HB & _ & _ & HE).
  apply (okC_forget H1).
  - unfold adjust. apply Forall_map. rewrite Forall_forall in *.
    intros a Ha. destruct (String.eqb (id a) pid); [|apply HA, Ha].
    destruct (HA a Ha) as ((Hz & Hh & _ & _) & (Hw1 & _)).
    split; [|split; [exact Hw1 | reflexivity]].
    split; [exact Hz|]. split; [exact Hh|].
    cbn [ammo weapon fuel maxFuel].
    split; [split; [apply clipSize_nonneg | apply Z.le_refl]|].
    split; [apply fuel_nonneg | lra].
  - rewrite keys_adjust; [exact HB | reflexivity].
  - intros k Hk. apply lookup_adjust_ne; [exact Hk | reflexivity].
  - intro Hp. rewrite (HE Hp). reflexivity.
Qed.

Lemma startGame_ok r : roomOk r -> roomOk (snd (startGame r)).
Proof.
  intro H. unfold startGame.
  destruct (gameStarted r || inLoadoutPhase r) eqn:G; [exact H|].
  destruct (negb _); [exact H|].
  destruct (_ <? _)%nat; [exact H|].
  unfold roomOk in *. unfold initializePlayers. room_simpl.
  rewrite orb_true_r. rewrite G in H.
  destruct (H) as (_ & _ & _ & _ & HE). rewrite (HE eq_refl) in *.
  destruct (@initializePlayersLoop_ok 0
              (map (with_loadoutReady false) (lobbyPlayers r)) []
              (Forall_nil _) (NoDup_nil _))
    as [HA' HB'].
  apply (okC_initialize H HA' HB').
Qed.

Lemma manualReload_ok pid r : roomOk r -> roomOk (manualReload pid r).
Proof.
  intro H. unfold manualReload.
  destruct (lookup id pid (players r)) as [player|] eqn:L; [|exact H].
  destruct (isDead player || isReloading player) eqn:G; [exact H|].
  destruct (_ <=? _)%Z; [exact H|].
  apply orb_false_iff in G. destruct G as [_ G].
  apply startReload_ok; [exact H | | exact G].
  destruct (lookup_In id pid (players r) L) as [_ ->]. exact L.
Qed.

Lemma respawnPlayer_ok pid r : roomOk r -> roomOk (respawnPlayer pid r).
Proof.
  intro H. unfold respawnPlayer.
  destruct (lookup id pid (players r)) as [player|]; [|exact H].
  destruct (negb (isDead player)); [exact H|].
  cbv zeta. apply grantSpawnProtection_ok.
  unfold roomOk in *. room_simpl.
  destruct (H) as (HA & HB & _ & _ & HE).
  apply (okC_forget H).
  - unfold adjust. apply Forall_map. rewrite Forall_forall in *.
    intros a Ha. destruct (String.eqb (id a) pid); [|apply HA, Ha].
    destruct (HA a Ha) as ((_ & _ & _ & (Hf0 & Hf1)) & (Hw1 & Hw2)).
    split; [|split; assumption].
    unfold playerOk, respawned. cbn [z health maxHealth ammo weapon fuel maxFuel].
    split; [unfold MIN_Z, MAX_Z, DEFAULT_Z; lra|].
    split; [rewrite Hw1; unfold MAX_HEALTH; lra|].
    split; [split; [apply clipSize_nonneg | apply Z.le_refl]|].
    split; lra.
  - rewrite keys_adjust; [exact HB | reflexivity].
  - intros k Hk. apply lookup_adjust_ne; [exact Hk | reflexivity].
  - intro Hp. rewrite (HE Hp). reflexivity.
Qed.

Lemma destroy_ok r : roomOk r -> roomOk (destroy r).
Proof.
  intro H. unfold roomOk in *. unfold destroy. room_simpl.
  apply (okC_clear H). intros h pid w d Hin.
  apply In_disarm_all in Hin. destruct Hin as [Hin _].
  apply In_disarm_all in Hin. destruct Hin as [Hin Hnot]. cbn [fst] in Hnot.
  apply In_clearHandle_timers in Hin. apply In_clearHandle_timers in Hin.
  auto.
Qed.

Lemma step_ok Math r op : roomOk r -> roomOk (step Math r op).
Proof.
  intro H.
  destruct op as [pid nm|pid|pid b|pid b|pid m w| |pid input|pid|pid|h now rnd| ];
    cbn [step].
  - unfold addPlayer. ok_same H.
  - apply removePlayer_ok, H.
  - unfold setPlayerReady. ok_same H.
  - apply setPlayerLoadoutReady_ok, H.
  - apply setPlayerLoadout_ok, H.
  - apply startGame_ok, H.
  - unfold handleInput. ok_same H.
  - apply manualReload_ok, H.
  - apply respawnPlayer_ok, H.
  - apply fire_ok, H.
  - apply destroy_ok, H.
Qed.

Lemma newGameRoom_ok code hostId : roomOk (newGameRoom code hostId).
Proof.
  unfold roomOk, newGameRoom. room_simpl.
  split5; [constructor | constructor | constructor | intros h pid w d []
          | reflexivity].
Qed.

Lemma run_ok Math ops r : roomOk r -> roomOk (run Math ops r).
Proof.
  unfold run. revert r. induction ops as [|op ops IH]; intros r H; [exact H|].
  cbn [fold_left]. apply IH, step_ok, H.
Qed.

(** In every room reached from its creation the players have distinct ids,
    as the keys of a [Map] do. *)
Lemma reachable_players_distinct Math code hostId ops :
  NoDup (keys id (players (run Math ops (newGameRoom code hostId)))).
Proof.
  destruct (run_ok Math ops (newGameRoom_ok code hostId)) as (_ & ND & _).
  exact ND.
Qed.

(** C5.  Whatever operations a room goes through from its creation (lobby
    and loadout changes, inputs, ticks with their shots and damage, manual
    and timed reloads, respawns, spawn-protection timeouts, players
    leaving), every player object it holds satisfies the bounds: altitude
    within [MIN_Z, MAX_Z] = [0, 100], health within [0, maxHealth], ammo
    within [0, clipSize] of its weapon, fuel within [0, maxFuel]. *)
Theorem bounds_hold Math code hostId ops p :
  In p (players (run Math ops (newGameRoom code hostId))) ->
  (0 <= z p /\ z p <= 100)
  /\ (0 <= health p /\ health p <= maxHealth p)
  /\ (0 <= ammo p <= WeaponStats.clipSize (WEAPON_STATS (weapon p)))%Z
  /\ (0 <= fuel p /\ fuel p <= maxFuel p).
Proof.
  intro Hin.
  exact (proj1 (okC_players (run_ok Math ops (newGameRoom_ok code hostId)) p Hin)).
Qed.

Lemma bounds_hold_witness :
  let p := hd cappedShooter (players skirmish) in
  In p (players skirmish)
  /\ (0 <= z p /\ z p <= 100)
  /\ (0 <= health p /\ health p <= maxHealth p)
  /\ (0 <= ammo p <= WeaponStats.clipSize (WEAPON_STATS (weapon p)))%Z
  /\ (0 <= fuel p /\ fuel p <= maxFuel p).
Proof.
  intro p.
  assert (Hin : In p (players (run exampleMath skirmishOps (newGameRoom "ROOM" "a"))))
    by (vm_compute; left; reflexivity).
  split; [exact Hin|].
  pose proof (@bounds_hold exampleMath "ROOM" "a" skirmishOps p) as B.
  specialize (B Hin). exact B.
Defined.

(** ** One game loop at a time *)

Lemma sameLoops_refl r : sameLoops r r.
Proof. repeat split; auto. Qed.

Lemma sameLoops_trans r1 r2 r3 :
  sameLoops r1 r2 -> sameLoops r2 r3 -> sameLoops r1 r3.
Proof.
  intros (A1 & B1 & C1 & D1) (A2 & B2 & C2 & D2).
  repeat split; try congruence. intros h t Hin Ht. auto.
Qed.

Lemma sameLoops_ok r r' : loopsOk r -> sameLoops r r' -> loopsOk r'.
Proof.
  intros (L1 & L2 & L3 & L4) (A & B & C & D).
  assert (HG : forall h, In (h, GameLoopInterval) (timers r') ->
                         In (h, GameLoopInterval) (timers r))
    by (intros h Hin; apply D; [exact Hin | left; reflexivity]).
  assert (HC : forall h n, In (h, CountdownInterval n) (timers r') ->
                           In (h, CountdownInterval n) (timers r))
    by (intros h n Hin; apply D; [exact Hin | right; eauto]).
  split; [|split; [|split]].
  - intros h Hin. rewrite A. apply L1, HG, Hin.
  - intros h n Hin. rewrite B. apply (L2 h n), HC, Hin.
  - destruct L3 as [L3|L3]; [left | right]; intros h; [intros n|]; intro Hin.
    + apply (L3 h n), HC, Hin.
    + apply (L3 h), HG, Hin.
  - rewrite C. intro E. destruct (L4 E) as [N1 N2]. split.
    + intros h n Hin. apply (N1 h n), HC, Hin.
    + intros h Hin. apply (N2 h), HG, Hin.
Qed.

Lemma sameLoops_noCountdown r r' : noCountdown r -> sameLoops r r' -> noCountdown r'.
Proof.
  intros N (_ & _ & _ & D) h n Hin. apply (N h n), D; [exact Hin | right; eauto].
Qed.

(** Appending a timer that is not an interval, after disarming some. *)
Lemma intervals_arm (ts ts' : list (nat * Timer)) h0 t0 :
  ~ isInterval t0 ->
  (forall e, In e ts' -> In e ts) ->
  forall h t, In (h, t) (ts' ++ [(h0, t0)]) -> isInterval t -> In (h, t) ts.
Proof.
  intros Hn Hsub h t Hin Ht. apply in_app_or in Hin.
  destruct Hin as [Hin|[Hin|[]]]; [apply Hsub, Hin|].
  injection Hin as <- <-. contradiction.
Qed.

Lemma not_interval_reload pid w d : ~ isInterval (ReloadTimeout pid w d).
Proof. intros [H|[n H]]; discriminate. Qed.

Lemma not_interval_spawn pid : ~ isInterval (SpawnProtectionTimeout pid).
Proof. intros [H|[n H]]; discriminate. Qed.

Lemma not_interval_updated : ~ isInterval RoomUpdatedTimeout.
Proof. intros [H|[n H]]; discriminate. Qed.

Lemma In_disarm_in h (e : nat * Timer) ts : In e (disarm h ts) -> In e ts.
Proof. intro H. apply In_disarm in H. apply H. Qed.

Lemma endGame_loops w r :
  loopsOk r -> noCountdown r -> loopsOk (endGame w r) /\ noCountdown (endGame w r)
                               /\ noLoop (endGame w r).
Proof.
  intros (L1 & L2 & L3 & L4) NC.
  destruct (endGame_fields w r) as (Hg & _ & Ht & _).
  assert (Hin0 : forall e, In e (timers (endGame w r)) -> isInterval (snd e) ->
                           In e (timers r) /\ gameLoop r <> Some (fst e)).
  { intros e Hin Hi. rewrite Ht in Hin. apply in_app_or in Hin.
    destruct Hin as [Hin|[Hin|[]]].
    - apply In_disarm_all in Hin. destruct Hin as [Hin _].
      apply In_disarm_all in Hin. destruct Hin as [Hin _].
      destruct (gameLoop r) as [g|]; [|split; [exact Hin | discriminate]].
      apply In_disarm in Hin. destruct Hin as [Hin Hne].
      split; [exact Hin|]. intros [= E]. apply Hne. symmetry. exact E.
    - subst e. cbn [snd] in Hi. exfalso. apply not_interval_updated, Hi. }
  assert (NL : noLoop (endGame w r)).
  { intros h Hin. destruct (Hin0 _ Hin) as [Hin1 Hne]; [left; reflexivity|].
    apply Hne. cbn [fst]. apply L1, Hin1. }
  assert (NC' : noCountdown (endGame w r)).
  { intros h n Hin. destruct (Hin0 _ Hin) as [Hin1 _]; [right; cbn; eauto|].
    apply (NC h n Hin1). }
  split; [|split; assumption].
  split; [|split; [|split]].
  - intros h Hin. exfalso. apply (NL h Hin).
  - intros h n Hin. exfalso. apply (NC' h n Hin).
  - left. exact NC'.
  - intros _. split; assumption.
Qed.

Lemma ticking_same r r' : ticking r -> sameLoops r r' -> ticking r'.
Proof.
  intros [H N] S. split; [apply (sameLoops_ok H S) | apply (sameLoops_noCountdown N S)].
Qed.

Ltac same_loops :=
  repeat split;
  try (intros ? ? ? ?; eapply intervals_arm; eauto using not_interval_reload,
         not_interval_spawn, not_interval_updated, In_disarm_in,
         In_clearHandle_timers).

Lemma damagePlayer_ticking player damage sourceId r :
  ticking r -> ticking (damagePlayer player damage sourceId r).
Proof.
  intro T. unfold damagePlayer. destruct (Qleb _ _); cbv zeta.
  - match goal with
    | |- ticking (match lookup id sourceId (players ?r3) with _ => _ end) =>
        assert (T3 : ticking r3) by (apply (ticking_same T); repeat split; auto);
        destruct (lookup id sourceId (players r3)) as [source|]; [|exact T3];
        destruct (KILL_LIMIT <=? kills source)%Z; [|exact T3]
    end.
    destruct T3 as [H N]. destruct (endGame_loops (id source) H N) as (H' & N' & _).
    split; assumption.
  - apply (ticking_same T); repeat split; auto.
Qed.

Lemma handleHitscan_ticking Math player angle damage range r :
  ticking r -> ticking (handleHitscan Math player angle damage range r).
Proof.
  intro T. unfold handleHitscan.
  destruct (fst (hitscanPlayers _ _ _ _ _ _ _ _)) as [target|].
  - match goal with
    | |- ticking (emit _ (damagePlayer ?t ?d ?s ?r0)) =>
        assert (T0 : ticking r0) by (apply (ticking_same T); repeat split; auto);
        assert (T1 := @damagePlayer_ticking t d s r0 T0);
        apply (ticking_same T1); repeat split; auto
    end.
  - destruct (snd (hitscanObstacles _ _ _ _ _ _)) as [obsId|];
      [destruct (String.eqb obsId "")|];
      apply (ticking_same T); repeat split; auto.
Qed.

Lemma startReload_sameLoops player r : sameLoops r (startReload player r).
Proof.
  unfold startReload, armTimer. room_simpl. repeat split.
  intros h t. room_simpl.
  eapply intervals_arm; eauto using not_interval_reload.
Qed.

Lemma tryShoot_ticking Math now rnd player r :
  ticking r -> ticking (tryShoot Math now rnd player r).
Proof.
  intro T. unfold tryShoot.
  destruct (_ || _); [exact T|].
  destruct (Qltb _ _); [exact T|].
  destruct (MAX_PROJECTILES_PER_PLAYER <=? _)%nat; [exact T|].
  cbv zeta.
  set (player1 := with_ammo (ammo player - 1) player).
  set (r1 := set_players _ (set_lastShotTime _ r)).
  assert (T1 : ticking r1) by (apply (ticking_same T); repeat split; auto).
  set (r2 := if (ammo player1 <=? 0)%Z then startReload player1 r1 else r1).
  assert (T2 : ticking r2).
  { unfold r2. destruct (ammo player1 <=? 0)%Z; [|exact T1].
    apply (ticking_same T1), startReload_sameLoops. }
  destruct (WeaponStats.isHitscan _).
  - apply handleHitscan_ticking, T2.
  - apply (ticking_same T2); repeat split; auto.
Qed.

Lemma updatePlayers_ticking Math now rnd r :
  ticking r -> ticking (updatePlayers Math now rnd r).
Proof.
  unfold updatePlayers. generalize (keys id (players r)). intro ks.
  revert r. induction ks as [|k ks IH]; intros r T; [exact T|].
  cbn [fold_left]. apply IH.
  destruct (lookup id k (players r)) as [player|]; [|exact T].
  destruct (isDead player); [exact T|].
  destruct (lookup skey k (playerInputs r)) as [[k' input]|]; [|exact T].
  unfold updatePlayer.
  set (r1 := set_players _ r).
  assert (T1 : ticking r1) by (apply (ticking_same T); repeat split; auto).
  destruct (InputState.shooting input); [|exact T1].
  apply tryShoot_ticking, T1.
Qed.

Lemma checkCollisions_ticking Math r :
  ticking r -> ticking (checkCollisions Math r).
Proof.
  unfold checkCollisions. generalize (keys ProjectileState.id (projectiles r)).
  intro ks. revert r. induction ks as [|k ks IH]; intros r T; [exact T|].
  cbn [fold_left]. apply IH.
  destruct (lookup ProjectileState.id k (projectiles r)) as [proj|]; [|exact T].
  destruct (find (collides Math proj) (players r)) as [player|]; [|exact T].
  assert (T1 := @damagePlayer_ticking player (ProjectileState.damage proj)
                  (ProjectileState.ownerId proj) r T).
  apply (ticking_same T1); repeat split; auto.
Qed.

Lemma gameLoopCallback_ticking Math now rnd r :
  ticking r -> ticking (gameLoopCallback Math now rnd r).
Proof.
  intro T. unfold gameLoopCallback, update.
  apply (updatePlayers_ticking Math now rnd) in T.
  assert (T1 : ticking (updateProjectiles Math now (updatePlayers Math now rnd r)))
    by (apply (ticking_same T); repeat split; auto).
  apply (checkCollisions_ticking Math) in T1.
  apply (ticking_same T1); repeat split; auto.
Qed.

Lemma grantSpawnProtection_sameLoops player r :
  sameLoops r (grantSpawnProtection player r).
Proof.
  unfold grantSpawnProtection, armTimer. room_simpl. repeat split.
  intros h t. room_simpl.
  eapply intervals_arm; [apply not_interval_spawn|].
  intro e. apply In_clearHandle_timers.
Qed.

Lemma grantAll_sameLoops ps r :
  sameLoops r (fold_left (fun r player => grantSpawnProtection player r) ps r).
Proof.
  revert r. induction ps as [|p ps IH]; intro r; [apply sameLoops_refl|].
  cbn [fold_left].
  eapply sameLoops_trans; [apply grantSpawnProtection_sameLoops | apply IH].
Qed.

Lemma startGameFromLoadout_loops r : loopsOk r -> loopsOk (startGameFromLoadout r).
Proof.
  intros L. unfold startGameFromLoadout.
  destruct (countdownStarted r) eqn:E; [exact L|].
  destruct L as (L1 & L2 & L3 & L4). destruct (L4 E) as [NC NL]. unfold armTimer. room_simpl.
  assert (Hin : forall h t, In (h, t) (timers r ++ [(nextTimer r, CountdownInterval 3)]) ->
                  isInterval t -> h = nextTimer r /\ t = CountdownInterval 3).
  { intros h t Hin Ht. apply in_app_or in Hin. destruct Hin as [Hin|[Hin|[]]].
    - exfalso. destruct Ht as [->|[n ->]]; [apply (NL h Hin) | apply (NC h n Hin)].
    - injection Hin as <- <-. auto. }
  split; [|split; [|split]].
  - intros h H. destruct (Hin _ _ H) as [_ X]; [left; reflexivity | discriminate].
  - intros h n H. destruct (Hin _ _ H) as [-> _]; [right; eauto | reflexivity].
  - right. intros h H. destruct (Hin _ _ H) as [_ X]; [left; reflexivity | discriminate].
  - discriminate.
Qed.

(** Arming the game loop, when nothing is armed and a countdown was started. *)
Lemma startGameLoop_loops r :
  loopsOk r -> noCountdown r -> noLoop r -> countdownStarted r = true ->
  loopsOk (startGameLoop r).
Proof.
  intros L NC NL CS. unfold startGameLoop.
  set (r1 := fold_left _ (players r) r).
  assert (S1 : sameLoops r r1) by apply grantAll_sameLoops.
  assert (NC1 := sameLoops_noCountdown NC S1).
  assert (NL1 : noLoop r1).
  { intros h Hin. apply (NL h). destruct S1 as (_ & _ & _ & D).
    apply D; [exact Hin | left; reflexivity]. }
  assert (CS1 : countdownStarted r1 = true)
    by (destruct S1 as (_ & _ & -> & _); exact CS).
  unfold armTimer. room_simpl.
  assert (Hin : forall h t, In (h, t) (timers r1 ++ [(nextTimer r1, GameLoopInterval)]) ->
                  isInterval t -> h = nextTimer r1 /\ t = GameLoopInterval).
  { intros h t Hin Ht. apply in_app_or in Hin. destruct Hin as [Hin|[Hin|[]]].
    - exfalso. destruct Ht as [->|[n ->]]; [apply (NL1 h Hin) | apply (NC1 h n Hin)].
    - injection Hin as <- <-. auto. }
  assert (NC2 : forall h n,
             ~ In (h, CountdownInterval n) (timers r1 ++ [(nextTimer r1, GameLoopInterval)])).
  { intros h n H. destruct (Hin _ _ H) as [_ X]; [right; eauto | discriminate]. }
  split; [|split; [|split]].
  - intros h H. destruct (Hin _ _ H) as [-> _]; [left; reflexivity | reflexivity].
  - intros h n H. destruct (NC2 _ _ H).
  - left. exact NC2.
  - intro E. change (countdownStarted r1 = false) in E. congruence.
Qed.

Lemma In_retarget (h : nat) (c : Z) (e : nat * Timer) ts :
  In e (map (fun e => if Nat.eqb (fst e) h then (h, CountdownInterval c) else e) ts) ->
  In e ts \/ (e = (h, CountdownInterval c) /\ exists t, In (h, t) ts).
Proof.
  intro H. apply in_map_iff in H. destruct H as ([h' t'] & <- & Hin).
  cbn [fst]. destruct (Nat.eqb h' h) eqn:E; [|left; exact Hin].
  apply Nat.eqb_eq in E. subst h'. right. split; [reflexivity | eauto].
Qed.

Lemma find_handle_In (h : nat) ts (e : nat * Timer) :
  find (fun e => Nat.eqb (fst e) h) ts = Some e -> In (h, snd e) ts.
Proof.
  intro H. apply find_some in H. destruct H as [Hin E].
  apply Nat.eqb_eq in E. destruct e as [h' t]. cbn in *. subst h'. exact Hin.
Qed.

(** A countdown tick, fired under the handle the countdown is armed at. *)
Lemma countdownCallback_loops h countdown r :
  loopsOk r -> In (h, CountdownInterval countdown) (timers r) ->
  loopsOk (countdownCallback h countdown r).
Proof.
  intros (L1 & L2 & L3 & L4) Hh.
  assert (NL : noLoop r) by (destruct L3 as [N|N]; [destruct (N _ _ Hh) | exact N]).
  assert (CI : countdownInterval r = Some h) by apply (L2 _ _ Hh).
  assert (CS : countdownStarted r = true).
  { destruct (countdownStarted r); [reflexivity|].
    destruct (L4 eq_refl) as [N _]. destruct (N _ _ Hh). }
  unfold countdownCallback. cbv zeta.
  set (c := (countdown - 1)%Z).
  set (r1 := set_timers _ r).
  assert (T1 : forall h' t, In (h', t) (timers r1) -> isInterval t ->
                 exists n, t = CountdownInterval n /\ countdownInterval r = Some h').
  { intros h' t Hin Ht. unfold r1 in Hin. cbn [timers set_timers] in Hin.
    apply In_retarget in Hin. destruct Hin as [Hin|[[= -> ->] _]].
    - destruct Ht as [->|[n ->]]; [destruct (NL _ Hin)|].
      exists n. split; [reflexivity | apply (L2 _ _ Hin)].
    - exists c. auto. }
  assert (Ok1 : loopsOk r1).
  { split; [|split; [|split]].
    - intros h' H. destruct (T1 _ _ H) as (n & X & _); [left; reflexivity | discriminate].
    - intros h' n H. destruct (T1 _ _ H) as (_ & _ & X); [right; eauto | exact X].
    - right. intros h' H.
      destruct (T1 _ _ H) as (n & X & _); [left; reflexivity | discriminate].
    - intro E. change (countdownStarted r = false) in E. congruence. }
  destruct (0 <? c)%Z.
  - apply (sameLoops_ok Ok1). repeat split; auto.
  - set (r2 := emit _ _).
    assert (T2 : forall h' t, In (h', t) (timers r2) -> ~ isInterval t).
    { intros h' t Hin Ht. unfold r2 in Hin. room_simpl. cbn [timers] in Hin.
      change (countdownInterval r1) with (countdownInterval r) in Hin.
      rewrite CI in Hin. apply In_disarm in Hin. destruct Hin as [Hin Hne].
      destruct (T1 _ _ Hin Ht) as (n & _ & X). rewrite CI in X.
      injection X as ->. apply Hne. reflexivity. }
    apply startGameLoop_loops.
    + split; [|split; [|split]].
      * intros h' H. destruct (T2 _ _ H). left; reflexivity.
      * intros h' n H. destruct (T2 _ _ H). right; eauto.
      * left. intros h' n H. destruct (T2 _ _ H). right; eauto.
      * intro E. change (countdownStarted r = false) in E. congruence.
    + intros h' n H. destruct (T2 _ _ H). right; eauto.
    + intros h' H. destruct (T2 _ _ H). left; reflexivity.
    + exact CS.
Qed.

Lemma In_clearTimers (e : nat * Timer) hs ts :
  In e (fold_left (fun ts h => disarm h ts) hs ts) -> In e ts.
Proof. intro H. apply In_disarm_all in H. apply H. Qed.

(** [destroy] disarms both intervals. *)
Lemma destroy_loops r : loopsOk r -> loopsOk (destroy r) /\ noLoop (destroy r).
Proof.
  intros (L1 & L2 & L3 & L4).
  assert (T : forall h t, In (h, t) (timers (destroy r)) -> ~ isInterval t).
  { intros h t Hin Ht. revert Hin. unfold destroy. room_simpl.
    cbn [timers countdownInterval gameLoop reloadTimers spawnProtectionTimers].
    intro Hin. apply In_clearTimers in Hin. apply In_clearTimers in Hin.
    change (countdownInterval (set_gameLoop None (clearHandle (gameLoop r) r)))
      with (countdownInterval r) in Hin.
    assert (H0 : In (h, t) (timers r) /\
                 (countdownInterval r <> Some h) /\ (gameLoop r <> Some h)).
    { destruct (countdownInterval r) as [c|]; destruct (gameLoop r) as [g|];
        repeat match goal with
               | H : In _ (disarm _ _) |- _ =>
                   apply In_disarm in H; destruct H as [H ?]
               end; cbn [fst] in *;
        (split; [assumption | split; congruence]). }
    destruct H0 as (Hin0 & Hc & Hg).
    destruct Ht as [->|[n ->]]; [apply Hg, L1, Hin0 | apply Hc, (L2 _ _ Hin0)]. }
  split; [split; [|split; [|split]]|].
  - intros h H. destruct (T _ _ H). left; reflexivity.
  - intros h n H. destruct (T _ _ H). right; eauto.
  - left. intros h n H. destruct (T _ _ H). right; eauto.
  - intros _. split.
    + intros h n H. destruct (T _ _ H). right; eauto.
    + intros h H. destruct (T _ _ H). left; reflexivity.
  - intros h H. destruct (T _ _ H). left; reflexivity.
Qed.

Lemma clearTimer_sameLoops h r : sameLoops r (clearTimer h r).
Proof.
  repeat split. intros h' t Hin _. apply In_disarm in Hin. apply Hin.
Qed.

Lemma clearMapped_sameLoops pid m r : sameLoops r (clearMapped pid m r).
Proof.
  repeat split. intros h' t Hin _. apply In_clearHandle_timers in Hin. exact Hin.
Qed.

Lemma reloadCallback_sameLoops pid w r : sameLoops r (reloadCallback pid w r).
Proof.
  unfold reloadCallback. destruct (lookup id pid (players r)) as [player|];
    [destruct (isDead player)|]; repeat split; auto.
Qed.

Lemma manualReload_sameLoops pid r : sameLoops r (manualReload pid r).
Proof.
  unfold manualReload. destruct (lookup id pid (players r)) as [player|];
    [|apply sameLoops_refl].
  destruct (_ || _); [apply sameLoops_refl|].
  destruct (_ <=? _)%Z; [apply sameLoops_refl | apply startReload_sameLoops].
Qed.

Lemma respawnPlayer_sameLoops pid r : sameLoops r (respawnPlayer pid r).
Proof.
  unfold respawnPlayer. destruct (lookup id pid (players r)) as [player|];
    [|apply sameLoops_refl].
  destruct (negb _); [apply sameLoops_refl|]. cbv zeta.
  eapply sameLoops_trans; [|apply grantSpawnProtection_sameLoops].
  repeat split. intros h t Hin _. room_simpl. cbn [timers] in Hin.
  apply In_clearHandle_timers in Hin. exact Hin.
Qed.

Lemma removePlayer_sameLoops pid r : sameLoops r (removePlayer pid r).
Proof.
  repeat split. intros h t Hin _. unfold removePlayer in Hin.
  room_simpl. cbn [timers] in Hin.
  apply In_clearHandle_timers in Hin. cbn [timers set_reloadTimers set_timers] in Hin.
  apply In_clearHandle_timers in Hin. exact Hin.
Qed.

Lemma setPlayerLoadout_sameLoops pid m w r : sameLoops r (setPlayerLoadout pid m w r).
Proof.
  unfold setPlayerLoadout. cbv zeta. room_simpl.
  destruct (lookup id pid (players r)); [|repeat split; auto].
  repeat split. intros h t Hin _. room_simpl. cbn [timers] in Hin.
  apply In_clearHandle_timers in Hin. exact Hin.
Qed.

Lemma setPlayerLoadoutReady_loops pid b r :
  loopsOk r -> loopsOk (setPlayerLoadoutReady pid b r).
Proof.
  intro L. unfold setPlayerLoadoutReady. cbv zeta.
  set (r1 := set_lobbyPlayers _ r).
  assert (L1 : loopsOk r1) by (apply (sameLoops_ok L); repeat split; auto).
  destruct b; [|exact L1]. unfold checkAllLoadoutReady.
  destruct (_ <? _)%nat; [exact L1|].
  destruct (_ && _); [apply startGameFromLoadout_loops, L1 | exact L1].
Qed.

Lemma startGame_sameLoops r : sameLoops r (snd (startGame r)).
Proof.
  unfold startGame. destruct (_ || _); [apply sameLoops_refl|].
  destruct (negb _); [apply sameLoops_refl|].
  destruct (_ <? _)%nat; [apply sameLoops_refl|]. repeat split; auto.
Qed.

(** What the event loop runs keeps the discipline. *)
Lemma fire_loops Math h now rnd r : loopsOk r -> loopsOk (fire Math h now rnd r).
Proof.
  intro L. unfold fire.
  destruct (find _ (timers r)) as [[h' t]|] eqn:F; [|exact L].
  apply find_handle_In in F. cbn [snd] in F. destruct t.
  - apply gameLoopCallback_ticking. split; [exact L|].
    destruct L as (_ & _ & [N|N] & _); [exact N | destruct (N _ F)].
  - apply countdownCallback_loops; assumption.
  - apply (sameLoops_ok L).
    apply sameLoops_trans with (clearTimer h r);
      [apply clearTimer_sameLoops | apply reloadCallback_sameLoops].
  - apply (sameLoops_ok L).
    apply sameLoops_trans with (clearTimer h r); [apply clearTimer_sameLoops|].
    repeat split; auto.
  - apply (sameLoops_ok L).
    apply sameLoops_trans with (clearTimer h r); [apply clearTimer_sameLoops|].
    repeat split; auto.
Qed.

Lemma step_loops Math r op : loopsOk r -> loopsOk (step Math r op).
Proof.
  intro L. destruct op; cbn [step].
  - apply (sameLoops_ok L). repeat split; auto.
  - apply (sameLoops_ok L), removePlayer_sameLoops.
  - apply (sameLoops_ok L). repeat split; auto.
  - apply setPlayerLoadoutReady_loops, L.
  - apply (sameLoops_ok L), setPlayerLoadout_sameLoops.
  - apply (sameLoops_ok L), startGame_sameLoops.
  - apply (sameLoops_ok L). repeat split; auto.
  - apply (sameLoops_ok L), manualReload_sameLoops.
  - apply (sameLoops_ok L), respawnPlayer_sameLoops.
  - apply fire_loops, L.
  - apply destroy_loops, L.
Qed.

Lemma newGameRoom_loops code hostId : loopsOk (newGameRoom code hostId).
Proof.
  split; [|split; [|split]].
  - intros h [].
  - intros h n [].
  - left. intros h n [].
  - intros _. split; [intros h n [] | intros h []].
Qed.

(** In every room the operations reach from a new one, each armed interval
    is the one its field points to, and at most one kind is armed. *)
Lemma run_loops Math ops r : loopsOk r -> loopsOk (run Math ops r).
Proof.
  unfold run. revert r. induction ops as [|op ops IH]; intros r L; [exact L|].
  cbn [fold_left]. apply IH, step_loops, L.
Qed.

Lemma reachable_one_loop Math ops code hostId :
  oneLoop (run Math ops (newGameRoom code hostId)).
Proof. apply (run_loops Math ops (newGameRoom_loops code hostId)). Qed.

(** ** Timer handles, roster and obstacles *)

Lemma wfC_arm ts n t : timersWfC ts n -> timersWfC (ts ++ [(n, t)]) (S n).
Proof.
  intros [ND F]. split.
  - rewrite map_app. simpl. apply NoDup_app; [exact ND | repeat constructor; simpl; tauto |].
    intros h Hin [<-|[]]. apply in_map_iff in Hin. destruct Hin as ([h' t'] & E & Hin).
    simpl in E. subst h'. apply F in Hin. lia.
  - intros h t' Hin. apply in_app_or in Hin. destruct Hin as [Hin|[Hin|[]]].
    + apply F in Hin. lia.
    + injection Hin as <- <-. lia.
Qed.

Lemma NoDup_map_filter (A B : Type) (f : A -> B) (p : A -> bool) l :
  NoDup (map f l) -> NoDup (map f (filter p l)).
Proof.
  induction l as [|a l IH]; simpl; intro ND; [constructor|].
  inversion ND as [|? ? Hn ND']; subst.
  destruct (p a); simpl; [constructor|]; auto.
  intro Hin. apply Hn. apply in_map_iff in Hin. destruct Hin as (b & E & Hb).
  apply filter_In in Hb. apply in_map_iff. exists b. tauto.
Qed.

Lemma wfC_disarm ts n h : timersWfC ts n -> timersWfC (disarm h ts) n.
Proof.
  intros [ND F]. split.
  - apply NoDup_map_filter, ND.
  - intros h' t Hin. apply In_disarm in Hin. apply (F h' t), Hin.
Qed.

Lemma wfC_clearHandle ts n (h : option nat) :
  timersWfC ts n ->
  timersWfC (match h with Some h => disarm h ts | None => ts end) n.
Proof. intro H. destruct h; [apply wfC_disarm|]; exact H. Qed.

Lemma wfC_clearTimers ts n hs :
  timersWfC ts n -> timersWfC (fold_left (fun ts h => disarm h ts) hs ts) n.
Proof.
  revert ts. induction hs as [|h hs IH]; intros ts H; simpl; [exact H|].
  apply IH, wfC_disarm, H.
Qed.

Lemma wfC_retarget ts n h c :
  timersWfC ts n ->
  timersWfC (map (fun e : nat * Timer =>
                    if Nat.eqb (fst e) h then (h, CountdownInterval c) else e) ts) n.
Proof.
  intros [ND F]. split.
  - rewrite map_map.
    replace (map (fun x : nat * Timer =>
                    fst (if Nat.eqb (fst x) h then (h, CountdownInterval c) else x)) ts)
      with (map fst ts); [exact ND|].
    apply map_ext. intros [h' t]. simpl.
    destruct (Nat.eqb h' h) eqn:E; [apply Nat.eqb_eq in E; subst|]; reflexivity.
  - intros h' t Hin. apply In_retarget in Hin.
    destruct Hin as [Hin|[[= -> ->] [t' Hin]]]; apply (F _ _ Hin).
Qed.

Section KeyedDistinct.
Variable A : Type.
Variable key : A -> string.

Lemma In_keys_insert_gen a k (m : list A) :
  In k (keys key (insert key a m)) -> k = key a \/ In k (keys key m).
Proof.
  induction m as [|b m IH]; simpl.
  - intros [<-|[]]. auto.
  - destruct (String.eqb (key b) (key a)) eqn:E; simpl.
    + intros [<-|H]; auto.
    + intros [<-|H]; auto. destruct (IH H); auto.
Qed.

Lemma NoDup_insert a (m : list A) :
  NoDup (keys key m) -> NoDup (keys key (insert key a m)).
Proof.
  induction m as [|b m IH]; simpl; intro ND.
  - repeat constructor. simpl. tauto.
  - inversion ND as [|? ? Hn ND']; subst.
    destruct (String.eqb (key b) (key a)) eqn:E; simpl.
    + apply String.eqb_eq in E. constructor; [rewrite <- E|]; assumption.
    + constructor; [|apply IH, ND'].
      intro Hin. apply In_keys_insert_gen in Hin. destruct Hin as [Hin|Hin].
      * apply String.eqb_neq in E. contradiction.
      * contradiction.
Qed.

Lemma NoDup_remove k (m : list A) :
  NoDup (keys key m) -> NoDup (keys key (remove key k m)).
Proof. apply NoDup_map_filter. Qed.

Lemma NoDup_adjust k f (m : list A) :
  (forall a, key (f a) = key a) ->
  NoDup (keys key m) -> NoDup (keys key (adjust key k f m)).
Proof. intros Hf ND. rewrite keys_adjust by exact Hf. exact ND. Qed.

Lemma insert_absent a (m : list A) :
  ~ In (key a) (keys key m) -> insert key a m = m ++ [a].
Proof.
  induction m as [|b m IH]; simpl; intro Hn; [reflexivity|].
  destruct (String.eqb (key b) (key a)) eqn:E.
  - apply String.eqb_eq in E. exfalso. apply Hn. auto.
  - f_equal. apply IH. tauto.
Qed.

Lemma lookup_None k (m : list A) : lookup key k m = None <-> ~ In k (keys key m).
Proof.
  induction m as [|b m IH]; simpl; [tauto|].
  destruct (String.eqb (key b) k) eqn:E.
  - apply String.eqb_eq in E. split; [discriminate | intro H; exfalso; apply H; auto].
  - apply String.eqb_neq in E. rewrite IH. tauto.
Qed.

Lemma adjust_absent k f (m : list A) : lookup key k m = None -> adjust key k f m = m.
Proof.
  induction m as [|b m IH]; simpl; [reflexivity|].
  destruct (String.eqb (key b) k); [discriminate|]. intro H. rewrite (IH H). reflexivity.
Qed.

Lemma remove_absent k (m : list A) : lookup key k m = None -> remove key k m = m.
Proof.
  induction m as [|b m IH]; simpl; [reflexivity|].
  unfold remove in *. simpl.
  destruct (String.eqb (key b) k); [discriminate|]. simpl. intro H.
  rewrite (IH H). reflexivity.
Qed.

Lemma In_keys_remove k k' (m : list A) :
  In k' (keys key (remove key k m)) <-> In k' (keys key m) /\ k' <> k.
Proof.
  unfold keys, remove. rewrite !in_map_iff. split.
  - intros (a & <- & Hin). apply filter_In in Hin. destruct Hin as [Hin Hne].
    apply negb_true_iff, String.eqb_neq in Hne. split; [eauto | exact Hne].
  - intros [(a & <- & Hin) Hne]. exists a. split; [reflexivity|].
    apply filter_In. split; [exact Hin|]. apply negb_true_iff, String.eqb_neq, Hne.
Qed.

End KeyedDistinct.

Lemma roomWf_same r r' :
  roomWf r -> timers r' = timers r -> nextTimer r' = nextTimer r ->
  lobbyPlayers r' = lobbyPlayers r -> obstacles r' = obstacles r ->
  projectiles r' = projectiles r -> projectileIdCounter r' = projectileIdCounter r ->
  roomWf r'.
Proof. unfold roomWf. intros H -> -> -> -> -> ->. exact H. Qed.

Ltac wf_same H := eapply roomWf_same; [exact H | reflexivity ..].

Lemma roomWf_timers r r' :
  roomWf r -> timersWfC (timers r') (nextTimer r') ->
  lobbyPlayers r' = lobbyPlayers r -> obstacles r' = obstacles r ->
  projectiles r' = projectiles r -> projectileIdCounter r' = projectileIdCounter r ->
  roomWf r'.
Proof. unfold roomWf. intros (_ & A & B & C & D) T -> -> -> ->. auto. Qed.

(** A change to the roster only. *)
Lemma roomWf_lobby r r' :
  roomWf r -> NoDup (keys RoomPlayer.id (lobbyPlayers r')) ->
  timers r' = timers r -> nextTimer r' = nextTimer r -> obstacles r' = obstacles r ->
  projectiles r' = projectiles r -> projectileIdCounter r' = projectileIdCounter r ->
  roomWf r'.
Proof. unfold roomWf. intros (T & _ & B & C & D) L -> -> -> -> ->. auto. Qed.

Lemma projectilesWfC_nil n : projectilesWfC [] n.
Proof. split; constructor. Qed.

Lemma NoDup_keys_map_lobby (f : RoomPlayer.t -> RoomPlayer.t) l :
  (forall p, RoomPlayer.id (f p) = RoomPlayer.id p) ->
  keys RoomPlayer.id (map f l) = keys RoomPlayer.id l.
Proof.
  intro Hf. unfold keys. rewrite map_map. apply map_ext. exact Hf.
Qed.

Lemma nextTimer_endGame w r : nextTimer (endGame w r) = S (nextTimer r).
Proof. reflexivity. Qed.

Lemma lobbyPlayers_endGame w r :
  lobbyPlayers (endGame w r)
  = map (fun p =>
           {| RoomPlayer.id := RoomPlayer.id p; RoomPlayer.name := RoomPlayer.name p;
              RoomPlayer.ready := false; RoomPlayer.loadoutReady := false;
              RoomPlayer.movement := RoomPlayer.movement p;
              RoomPlayer.weapon := RoomPlayer.weapon p |}) (lobbyPlayers r).
Proof. reflexivity. Qed.

Lemma code_endGame w r : code (endGame w r) = code r /\ hostId (endGame w r) = hostId r.
Proof. split; reflexivity. Qed.

Lemma endGame_wf w r : roomWf r -> roomWf (endGame w r).
Proof.
  intros (T & L & N & O & P). unfold roomWf.
  destruct (endGame_fields w r) as (_ & _ & Ht & _ & Hj & Ho & _).
  rewrite Ht, nextTimer_endGame, lobbyPlayers_endGame, Ho, Hj.
  split; [|split; [|split; [|split]]].
  - apply wfC_arm, wfC_clearTimers, wfC_clearTimers, wfC_clearHandle, T.
  - rewrite NoDup_keys_map_lobby by reflexivity. exact L.
  - constructor.
  - constructor.
  - apply projectilesWfC_nil.
Qed.

Lemma sameLobby_refl r : sameLobby r r.
Proof. repeat split. Qed.

Lemma sameLobby_trans r1 r2 r3 : sameLobby r1 r2 -> sameLobby r2 r3 -> sameLobby r1 r3.
Proof.
  intros (A & B & C) (A' & B' & C'). repeat split; congruence.
Qed.

Lemma endGame_sameLobby w r : sameLobby r (endGame w r).
Proof.
  destruct (code_endGame w r) as [A B]. split; [exact A|]. split; [exact B|].
  rewrite lobbyPlayers_endGame. apply NoDup_keys_map_lobby. reflexivity.
Qed.

Lemma wfStep_refl r : wfStep r r.
Proof. split; [apply sameLobby_refl | auto]. Qed.

Lemma wfStep_trans r1 r2 r3 : wfStep r1 r2 -> wfStep r2 r3 -> wfStep r1 r3.
Proof.
  intros [A B] [A' B']. split; [apply (@sameLobby_trans r1 r2 r3 A A') | auto].
Qed.

(** A change to fields that neither the lobby nor well-formedness reads. *)
Lemma wfStep_same r r' :
  code r' = code r -> hostId r' = hostId r -> lobbyPlayers r' = lobbyPlayers r ->
  timers r' = timers r -> nextTimer r' = nextTimer r -> obstacles r' = obstacles r ->
  projectiles r' = projectiles r -> projectileIdCounter r' = projectileIdCounter r ->
  wfStep r r'.
Proof.
  intros A B C D E F G I. split.
  - unfold sameLobby. rewrite A, B, C. auto.
  - intro H. apply (@roomWf_same r r' H); assumption.
Qed.

Ltac wf_frame := apply wfStep_same; reflexivity.

(** A change to the timers only, that keeps them well-formed. *)
Lemma wfStep_timers r r' :
  code r' = code r -> hostId r' = hostId r -> lobbyPlayers r' = lobbyPlayers r ->
  obstacles r' = obstacles r ->
  projectiles r' = projectiles r -> projectileIdCounter r' = projectileIdCounter r ->
  (timersWfC (timers r) (nextTimer r) -> timersWfC (timers r') (nextTimer r')) ->
  wfStep r r'.
Proof.
  intros A B C F G I T. split.
  - unfold sameLobby. rewrite A, B, C. auto.
  - intro H. apply (@roomWf_timers r r' H); [apply T, H | assumption ..].
Qed.

Lemma endGame_wfStep w r : wfStep r (endGame w r).
Proof. split; [apply endGame_sameLobby | apply endGame_wf]. Qed.

Lemma damagePlayer_wfStep player damage sourceId r :
  wfStep r (damagePlayer player damage sourceId r).
Proof.
  unfold damagePlayer. destruct (Qleb _ _); cbv zeta; [|wf_frame].
  match goal with
  | |- wfStep r (match lookup id sourceId (players ?r3) with _ => _ end) =>
      assert (S3 : wfStep r r3) by wf_frame;
      destruct (lookup id sourceId (players r3)) as [source|]; [|exact S3];
      destruct (KILL_LIMIT <=? kills source)%Z; [|exact S3];
      apply (@wfStep_trans r r3 _ S3), endGame_wfStep
  end.
Qed.

Lemma Forall_remove_obstacle (P : BreakableObstacle.t -> Prop) k l :
  Forall P l -> Forall P (remove BreakableObstacle.id k l).
Proof.
  intro H. unfold remove. apply Forall_forall. intros o Hin.
  apply filter_In in Hin. destruct Hin as [Hin _].
  rewrite Forall_forall in H. apply H, Hin.
Qed.

(** Damage leaves an obstacle standing only with health left. *)
Lemma damageObstacle_ok obsId damage obs :
  0 <= damage -> NoDup (keys BreakableObstacle.id obs) -> Forall obstacleOk obs ->
  NoDup (keys BreakableObstacle.id (damageObstacle obsId damage obs))
  /\ Forall obstacleOk (damageObstacle obsId damage obs).
Proof.
  intros Hd ND H. unfold damageObstacle.
  destruct (lookup BreakableObstacle.id obsId obs) as [o|] eqn:L; [|auto].
  destruct (Qleb (BreakableObstacle.health o - damage) 0) eqn:G.
  - split; [apply NoDup_remove, ND | apply Forall_remove_obstacle, H].
  - apply Qleb_gt in G. split; [apply NoDup_adjust; [reflexivity | exact ND]|].
    unfold adjust. apply Forall_forall. intros o' Hin.
    apply in_map_iff in Hin. destruct Hin as (a & <- & Ha).
    rewrite Forall_forall in H. specialize (H a Ha).
    destruct (String.eqb (BreakableObstacle.id a) obsId) eqn:E; [|exact H].
    apply String.eqb_eq in E.
    assert (Ea : a = o).
    { apply (In_lookup BreakableObstacle.id _ _ ND) in Ha. congruence. }
    subst a. destruct H as (H1 & H2 & H3). split; [|split]; [cbn; lra | cbn; lra | exact H3].
Qed.

Lemma wfStep_intro r r' :
  code r' = code r -> hostId r' = hostId r -> lobbyPlayers r' = lobbyPlayers r ->
  (timersWfC (timers r) (nextTimer r) -> timersWfC (timers r') (nextTimer r')) ->
  (NoDup (keys BreakableObstacle.id (obstacles r)) -> Forall obstacleOk (obstacles r) ->
   NoDup (keys BreakableObstacle.id (obstacles r'))
   /\ Forall obstacleOk (obstacles r')) ->
  (projectilesWfC (projectiles r) (projectileIdCounter r) ->
   projectilesWfC (projectiles r') (projectileIdCounter r')) ->
  wfStep r r'.
Proof.
  intros A B C T O P. split.
  - unfold sameLobby. rewrite A, B, C. auto.
  - intros (H1 & H2 & H3 & H4 & H5). destruct (O H3 H4) as [O1 O2].
    unfold roomWf. rewrite C. auto 6.
Qed.

Lemma string_of_nat_inj a b : string_of_nat a = string_of_nat b -> a = b.
Proof.
  unfold string_of_nat. intro H.
  assert (E : Nat.to_uint a = Nat.to_uint b).
  { assert (X := NilEmpty.usu (Nat.to_uint a)). rewrite H in X.
    rewrite NilEmpty.usu in X. congruence. }
  rewrite <- (Unsigned.of_to a), <- (Unsigned.of_to b). congruence.
Qed.

Lemma projectilesWfC_sub prs prs' n :
  projectilesWfC prs n ->
  (exists p, prs' = filter p prs) -> projectilesWfC prs' n.
Proof.
  intros [ND F] [p ->]. split.
  - apply NoDup_map_filter, ND.
  - apply Forall_forall. intros pr Hin. apply filter_In in Hin.
    rewrite Forall_forall in F. apply F, Hin.
Qed.

Lemma projectilesWfC_shot prs n pr :
  ProjectileState.id pr = ("proj_" ++ string_of_nat n)%string ->
  projectilesWfC prs n ->
  insert ProjectileState.id pr prs = prs ++ [pr]
  /\ projectilesWfC (prs ++ [pr]) (S n).
Proof.
  intros Eid [ND F].
  assert (Hn : ~ In (ProjectileState.id pr) (keys ProjectileState.id prs)).
  { intro Hin. unfold keys in Hin. apply in_map_iff in Hin.
    destruct Hin as (q & Eq & Hq). rewrite Forall_forall in F.
    destruct (F q Hq) as (k & Hk & Ek). rewrite Eid, Ek in Eq.
    cbn [String.append] in Eq. injection Eq as Eq.
    apply string_of_nat_inj in Eq. lia. }
  split; [apply insert_absent, Hn|]. split.
  - unfold keys. rewrite map_app. simpl. apply NoDup_app; [exact ND | repeat constructor; simpl; tauto |].
    intros k Hk [<-|[]]. exact (Hn Hk).
  - apply Forall_app. split.
    + eapply Forall_impl; [|exact F]. intros q (k & Hk & Ek). exists k. split; [lia | exact Ek].
    + constructor; [|constructor]. exists n. split; [lia | exact Eid].
Qed.

Lemma handleHitscan_wfStep Math player angle damage range r :
  0 <= damage -> wfStep r (handleHitscan Math player angle damage range r).
Proof.
  intro Hd. unfold handleHitscan.
  destruct (fst (hitscanPlayers _ _ _ _ _ _ _ _)) as [target|].
  - match goal with
    | |- wfStep r (emit _ (damagePlayer ?t ?d ?s ?r0)) =>
        assert (S0 : wfStep r r0) by wf_frame;
        assert (S1 := @damagePlayer_wfStep t d s r0);
        apply (@wfStep_trans r r0 _ S0);
        apply (@wfStep_trans r0 (damagePlayer t d s r0) _ S1); wf_frame
    end.
  - destruct (snd (hitscanObstacles _ _ _ _ _ _)) as [obsId|];
      [destruct (String.eqb obsId "")|]; try wf_frame.
    apply wfStep_intro; try reflexivity; [auto | | auto].
    intros ND O. apply damageObstacle_ok; assumption.
Qed.

Lemma startReload_wfStep player r : wfStep r (startReload player r).
Proof.
  unfold startReload, armTimer. cbv zeta. apply wfStep_timers; try reflexivity.
  room_simpl. cbn [timers nextTimer]. apply wfC_arm.
Qed.

Lemma tryShoot_wfStep Math now rnd player r :
  wfStep r (tryShoot Math now rnd player r).
Proof.
  unfold tryShoot.
  destruct (_ || _); [apply wfStep_refl|].
  destruct (Qltb _ _); [apply wfStep_refl|].
  destruct (MAX_PROJECTILES_PER_PLAYER <=? _)%nat; [apply wfStep_refl|].
  cbv zeta.
  set (player1 := with_ammo (ammo player - 1) player).
  set (r1 := set_players _ (set_lastShotTime _ r)).
  assert (S1 : wfStep r r1) by wf_frame.
  set (r2 := if (ammo player1 <=? 0)%Z then startReload player1 r1 else r1).
  assert (S2 : wfStep r r2).
  { unfold r2. destruct (ammo player1 <=? 0)%Z; [|exact S1].
    apply (@wfStep_trans r r1 _ S1), startReload_wfStep. }
  apply (@wfStep_trans r r2 _ S2).
  destruct (WeaponStats.isHitscan _).
  - apply handleHitscan_wfStep, damage_nonneg.
  - apply wfStep_intro; try reflexivity; [auto | auto |].
    cbn [projectiles projectileIdCounter set_projectiles set_projectileIdCounter].
    intro P.
    match goal with
    | |- projectilesWfC (insert _ ?pr _) _ =>
        destruct (@projectilesWfC_shot (projectiles r2) (projectileIdCounter r2) pr
                    eq_refl P) as [E W]
    end.
    rewrite E. exact W.
Qed.

Lemma updatePlayers_wfStep Math now rnd r : wfStep r (updatePlayers Math now rnd r).
Proof.
  unfold updatePlayers. generalize (keys id (players r)). intro ks.
  assert (G : forall r0, wfStep r r0 ->
                wfStep r (fold_left
                  (fun r pid =>
                     match lookup id pid (players r) with
                     | None => r
                     | Some player =>
                         if isDead player then r
                         else match lookup skey pid (playerInputs r) with
                              | Some (_, input) =>
                                  updatePlayer Math now (rnd pid) player input r
                              | None => r
                              end
                     end) ks r0)).
  { induction ks as [|k ks IH]; intros r0 S0; [exact S0|].
    cbn [fold_left]. apply IH. apply (@wfStep_trans r r0 _ S0).
    destruct (lookup id k (players r0)) as [player|]; [|apply wfStep_refl].
    destruct (isDead player); [apply wfStep_refl|].
    destruct (lookup skey k (playerInputs r0)) as [[k' input]|]; [|apply wfStep_refl].
    unfold updatePlayer.
    set (r1 := set_players _ r0).
    assert (S1 : wfStep r0 r1) by wf_frame.
    destruct (InputState.shooting input); [|exact S1].
    apply (@wfStep_trans r0 r1 _ S1), tryShoot_wfStep. }
  apply G, wfStep_refl.
Qed.

Lemma updateProjectilesLoop_obstacles Math now prs obs :
  Forall (fun pr => 0 <= ProjectileState.damage pr) prs ->
  NoDup (keys BreakableObstacle.id obs) -> Forall obstacleOk obs ->
  NoDup (keys BreakableObstacle.id (snd (updateProjectilesLoop Math now prs obs)))
  /\ Forall obstacleOk (snd (updateProjectilesLoop Math now prs obs)).
Proof.
  revert obs. induction prs as [|proj prs IH]; intros obs Hd ND O; [simpl; auto|].
  inversion Hd as [|? ? Hp Hd']; subst. cbn [updateProjectilesLoop]. cbv zeta.
  destruct (_ || _); [apply IH; assumption|].
  destruct (existsb _ _); [apply IH; assumption|].
  destruct (find _ obs) as [o|].
  - destruct (@damageObstacle_ok (BreakableObstacle.id o)
                (ProjectileState.damage (moveProjectile Math proj)) obs Hp ND O).
    apply IH; assumption.
  - cbn [snd]. apply IH; assumption.
Qed.

Lemma updateProjectilesLoop_ids Math now prs obs n :
  projectilesWfC prs n ->
  projectilesWfC (fst (updateProjectilesLoop Math now prs obs)) n.
Proof.
  revert obs. induction prs as [|proj prs IH]; intros obs [ND F]; [split; constructor|].
  inversion ND as [|? ? Hn ND']; subst. inversion F as [|? ? Hp F']; subst.
  assert (W : projectilesWfC prs n) by (split; assumption).
  cbn [updateProjectilesLoop]. cbv zeta.
  destruct (_ || _); [apply IH, W|].
  destruct (existsb _ _); [apply IH, W|].
  destruct (find _ obs) as [o|]; [apply IH, W|].
  cbn [fst]. destruct (IH obs W) as [ND1 F1]. split.
  - unfold keys. simpl. constructor; [|exact ND1].
    intro Hin. apply Hn. unfold keys in *. apply in_map_iff in Hin.
    destruct Hin as (q & Eq & Hq).
    assert (Hsub : forall q, In q (fst (updateProjectilesLoop Math now prs obs)) ->
                     In (ProjectileState.id q) (map ProjectileState.id prs)).
    { clear. revert obs. induction prs as [|a prs IH]; intros obs q Hin; [destruct Hin|].
      cbn [updateProjectilesLoop] in Hin. cbv zeta in Hin.
      destruct (_ || _); [right; apply (IH _ _ Hin)|].
      destruct (existsb _ _); [right; apply (IH _ _ Hin)|].
      destruct (find _ obs) as [o|]; [right; apply (IH _ _ Hin)|].
      cbn [fst] in Hin. destruct Hin as [<-|Hin]; [left; reflexivity|].
      right. apply (IH _ _ Hin). }
    rewrite <- Eq. apply Hsub, Hq.
  - constructor; [exact Hp | exact F1].
Qed.

Lemma updateProjectiles_wfStep Math now r :
  Forall (fun pr => 0 <= ProjectileState.damage pr) (projectiles r) ->
  wfStep r (updateProjectiles Math now r).
Proof.
  intro Hd. unfold updateProjectiles. cbv zeta.
  apply wfStep_intro; try reflexivity; [auto | |].
  - cbn [obstacles set_obstacles]. apply updateProjectilesLoop_obstacles, Hd.
  - cbn [projectiles projectileIdCounter set_projectiles set_obstacles].
    apply updateProjectilesLoop_ids.
Qed.

Lemma checkCollisions_wfStep Math r : wfStep r (checkCollisions Math r).
Proof.
  unfold checkCollisions. generalize (keys ProjectileState.id (projectiles r)).
  intro ks.
  assert (G : forall r0, wfStep r r0 ->
                wfStep r (fold_left
                  (fun r projId =>
                     match lookup ProjectileState.id projId (projectiles r) with
                     | None => r
                     | Some proj =>
                         match find (collides Math proj) (players r) with
                         | Some player =>
                             let r := damagePlayer player (ProjectileState.damage proj)
                                        (ProjectileState.ownerId proj) r in
                             let r := emit (game_hit (id player)
                                              (ProjectileState.damage proj)
                                              (ProjectileState.ownerId proj)) r in
                             set_projectiles
                               (remove ProjectileState.id projId (projectiles r)) r
                         | None => r
                         end
                     end) ks r0)).
  { induction ks as [|k ks IH]; intros r0 S0; [exact S0|].
    cbn [fold_left]. apply IH. apply (@wfStep_trans r r0 _ S0).
    destruct (lookup ProjectileState.id k (projectiles r0)) as [proj|];
      [|apply wfStep_refl].
    destruct (find (collides Math proj) (players r0)) as [player|];
      [|apply wfStep_refl].
    cbv zeta.
    apply (@wfStep_trans r0 _ _
             (@damagePlayer_wfStep player (ProjectileState.damage proj)
                (ProjectileState.ownerId proj) r0)).
    apply wfStep_intro; try reflexivity; [auto | auto |].
    cbn [projectiles projectileIdCounter set_projectiles emit set_emitted].
    intro P. apply (projectilesWfC_sub P). eexists. reflexivity. }
  apply G, wfStep_refl.
Qed.

Lemma gameLoopCallback_wfStep Math now rnd r :
  roomOk r -> wfStep r (gameLoopCallback Math now rnd r).
Proof.
  intro Ok. unfold gameLoopCallback, update. cbv zeta.
  set (r1 := updatePlayers Math now rnd r).
  assert (S1 : wfStep r r1) by apply updatePlayers_wfStep.
  assert (Ok1 : roomOk r1) by (apply updatePlayers_ok, Ok).
  set (r2 := updateProjectiles Math now r1).
  assert (S2 : wfStep r1 r2).
  { apply updateProjectiles_wfStep. destruct Ok1 as (_ & _ & D & _). exact D. }
  set (r3 := checkCollisions Math r2).
  assert (S3 : wfStep r2 r3) by apply checkCollisions_wfStep.
  apply (@wfStep_trans r r1 _ S1), (@wfStep_trans r1 r2 _ S2),
    (@wfStep_trans r2 r3 _ S3).
  wf_frame.
Qed.

Lemma grantSpawnProtection_wfStep player r : wfStep r (grantSpawnProtection player r).
Proof.
  unfold grantSpawnProtection, armTimer. cbv zeta. apply wfStep_timers; try reflexivity.
  room_simpl. cbn [timers nextTimer spawnProtectionTimers]. intro T.
  apply wfC_arm, wfC_clearHandle, T.
Qed.

Lemma grantAll_wfStep ps r :
  wfStep r (fold_left (fun r player => grantSpawnProtection player r) ps r).
Proof.
  revert r. induction ps as [|p ps IH]; intro r; [apply wfStep_refl|].
  cbn [fold_left].
  apply (@wfStep_trans r _ _ (grantSpawnProtection_wfStep p r)), IH.
Qed.

Lemma startGameLoop_wfStep r : wfStep r (startGameLoop r).
Proof.
  unfold startGameLoop. cbv zeta.
  apply (@wfStep_trans r _ _ (grantAll_wfStep (players r) r)).
  unfold armTimer. apply wfStep_timers; try reflexivity.
  room_simpl. cbn [timers nextTimer]. apply wfC_arm.
Qed.

Lemma countdownCallback_wfStep h countdown r : wfStep r (countdownCallback h countdown r).
Proof.
  unfold countdownCallback. cbv zeta.
  set (r1 := set_timers _ r).
  assert (S1 : wfStep r r1).
  { apply wfStep_timers; try reflexivity. apply wfC_retarget. }
  destruct (0 <? _)%Z.
  - apply (@wfStep_trans r r1 _ S1). wf_frame.
  - apply (@wfStep_trans r r1 _ S1).
    match goal with
    | |- wfStep r1 (startGameLoop ?r2) =>
        assert (S2 : wfStep r1 r2);
        [|apply (@wfStep_trans r1 r2 _ S2), startGameLoop_wfStep]
    end.
    apply wfStep_timers; try reflexivity.
    room_simpl. cbn [timers nextTimer countdownInterval]. apply wfC_clearHandle.
Qed.

Lemma clearTimer_wfStep h r : wfStep r (clearTimer h r).
Proof.
  apply wfStep_timers; try reflexivity. unfold clearTimer.
  cbn [timers nextTimer set_timers]. apply wfC_disarm.
Qed.

Lemma reloadCallback_wfStep pid w r : wfStep r (reloadCallback pid w r).
Proof.
  unfold reloadCallback. destruct (lookup id pid (players r)) as [player|];
    [destruct (isDead player)|]; wf_frame.
Qed.

(** Whatever the event loop runs keeps the lobby and well-formedness. *)
Lemma fire_wfStep Math h now rnd r : roomOk r -> wfStep r (fire Math h now rnd r).
Proof.
  intro Ok. unfold fire.
  destruct (find _ (timers r)) as [[h' t]|]; [|apply wfStep_refl].
  destruct t.
  - apply gameLoopCallback_wfStep, Ok.
  - apply countdownCallback_wfStep.
  - apply (@wfStep_trans r _ _ (clearTimer_wfStep h r)), reloadCallback_wfStep.
  - apply (@wfStep_trans r _ _ (clearTimer_wfStep h r)). wf_frame.
  - apply (@wfStep_trans r _ _ (clearTimer_wfStep h r)). wf_frame.
Qed.

Lemma manualReload_wfStep pid r : wfStep r (manualReload pid r).
Proof.
  unfold manualReload. destruct (lookup id pid (players r)) as [player|];
    [|apply wfStep_refl].
  destruct (_ || _); [apply wfStep_refl|].
  destruct (_ <=? _)%Z; [apply wfStep_refl | apply startReload_wfStep].
Qed.

Lemma clearMapped_wfStep pid m r : wfStep r (clearMapped pid m r).
Proof.
  apply wfStep_timers; try reflexivity. unfold clearMapped, clearHandle.
  cbn [timers nextTimer set_timers]. apply wfC_clearHandle.
Qed.

Lemma respawnPlayer_wfStep pid r : wfStep r (respawnPlayer pid r).
Proof.
  unfold respawnPlayer. destruct (lookup id pid (players r)) as [player|];
    [|apply wfStep_refl].
  destruct (negb _); [apply wfStep_refl|]. cbv zeta.
  match goal with
  | |- wfStep r (grantSpawnProtection ?p ?r2) =>
      assert (S2 : wfStep r r2);
      [|apply (@wfStep_trans r r2 _ S2), grantSpawnProtection_wfStep]
  end.
  apply wfStep_timers; try reflexivity.
  room_simpl. cbn [timers nextTimer reloadTimers]. apply wfC_clearHandle.
Qed.

Lemma setPlayerReady_wfStep pid b r : wfStep r (setPlayerReady pid b r).
Proof.
  unfold setPlayerReady. split.
  - repeat split. cbn [lobbyPlayers set_lobbyPlayers]. apply keys_adjust. reflexivity.
  - intros (T & L & N & O & P). unfold roomWf. cbn [lobbyPlayers set_lobbyPlayers].
    rewrite keys_adjust by reflexivity. auto.
Qed.

Lemma with_loadoutReady_wfStep pid b r :
  wfStep r (set_lobbyPlayers
              (adjust RoomPlayer.id pid (with_loadoutReady b) (lobbyPlayers r)) r).
Proof.
  split.
  - repeat split. cbn [lobbyPlayers set_lobbyPlayers]. apply keys_adjust. reflexivity.
  - intros (T & L & N & O & P). unfold roomWf. cbn [lobbyPlayers set_lobbyPlayers].
    rewrite keys_adjust by reflexivity. auto.
Qed.

Lemma startGameFromLoadout_wfStep r : wfStep r (startGameFromLoadout r).
Proof.
  unfold startGameFromLoadout. destruct (countdownStarted r); [apply wfStep_refl|].
  cbv zeta. unfold armTimer. apply wfStep_timers; try reflexivity.
  room_simpl. cbn [timers nextTimer]. apply wfC_arm.
Qed.

Lemma setPlayerLoadoutReady_wfStep pid b r : wfStep r (setPlayerLoadoutReady pid b r).
Proof.
  unfold setPlayerLoadoutReady. cbv zeta.
  apply (@wfStep_trans r _ _ (with_loadoutReady_wfStep pid b r)).
  destruct b; [|apply wfStep_refl]. unfold checkAllLoadoutReady.
  destruct (_ <? _)%nat; [apply wfStep_refl|].
  destruct (_ && _); [apply startGameFromLoadout_wfStep | apply wfStep_refl].
Qed.

Lemma setPlayerLoadout_wfStep pid m w r : wfStep r (setPlayerLoadout pid m w r).
Proof.
  unfold setPlayerLoadout. cbv zeta.
  set (r1 := set_lobbyPlayers _ r).
  assert (S1 : wfStep r r1).
  { split.
    - repeat split. cbn [lobbyPlayers set_lobbyPlayers r1]. apply keys_adjust. reflexivity.
    - intros (T & L & N & O & P). unfold roomWf, r1. cbn [lobbyPlayers set_lobbyPlayers].
      rewrite keys_adjust by reflexivity. auto. }
  apply (@wfStep_trans r r1 _ S1).
  destruct (lookup id pid (players r1)); [|apply wfStep_refl].
  apply wfStep_timers; try reflexivity.
  room_simpl. cbn [timers nextTimer reloadTimers]. apply wfC_clearHandle.
Qed.

Lemma initialObstacles_ok :
  let obs := fold_left (fun m o => insert BreakableObstacle.id (obstacleOfDef o) m)
               (ArenaDefinition.breakableObstacles (ARENAS CENTER)) [] in
  obs = map obstacleOfDef (ArenaDefinition.breakableObstacles (ARENAS CENTER))
  /\ NoDup (keys BreakableObstacle.id obs) /\ Forall obstacleOk obs.
Proof.
  cbv zeta. split; [reflexivity|]. split.
  - cbn. repeat constructor; simpl; intuition discriminate.
  - cbn. repeat constructor; cbn; try lra; tauto.
Qed.

Lemma startGame_wfStep r : wfStep r (snd (startGame r)).
Proof.
  unfold startGame. destruct (_ || _); [apply wfStep_refl|].
  destruct (negb _); [apply wfStep_refl|].
  destruct (_ <? _)%nat; [apply wfStep_refl|]. cbv zeta. cbn [snd].
  destruct initialObstacles_ok as (_ & ND & O).
  split.
  - repeat split.
    change (keys RoomPlayer.id (map (with_loadoutReady false) (lobbyPlayers r))
            = keys RoomPlayer.id (lobbyPlayers r)).
    apply NoDup_keys_map_lobby. reflexivity.
  - intros (T & L & _ & _ & P).
    split; [exact T|]. split; [|split; [exact ND | split; [exact O | exact P]]].
    change (NoDup (keys RoomPlayer.id (map (with_loadoutReady false) (lobbyPlayers r)))).
    rewrite NoDup_keys_map_lobby by reflexivity. exact L.
Qed.

Lemma addPlayer_wf pid nm r : roomWf r -> roomWf (addPlayer pid nm r).
Proof.
  intros (T & L & N & O & P). unfold roomWf, addPlayer. cbn [lobbyPlayers set_lobbyPlayers].
  split; [exact T|]. split; [apply NoDup_insert, L | auto].
Qed.

Lemma removePlayer_wf pid r : roomWf r -> roomWf (removePlayer pid r).
Proof.
  intros (T & L & N & O & P). unfold roomWf, removePlayer. cbv zeta. room_simpl.
  cbn [lobbyPlayers obstacles nextTimer timers reloadTimers spawnProtectionTimers].
  split; [|split; [apply NoDup_remove, L | auto]].
  apply wfC_clearHandle, wfC_clearHandle, T.
Qed.

Lemma destroy_wf r : roomWf r -> roomWf (destroy r).
Proof.
  intros (T & L & N & O & P). unfold roomWf, destroy. cbv zeta. room_simpl.
  cbn [lobbyPlayers obstacles nextTimer timers reloadTimers spawnProtectionTimers
       gameLoop countdownInterval].
  split; [|split; [constructor | split; [constructor | split; [constructor|]]]].
  - apply wfC_clearTimers, wfC_clearTimers, wfC_clearHandle, wfC_clearHandle, T.
  - apply projectilesWfC_nil.
Qed.

Lemma step_wf Math r op : roomOk r -> roomWf r -> roomWf (step Math r op).
Proof.
  intros Ok H. destruct op; cbn [step].
  - apply addPlayer_wf, H.
  - apply removePlayer_wf, H.
  - apply setPlayerReady_wfStep, H.
  - apply setPlayerLoadoutReady_wfStep, H.
  - apply setPlayerLoadout_wfStep, H.
  - apply startGame_wfStep, H.
  - assert (S : wfStep r (handleInput pid input r)) by wf_frame. apply S, H.
  - apply manualReload_wfStep, H.
  - apply respawnPlayer_wfStep, H.
  - apply (fire_wfStep Math h now rnd Ok), H.
  - apply destroy_wf, H.
Qed.

Lemma newGameRoom_wf code hostId : roomWf (newGameRoom code hostId).
Proof.
  unfold roomWf, newGameRoom. cbn. split; [|repeat split; constructor].
  split; [constructor | intros h t []].
Qed.

Lemma run_wf Math ops r : roomOk r -> roomWf r -> roomWf (run Math ops r).
Proof.
  unfold run. revert r. induction ops as [|op ops IH]; intros r Ok H; [exact H|].
  cbn [fold_left]. apply IH; [apply step_ok, Ok | apply step_wf; assumption].
Qed.

Lemma reachable_wf Math ops code hostId :
  roomWf (run Math ops (newGameRoom code hostId)).
Proof. apply run_wf; [apply newGameRoom_ok | apply newGameRoom_wf]. Qed.

(** ** The collision helpers *)






(** ** Where a ray meets a rectangle *)


Lemma Qeqb_true a : a == 0 -> Qeq_bool a 0 = true.
Proof. intro H. apply Qeq_eq_bool. exact H. Qed.



(** ** Timers that were just armed *)

Lemma find_armed (h : nat) (t : Timer) ts :
  (forall h' t', In (h', t') ts -> h' <> h) ->
  find (fun e => Nat.eqb (fst e) h) (ts ++ [(h, t)]) = Some (h, t).
Proof.
  intro Hne. induction ts as [|[h' t'] ts IH]; simpl.
  - rewrite Nat.eqb_refl. reflexivity.
  - destruct (Nat.eqb h' h) eqn:E.
    + apply Nat.eqb_eq in E. exfalso. apply (Hne h' t'); [left; reflexivity | exact E].
    + apply IH. intros h'' t'' Hin. apply (Hne h'' t''). right. exact Hin.
Qed.

Lemma timersFresh_ne r h t : timersFresh r -> In (h, t) (timers r) -> h <> nextTimer r.
Proof. intros F Hin. apply F in Hin. lia. Qed.

Lemma disarm_armed (h : nat) (t : Timer) ts :
  (forall h' t', In (h', t') ts -> h' <> h) ->
  disarm h (ts ++ [(h, t)]) = ts.
Proof.
  intro Hne. unfold disarm. rewrite filter_app. simpl.
  rewrite Nat.eqb_refl. simpl. rewrite app_nil_r.
  induction ts as [|[h' t'] ts IH]; simpl; [reflexivity|].
  destruct (Nat.eqb h' h) eqn:E.
  - apply Nat.eqb_eq in E. exfalso. apply (Hne h' t'); [left; reflexivity | exact E].
  - simpl. f_equal. apply IH. intros h'' t'' Hin. apply (Hne h'' t''). right. exact Hin.
Qed.

(** ** Reloading *)

Lemma reload_completes_lemma Math now rnd pid p r :
  timersFresh r ->
  lookup id pid (players r) = Some p ->
  isDead p = false -> isReloading p = false ->
  (ammo p < WeaponStats.clipSize (WEAPON_STATS (weapon p)))%Z ->
  let h := nextTimer r in
  let r1 := manualReload pid r in
  let r2 := fire Math h now rnd r1 in
  lookup id pid (players r1) = Some (with_isReloading true p)
  /\ lookup skey pid (reloadTimers r1) = Some (pid, h)
  /\ timers r1
     = timers r
       ++ [(h, ReloadTimeout pid (weapon p)
                 (WeaponStats.reloadTime (WEAPON_STATS (weapon p)) / TICK_RATE * 1000))]
  /\ (forall now' rnd', tryShoot Math now' rnd' (with_isReloading true p) r1 = r1)
  /\ lookup id pid (players r2)
     = Some (with_ammo (WeaponStats.clipSize (WEAPON_STATS (weapon p))) p)
  /\ lookup skey pid (reloadTimers r2) = None
  /\ timers r2 = timers r.
Proof.
  intros F L D R A h r1 r2.
  destruct (lookup_In id pid (players r) L) as [_ Eid].
  assert (E1 : r1 = startReload p r).
  { unfold r1, manualReload. rewrite L, D, R. cbn [orb].
    destruct (_ <=? _)%Z eqn:G; [apply Z.leb_le in G; lia | reflexivity]. }
  assert (T1 : timers r1
               = timers r ++ [(h, ReloadTimeout pid (weapon p)
                   (WeaponStats.reloadTime (WEAPON_STATS (weapon p)) / TICK_RATE * 1000))]).
  { rewrite E1. unfold startReload, armTimer. cbv zeta. room_simpl.
    rewrite Eid. reflexivity. }
  assert (P1 : lookup id pid (players r1) = Some (with_isReloading true p)).
  { rewrite E1. unfold startReload, armTimer. cbv zeta. room_simpl. rewrite Eid.
    rewrite lookup_adjust_eq by reflexivity. rewrite L. reflexivity. }
  assert (R1 : lookup skey pid (reloadTimers r1) = Some (pid, h)).
  { rewrite E1. unfold startReload, armTimer. cbv zeta. room_simpl. rewrite Eid.
    cbn [reloadTimers]. apply (lookup_insert_eq (@skey nat) (pid, h)). }
  split; [exact P1|]. split; [exact R1|]. split; [exact T1|]. split.
  { intros now' rnd'. unfold tryShoot. cbn [isReloading with_isReloading].
    rewrite orb_true_r. reflexivity. }
  assert (Fd : find (fun e => Nat.eqb (fst e) h) (timers r1)
               = Some (h, ReloadTimeout pid (weapon p)
                   (WeaponStats.reloadTime (WEAPON_STATS (weapon p)) / TICK_RATE * 1000))).
  { rewrite T1. apply find_armed. intros h' t' Hin. apply (@timersFresh_ne r h' t' F Hin). }
  assert (E2 : r2 = reloadCallback pid (weapon p) (clearTimer h r1)).
  { unfold r2, fire. rewrite Fd. reflexivity. }
  rewrite E2. unfold reloadCallback. cbn [players clearTimer set_timers].
  rewrite P1. cbn [isDead with_isReloading]. rewrite D.
  cbn [players set_players set_reloadTimers reloadTimers timers].
  split; [|split].
  - rewrite lookup_adjust_eq by reflexivity. rewrite P1. cbn [option_map].
    f_equal. destruct p; cbn in R |- *. subst. reflexivity.
  - apply lookup_remove_eq.
  - unfold clearTimer. cbn [timers set_timers]. rewrite T1.
    apply disarm_armed. intros h' t' Hin. apply (@timersFresh_ne r h' t' F Hin).
Qed.

(** ** Starting a match: lobby, loadout phase, countdown *)

Lemma keys_initialPlayers i lobby :
  keys id (initialPlayers i lobby) = keys RoomPlayer.id lobby.
Proof.
  revert i. induction lobby as [|lp lobby IH]; intro i; simpl; [reflexivity|].
  rewrite IH. reflexivity.
Qed.

Lemma initializePlayersLoop_fresh i lobby ps :
  NoDup (keys id ps ++ keys RoomPlayer.id lobby) ->
  initializePlayersLoop i lobby ps = ps ++ initialPlayers i lobby.
Proof.
  revert i ps. induction lobby as [|lp lobby IH]; intros i ps ND; simpl.
  - rewrite app_nil_r. reflexivity.
  - rewrite IH.
    + rewrite (insert_absent id (initialPlayer i lp) ps).
      * rewrite <- app_assoc. reflexivity.
      * intro Hin. apply NoDup_remove_2 in ND. apply ND.
        apply in_or_app. left. exact Hin.
    + rewrite (insert_absent id (initialPlayer i lp) ps).
      * unfold keys in *. rewrite map_app, <- app_assoc. simpl.
        simpl in ND. exact ND.
      * intro Hin. apply NoDup_remove_2 in ND. apply ND.
        apply in_or_app. left. exact Hin.
Qed.

Lemma nth_error_initialPlayers i0 lobby i lp :
  nth_error lobby i = Some lp ->
  nth_error (initialPlayers i0 lobby) i = Some (initialPlayer (i0 + i) lp).
Proof.
  revert i0 i. induction lobby as [|a lobby IH]; intros i0 [|i]; simpl; try discriminate.
  - intros [= ->]. rewrite Nat.add_0_r. reflexivity.
  - intro H. rewrite (IH (S i0) i H). f_equal. f_equal. lia.
Qed.

Lemma length_initialPlayers i lobby :
  List.length (initialPlayers i lobby) = List.length lobby.
Proof.
  revert i. induction lobby as [|a lobby IH]; intro i; simpl; [reflexivity|].
  rewrite IH. reflexivity.
Qed.

Lemma startGame_spec r :
  roomOk r -> roomWf r ->
  let ready := gameStarted r = false /\ inLoadoutPhase r = false
               /\ Forall (fun p => RoomPlayer.ready p = true) (lobbyPlayers r)
               /\ (2 <= List.length (lobbyPlayers r))%nat in
  let r' := snd (startGame r) in
  (~ ready /\ startGame r = (false, r))
  \/ (ready /\ fst (startGame r) = true
      /\ inLoadoutPhase r' = true /\ gameStarted r' = false
      /\ lobbyPlayers r' = map (with_loadoutReady false) (lobbyPlayers r)
      /\ List.length (players r') = List.length (lobbyPlayers r)
      /\ (forall i lp, nth_error (lobbyPlayers r) i = Some lp ->
            nth_error (players r') i = Some (initialPlayer i lp))
      /\ obstacles r'
         = map obstacleOfDef (ArenaDefinition.breakableObstacles (ARENAS CENTER))
      /\ emitted r'
         = room_updated (lobbyPlayers r') false true :: loadout_phase :: emitted r).
Proof.
  intros Ok Wf ready r'. subst ready r'. unfold startGame.
  destruct (gameStarted r) eqn:G; cbn [orb];
    [left; split; [intros (X & _); discriminate | reflexivity]|].
  destruct (inLoadoutPhase r) eqn:I;
    [left; split; [intros (_ & X & _); discriminate | reflexivity]|].
  destruct (forallb RoomPlayer.ready (lobbyPlayers r)) eqn:A; cbn [negb].
  2:{ left. split; [|reflexivity]. intros (_ & _ & X & _).
      rewrite Forall_forall in X. apply (forallb_forall RoomPlayer.ready) in X.
      rewrite X in A. discriminate. }
  destruct (List.length (lobbyPlayers r) <? 2)%nat eqn:B.
  { apply Nat.ltb_lt in B. left. split; [|reflexivity]. intros (_ & _ & _ & X). lia. }
  apply Nat.ltb_ge in B. right.
  assert (Hp : players r = []).
  { destruct Ok as (_ & _ & _ & _ & Hp). apply Hp. rewrite G, I. reflexivity. }
  destruct Wf as (_ & L & _).
  cbv zeta. cbn [fst snd].
  set (roster := map (with_loadoutReady false) (lobbyPlayers r)).
  assert (E : initializePlayersLoop 0 roster (players r) = initialPlayers 0 roster).
  { rewrite Hp. apply initializePlayersLoop_fresh.
    change (NoDup (keys RoomPlayer.id roster)). unfold roster.
    rewrite NoDup_keys_map_lobby by reflexivity. exact L. }
  split; [|split; [reflexivity|]].
  { split; [reflexivity|]. split; [reflexivity|]. split; [|exact B].
    apply Forall_forall. apply (forallb_forall RoomPlayer.ready). exact A. }
  split; [reflexivity|]. split; [exact G|]. split; [reflexivity|].
  split.
  { change (List.length (initializePlayersLoop 0 roster (players r))
            = List.length (lobbyPlayers r)).
    rewrite E, length_initialPlayers. apply length_map. }
  split.
  { intros i lp Hn.
    change (nth_error (initializePlayersLoop 0 roster (players r)) i
            = Some (initialPlayer i lp)).
    rewrite E.
    rewrite (@nth_error_initialPlayers 0 _ i (with_loadoutReady false lp)).
    - reflexivity.
    - unfold roster. rewrite nth_error_map, Hn. reflexivity. }
  split; [apply initialObstacles_ok|].
  unfold getInfo, initializePlayers, emit. cbn. rewrite G. reflexivity.
Qed.

Lemma retarget_armed (h : nat) (c c' : Z) ts :
  (forall h' t', In (h', t') ts -> h' <> h) ->
  map (fun e : nat * Timer =>
         if Nat.eqb (fst e) h then (h, CountdownInterval c') else e)
    (ts ++ [(h, CountdownInterval c)])
  = ts ++ [(h, CountdownInterval c')].
Proof.
  intro Hne. rewrite map_app. simpl. rewrite Nat.eqb_refl. f_equal.
  induction ts as [|[h' t'] ts IH]; simpl; [reflexivity|].
  destruct (Nat.eqb h' h) eqn:E.
  - apply Nat.eqb_eq in E. exfalso. apply (Hne h' t'); [left; reflexivity | exact E].
  - f_equal. apply IH. intros h'' t'' Hin. apply (Hne h'' t''). right. exact Hin.
Qed.

(** Granting spawn protection to every player of a list flags each of them
    in the map. *)
Lemma players_grantAll ps r :
  players (fold_left (fun r player => grantSpawnProtection player r) ps r)
  = map (fun q => if existsb (fun p => String.eqb (id q) (id p)) ps
                  then with_isInSpawn true q else q) (players r).
Proof.
  revert r. induction ps as [|p ps IH]; intro r; simpl.
  - rewrite map_id. reflexivity.
  - rewrite IH. unfold grantSpawnProtection, armTimer. cbv zeta. room_simpl.
    cbn [players]. unfold adjust. rewrite map_map. apply map_ext. intro q.
    destruct (String.eqb (id q) (id p)) eqn:E; cbn [orb].
    + change (id (with_isInSpawn true q)) with (id q).
      destruct (existsb _ ps); [|reflexivity].
      destruct q; reflexivity.
    + reflexivity.
Qed.

Lemma players_grantAll_self r :
  players (fold_left (fun r player => grantSpawnProtection player r) (players r) r)
  = map (with_isInSpawn true) (players r).
Proof.
  rewrite players_grantAll. apply map_ext_in. intros q Hin.
  destruct (existsb _ (players r)) eqn:E; [reflexivity|].
  exfalso. assert (X : existsb (fun p => String.eqb (id q) (id p)) (players r) = true).
  { apply existsb_exists. exists q. split; [exact Hin | apply String.eqb_refl]. }
  congruence.
Qed.

Lemma emitted_grantAll ps r :
  emitted (fold_left (fun r player => grantSpawnProtection player r) ps r) = emitted r.
Proof.
  revert r. induction ps as [|p ps IH]; intro r; simpl; [reflexivity|].
  rewrite IH. reflexivity.
Qed.

Lemma timers_grantAll ps r :
  (nextTimer r
   <= nextTimer (fold_left (fun r player => grantSpawnProtection player r) ps r))%nat
  /\ forall h t,
       In (h, t) (timers (fold_left (fun r player => grantSpawnProtection player r) ps r)) ->
       In (h, t) (timers r)
       \/ ((nextTimer r <= h)%nat /\ exists pid, t = SpawnProtectionTimeout pid).
Proof.
  revert r. induction ps as [|p ps IH]; intro r; simpl; [auto|].
  destruct (IH (grantSpawnProtection p r)) as [N T].
  assert (N0 : nextTimer (grantSpawnProtection p r) = S (nextTimer r)) by reflexivity.
  split; [lia|]. intros h t Hin.
  apply T in Hin. destruct Hin as [Hin|[Hh Hin]]; [|right; split; [lia | exact Hin]].
  unfold grantSpawnProtection, armTimer in Hin. cbv zeta in Hin.
  revert Hin. room_simpl. cbn [timers spawnProtectionTimers nextTimer]. intro Hin.
  apply in_app_or in Hin. destruct Hin as [Hin|[[= <- <-]|[]]]; [|eauto].
  left. apply In_clearHandle_timers in Hin. exact Hin.
Qed.

Lemma countdownInterval_grantAll ps r :
  countdownInterval (fold_left (fun r player => grantSpawnProtection player r) ps r)
  = countdownInterval r.
Proof.
  revert r. induction ps as [|p ps IH]; intro r; simpl; [reflexivity|].
  rewrite IH. reflexivity.
Qed.

Lemma startGameLoop_fields r :
  emitted (startGameLoop r) = emitted r
  /\ players (startGameLoop r) = map (with_isInSpawn true) (players r)
  /\ countdownInterval (startGameLoop r) = countdownInterval r
  /\ (exists g, gameLoop (startGameLoop r) = Some g
                /\ In (g, GameLoopInterval) (timers (startGameLoop r)))
  /\ (forall h t, In (h, t) (timers (startGameLoop r)) ->
        In (h, t) (timers r)
        \/ ((nextTimer r <= h)%nat
            /\ (t = GameLoopInterval \/ exists pid, t = SpawnProtectionTimeout pid))).
Proof.
  unfold startGameLoop, armTimer. cbv zeta.
  destruct (timers_grantAll (players r) r) as [N T].
  set (r1 := fold_left _ (players r) r) in *.
  cbn [emitted players countdownInterval gameLoop timers
       set_gameLoop set_nextTimer set_timers fst snd].
  split; [apply emitted_grantAll|]. split; [apply players_grantAll_self|].
  split; [apply countdownInterval_grantAll|]. split.
  - eexists. split; [reflexivity|]. apply in_or_app. right. left. reflexivity.
  - intros h t Hin. apply in_app_or in Hin.
    destruct Hin as [Hin|[[= <- <-]|[]]]; [|auto].
    apply T in Hin. destruct Hin as [Hin|[Hh Hin]]; auto.
Qed.

Lemma countdown_lemma Math r now1 rnd1 now2 rnd2 now3 rnd3 :
  timersWfC (timers r) (nextTimer r) -> loopsOk r -> countdownStarted r = false ->
  let h := nextTimer r in
  let r0 := startGameFromLoadout r in
  let r1 := fire Math h now1 rnd1 r0 in
  let r2 := fire Math h now2 rnd2 r1 in
  let r3 := fire Math h now3 rnd3 r2 in
  (gameStarted r0 = true /\ emitted r0 = game_starting 3 :: emitted r
   /\ countdownInterval r0 = Some h)
  /\ (emitted r1 = game_starting 2 :: emitted r0 /\ players r1 = players r
      /\ gameLoop r1 = gameLoop r)
  /\ (emitted r2 = game_starting 1 :: emitted r1 /\ players r2 = players r
      /\ gameLoop r2 = gameLoop r)
  /\ emitted r3 = game_started :: emitted r2
  /\ players r3 = map (with_isInSpawn true) (players r)
  /\ (exists g, gameLoop r3 = Some g /\ In (g, GameLoopInterval) (timers r3))
  /\ countdownInterval r3 = None
  /\ noCountdown r3
  /\ (forall now rnd, fire Math h now rnd r3 = r3).
Proof.
  intros [ND F] L CS h r0 r1 r2 r3.
  assert (Hne : forall h' t', In (h', t') (timers r) -> h' <> h).
  { intros h' t' Hin. apply F in Hin. unfold h. lia. }
  destruct L as (_ & _ & _ & L4). destruct (L4 CS) as [NC NL].
  assert (E0 : r0 = set_countdownInterval (Some h)
                      (set_nextTimer (S h)
                         (set_timers (timers r ++ [(h, CountdownInterval 3)])
                            (emit (game_starting 3)
                               (set_gameStarted true (set_countdownStarted true r)))))).
  { unfold r0, startGameFromLoadout. rewrite CS. reflexivity. }
  assert (T0 : timers r0 = timers r ++ [(h, CountdownInterval 3)])
    by (rewrite E0; reflexivity).
  assert (E1 : r1 = emit (game_starting 2)
                      (set_timers (timers r ++ [(h, CountdownInterval 2)]) r0)).
  { unfold r1, fire. rewrite T0, (@find_armed h _ (timers r) Hne). unfold countdownCallback.
    cbv zeta. change (0 <? 3 - 1)%Z with true. cbv iota.
    rewrite T0, (@retarget_armed h _ _ (timers r) Hne). reflexivity. }
  assert (T1 : timers r1 = timers r ++ [(h, CountdownInterval 2)])
    by (rewrite E1; reflexivity).
  assert (E2 : r2 = emit (game_starting 1)
                      (set_timers (timers r ++ [(h, CountdownInterval 1)]) r1)).
  { unfold r2, fire. rewrite T1, (@find_armed h _ (timers r) Hne). unfold countdownCallback.
    cbv zeta. change (0 <? 2 - 1)%Z with true. cbv iota.
    rewrite T1, (@retarget_armed h _ _ (timers r) Hne). reflexivity. }
  assert (T2 : timers r2 = timers r ++ [(h, CountdownInterval 1)])
    by (rewrite E2; reflexivity).
  assert (A0 : gameStarted r0 = true /\ emitted r0 = game_starting 3 :: emitted r
               /\ countdownInterval r0 = Some h /\ players r0 = players r
               /\ gameLoop r0 = gameLoop r /\ nextTimer r0 = S h).
  { rewrite E0. repeat split. }
  assert (A1 : emitted r1 = game_starting 2 :: emitted r0
               /\ countdownInterval r1 = countdownInterval r0
               /\ players r1 = players r0 /\ gameLoop r1 = gameLoop r0
               /\ nextTimer r1 = nextTimer r0).
  { clearbody r0. rewrite E1. repeat split. }
  assert (A2 : emitted r2 = game_starting 1 :: emitted r1
               /\ countdownInterval r2 = countdownInterval r1
               /\ players r2 = players r1 /\ gameLoop r2 = gameLoop r1
               /\ nextTimer r2 = nextTimer r1).
  { clearbody r1. rewrite E2. repeat split. }
  destruct A0 as (G0 & M0 & C0 & P0 & L0 & N0).
  destruct A1 as (M1 & C1 & P1 & L1 & N1).
  destruct A2 as (M2 & C2 & P2 & L2 & N2).
  rewrite C1, C0 in C2. rewrite P1, P0 in P2. rewrite L1, L0 in L2.
  rewrite N1, N0 in N2. rewrite P0 in P1. rewrite L0 in L1.
  set (r2' := emit game_started
                (set_countdownInterval None (set_timers (timers r) r2))).
  assert (E3 : r3 = startGameLoop r2').
  { unfold r3, fire. rewrite T2, (@find_armed h _ (timers r) Hne). unfold countdownCallback.
    cbv zeta. change (0 <? 1 - 1)%Z with false. cbv iota.
    unfold clearHandle. cbn [countdownInterval set_timers timers].
    rewrite C2, T2, (@retarget_armed h _ _ (timers r) Hne), (@disarm_armed h _ (timers r) Hne). reflexivity. }
  clearbody r3 r2 r1 r0.
  split; [split; [exact G0 | split; [exact M0 | exact C0]]|].
  split; [split; [exact M1 | split; [exact P1 | exact L1]]|].
  split; [split; [exact M2 | split; [exact P2 | exact L2]]|].
  destruct (startGameLoop_fields r2') as (F1 & F2 & F3 & F4 & F5).
  rewrite E3.
  split; [rewrite F1; reflexivity|].
  split; [rewrite F2; unfold r2'; cbn [players emit set_emitted
            set_countdownInterval set_timers]; rewrite P2; reflexivity|].
  split; [exact F4|].
  split; [rewrite F3; reflexivity|].
  split.
  { intros h' n Hin. destruct (F5 _ _ Hin) as [X|[_ [X|[pid X]]]]; try discriminate.
    apply (NC _ _ X). }
  intros now rnd. unfold fire.
  destruct (find _ (timers (startGameLoop r2'))) as [[h' t]|] eqn:Fd; [|reflexivity].
  exfalso. apply find_handle_In in Fd. cbn [snd] in Fd.
  destruct (F5 _ _ Fd) as [X|[X _]].
  - apply (Hne _ _ X). reflexivity.
  - assert (N2' : nextTimer r2' = S h) by (unfold r2'; exact N2).
    lia.
Qed.

(** ** Spawn protection and respawn *)

Lemma find_not_armed (h : nat) (ts : list (nat * Timer)) :
  (forall h' t', In (h', t') ts -> h' <> h) ->
  find (fun e => Nat.eqb (fst e) h) ts = None.
Proof.
  intro Hne. destruct (find _ ts) as [[h' t]|] eqn:Fd; [|reflexivity].
  apply find_handle_In in Fd. cbn [snd] in Fd. destruct (Hne _ _ Fd eq_refl).
Qed.

Lemma fire_not_armed Math h now rnd r :
  (forall h' t', In (h', t') (timers r) -> h' <> h) -> fire Math h now rnd r = r.
Proof. intro Hne. unfold fire. rewrite (@find_not_armed h (timers r) Hne). reflexivity. Qed.

Lemma spawn_protection_lemma Math player r :
  timersWfC (timers r) (nextTimer r) ->
  let h := nextTimer r in
  let r1 := grantSpawnProtection player r in
  (players r1 = adjust id (id player) (with_isInSpawn true) (players r)
   /\ lookup skey (id player) (spawnProtectionTimers r1) = Some (id player, h))
  /\ (forall now rnd,
        let r2 := fire Math h now rnd r1 in
        players r2 = adjust id (id player) (with_isInSpawn false) (players r1)
        /\ lookup skey (id player) (spawnProtectionTimers r2) = None
        /\ forall now' rnd', fire Math h now' rnd' r2 = r2)
  /\ (let r2 := grantSpawnProtection player r1 in
      lookup skey (id player) (spawnProtectionTimers r2) = Some (id player, S h)
      /\ (forall now rnd, fire Math h now rnd r2 = r2)
      /\ forall now rnd,
           players (fire Math (S h) now rnd r2)
           = adjust id (id player) (with_isInSpawn false) (players r2)).
Proof.
  intros [ND F] h r1.
  set (ts := match option_map snd (lookup skey (id player) (spawnProtectionTimers r)) with
             | Some h0 => disarm h0 (timers r)
             | None => timers r
             end).
  assert (Hts : forall h' t', In (h', t') ts -> (h' < h)%nat).
  { intros h' t' Hin. apply In_clearHandle_timers in Hin. apply (F _ _ Hin). }
  assert (Hne : forall h' t', In (h', t') ts -> h' <> h).
  { intros h' t' Hin. apply Hts in Hin. lia. }
  assert (T1 : timers r1 = ts ++ [(h, SpawnProtectionTimeout (id player))]) by reflexivity.
  assert (S1 : lookup skey (id player) (spawnProtectionTimers r1) = Some (id player, h)).
  { apply (lookup_insert_eq (@skey nat) (id player, h)). }
  split; [split; [reflexivity | exact S1]|]. split.
  - intros now rnd r2.
    assert (E2 : r2 = spawnProtectionCallback (id player) (clearTimer h r1)).
    { unfold r2, fire. rewrite T1, (@find_armed h _ ts Hne). reflexivity. }
    rewrite E2. split; [reflexivity|]. split.
    + apply (lookup_remove_eq (@skey nat)).
    + intros now' rnd'. apply fire_not_armed. intros h' t' Hin.
      unfold spawnProtectionCallback, clearTimer in Hin. cbv zeta in Hin.
      cbn [timers set_players set_spawnProtectionTimers set_timers] in Hin.
      apply In_disarm in Hin. apply Hin.
  - cbv zeta.
    set (r2 := grantSpawnProtection player r1).
    assert (T2 : timers r2 = ts ++ [(S h, SpawnProtectionTimeout (id player))]).
    { unfold r2, grantSpawnProtection, armTimer. cbv zeta.
      cbn [timers set_players set_spawnProtectionTimers set_timers set_nextTimer
           clearMapped clearHandle spawnProtectionTimers nextTimer fst snd].
      rewrite S1. cbn [option_map snd]. rewrite T1, (@disarm_armed h _ ts Hne).
      reflexivity. }
    split; [apply (lookup_insert_eq (@skey nat) (id player, S h))|]. split.
    + intros now rnd. apply fire_not_armed. intros h' t' Hin. rewrite T2 in Hin.
      apply in_app_or in Hin. destruct Hin as [Hin|[[= <- <-]|[]]]; [|lia].
      apply (Hne _ _ Hin).
    + intros now rnd. unfold fire. rewrite T2.
      rewrite (@find_armed (S h) _ ts).
      * reflexivity.
      * intros h' t' Hin. apply Hts in Hin. lia.
Qed.

Lemma respawn_refused pid r :
  (lookup id pid (players r) = None
   \/ exists p, lookup id pid (players r) = Some p /\ isDead p = false) ->
  respawnPlayer pid r = r.
Proof.
  unfold respawnPlayer. intros [->|(p & -> & ->)]; reflexivity.
Qed.

Lemma destroy_closed r : loopsOk r -> closed (destroy r).
Proof.
  intro L. destruct (destroy_loops L) as [(L1 & L2 & L3 & L4) NL].
  unfold closed. repeat (split; [reflexivity|]).
  intros h t Hin [->|[n ->]].
  - apply (NL _ Hin).
  - apply L2 in Hin. discriminate.
Qed.

Lemma fire_closed Math h now rnd r :
  closed r ->
  closed (fire Math h now rnd r)
  /\ (emitted (fire Math h now rnd r) = emitted r
      \/ exists a b, emitted (fire Math h now rnd r) = room_updated [] a b :: emitted r).
Proof.
  intros (C1 & C2 & C3 & C4 & C5 & C6 & C7 & C8 & C9 & C10). unfold fire.
  destruct (find _ (timers r)) as [[h' t]|] eqn:Fd.
  2:{ split; [|left; reflexivity]. unfold closed. auto 12. }
  apply find_handle_In in Fd. cbn [snd] in Fd.
  assert (D : forall h0 t0, In (h0, t0) (disarm h (timers r)) -> ~ isInterval t0).
  { intros h0 t0 Hin. apply In_disarm in Hin. apply (C10 h0 t0), Hin. }
  destruct t.
  - destruct (C10 _ _ Fd). left. reflexivity.
  - destruct (C10 _ _ Fd). right. eauto.
  - unfold reloadCallback, clearTimer. cbn [players set_timers]. rewrite C2.
    split; [|left; reflexivity]. unfold closed.
    cbn [lobbyPlayers players projectiles obstacles playerInputs reloadTimers
         spawnProtectionTimers gameLoop countdownInterval timers
         set_reloadTimers set_timers].
    rewrite C6. cbn. auto 12.
  - unfold spawnProtectionCallback, clearTimer. cbv zeta.
    split; [|left; reflexivity]. unfold closed.
    cbn [lobbyPlayers players projectiles obstacles playerInputs reloadTimers
         spawnProtectionTimers gameLoop countdownInterval timers
         set_players set_spawnProtectionTimers set_timers].
    rewrite C2, C7. cbn. auto 12.
  - cbv zeta. unfold clearTimer, emit, getInfo.
    split.
    + unfold closed.
      cbn [lobbyPlayers players projectiles obstacles playerInputs reloadTimers
           spawnProtectionTimers gameLoop countdownInterval timers
           set_emitted set_timers].
      auto 12.
    + right. cbn [emitted set_emitted set_timers lobbyPlayers gameStarted
                  inLoadoutPhase]. rewrite C1. eauto.
Qed.

(** ** A shot that is accepted *)

Lemma countOwned_app o l1 l2 :
  countOwned o (l1 ++ l2) = (countOwned o l1 + countOwned o l2)%nat.
Proof. unfold countOwned. rewrite filter_app, length_app. reflexivity. Qed.

(** ** Projectiles in flight *)

Lemma damageObstacle_rects obsId damage obs o' :
  In o' (damageObstacle obsId damage obs) ->
  exists o, In o obs /\ rectOfObstacle o' = rectOfObstacle o
            /\ BreakableObstacle.id o' = BreakableObstacle.id o
            /\ (0 <= damage -> BreakableObstacle.health o' <= BreakableObstacle.health o).
Proof.
  unfold damageObstacle.
  destruct (lookup BreakableObstacle.id obsId obs) as [o|].
  - destruct (Qleb _ 0).
    + intro Hin. apply filter_In in Hin. exists o'. repeat split; try tauto. lra.
    + intro Hin. apply in_map_iff in Hin. destruct Hin as (a & <- & Ha).
      exists a. destruct (String.eqb (BreakableObstacle.id a) obsId);
        repeat split; try assumption; cbn; lra.
  - intro Hin. exists o'. repeat split; try assumption. lra.
Qed.

Lemma inObstacle_rect proj o o' :
  rectOfObstacle o' = rectOfObstacle o -> inObstacle proj o' = inObstacle proj o.
Proof.
  unfold rectOfObstacle, inObstacle. intros [= -> -> -> ->]. reflexivity.
Qed.

Lemma updateProjectilesLoop_spec Math now prs obs :
  Forall (fun pr => 0 <= ProjectileState.damage pr) prs ->
  let res := updateProjectilesLoop Math now prs obs in
  (forall p', In p' (fst res) ->
     (exists p, In p prs /\ p' = moveProjectile Math p)
     /\ inFlight now p'
     /\ forall o, In o (snd res) -> inObstacle p' o = false)
  /\ (forall o', In o' (snd res) ->
        exists o, In o obs /\ rectOfObstacle o' = rectOfObstacle o
                  /\ BreakableObstacle.id o' = BreakableObstacle.id o
                  /\ BreakableObstacle.health o' <= BreakableObstacle.health o).
Proof.
  revert obs. induction prs as [|proj prs IH]; intros obs Hd res; subst res.
  { split; [intros p' []|]. intros o' Hin. exists o'. repeat split; try assumption. lra. }
  inversion Hd as [|? ? Hp Hd']; subst.
  cbn [updateProjectilesLoop]. cbv zeta.
  set (q := moveProjectile Math proj).
  assert (Hstep : forall obs1,
            (forall o', In o' obs1 ->
               exists o, In o obs /\ rectOfObstacle o' = rectOfObstacle o
                         /\ BreakableObstacle.id o' = BreakableObstacle.id o
                         /\ BreakableObstacle.health o' <= BreakableObstacle.health o) ->
            (forall p', In p' (fst (updateProjectilesLoop Math now prs obs1)) ->
               (exists p, In p (proj :: prs) /\ p' = moveProjectile Math p)
               /\ inFlight now p'
               /\ forall o, In o (snd (updateProjectilesLoop Math now prs obs1)) ->
                            inObstacle p' o = false)
            /\ (forall o', In o' (snd (updateProjectilesLoop Math now prs obs1)) ->
                  exists o, In o obs /\ rectOfObstacle o' = rectOfObstacle o
                            /\ BreakableObstacle.id o' = BreakableObstacle.id o
                            /\ BreakableObstacle.health o'
                               <= BreakableObstacle.health o)).
  { intros obs1 H1. destruct (IH obs1 Hd') as [A B]. split.
    - intros p' Hin. destruct (A p' Hin) as ((p & Hp1 & Hp2) & X).
      split; [exists p; split; [right; exact Hp1 | exact Hp2] | exact X].
    - intros o' Hin. destruct (B o' Hin) as (o1 & Ho1 & R1 & I1 & L1).
      destruct (H1 o1 Ho1) as (o & Ho & R & I & L).
      exists o. repeat split; try congruence; try assumption. lra. }
  assert (Hsame : forall o', In o' obs ->
            exists o, In o obs /\ rectOfObstacle o' = rectOfObstacle o
                      /\ BreakableObstacle.id o' = BreakableObstacle.id o
                      /\ BreakableObstacle.health o' <= BreakableObstacle.health o).
  { intros o' Hin. exists o'. repeat split; try assumption. lra. }
  destruct (_ || _) eqn:Out; [apply Hstep, Hsame|].
  destruct (existsb _ _) eqn:Wall; [apply Hstep, Hsame|].
  destruct (find (inObstacle q) obs) as [o|] eqn:Fo.
  - apply Hstep. intros o' Hin.
    destruct (damageObstacle_rects _ _ _ _ Hin) as (o1 & A & B & C & D).
    exists o1. repeat split; try assumption. apply D, Hp.
  - cbn [fst snd]. destruct (Hstep obs Hsame) as [A B]. split; [|exact B].
    intros p' [<-|Hin]; [|apply A, Hin].
    split; [exists proj; split; [left|]; reflexivity|]. split.
    + repeat rewrite orb_false_iff in Out.
      destruct Out as ((((O1 & O2) & O3) & O4) & O5).
      apply Qltb_ge in O1, O2, O3, O4, O5.
      unfold inFlight. cbv zeta. fold q. repeat split; try assumption.
      intros wall Hw.
      destruct (pointInRect _ _ (Rect.x wall) _ _ _) eqn:X; [|reflexivity].
      assert (Y : existsb
                    (fun wall0 =>
                       pointInRect (ProjectileState.x q) (ProjectileState.y q)
                         (Rect.x wall0) (Rect.y wall0) (Rect.width wall0)
                         (Rect.height wall0))
                    (ArenaDefinition.walls (ARENAS (ProjectileState.arena q))) = true).
      { apply existsb_exists. exists wall. split; assumption. }
      rewrite Y in Wall. discriminate.
    + intros o Ho. destruct (B o Ho) as (o1 & Ho1 & R & _).
      rewrite (inObstacle_rect q R).
      apply (find_none _ _ Fo o1 Ho1).
Qed.

(** ** What a tick reports *)

Lemma emits_refl P r : emits P r r.
Proof. exists []. split; [reflexivity | constructor]. Qed.

Lemma emits_trans P r1 r2 r3 : emits P r1 r2 -> emits P r2 r3 -> emits P r1 r3.
Proof.
  intros (l1 & E1 & F1) (l2 & E2 & F2). exists (l2 ++ l1). split.
  - rewrite E2, E1, app_assoc. reflexivity.
  - apply Forall_app. auto.
Qed.

Lemma emits_same P r r' : emitted r' = emitted r -> emits P r r'.
Proof. intro E. exists []. split; [exact E | constructor]. Qed.

Lemma emits_one P e r : P e -> emits P r (emit e r).
Proof. intro H. exists [e]. split; [reflexivity | constructor; [exact H | constructor]]. Qed.

Ltac emits_frame := apply emits_same; reflexivity.

Lemma endGame_emits w r : emits noSelfHit r (endGame w r).
Proof.
  destruct (endGame_fields w r) as (_ & E & _).
  exists [game_ended w (map (fun p => (id p, (kills p, deaths p))) (players r))].
  split; [exact E | constructor; [exact I | constructor]].
Qed.

Lemma damagePlayer_emits player damage sourceId r :
  sourceId <> id player -> emits noSelfHit r (damagePlayer player damage sourceId r).
Proof.
  intro Hne. unfold damagePlayer. destruct (Qleb _ _); cbv zeta; [|emits_frame].
  match goal with
  | |- emits _ r (match lookup id sourceId (players ?r3) with _ => _ end) =>
      assert (S3 : emits noSelfHit r r3);
      [|destruct (lookup id sourceId (players r3)) as [source|]; [|exact S3];
        destruct (KILL_LIMIT <=? kills source)%Z; [|exact S3];
        apply (@emits_trans _ r r3 _ S3), endGame_emits]
  end.
  exists [game_kill sourceId (id player)].
  split; [reflexivity | constructor; [exact Hne | constructor]].
Qed.

Lemma handleHitscan_emits Math player angle damage range r :
  emits noSelfHit r (handleHitscan Math player angle damage range r).
Proof.
  unfold handleHitscan.
  match goal with
  | |- context [hitscanPlayers ?M ?p ?sx ?sy ?dx ?dy ?l ?st] =>
      destruct (hitscanPlayers_spec M p sx sy dx dy l st)
        as [E|(t & E & _ & Hne & _)]
  end.
  - rewrite E. cbn [fst snd].
    match goal with
    | |- emits _ r (match _ with Some _ => _ | None => ?r1 end) =>
        assert (S1 : emits noSelfHit r r1) by (apply emits_one; exact I)
    end.
    destruct (snd (hitscanObstacles _ _ _ _ _ _)) as [obsId|];
      [destruct (String.eqb obsId "")|]; exact S1.
  - rewrite E.
    match goal with
    | |- emits _ r (emit ?e (damagePlayer ?t ?d ?s ?r0)) =>
        assert (S0 : emits noSelfHit r r0) by (apply emits_one; exact I);
        apply (@emits_trans _ r r0 _ S0);
        apply (@emits_trans _ r0 (damagePlayer t d s r0) _);
        [apply damagePlayer_emits; auto | apply emits_one; cbn; auto]
    end.
Qed.

Lemma startReload_emits player r : emits noSelfHit r (startReload player r).
Proof. emits_frame. Qed.

Lemma tryShoot_emits Math now rnd player r :
  emits noSelfHit r (tryShoot Math now rnd player r).
Proof.
  unfold tryShoot.
  destruct (_ || _); [apply emits_refl|].
  destruct (Qltb _ _); [apply emits_refl|].
  destruct (MAX_PROJECTILES_PER_PLAYER <=? _)%nat; [apply emits_refl|].
  cbv zeta.
  set (player1 := with_ammo (ammo player - 1) player).
  set (r1 := set_players _ (set_lastShotTime _ r)).
  set (r2 := if (ammo player1 <=? 0)%Z then startReload player1 r1 else r1).
  assert (S2 : emits noSelfHit r r2).
  { unfold r2. destruct (ammo player1 <=? 0)%Z; emits_frame. }
  apply (@emits_trans _ r r2 _ S2).
  destruct (WeaponStats.isHitscan _); [apply handleHitscan_emits | emits_frame].
Qed.

Lemma fold_emits (X : Type) (f : GameRoom -> X -> GameRoom) P :
  (forall r x, emits P r (f r x)) -> forall xs r, emits P r (fold_left f xs r).
Proof.
  intros Hf xs. induction xs as [|x xs IH]; intro r; simpl; [apply emits_refl|].
  apply (@emits_trans _ r (f r x) _ (Hf r x)), IH.
Qed.

Lemma updatePlayers_emits Math now rnd r :
  emits noSelfHit r (updatePlayers Math now rnd r).
Proof.
  unfold updatePlayers. apply fold_emits. intros r0 k.
  destruct (lookup id k (players r0)) as [player|]; [|apply emits_refl].
  destruct (isDead player); [apply emits_refl|].
  destruct (lookup skey k (playerInputs r0)) as [[k' input]|]; [|apply emits_refl].
  unfold updatePlayer.
  set (r1 := set_players _ r0).
  assert (S1 : emits noSelfHit r0 r1) by emits_frame.
  destruct (InputState.shooting input); [|exact S1].
  apply (@emits_trans _ r0 r1 _ S1), tryShoot_emits.
Qed.

Lemma checkCollisions_emits Math r : emits noSelfHit r (checkCollisions Math r).
Proof.
  unfold checkCollisions. apply fold_emits. intros r0 k.
  destruct (lookup ProjectileState.id k (projectiles r0)) as [proj|];
    [|apply emits_refl].
  destruct (find (collides Math proj) (players r0)) as [player|] eqn:F;
    [|apply emits_refl].
  apply find_some in F. destruct F as [_ Hc]. unfold collides in Hc.
  apply andb_true_iff in Hc. destruct Hc as [Hc _].
  apply andb_true_iff in Hc. destruct Hc as [Hc _].
  apply negb_true_iff, String.eqb_neq in Hc.
  cbv zeta.
  match goal with
  | |- emits _ r0 (set_projectiles _ (emit ?e (damagePlayer ?t ?d ?s ?r1))) =>
      apply (@emits_trans _ r0 (damagePlayer t d s r1) _);
      [apply damagePlayer_emits; auto|];
      apply (@emits_trans _ _ (emit e (damagePlayer t d s r1)) _);
      [apply emits_one; cbn; auto | emits_frame]
  end.
Qed.

(** * Properties of the entry point *)

(** ** Names *)

Lemma allChars_impl (p q : ascii -> bool) s :
  (forall c, p c = true -> q c = true) -> allChars p s = true -> allChars q s = true.
Proof.
  intro H. induction s as [|c s IH]; simpl; [reflexivity|].
  rewrite !andb_true_iff. intros [A B]. auto.
Qed.

Lemma allChars_and (p q : ascii -> bool) s :
  allChars p s = true -> allChars q s = true ->
  allChars (fun c => p c && q c) s = true.
Proof.
  induction s as [|c s IH]; simpl; [reflexivity|].
  rewrite !andb_true_iff. intros [A B] [C D]. auto.
Qed.

Lemma allChars_filterString (p keep : ascii -> bool) s :
  allChars p s = true -> allChars p (filterString keep s) = true.
Proof.
  induction s as [|c s IH]; simpl; [reflexivity|].
  rewrite andb_true_iff. intros [A B].
  destruct (keep c); simpl; [rewrite A; simpl|]; auto.
Qed.

Lemma allChars_filtered (keep : ascii -> bool) s :
  allChars keep (filterString keep s) = true.
Proof.
  induction s as [|c s IH]; simpl; [reflexivity|].
  destruct (keep c) eqn:E; simpl; [rewrite E|]; auto.
Qed.

Lemma filterString_all (keep : ascii -> bool) s :
  allChars keep s = true -> filterString keep s = s.
Proof.
  induction s as [|c s IH]; simpl; [reflexivity|].
  rewrite andb_true_iff. intros [A B]. rewrite A, IH by exact B. reflexivity.
Qed.

Lemma length_filterString (keep : ascii -> bool) s :
  (String.length (filterString keep s) <= String.length s)%nat.
Proof.
  induction s as [|c s IH]; simpl; [lia|]. destruct (keep c); simpl; lia.
Qed.

Lemma allChars_trimStart p s : allChars p s = true -> allChars p (trimStart s) = true.
Proof.
  induction s as [|c s IH]; cbn [trimStart allChars]; [reflexivity|].
  rewrite andb_true_iff. intros [A B].
  destruct (inClass whiteSpace c); [auto|]. cbn [allChars]. rewrite A, B. reflexivity.
Qed.

Lemma allChars_revString p s acc :
  allChars p (revString s acc) = allChars p s && allChars p acc.
Proof.
  revert acc. induction s as [|c s IH]; intro acc; simpl; [reflexivity|].
  rewrite IH. simpl. destruct (p c); destruct (allChars p s); reflexivity.
Qed.

Lemma allChars_trim p s : allChars p s = true -> allChars p (trim s) = true.
Proof.
  intro H. unfold trim. rewrite allChars_revString, andb_true_r.
  apply allChars_trimStart. rewrite allChars_revString, andb_true_r.
  apply allChars_trimStart, H.
Qed.

Lemma allChars_slice0 p n s : allChars p s = true -> allChars p (slice0 n s) = true.
Proof.
  revert s. induction n as [|n IH]; intros [|c s]; simpl; try reflexivity.
  rewrite !andb_true_iff. intros [A B]. auto.
Qed.

Lemma length_slice0 n s : (String.length (slice0 n s) <= n)%nat.
Proof.
  revert s. induction n as [|n IH]; intros [|c s]; simpl; try lia.
  specialize (IH s). lia.
Qed.

Lemma slice0_short n s : (String.length s <= n)%nat -> slice0 n s = s.
Proof.
  revert s. induction n as [|n IH]; intros [|c s]; simpl; try reflexivity; try lia.
  intro H. rewrite IH by lia. reflexivity.
Qed.

Lemma revString_involutive s acc :
  revString (revString s acc) "" = revString acc s.
Proof.
  revert acc. induction s as [|c s IH]; intro acc; simpl; [reflexivity|].
  rewrite IH. reflexivity.
Qed.

Lemma trimStart_clean s :
  allChars (fun c => negb (inClass whiteSpace c)) s = true -> trimStart s = s.
Proof.
  destruct s as [|c s]; cbn [trimStart allChars]; [reflexivity|].
  rewrite andb_true_iff. intros [A _]. apply negb_true_iff in A. rewrite A. reflexivity.
Qed.

Lemma trim_clean s :
  allChars (fun c => negb (inClass whiteSpace c)) s = true -> trim s = s.
Proof.
  intro H. unfold trim. rewrite (trimStart_clean s H).
  rewrite trimStart_clean.
  - rewrite revString_involutive. reflexivity.
  - rewrite allChars_revString, H. reflexivity.
Qed.

(** A character that passes the last filter and is no control character
    is a plain one. *)
Lemma nameChar_plain c :
  nameChar c && negb (inClass [(0, 31); (127, 159)]%N c) = true ->
  plainNameChar c = true.
Proof.
  destruct c as [[] [] [] [] [] [] [] []]; vm_compute; auto.
Qed.

Lemma wordChar_facts c :
  wordChar c = true ->
  nameChar c = true
  /\ negb (inClass whiteSpace c) = true
  /\ negb (inClass [(0, 31); (127, 159)]%N c) = true
  /\ negb (inClass [(8203, 8207); (8232, 8239); (65279, 65279)]%N c) = true
  /\ negb (inClass [(8288, 8303)]%N c) = true.
Proof.
  destruct c as [[] [] [] [] [] [] [] []]; vm_compute; intro H;
    try discriminate; repeat split.
Qed.

Lemma sanitizeName_lemma name :
  match sanitizeName name with
  | Some sanitized =>
      (exists raw, name = JSString raw)
      /\ (1 <= String.length sanitized <= MAX_NAME_LENGTH)%nat
      /\ allChars plainNameChar sanitized = true
  | None => True
  end.
Proof.
  destruct name as [| | | |raw|]; cbn [sanitizeName]; cbv zeta; try exact I.
  set (stripped1 := stripClass [(0, 31); (127, 159)]%N raw).
  set (stripped := stripClass _ (stripClass _ stripped1)).
  set (trimmed := slice0 MAX_NAME_LENGTH (trim stripped)).
  destruct (String.length trimmed =? 0)%nat; [exact I|].
  destruct (String.length (filterString nameChar trimmed) =? 0)%nat eqn:E; [exact I|].
  apply Nat.eqb_neq in E. split; [eauto|]. split.
  - split; [lia|].
    apply Nat.le_trans with (String.length trimmed);
      [apply length_filterString | apply length_slice0].
  - apply allChars_impl with
      (p := fun c => nameChar c && negb (inClass [(0, 31); (127, 159)]%N c));
      [exact nameChar_plain|].
    apply allChars_and; [apply allChars_filtered|].
    apply allChars_filterString, allChars_slice0, allChars_trim.
    unfold stripped, stripClass. do 2 apply allChars_filterString.
    apply allChars_filtered.
Qed.

(** ** Room codes *)

Lemma roomCodeChars_get n :
  (n < 32)%nat ->
  exists c, String.get n roomCodeChars = Some c /\ roomCodeLetter c = true.
Proof.
  intro H. do 32 (destruct n as [|n]; [vm_compute; eauto|]). lia.
Qed.

Lemma roomCodeChar_valid rnd :
  0 <= rnd -> rnd < 1 ->
  exists c, roomCodeChar rnd = String c "" /\ roomCodeLetter c = true.
Proof.
  intros H0 H1. unfold roomCodeChar. cbv zeta.
  change (inject_Z (Z.of_nat (String.length roomCodeChars))) with (32 : Q).
  assert (A : (0 <= Qfloor (rnd * 32))%Z).
  { change 0%Z with (Qfloor 0). apply Qfloor_resp_le. lra. }
  assert (B : (Qfloor (rnd * 32) < 32)%Z).
  { assert (X := Qfloor_le (rnd * 32)).
    rewrite Zlt_Qlt. change (inject_Z 32) with 32. lra. }
  destruct (Qfloor (rnd * 32) <? 0)%Z eqn:E; [apply Z.ltb_lt in E; lia|].
  destruct (roomCodeChars_get (n := Z.to_nat (Qfloor (rnd * 32)))) as (c & -> & Hc);
    [lia | eauto].
Qed.

Lemma roomCodeDraw_valid rnd k :
  (forall i, 0 <= rnd i /\ rnd i < 1) ->
  String.length (roomCodeDraw rnd k) = ROOM_CODE_LENGTH
  /\ allChars roomCodeLetter (roomCodeDraw rnd k) = true.
Proof.
  intro H. unfold roomCodeDraw. cbn [seq ROOM_CODE_LENGTH map String.concat].
  destruct (roomCodeChar_valid (proj1 (H (k + 0)%nat)) (proj2 (H (k + 0)%nat)))
    as (c0 & -> & H0).
  destruct (roomCodeChar_valid (proj1 (H (k + 1)%nat)) (proj2 (H (k + 1)%nat)))
    as (c1 & -> & H1).
  destruct (roomCodeChar_valid (proj1 (H (k + 2)%nat)) (proj2 (H (k + 2)%nat)))
    as (c2 & -> & H2).
  destruct (roomCodeChar_valid (proj1 (H (k + 3)%nat)) (proj2 (H (k + 3)%nat)))
    as (c3 & -> & H3).
  cbn [String.append String.length allChars]. rewrite H0, H1, H2, H3. auto.
Qed.

Lemma generateRoomCode_draw fuel rnd k rooms c :
  generateRoomCode fuel rnd k rooms = Some c ->
  lookup code c rooms = None /\ exists k', c = roomCodeDraw rnd k'.
Proof.
  revert k. induction fuel as [|fuel IH]; intro k; cbn [generateRoomCode];
    [discriminate|].
  cbv zeta. destruct (has code (roomCodeDraw rnd k) rooms) eqn:E; [apply IH|].
  intros [= <-]. split; [|exists k; reflexivity].
  unfold has in E. destruct (lookup code _ rooms); [discriminate | reflexivity].
Qed.

(** ** Rooms under the operations of the entry point *)

Lemma roomSound_step Math room op : roomSound room -> roomSound (step Math room op).
Proof.
  intros (A & B & C). split; [apply step_ok, A|].
  split; [apply step_wf; assumption | apply step_loops, C].
Qed.

Lemma step_sameLobby Math room op :
  roomOk room -> keepsRoster op -> sameLobby room (step Math room op).
Proof.
  intros Ok K. destruct op; cbn [step]; try destruct K.
  - apply setPlayerReady_wfStep.
  - apply setPlayerLoadoutReady_wfStep.
  - apply setPlayerLoadout_wfStep.
  - apply startGame_wfStep.
  - repeat split.
  - apply manualReload_wfStep.
  - apply respawnPlayer_wfStep.
  - apply (fire_wfStep Math h now rnd Ok).
Qed.

Lemma roomSound_set_hostId h room : roomSound room -> roomSound (set_hostId h room).
Proof.
  intros (A & B & C). split; [|split].
  - apply (@roomOk_same room _ A); reflexivity.
  - apply (@roomWf_same room _ B); reflexivity.
  - apply (sameLoops_ok C). repeat split; auto.
Qed.

Lemma roomSound_new c h : roomSound (newGameRoom c h).
Proof.
  split; [apply newGameRoom_ok|]. split; [apply newGameRoom_wf | apply newGameRoom_loops].
Qed.

Lemma In_keys_insert_iff (A : Type) (key : A -> string) a k (m : list A) :
  In k (keys key (insert key a m)) <-> k = key a \/ In k (keys key m).
Proof.
  split; [apply In_keys_insert_gen|].
  induction m as [|b m IH]; simpl.
  - intros [->|[]]. auto.
  - destruct (String.eqb (key b) (key a)) eqn:E; simpl.
    + apply String.eqb_eq in E. intros [->|[<-|H]]; auto.
    + intros [->|[<-|H]]; auto.
Qed.

Lemma memberOf_addPlayer sid nm k room :
  memberOf k (addPlayer sid nm room) <-> k = sid \/ memberOf k room.
Proof.
  unfold memberOf, addPlayer. cbn [lobbyPlayers set_lobbyPlayers].
  apply In_keys_insert_iff.
Qed.

Lemma length_insert (A : Type) (key : A -> string) a (m : list A) :
  (List.length m <= List.length (insert key a m) <= S (List.length m))%nat.
Proof.
  induction m as [|b m IH]; simpl; [lia|].
  destruct (String.eqb (key b) (key a)); simpl; lia.
Qed.

Lemma length_remove (A : Type) (key : A -> string) k (m : list A) :
  (List.length (remove key k m) <= List.length m)%nat.
Proof. apply filter_length_le. Qed.

Lemma memberOf_removePlayer sid k room :
  memberOf k (removePlayer sid room) <-> memberOf k room /\ k <> sid.
Proof.
  unfold memberOf, removePlayer. cbv zeta.
  cbn [lobbyPlayers set_lobbyPlayers set_players set_playerInputs set_reloadTimers
       set_spawnProtectionTimers clearMapped clearHandle set_timers].
  apply In_keys_remove.
Qed.

Lemma removePlayer_fields sid room :
  code (removePlayer sid room) = code room
  /\ hostId (removePlayer sid room) = hostId room
  /\ (playerCount (removePlayer sid room) <= playerCount room)%nat
  /\ gameStarted (removePlayer sid room) = gameStarted room
  /\ inLoadoutPhase (removePlayer sid room) = inLoadoutPhase room.
Proof.
  repeat split. unfold playerCount, removePlayer. cbv zeta.
  cbn [lobbyPlayers set_lobbyPlayers set_players set_playerInputs set_reloadTimers
       set_spawnProtectionTimers clearMapped clearHandle set_timers].
  apply length_remove.
Qed.

Lemma sameLobby_playerCount room room' :
  sameLobby room room' -> playerCount room' = playerCount room.
Proof.
  intros (_ & _ & K). unfold playerCount.
  rewrite <- (length_map RoomPlayer.id (lobbyPlayers room')).
  rewrite <- (length_map RoomPlayer.id (lobbyPlayers room)).
  unfold keys in K. rewrite K. reflexivity.
Qed.

Lemma registeredOk_same prs room room' :
  registeredOk prs room -> roomSound room' -> sameLobby room room' ->
  registeredOk prs room'.
Proof.
  intros (A & B & C & D & E) S L.
  assert (N := sameLobby_playerCount L). destruct L as (L1 & L2 & L3).
  unfold registeredOk, memberOf in *. rewrite L1, L2, L3, N. auto.
Qed.

(** ** The registry *)

Section Registry.
Variable A : Type.
Variable key : A -> string.

Lemma keys_put c (a' : A) (m : list A) :
  key a' = c -> keys key (adjust key c (fun _ => a') m) = keys key m.
Proof.
  intro E. induction m as [|b m IH]; simpl; [reflexivity|].
  rewrite IH. destruct (String.eqb (key b) c) eqn:G; [|reflexivity].
  apply String.eqb_eq in G. congruence.
Qed.

Lemma In_put c (a' b : A) (m : list A) :
  In b (adjust key c (fun _ => a') m) ->
  (b = a' /\ In c (keys key m)) \/ (In b m /\ key b <> c).
Proof.
  unfold adjust. intro H. apply in_map_iff in H. destruct H as (x & E & Hx).
  destruct (String.eqb (key x) c) eqn:G.
  - apply String.eqb_eq in G. left. split; [auto|]. rewrite <- G. apply in_map, Hx.
  - apply String.eqb_neq in G. right. subst. auto.
Qed.

Lemma lookup_put c (a' : A) (m : list A) k :
  key a' = c ->
  lookup key k (adjust key c (fun _ => a') m)
  = if String.eqb k c then option_map (fun _ => a') (lookup key k m)
    else lookup key k m.
Proof.
  intro E. induction m as [|b m IH]; simpl.
  - destruct (String.eqb k c); reflexivity.
  - destruct (String.eqb (key b) c) eqn:G.
    + apply String.eqb_eq in G. rewrite E.
      destruct (String.eqb c k) eqn:G2.
      * apply String.eqb_eq in G2. subst k. rewrite G, !String.eqb_refl. reflexivity.
      * rewrite G. rewrite G2. exact IH.
    + destruct (String.eqb (key b) k) eqn:G2.
      * apply String.eqb_eq in G2. subst k. rewrite G. reflexivity.
      * exact IH.
Qed.

Lemma length_adjust c f (m : list A) : List.length (adjust key c f m) = List.length m.
Proof. apply length_map. Qed.

Lemma In_remove_keyed c b (m : list A) : In b (remove key c m) <-> In b m /\ key b <> c.
Proof.
  unfold remove. rewrite filter_In, negb_true_iff, String.eqb_neq. tauto.
Qed.

Lemma In_insert_keyed a b (m : list A) :
  In b (insert key a m) -> b = a \/ In b m.
Proof.
  induction m as [|x m IH]; simpl.
  - intros [<-|[]]. auto.
  - destruct (String.eqb (key x) (key a)); simpl; intros [<-|H]; auto.
    destruct (IH H); auto.
Qed.

End Registry.

Lemma registry_put rooms prs socks c room room' :
  registryOk rooms prs socks -> lookup code c rooms = Some room ->
  roomSound room' -> sameLobby room room' ->
  registryOk (adjust code c (fun _ => room') rooms) prs socks.
Proof.
  intros (ND & Len & All & Map & Emp) L S Same.
  destruct (lookup_In code c rooms L) as [Hin Ec].
  assert (Ec' : code room' = c) by (destruct Same as (X & _); congruence).
  rewrite Forall_forall in All.
  split; [rewrite keys_put by exact Ec'; exact ND|].
  split; [rewrite length_adjust; exact Len|].
  split; [|split; assumption].
  apply Forall_forall. intros b Hb. apply In_put in Hb.
  destruct Hb as [[-> _]|[Hb _]]; [|apply All, Hb].
  apply (@registeredOk_same prs room room' (All room Hin) S Same).
Qed.

Lemma serverOk_frame s s' :
  serverOk s -> Server.rooms s' = Server.rooms s ->
  Server.playerRooms s' = Server.playerRooms s ->
  Server.sockets s' = Server.sockets s ->
  Server.connectionsPerIp s' = Server.connectionsPerIp s -> serverOk s'.
Proof. unfold serverOk. intros H -> -> -> ->. exact H. Qed.

Lemma roomOf_lookup sid s room :
  roomOf sid s = Some room ->
  lookup code (code room) (Server.rooms s) = Some room
  /\ lookup skey sid (Server.playerRooms s) = Some (sid, code room).
Proof.
  unfold roomOf. destruct (lookup skey sid (Server.playerRooms s)) as [[k c]|] eqn:L;
    [|discriminate].
  destruct (String.eqb c ""); [discriminate|]. intro H.
  destruct (lookup_In code c _ H) as [_ <-]. split; [exact H|].
  destruct (lookup_In skey sid _ L) as [_ E]. cbn in E. subst k. reflexivity.
Qed.

(** A handler that mutates the room of the socket without touching its
    roster keeps the invariant. *)
Lemma serverOk_put s c room room' :
  serverOk s -> lookup code c (Server.rooms s) = Some room ->
  roomSound room' -> sameLobby room room' ->
  serverOk (putRoom room' s).
Proof.
  intros [R C] L S Same. split; [|exact C].
  unfold putRoom. cbn [Server.rooms Server.playerRooms Server.sockets set_rooms].
  assert (E : code room' = c).
  { destruct Same as (X & _). destruct (lookup_In code c _ L) as [_ Y]. congruence. }
  rewrite E. apply (@registry_put _ _ _ c room room' R L S Same).
Qed.

Lemma serverOk_step Math s c room op :
  serverOk s -> lookup code c (Server.rooms s) = Some room -> keepsRoster op ->
  serverOk (putRoom (step Math room op) s).
Proof.
  intros H L K.
  assert (S : roomSound room).
  { destruct H as [(_ & _ & All & _) _]. rewrite Forall_forall in All.
    apply (All room). apply (lookup_In code c _ L). }
  apply (@serverOk_put s c room _ H L).
  - apply roomSound_step, S.
  - apply step_sameLobby; [apply S | exact K].
Qed.

Ltac srv_simpl :=
  unfold send, putRoom, updateRoomActivity;
  cbn [Server.rooms Server.playerRooms Server.roomCreateCooldowns
       Server.connectionsPerIp Server.socketLastInput Server.socketLastRespawn
       Server.socketLastReady Server.roomLastActivity Server.sockets Server.sent
       set_rooms set_playerRooms set_roomCreateCooldowns set_connectionsPerIp
       set_socketLastInput set_socketLastRespawn set_socketLastReady
       set_roomLastActivity set_sockets set_sent].

Lemma set_hostId_fields h r :
  lobbyPlayers (set_hostId h r) = lobbyPlayers r
  /\ code (set_hostId h r) = code r /\ hostId (set_hostId h r) = h.
Proof. repeat split. Qed.

(** What [leaveCurrentRoom] guarantees. *)
Lemma leaveCurrentRoom_ok sid s :
  serverOk s ->
  let s' := leaveCurrentRoom sid s in
  serverOk s'
  /\ Server.sockets s' = Server.sockets s
  /\ Server.connectionsPerIp s' = Server.connectionsPerIp s
  /\ lookup skey sid (Server.playerRooms s') = None
  /\ (forall k, k <> sid -> lookup skey k (Server.playerRooms s')
                           = lookup skey k (Server.playerRooms s))
  /\ (forall room', In room' (Server.rooms s') ->
        ~ memberOf sid room'
        /\ exists room, In room (Server.rooms s) /\ code room' = code room
                        /\ (playerCount room' <= playerCount room)%nat)
  /\ (List.length (Server.rooms s') <= List.length (Server.rooms s))%nat.
Proof.
  intros [R C] s'. pose proof R as R0. destruct R as (ND & Len & All & Map & Emp).
  rewrite Forall_forall in All.
  assert (Hmem : forall room, In room (Server.rooms s) -> memberOf sid room ->
                   lookup skey sid (Server.playerRooms s) = Some (sid, code room)).
  { intros room Hin Hm. destruct (All room Hin) as (_ & _ & _ & _ & X). auto. }
  assert (Hself : forall room', In room' (Server.rooms s) ->
            exists room, In room (Server.rooms s) /\ code room' = code room
                         /\ (playerCount room' <= playerCount room)%nat).
  { intros room' Hin. exists room'. auto. }
  subst s'. unfold leaveCurrentRoom.
  destruct (lookup skey sid (Server.playerRooms s)) as [[k c]|] eqn:L.
  2:{ split; [split; [exact R0 | exact C]|].
      split; [reflexivity|]. split; [reflexivity|]. split; [exact L|].
      split; [reflexivity|]. split; [|apply Nat.le_refl].
      intros room' H. split; [|apply Hself, H].
      intro Hm. specialize (Hmem _ H Hm). discriminate. }
  destruct (lookup_In skey sid _ L) as [_ Ek]. cbn in Ek. subst k.
  destruct (Map sid c L) as [Hc Hs].
  destruct (String.eqb c "") eqn:Ec; [apply String.eqb_eq in Ec; contradiction|].
  assert (Hother : forall room, In room (Server.rooms s) -> code room <> c ->
                     ~ memberOf sid room).
  { intros room Hin Hne Hm. specialize (Hmem _ Hin Hm). congruence. }
  assert (MapRm : forall k c0,
            lookup skey k (remove skey sid (Server.playerRooms s)) = Some (k, c0) ->
            c0 <> "" /\ has skey k (Server.sockets s) = true).
  { intros k c0 Lk. destruct (String.eqb k sid) eqn:E.
    - apply String.eqb_eq in E. subst. rewrite lookup_remove_eq in Lk. discriminate.
    - apply String.eqb_neq in E. rewrite lookup_remove_ne in Lk by exact E.
      apply (Map k c0 Lk). }
  assert (RegRm : forall room, registeredOk (Server.playerRooms s) room ->
                    ~ memberOf sid room ->
                    registeredOk (remove skey sid (Server.playerRooms s)) room).
  { intros room (A1 & A2 & A3 & A4 & A5) Hn.
    split; [exact A1|]. split; [exact A2|]. split; [exact A3|]. split; [exact A4|].
    intros k Hk. rewrite lookup_remove_ne; [apply A5, Hk|].
    intro E. subst. contradiction. }
  destruct (lookup code c (Server.rooms s)) as [room|] eqn:Lr.
  2:{ cbv zeta. cbn [Server.rooms Server.playerRooms Server.sockets
                     Server.connectionsPerIp set_playerRooms].
      assert (Hno : forall room, In room (Server.rooms s) -> ~ memberOf sid room).
      { intros room Hin. apply Hother; [exact Hin|]. intro E.
        apply (lookup_None code c (Server.rooms s)) in Lr. apply Lr.
        rewrite <- E. apply in_map, Hin. }
      split; [split; [|exact C]|]; srv_simpl.
      - split; [exact ND|]. split; [exact Len|]. split; [|split; assumption].
        apply Forall_forall. intros room Hin.
        apply RegRm; [apply All, Hin | apply Hno, Hin].
      - split; [reflexivity|]. split; [reflexivity|].
        split; [apply lookup_remove_eq|].
        split; [intros k Hk; apply lookup_remove_ne, Hk|].
        split; [|apply Nat.le_refl].
        intros room' H. split; [apply Hno, H | apply Hself, H]. }
  destruct (lookup_In code c _ Lr) as [Hin Ecode].
  destruct (All room Hin) as (Sd & Lc & Cnt & Host & Mem).
  destruct (removePlayer_fields sid room) as (F1 & F2 & F3 & F4 & F5).
  cbv zeta.
  destruct (playerCount (removePlayer sid room) =? 0)%nat eqn:Z.
  - (* the room is left empty *)
    cbn [Server.rooms Server.playerRooms Server.sockets Server.connectionsPerIp
         set_playerRooms set_roomLastActivity set_rooms send set_sent].
    assert (Hrest : forall room', In room' (remove code c (Server.rooms s)) ->
                      In room' (Server.rooms s) /\ ~ memberOf sid room').
    { intros room' H. apply In_remove_keyed in H. destruct H as [H1 H2].
      split; [exact H1 | apply Hother; assumption]. }
    split; [split; [|exact C]|]; srv_simpl.
    + split; [apply NoDup_remove, ND|].
      split; [apply Nat.le_trans with (List.length (Server.rooms s));
              [apply length_remove | exact Len]|].
      split; [|split; assumption].
      apply Forall_forall. intros room' H. destruct (Hrest _ H) as [H1 H2].
      apply RegRm; [apply All, H1 | exact H2].
    + split; [reflexivity|]. split; [reflexivity|].
      split; [apply lookup_remove_eq|].
      split; [intros k Hk; apply lookup_remove_ne, Hk|].
      split; [|apply length_remove].
      intros room' H. split; [apply (Hrest _ H) | apply Hself, (Hrest _ H)].
  - (* others stay: the host may change *)
    apply Nat.eqb_neq in Z.
    set (room1 := removePlayer sid room).
    set (room2 := if String.eqb (hostId room1) sid then
                    match getFirstPlayerId room1 with
                    | Some newHost =>
                        if String.eqb newHost "" then room1 else set_hostId newHost room1
                    | None => room1
                    end
                  else room1).
    assert (S1 : roomSound room1) by (apply (roomSound_step exampleMath (OpRemovePlayer sid)), Sd).
    assert (E2 : lobbyPlayers room2 = lobbyPlayers room1 /\ code room2 = c
                 /\ roomSound room2).
    { assert (C1 : code room1 = c) by (unfold room1; congruence).
      unfold room2. destruct (String.eqb (hostId room1) sid); [|auto].
      destruct (getFirstPlayerId room1) as [nh|]; [|auto].
      destruct (String.eqb nh ""); [auto|].
      destruct (set_hostId_fields nh room1) as (X1 & X2 & _).
      split; [exact X1|]. split; [rewrite X2; exact C1|].
      apply roomSound_set_hostId, S1. }
    destruct E2 as (E2 & C2 & S2).
    assert (M2 : forall k, memberOf k room2 <-> memberOf k room /\ k <> sid).
    { intro k. unfold memberOf. rewrite E2. apply memberOf_removePlayer. }
    assert (H2 : memberOf (hostId room2) room2).
    { unfold room2. destruct (String.eqb (hostId room1) sid) eqn:Eh.
      - unfold getFirstPlayerId.
        destruct (lobbyPlayers room1) as [|p l] eqn:Elob;
          [unfold playerCount in Z; fold room1 in Z; rewrite Elob in Z;
           simpl in Z; lia|].
        assert (Hp : memberOf (RoomPlayer.id p) room1)
          by (unfold memberOf; rewrite Elob; left; reflexivity).
        destruct (String.eqb (RoomPlayer.id p) "") eqn:Ee.
        + exfalso. apply String.eqb_eq in Ee.
          apply memberOf_removePlayer in Hp. destruct Hp as [Hp _].
          apply Mem in Hp. apply Map in Hp. destruct Hp as [_ Hp].
          unfold has in Hp.
          destruct (lookup skey (RoomPlayer.id p) (Server.sockets s)) as [e|] eqn:Le;
            [|discriminate].
          apply lookup_In in Le. destruct Le as [Le1 Le2]. apply Emp.
          rewrite <- Ee, <- Le2. apply in_map, Le1.
        + destruct (set_hostId_fields (RoomPlayer.id p) room1) as (X1 & _ & X3).
          unfold memberOf. rewrite X1, X3. exact Hp.
      - apply String.eqb_neq in Eh. apply memberOf_removePlayer.
        split; [|exact Eh]. unfold room1. rewrite F2. exact Host. }
    assert (Reg2 : registeredOk (remove skey sid (Server.playerRooms s)) room2).
    { split; [exact S2|]. split; [rewrite C2, <- Ecode; exact Lc|].
      split; [unfold playerCount; rewrite E2; fold (playerCount room1);
              split; [unfold room1; lia | apply Nat.le_trans with (playerCount room);
                            [exact F3 | apply Cnt]]|].
      split; [exact H2|].
      intros k Hk. apply M2 in Hk. destruct Hk as [Hk Hne].
      rewrite lookup_remove_ne by exact Hne. rewrite C2, <- Ecode. apply Mem, Hk. }
    unfold send, putRoom.
    cbn [Server.rooms Server.playerRooms Server.sockets Server.connectionsPerIp
         set_playerRooms set_rooms set_sent].
    rewrite C2.
    assert (Hin2 : forall room', In room' (adjust code c (fun _ => room2) (Server.rooms s)) ->
                     room' = room2 \/ (In room' (Server.rooms s) /\ code room' <> c)).
    { intros room' H. apply In_put in H. tauto. }
    split; [split; [|exact C]|]; srv_simpl.
    + split; [rewrite keys_put by exact C2; exact ND|].
      split; [rewrite length_adjust; exact Len|].
      split; [|split; assumption].
      apply Forall_forall. intros room' H. destruct (Hin2 _ H) as [->|[H1 H3]];
        [exact Reg2|].
      apply RegRm; [apply All, H1 | apply Hother; assumption].
    + split; [reflexivity|]. split; [reflexivity|].
      split; [apply lookup_remove_eq|].
      split; [intros k Hk; apply lookup_remove_ne, Hk|].
      split; [|rewrite length_adjust; apply Nat.le_refl].
      intros room' H. split.
      * destruct (Hin2 _ H) as [->|[H1 H3]]; [|apply Hother; assumption].
        intro Hm. apply M2 in Hm. destruct Hm as [_ Hm]. apply Hm. reflexivity.
      * destruct (Hin2 _ H) as [->|[H1 H3]]; [|apply Hself, H1].
        exists room. split; [exact Hin|]. split; [congruence|].
        unfold playerCount. rewrite E2. exact F3.
Qed.

Ltac srv_frame H := apply (@serverOk_frame _ _ H); reflexivity.

Lemma has_lookup (A : Type) (key : A -> string) k (m : list A) :
  has key k m = true <-> lookup key k m <> None.
Proof. unfold has. destruct (lookup key k m); split; congruence. Qed.

Lemma has_In (A : Type) (key : A -> string) k (m : list A) :
  has key k m = true <-> In k (keys key m).
Proof.
  rewrite has_lookup. split.
  - intro H. destruct (In_dec string_dec k (keys key m)) as [Y|N]; [exact Y|].
    apply lookup_None in N. contradiction.
  - intros H N. apply lookup_None in N. contradiction.
Qed.

(** A socket that is in no room enters the room [c]: the registry that
    results, [rooms'], holds the old rooms and rooms of code [c] whose
    members are that socket and sockets already mapped to [c]. *)
Lemma registry_enter rooms rooms' prs socks sid c :
  registryOk rooms prs socks ->
  (forall room, In room rooms -> ~ memberOf sid room) ->
  c <> "" -> has skey sid socks = true ->
  NoDup (keys code rooms') -> (List.length rooms' <= MAX_ROOMS)%nat ->
  (forall room', In room' rooms' ->
     In room' rooms
     \/ (code room' = c /\ roomSound room'
         /\ String.length c = ROOM_CODE_LENGTH
         /\ (1 <= playerCount room' <= MAX_PLAYERS)%nat
         /\ memberOf (hostId room') room'
         /\ forall k, memberOf k room' ->
              k = sid \/ lookup skey k prs = Some (k, c))) ->
  registryOk rooms' (insert skey (sid, c) prs) socks.
Proof.
  intros (ND & Len & All & Map & Emp) Hno Hc Hs ND' Len' Hin.
  rewrite Forall_forall in All.
  split; [exact ND'|]. split; [exact Len'|]. split; [|split; [|exact Emp]].
  - apply Forall_forall. intros room' H. destruct (Hin room' H) as [Old|New].
    + destruct (All room' Old) as (A1 & A2 & A3 & A4 & A5).
      split; [exact A1|]. split; [exact A2|]. split; [exact A3|]. split; [exact A4|].
      intros k Hk. rewrite lookup_insert_ne; [apply A5, Hk|].
      cbn. intro E. subst k. apply (Hno room' Old Hk).
    + destruct New as (N1 & N2 & N3 & N4 & N5 & N6).
      split; [exact N2|]. split; [rewrite N1; exact N3|]. split; [exact N4|].
      split; [exact N5|].
      intros k Hk. rewrite N1. destruct (String.eqb k sid) eqn:E.
      * apply String.eqb_eq in E. subst k.
        apply (lookup_insert_eq skey (sid, c) prs).
      * apply String.eqb_neq in E. rewrite lookup_insert_ne by exact E.
        destruct (N6 k Hk) as [X|X]; [contradiction | exact X].
  - intros k c0 Lk. destruct (String.eqb k sid) eqn:E.
    + apply String.eqb_eq in E. subst k.
      pose proof (lookup_insert_eq skey (sid, c) prs) as X. cbn [skey fst] in X.
      rewrite X in Lk. injection Lk as <-. auto.
    + apply String.eqb_neq in E. rewrite lookup_insert_ne in Lk by exact E.
      apply (Map k c0 Lk).
Qed.

(** Rooms taken out of the registry. *)
Lemma registry_remove rooms prs socks c :
  registryOk rooms prs socks -> registryOk (remove code c rooms) prs socks.
Proof.
  intros (ND & Len & All & Map & Emp). rewrite Forall_forall in All.
  split; [apply NoDup_remove, ND|].
  split; [apply Nat.le_trans with (List.length rooms); [apply length_remove | exact Len]|].
  split; [|split; assumption].
  apply Forall_forall. intros room H. apply In_remove_keyed in H. apply All, H.
Qed.

Lemma serverOk_room_op Math s sid op room :
  serverOk s -> keepsRoster op -> roomOf sid s = Some room ->
  serverOk (putRoom (step Math room op) s).
Proof.
  intros H K R. apply roomOf_lookup in R. destruct R as [R _].
  apply (@serverOk_step Math s (code room) room op H R K).
Qed.

Lemma roomReady_ok sid ready now s : serverOk s -> serverOk (roomReady sid ready now s).
Proof.
  intro H. unfold roomReady. cbv zeta.
  destruct (Qltb _ _); [exact H|].
  destruct ready; try (srv_frame H).
  change (roomOf sid (set_socketLastReady _ s)) with (roomOf sid s).
  destruct (roomOf sid s) as [room|] eqn:R; [|srv_frame H].
  apply (@serverOk_frame _ _
           (@serverOk_room_op exampleMath s sid (OpSetPlayerReady sid b) room H I R));
    reflexivity.
Qed.

Lemma roomStart_ok sid s : serverOk s -> serverOk (roomStart sid s).
Proof.
  intro H. unfold roomStart.
  destruct (roomOf sid s) as [room|] eqn:R; [|exact H].
  destruct (negb _); [exact H|]. destruct (_ <? _)%nat; [exact H|].
  apply (@serverOk_room_op exampleMath s sid OpStartGame room H I R).
Qed.

Lemma playerLoadout_ok sid movement weapon s :
  serverOk s -> serverOk (playerLoadout sid movement weapon s).
Proof.
  intro H. unfold playerLoadout.
  destruct (isValidMovementType movement) as [m|]; [|exact H].
  destruct (isValidWeaponType weapon) as [w|]; [|exact H].
  destruct (roomOf sid s) as [room|] eqn:R; [|exact H]. cbv zeta.
  apply (@serverOk_frame _ _
           (@serverOk_room_op exampleMath s sid (OpSetPlayerLoadout sid m w) room H I R));
    reflexivity.
Qed.

Lemma playerLoadoutReady_ok sid ready s :
  serverOk s -> serverOk (playerLoadoutReady sid ready s).
Proof.
  intro H. unfold playerLoadoutReady.
  destruct (roomOf sid s) as [room|] eqn:R; [|exact H]. cbv zeta.
  apply (@serverOk_frame _ _
           (@serverOk_room_op exampleMath s sid
              (OpSetPlayerLoadoutReady sid (truthy ready)) room H I R));
    reflexivity.
Qed.

Lemma playerInput_ok sid input now s :
  serverOk s -> serverOk (playerInput sid input now s).
Proof.
  intro H. unfold playerInput. cbv zeta.
  destruct (Qltb _ _); [exact H|].
  destruct (isValidInputState input) as [i|]; [|srv_frame H].
  change (roomOf sid (set_socketLastInput _ s)) with (roomOf sid s).
  destruct (roomOf sid s) as [room|] eqn:R; [|srv_frame H].
  apply (@serverOk_frame _ _
           (@serverOk_room_op exampleMath s sid (OpHandleInput sid i) room H I R));
    reflexivity.
Qed.

Lemma playerRespawn_ok sid now s : serverOk s -> serverOk (playerRespawn sid now s).
Proof.
  intro H. unfold playerRespawn. cbv zeta.
  destruct (Qltb _ _); [exact H|].
  change (roomOf sid (set_socketLastRespawn _ s)) with (roomOf sid s).
  destruct (roomOf sid s) as [room|] eqn:R; [|srv_frame H].
  apply (@serverOk_frame _ _
           (@serverOk_room_op exampleMath s sid (OpRespawnPlayer sid) room H I R));
    reflexivity.
Qed.

Lemma playerReload_ok sid s : serverOk s -> serverOk (playerReload sid s).
Proof.
  intro H. unfold playerReload.
  destruct (roomOf sid s) as [room|] eqn:R; [|exact H].
  apply (@serverOk_room_op exampleMath s sid (OpManualReload sid) room H I R).
Qed.

Lemma roomTimer_ok Math c h now rnd s :
  serverOk s -> serverOk (roomTimer Math c h now rnd s).
Proof.
  intro H. unfold roomTimer.
  destruct (lookup code c (Server.rooms s)) as [room|] eqn:R; [|exact H].
  apply (@serverOk_step Math s c room (OpFire h now rnd) H R I).
Qed.

Lemma cleanupIdleRooms_ok now s : serverOk s -> serverOk (cleanupIdleRooms now s).
Proof.
  unfold cleanupIdleRooms. generalize (keys skey (Server.roomLastActivity s)).
  intro l. revert s. induction l as [|c l IH]; intros s H; [exact H|].
  cbn [fold_left]. apply IH.
  destruct (lookup skey c (Server.roomLastActivity s)) as [[k t]|]; [|exact H].
  destruct (Qgtb _ _); [|exact H]. cbv zeta.
  destruct (lookup code c (Server.rooms s)) as [room|]; [|srv_frame H].
  destruct H as [R C]. split; [|exact C]. srv_simpl. apply registry_remove, R.
Qed.

Lemma has_insert_keep (A : Type) (key : A -> string) a k (m : list A) :
  has key k m = true -> has key k (insert key a m) = true.
Proof.
  rewrite !has_In. intro H. apply In_keys_insert_iff. right. exact H.
Qed.

Lemma length_filter_remove (A : Type) (key : A -> string) (p : A -> bool) k e
    (m : list A) :
  NoDup (keys key m) -> lookup key k m = Some e ->
  List.length (filter p m)
  = ((if p e then 1 else 0) + List.length (filter p (remove key k m)))%nat.
Proof.
  induction m as [|b m IH]; simpl; [discriminate|].
  intros ND L. inversion ND as [|? ? Hn ND']; subst.
  destruct (String.eqb (key b) k) eqn:E.
  - injection L as ->. cbn [negb]. apply String.eqb_eq in E.
    assert (R : remove key k m = m).
    { unfold remove. apply forallb_filter_id. apply forallb_forall. intros x Hx.
      apply negb_true_iff, String.eqb_neq. intro X. apply Hn. rewrite E, <- X.
      apply in_map, Hx. }
    fold (remove key k m). rewrite R. destruct (p e); reflexivity.
  - cbn [negb]. simpl. fold (remove key k m). specialize (IH ND' L).
    destruct (p b); simpl; rewrite IH; lia.
Qed.

Lemma onConnection_ok sid ip s :
  serverOk s -> sid <> "" -> has skey sid (Server.sockets s) = false ->
  serverOk (onConnection sid ip s).
Proof.
  intros H Hne Hnew. unfold onConnection. cbv zeta.
  fold (countOf ip (Server.connectionsPerIp s)).
  destruct (MAX_CONNECTIONS_PER_IP <=? _)%nat eqn:Lim; [srv_frame H|].
  apply Nat.leb_gt in Lim.
  destruct H as [(ND & Len & All & Map & Emp) (SD & Cnt & Cap)].
  assert (Hnot : ~ In sid (keys skey (Server.sockets s))).
  { intro X. apply has_In in X. congruence. }
  assert (Eapp : insert skey (sid, ip) (Server.sockets s) = Server.sockets s ++ [(sid, ip)])
    by (apply insert_absent; exact Hnot).
  assert (Eof : forall ip', connectionsOf ip' (insert skey (sid, ip) (Server.sockets s))
                            = (connectionsOf ip' (Server.sockets s)
                               + if String.eqb ip ip' then 1 else 0)%nat).
  { intro ip'. unfold connectionsOf. rewrite Eapp, filter_app, length_app.
    cbn [filter snd]. destruct (String.eqb ip ip'); reflexivity. }
  split; srv_simpl.
  - split; [exact ND|]. split; [exact Len|]. split; [exact All|]. split.
    + intros k c L. destruct (Map k c L) as [X Y]. split; [exact X|].
      apply has_insert_keep, Y.
    + intro X. apply In_keys_insert_iff in X. destruct X as [X|X]; [|contradiction].
      apply Hne. symmetry. exact X.
  - split; [apply NoDup_insert, SD|]. split.
    + intro ip'. rewrite Eof. unfold countOf at 1.
      destruct (String.eqb ip ip') eqn:E.
      * apply String.eqb_eq in E. subst ip'.
        pose proof (lookup_insert_eq skey (ip, S (countOf ip (Server.connectionsPerIp s)))
                      (Server.connectionsPerIp s)) as X.
        cbn [skey fst] in X. rewrite X. rewrite <- Cnt. lia.
      * apply String.eqb_neq in E. rewrite lookup_insert_ne by (cbn; congruence).
        fold (countOf ip' (Server.connectionsPerIp s)). rewrite Cnt. lia.
    + intro ip'. rewrite Eof. destruct (String.eqb ip ip') eqn:E.
      * apply String.eqb_eq in E. subst ip'. rewrite <- Cnt. lia.
      * specialize (Cap ip'). lia.
Qed.

Lemma onDisconnect_ok sid ip s :
  serverOk s -> lookup skey sid (Server.sockets s) = Some (sid, ip) ->
  serverOk (onDisconnect sid ip s)
  /\ has skey sid (Server.sockets (onDisconnect sid ip s)) = false
  /\ lookup skey sid (Server.playerRooms (onDisconnect sid ip s)) = None
  /\ forall room, In room (Server.rooms (onDisconnect sid ip s)) -> ~ memberOf sid room.
Proof.
  intros H L. unfold onDisconnect.
  destruct (leaveCurrentRoom_ok sid H) as (H1 & Es & Ec & Lm & Lo & Hr & _).
  set (s1 := leaveCurrentRoom sid s) in *. cbv zeta.
  fold (countOf ip (Server.connectionsPerIp s1)).
  destruct H1 as [(ND & Len & All & Map & Emp) (SD & Cnt & Cap)].
  rewrite Es in *. 
  assert (Eof : forall ip', connectionsOf ip' (Server.sockets s)
                            = ((if String.eqb ip ip' then 1 else 0)
                               + connectionsOf ip' (remove skey sid (Server.sockets s)))%nat).
  { intro ip'. unfold connectionsOf.
    rewrite (@length_filter_remove _ skey (fun e => String.eqb (snd e) ip') sid (sid, ip)
               (Server.sockets s) SD L).
    reflexivity. }
  set (currentCount := match lookup skey ip (Server.connectionsPerIp s1) with
                       | Some (_, O) | None => 1%nat
                       | Some (_, n) => n
                       end).
  assert (Ecur : currentCount = countOf ip (Server.connectionsPerIp s1)).
  { pose proof (Cnt ip) as X. pose proof (Eof ip) as Y. rewrite String.eqb_refl in Y.
    unfold currentCount, countOf in *.
    destruct (lookup skey ip (Server.connectionsPerIp s1)) as [[k [|n]]|]; lia. }
  assert (Hkeep : forall k, k <> sid ->
            has skey k (remove skey sid (Server.sockets s))
            = has skey k (Server.sockets s)).
  { intros k Hk. unfold has. rewrite lookup_remove_ne by exact Hk. reflexivity. }
  assert (Reg : registryOk (Server.rooms s1) (Server.playerRooms s1)
                  (remove skey sid (Server.sockets s))).
  { split; [exact ND|]. split; [exact Len|]. split; [exact All|]. split.
    - intros k c Lk. destruct (Map k c Lk) as [X Y]. split; [exact X|].
      rewrite Hkeep; [exact Y|]. intro E. subst k. congruence.
    - intro X. apply In_keys_remove in X. apply Emp, X. }
  assert (Con : forall cpi,
            (forall ip', countOf ip' cpi
                         = (countOf ip' (Server.connectionsPerIp s1)
                            - if String.eqb ip ip' then 1 else 0)%nat) ->
            connectionsOk (remove skey sid (Server.sockets s)) cpi).
  { intros cpi Hcpi. split; [apply NoDup_remove, SD|]. split.
    - intro ip'. rewrite Hcpi, Cnt, (Eof ip').
      destruct (String.eqb ip ip'); lia.
    - intro ip'. specialize (Cap ip'). rewrite (Eof ip') in Cap. lia. }
  split; [|split; [|split]].
  - destruct (currentCount <=? 1)%nat eqn:Le; split; srv_simpl; rewrite ?Es;
      try exact Reg;
      apply Con; intro ip'; unfold countOf at 1.
    + apply Nat.leb_le in Le. destruct (String.eqb ip ip') eqn:E.
      * apply String.eqb_eq in E. subst ip'. rewrite lookup_remove_eq. lia.
      * apply String.eqb_neq in E. rewrite lookup_remove_ne by congruence.
        fold (countOf ip' (Server.connectionsPerIp s1)). lia.
    + apply Nat.leb_gt in Le. destruct (String.eqb ip ip') eqn:E.
      * apply String.eqb_eq in E. subst ip'.
        pose proof (lookup_insert_eq skey (ip, (currentCount - 1)%nat)
                      (Server.connectionsPerIp s1)) as X.
        cbn [skey fst] in X. rewrite X. lia.
      * apply String.eqb_neq in E. rewrite lookup_insert_ne by (cbn; congruence).
        fold (countOf ip' (Server.connectionsPerIp s1)). lia.
  - destruct (currentCount <=? 1)%nat; srv_simpl; unfold has;
      rewrite lookup_remove_eq; reflexivity.
  - destruct (currentCount <=? 1)%nat; srv_simpl; exact Lm.
  - destruct (currentCount <=? 1)%nat; srv_simpl; intros room Hin; apply Hr, Hin.
Qed.

Lemma length4_nonempty c : String.length c = ROOM_CODE_LENGTH -> c <> "".
Proof. intros H E. subst c. discriminate. Qed.

Lemma roomCreate_ok fuel rnd sid ip name now s s' :
  serverOk s -> has skey sid (Server.sockets s) = true ->
  (forall k, 0 <= rnd k /\ rnd k < 1) ->
  roomCreate fuel rnd sid ip name now s = Some s' -> serverOk s'.
Proof.
  intros H Hs Hr. unfold roomCreate.
  destruct (sanitizeName name) as [nm|]; [|intros [= <-]; srv_frame H].
  cbv zeta. destruct (Qltb _ _); [intros [= <-]; srv_frame H|].
  destruct (MAX_ROOMS <=? _)%nat eqn:Full; [intros [= <-]; srv_frame H|].
  apply Nat.leb_gt in Full.
  destruct (leaveCurrentRoom_ok sid H) as (H1 & Es & Ec & Lm & Lo & Hno & Hlen).
  set (s1 := leaveCurrentRoom sid s) in *.
  destruct (generateRoomCode fuel rnd 0 (Server.rooms s1)) as [c|] eqn:G;
    [|discriminate].
  intros [= <-].
  destruct (generateRoomCode_draw _ _ _ _ G) as (Fresh & k' & Ek).
  assert (Lc : String.length c = ROOM_CODE_LENGTH)
    by (rewrite Ek; apply (@roomCodeDraw_valid rnd k' Hr)).
  destruct H1 as [R C]. split; srv_simpl; [|rewrite Es, Ec in *; exact C].
  set (room := addPlayer sid nm (newGameRoom c sid)).
  apply (@registry_enter (Server.rooms s1)); try assumption.
  - intros room' Hin. apply (Hno room' Hin).
  - apply length4_nonempty, Lc.
  - rewrite Es. exact Hs.
  - apply NoDup_insert, R.
  - destruct (length_insert code room (Server.rooms s1)) as [_ X].
    unfold MAX_ROOMS in *. lia.
  - intros room' Hin. apply In_insert_keyed in Hin. destruct Hin as [->|Hin];
      [right | left; exact Hin].
    split; [reflexivity|].
    split; [apply (roomSound_step exampleMath (OpAddPlayer sid nm)), roomSound_new|].
    split; [exact Lc|].
    split; [unfold MAX_PLAYERS; cbn; lia|].
    split; [left; reflexivity|].
    intros k Hk. apply memberOf_addPlayer in Hk. destruct Hk as [Hk|[]]. left. exact Hk.
Qed.

Lemma roomJoin_ok toUpperCase sid roomCode name now s :
  serverOk s -> has skey sid (Server.sockets s) = true ->
  serverOk (roomJoin toUpperCase sid roomCode name now s).
Proof.
  intros H Hs. unfold roomJoin.
  destruct (sanitizeName name) as [nm|]; [|srv_frame H].
  destruct roomCode as [| | | |c0|]; try (srv_frame H).
  destruct (negb _); [srv_frame H|].
  set (c := toUpperCase c0).
  destruct (lookup code c (Server.rooms s)) as [room|] eqn:L; [|srv_frame H].
  destruct (gameStarted room || inLoadoutPhase room); [srv_frame H|].
  destruct (MAX_PLAYERS <=? playerCount room)%nat eqn:Full; [srv_frame H|].
  apply Nat.leb_gt in Full.
  destruct (lookup_In code c _ L) as [Hin Ecode].
  assert (Lc : String.length c = ROOM_CODE_LENGTH).
  { destruct H as [(_ & _ & All & _) _]. rewrite Forall_forall in All.
    destruct (All room Hin) as (_ & X & _). rewrite <- Ecode. exact X. }
  assert (NDs : NoDup (keys code (Server.rooms s))) by apply H.
  destruct (leaveCurrentRoom_ok sid H) as (H1 & Es & Ec & Lm & Lo & Hno & Hlen).
  set (s1 := leaveCurrentRoom sid s) in *. cbv zeta.
  destruct H1 as [R C].
  destruct (lookup code c (Server.rooms s1)) as [room1|] eqn:L1.
  - destruct (lookup_In code c _ L1) as [Hin1 Ecode1].
    split; srv_simpl; [|rewrite Es, Ec in *; exact C].
    change (code (addPlayer sid nm room1)) with (code room1). rewrite Ecode1.
    assert (Reg1 : registeredOk (Server.playerRooms s1) room1).
    { destruct R as (_ & _ & All & _). rewrite Forall_forall in All. apply All, Hin1. }
    destruct Reg1 as (A1 & A2 & A3 & A4 & A5).
    apply (@registry_enter (Server.rooms s1)); try assumption.
    + intros room' Hin'. apply (Hno room' Hin').
    + apply length4_nonempty, Lc.
    + rewrite Es. exact Hs.
    + rewrite keys_put by exact Ecode1. apply R.
    + rewrite length_adjust. apply R.
    + intros room' Hin'. apply In_put in Hin'. destruct Hin' as [[-> _]|[Hin' _]];
        [right | left; exact Hin'].
      split; [exact Ecode1|].
      split; [apply (roomSound_step exampleMath (OpAddPlayer sid nm)), A1|].
      split; [exact Lc|].
      split.
      { destruct (Hno room1 Hin1) as (_ & room0 & Hin0 & E0 & Le0).
        assert (room0 = room).
        { pose proof (In_lookup code (Server.rooms s) room0 NDs Hin0) as X.
          rewrite <- E0, Ecode1, L in X. congruence. }
        subst room0.
        unfold playerCount, addPlayer in *. cbn [lobbyPlayers set_lobbyPlayers].
        match goal with
        | |- context [insert ?k ?a ?m] => destruct (length_insert k a m) as [X Y]
        end.
        unfold MAX_PLAYERS in *. lia. }
      split; [apply memberOf_addPlayer; right; exact A4|].
      intros k Hk. apply memberOf_addPlayer in Hk. destruct Hk as [Hk|Hk];
        [left; exact Hk|].
      right. rewrite <- Ecode1. apply A5, Hk.
  - split; srv_simpl; [|rewrite Es, Ec in *; exact C].
    apply (@registry_enter (Server.rooms s1)); try assumption; try apply R.
    + intros room' Hin'. apply (Hno room' Hin').
    + apply length4_nonempty, Lc.
    + rewrite Es. exact Hs.
    + intros room' Hin'. left. exact Hin'.
Qed.

Lemma serve_ok Math toUpperCase s req s' :
  serverOk s -> validRequest req -> serve Math toUpperCase s req = Some s' ->
  serverOk s'.
Proof.
  intros H V.
  destruct req as [sid ip0|sid nm now fl rnd|sid rc nm now|sid|sid rdy now|sid
                  |sid mv wp|sid rdy|sid inp now|sid now|sid|sid|now|c h now rnd];
    cbn [serve validRequest] in *; unfold onSocket.
  - destruct (has skey sid (Server.sockets s)) eqn:E; intros [= <-]; [exact H|].
    apply onConnection_ok; assumption.
  - destruct (lookup skey sid (Server.sockets s)) as [[k ip]|] eqn:L;
      [|intros [= <-]; exact H].
    apply (@roomCreate_ok fl rnd sid ip nm now s s' H); [|exact V].
    unfold has. rewrite L. reflexivity.
  - destruct (lookup skey sid (Server.sockets s)) as [[k ip]|] eqn:L;
      intros [= <-]; [|exact H].
    apply roomJoin_ok; [exact H|]. unfold has. rewrite L. reflexivity.
  - destruct (lookup skey sid (Server.sockets s)) as [[k ip]|];
      intros [= <-]; [|exact H]. apply (leaveCurrentRoom_ok sid H).
  - destruct (lookup skey sid (Server.sockets s)) as [[k ip]|];
      intros [= <-]; [|exact H]. apply roomReady_ok, H.
  - destruct (lookup skey sid (Server.sockets s)) as [[k ip]|];
      intros [= <-]; [|exact H]. apply roomStart_ok, H.
  - destruct (lookup skey sid (Server.sockets s)) as [[k ip]|];
      intros [= <-]; [|exact H]. apply playerLoadout_ok, H.
  - destruct (lookup skey sid (Server.sockets s)) as [[k ip]|];
      intros [= <-]; [|exact H]. apply playerLoadoutReady_ok, H.
  - destruct (lookup skey sid (Server.sockets s)) as [[k ip]|];
      intros [= <-]; [|exact H]. apply playerInput_ok, H.
  - destruct (lookup skey sid (Server.sockets s)) as [[k ip]|];
      intros [= <-]; [|exact H]. apply playerRespawn_ok, H.
  - destruct (lookup skey sid (Server.sockets s)) as [[k ip]|];
      intros [= <-]; [|exact H]. apply playerReload_ok, H.
  - destruct (lookup skey sid (Server.sockets s)) as [[k ip]|] eqn:L;
      intros [= <-]; [|exact H].
    destruct (lookup_In skey sid _ L) as [_ E]. cbn in E. subst k.
    apply (onDisconnect_ok H L).
  - intros [= <-]. apply cleanupIdleRooms_ok, H.
  - intros [= <-]. apply roomTimer_ok, H.
Qed.

Lemma newServer_ok : serverOk newServer.
Proof.
  split.
  - split; [constructor|]. split; [cbn; unfold MAX_ROOMS; lia|].
    split; [constructor|]. split; [intros k c L; discriminate | intros []].
  - split; [constructor|]. split; [reflexivity|].
    intro ip. cbn. unfold MAX_CONNECTIONS_PER_IP. lia.
Qed.

Lemma serveAll_ok Math toUpperCase reqs s s' :
  serverOk s -> Forall validRequest reqs ->
  serveAll Math toUpperCase reqs s = Some s' -> serverOk s'.
Proof.
  revert s. induction reqs as [|req reqs IH]; intros s H V; cbn [serveAll].
  - intros [= <-]. exact H.
  - inversion V as [|? ? V1 V2]; subst.
    destruct (serve Math toUpperCase s req) as [s1|] eqn:E; [|discriminate].
    apply IH; [|exact V2]. apply (@serve_ok Math toUpperCase s req s1 H V1 E).
Qed.

(** * Further properties of the room and of the entry point *)

(** ** Collision helpers *)





(** ** The life of a room *)

Lemma reachable_timers Math c h ops :
  timersWfC (timers (run Math ops (newGameRoom c h)))
    (nextTimer (run Math ops (newGameRoom c h))).
Proof. apply (reachable_wf Math ops c h). Qed.

Lemma NoDup_fst_functional (A B : Type) (l : list (A * B)) a b b' :
  NoDup (map fst l) -> In (a, b) l -> In (a, b') l -> b = b'.
Proof.
  induction l as [|[x y] l IH]; simpl; [contradiction|].
  intros ND H H'. inversion ND as [|? ? Hn ND']; subst.
  destruct H as [H|H]; destruct H' as [H'|H'].
  - congruence.
  - exfalso. apply Hn. injection H as -> _. change a with (fst (a, b')).
    apply in_map, H'.
  - exfalso. apply Hn. injection H' as -> _. change a with (fst (a, b)).
    apply in_map, H.
  - apply IH; assumption.
Qed.

(** X3.  In a room reached from its creation, [startGame] is refused and
    changes nothing unless the room is in the lobby with at least two
    players, all ready.  When it is accepted the room enters the loadout
    phase without starting the match, every lobby entry has its
    loadout-ready flag lowered, the room holds one player object per lobby
    entry, in the order of the lobby, built by [initialPlayer] for that
    index, the obstacles are those of the arena at full health, and the
    room announces the loadout phase, then its new state. *)
Theorem startGame_enters_loadout_phase Math c h ops :
  let r := run Math ops (newGameRoom c h) in
  let ready := gameStarted r = false /\ inLoadoutPhase r = false
               /\ Forall (fun p => RoomPlayer.ready p = true) (lobbyPlayers r)
               /\ (2 <= List.length (lobbyPlayers r))%nat in
  let r' := snd (startGame r) in
  (~ ready /\ startGame r = (false, r))
  \/ (ready /\ fst (startGame r) = true
      /\ inLoadoutPhase r' = true /\ gameStarted r' = false
      /\ lobbyPlayers r' = map (with_loadoutReady false) (lobbyPlayers r)
      /\ List.length (players r') = List.length (lobbyPlayers r)
      /\ (forall i lp, nth_error (lobbyPlayers r) i = Some lp ->
            nth_error (players r') i = Some (initialPlayer i lp))
      /\ obstacles r'
         = map obstacleOfDef (ArenaDefinition.breakableObstacles (ARENAS CENTER))
      /\ emitted r'
         = room_updated (lobbyPlayers r') false true :: loadout_phase :: emitted r).
Proof.
  intro r. apply startGame_spec; [apply run_ok, newGameRoom_ok | apply reachable_wf].
Qed.

(** X4.  In a room reached from its creation in which no countdown was
    started, [startGameFromLoadout] starts the match, announces 3 and arms
    the countdown; its first two firings announce 2 and 1 and change
    neither the players nor the game loop; the third announces the start,
    puts every player under spawn protection, arms the game loop and
    disarms the countdown, after which a firing of that handle does
    nothing. *)
Theorem countdown_starts_match Math c h ops now1 rnd1 now2 rnd2 now3 rnd3 :
  let r := run Math ops (newGameRoom c h) in
  countdownStarted r = false ->
  let g := nextTimer r in
  let r0 := startGameFromLoadout r in
  let r1 := fire Math g now1 rnd1 r0 in
  let r2 := fire Math g now2 rnd2 r1 in
  let r3 := fire Math g now3 rnd3 r2 in
  (gameStarted r0 = true /\ emitted r0 = game_starting 3 :: emitted r
   /\ countdownInterval r0 = Some g)
  /\ (emitted r1 = game_starting 2 :: emitted r0 /\ players r1 = players r
      /\ gameLoop r1 = gameLoop r)
  /\ (emitted r2 = game_starting 1 :: emitted r1 /\ players r2 = players r
      /\ gameLoop r2 = gameLoop r)
  /\ emitted r3 = game_started :: emitted r2
  /\ players r3 = map (with_isInSpawn true) (players r)
  /\ (exists l, gameLoop r3 = Some l /\ In (l, GameLoopInterval) (timers r3))
  /\ countdownInterval r3 = None
  /\ noCountdown r3
  /\ (forall now rnd, fire Math g now rnd r3 = r3).
Proof.
  intros r H. apply countdown_lemma; [apply reachable_timers | | exact H].
  apply (run_loops Math ops (newGameRoom_loops c h)).
Qed.

Lemma countdown_starts_match_witness :
  let r := run exampleMath (firstn 5 matchStartOps) (newGameRoom "ROOM" "a") in
  let tick := fire exampleMath (nextTimer r) 0 (fun _ => 0) in
  countdownStarted r = false
  /\ emitted (tick (tick (tick (startGameFromLoadout r))))
     = game_started :: game_starting 1 :: game_starting 2 :: game_starting 3
       :: emitted r.
Proof.
  intros r tick.
  assert (H : countdownStarted r = false) by reflexivity.
  split; [exact H|].
  destruct (@countdown_starts_match exampleMath "ROOM" "a" (firstn 5 matchStartOps)
              0 (fun _ => 0) 0 (fun _ => 0) 0 (fun _ => 0) H)
    as ((_ & E0 & _) & (E1 & _) & (E2 & _) & E3 & _).
  unfold tick, r. rewrite E3, E2, E1, E0. reflexivity.
Defined.

(** X5.  In a room reached from its creation every armed game loop is the
    one [gameLoop] holds and every armed countdown the one
    [countdownInterval] holds, a game loop and a countdown are never armed
    together, none is armed while [countdownStarted] is false, and a
    handle names one timer. *)
Theorem one_interval_at_a_time Math c h ops :
  let r := run Math ops (newGameRoom c h) in
  (forall g, In (g, GameLoopInterval) (timers r) -> gameLoop r = Some g)
  /\ (forall g n, In (g, CountdownInterval n) (timers r) ->
                  countdownInterval r = Some g)
  /\ (forall g g' n, In (g, GameLoopInterval) (timers r) ->
                     ~ In (g', CountdownInterval n) (timers r))
  /\ (countdownStarted r = false ->
      forall g t, In (g, t) (timers r) -> ~ isInterval t)
  /\ (forall g t t', In (g, t) (timers r) -> In (g, t') (timers r) -> t = t').
Proof.
  intro r.
  destruct (run_loops Math ops (newGameRoom_loops c h)) as (L1 & L2 & L3 & L4).
  fold r in L1, L2, L3, L4.
  split; [exact L1|]. split; [exact L2|]. split; [|split].
  - intros g g' n Hl Hc. destruct L3 as [N|N]; [apply (N g' n Hc) | apply (N g Hl)].
  - intros E g t Hin [->|[n ->]]; destruct (L4 E) as [N1 N2];
      [apply (N2 g Hin) | apply (N1 g n Hin)].
  - intros g t t' H H'.
    apply (@NoDup_fst_functional _ _ (timers r) g t t'); try assumption.
    apply (reachable_timers Math c h ops).
Qed.

(** X6.  In a room reached from its creation, [manualReload] by a living
    player whose clip is not full and who is not reloading flags the
    player as reloading and arms one timeout of the weapon's reload time,
    recorded in [reloadTimers]; until it fires [tryShoot] refuses the
    player; when it fires the clip is full again, the flag is down and
    the timeout is gone. *)
Theorem reload_round_trip Math c h ops now rnd pid p :
  let r := run Math ops (newGameRoom c h) in
  lookup id pid (players r) = Some p ->
  isDead p = false -> isReloading p = false ->
  (ammo p < WeaponStats.clipSize (WEAPON_STATS (weapon p)))%Z ->
  let g := nextTimer r in
  let r1 := manualReload pid r in
  let r2 := fire Math g now rnd r1 in
  lookup id pid (players r1) = Some (with_isReloading true p)
  /\ lookup skey pid (reloadTimers r1) = Some (pid, g)
  /\ timers r1
     = timers r
       ++ [(g, ReloadTimeout pid (weapon p)
                 (WeaponStats.reloadTime (WEAPON_STATS (weapon p)) / TICK_RATE * 1000))]
  /\ (forall now' rnd', tryShoot Math now' rnd' (with_isReloading true p) r1 = r1)
  /\ lookup id pid (players r2)
     = Some (with_ammo (WeaponStats.clipSize (WEAPON_STATS (weapon p))) p)
  /\ lookup skey pid (reloadTimers r2) = None
  /\ timers r2 = timers r.
Proof.
  intros r L D R A. apply reload_completes_lemma; try assumption.
  exact (proj2 (reachable_timers Math c h ops)).
Qed.

Lemma reload_round_trip_witness :
  let r := run exampleMath (removelast skirmishOps) (newGameRoom "ROOM" "a") in
  let p := hd cappedShooter (players r) in
  let r2 := fire exampleMath (nextTimer r) 0 (fun _ => 0) (manualReload "a" r) in
  (lookup id "a" (players r) = Some p /\ ammo p = 28%Z)
  /\ lookup id "a" (players r2) = Some (with_ammo 30 p).
Proof.
  intros r p r2.
  assert (L : lookup id "a" (players r) = Some p) by (vm_compute; reflexivity).
  split; [split; [exact L | reflexivity]|].
  destruct (@reload_round_trip exampleMath "ROOM" "a" (removelast skirmishOps)
              0 (fun _ => 0) "a" p L)
    as (_ & _ & _ & _ & E & _).
  - reflexivity.
  - reflexivity.
  - vm_compute. reflexivity.
  - exact E.
Defined.

(** X7.  In a room reached from its creation, [grantSpawnProtection]
    raises the player's [isInSpawn] and records one timeout; when it
    fires the flag goes down and the record is dropped, and a second
    firing does nothing.  Granting protection again before that replaces
    the timeout: the first handle no longer does anything and the flag
    goes down only when the second one fires. *)
Theorem spawn_protection_expires Math c h ops player :
  let r := run Math ops (newGameRoom c h) in
  let g := nextTimer r in
  let r1 := grantSpawnProtection player r in
  (players r1 = adjust id (id player) (with_isInSpawn true) (players r)
   /\ lookup skey (id player) (spawnProtectionTimers r1) = Some (id player, g))
  /\ (forall now rnd,
        let r2 := fire Math g now rnd r1 in
        players r2 = adjust id (id player) (with_isInSpawn false) (players r1)
        /\ lookup skey (id player) (spawnProtectionTimers r2) = None
        /\ forall now' rnd', fire Math g now' rnd' r2 = r2)
  /\ (let r2 := grantSpawnProtection player r1 in
      lookup skey (id player) (spawnProtectionTimers r2) = Some (id player, S g)
      /\ (forall now rnd, fire Math g now rnd r2 = r2)
      /\ forall now rnd,
           players (fire Math (S g) now rnd r2)
           = adjust id (id player) (with_isInSpawn false) (players r2)).
Proof.
  intro r. apply spawn_protection_lemma. apply (reachable_timers Math c h ops).
Qed.



(** X9.  [setPlayerLoadout] writes the loadout into the lobby entry of
    the player and, when the player has a player object, also there: the
    fuel and its maximum become those of the movement, the clip is
    filled, the reloading flag is lowered and a pending reload is
    cancelled, while position, health, the dead and spawn flags and the
    score stay; nobody else is touched, and for an unknown player nothing
    changes. *)
Theorem setPlayerLoadout_swaps_loadout pid m w r :
  let r' := setPlayerLoadout pid m w r in
  lookup RoomPlayer.id pid (lobbyPlayers r')
  = option_map (with_loadout m w) (lookup RoomPlayer.id pid (lobbyPlayers r))
  /\ (forall p, lookup id pid (players r) = Some p ->
        (exists p', lookup id pid (players r') = Some p'
           /\ movement p' = m /\ weapon p' = w
           /\ fuel p' = MovementStats.fuel (MOVEMENT_STATS m)
           /\ maxFuel p' = MovementStats.fuel (MOVEMENT_STATS m)
           /\ ammo p' = WeaponStats.clipSize (WEAPON_STATS w)
           /\ isReloading p' = false
           /\ (health p' = health p /\ isDead p' = isDead p
               /\ isInSpawn p' = isInSpawn p /\ kills p' = kills p
               /\ deaths p' = deaths p)
           /\ (x p' = x p /\ y p' = y p /\ z p' = z p))
        /\ lookup skey pid (reloadTimers r') = None
        /\ forall h t, lookup skey pid (reloadTimers r) = Some (pid, h) ->
                       ~ In (h, t) (timers r'))
  /\ (forall k, k <> pid ->
        lookup RoomPlayer.id k (lobbyPlayers r') = lookup RoomPlayer.id k (lobbyPlayers r)
        /\ lookup id k (players r') = lookup id k (players r))
  /\ (lookup RoomPlayer.id pid (lobbyPlayers r) = None ->
      lookup id pid (players r) = None -> r' = r).
Proof.
  intro r'. subst r'. unfold setPlayerLoadout. cbv zeta.
  cbn [players set_lobbyPlayers].
  split; [|split; [|split]].
  - destruct (lookup id pid (players r));
      cbn [lobbyPlayers set_lobbyPlayers set_players set_reloadTimers clearMapped
           clearHandle set_timers];
      rewrite lookup_adjust_eq by reflexivity; reflexivity.
  - intros p L. rewrite L.
    cbn [players lobbyPlayers reloadTimers timers set_lobbyPlayers set_players
         set_reloadTimers clearMapped clearHandle set_timers].
    split; [|split].
    + eexists. split; [rewrite lookup_adjust_eq by reflexivity; rewrite L; reflexivity|].
      cbn. repeat split.
    + apply (lookup_remove_eq (@skey nat)).
    + intros h t Lh Hin. rewrite Lh in Hin. cbn [option_map snd] in Hin.
      apply In_disarm in Hin. destruct Hin as [_ Hin]. apply Hin. reflexivity.
  - intros k Hk. destruct (lookup id pid (players r));
      cbn [players lobbyPlayers set_lobbyPlayers set_players set_reloadTimers
           clearMapped clearHandle set_timers];
      rewrite ?lookup_adjust_ne by (auto || reflexivity); auto.
  - intros L1 L2. rewrite L2. rewrite adjust_absent by exact L1.
    destruct r; reflexivity.
Qed.

(** X10.  [removePlayer] deletes the player from the lobby, the players,
    the inputs and both timer maps and disarms the timeouts those maps
    held for the player; every other player keeps all five entries, and
    the projectiles in flight and the shot times stay as they are. *)
Theorem removePlayer_forgets_player pid r :
  let r' := removePlayer pid r in
  (lookup RoomPlayer.id pid (lobbyPlayers r') = None
   /\ lookup id pid (players r') = None
   /\ lookup skey pid (playerInputs r') = None
   /\ lookup skey pid (reloadTimers r') = None
   /\ lookup skey pid (spawnProtectionTimers r') = None)
  /\ (forall h t,
        lookup skey pid (reloadTimers r) = Some (pid, h)
        \/ lookup skey pid (spawnProtectionTimers r) = Some (pid, h) ->
        ~ In (h, t) (timers r'))
  /\ (forall k, k <> pid ->
        lookup RoomPlayer.id k (lobbyPlayers r') = lookup RoomPlayer.id k (lobbyPlayers r)
        /\ lookup id k (players r') = lookup id k (players r)
        /\ lookup skey k (playerInputs r') = lookup skey k (playerInputs r)
        /\ lookup skey k (reloadTimers r') = lookup skey k (reloadTimers r)
        /\ lookup skey k (spawnProtectionTimers r')
           = lookup skey k (spawnProtectionTimers r))
  /\ projectiles r' = projectiles r
  /\ lastShotTime r' = lastShotTime r.
Proof.
  intro r'. subst r'. unfold removePlayer. cbv zeta.
  cbn [lobbyPlayers players playerInputs reloadTimers spawnProtectionTimers timers
       projectiles lastShotTime set_lobbyPlayers set_players set_playerInputs
       set_reloadTimers set_spawnProtectionTimers clearMapped clearHandle set_timers].
  split; [|split; [|split; [|split; reflexivity]]].
  - repeat split; apply lookup_remove_eq.
  - intros h t [Lh|Lh] Hin.
    + apply In_clearHandle_timers in Hin. rewrite Lh in Hin. cbn [option_map snd] in Hin.
      apply In_disarm in Hin. destruct Hin as [_ Hin]. apply Hin. reflexivity.
    + rewrite Lh in Hin. cbn [option_map snd] in Hin.
      apply In_disarm in Hin. destruct Hin as [_ Hin]. apply Hin. reflexivity.
  - intros k Hk. repeat split; apply lookup_remove_ne; exact Hk.
Qed.

Lemma countdownStarted_endGame w r : countdownStarted (endGame w r) = false.
Proof. reflexivity. Qed.

Lemma emitted_roomUpdated h r :
  emitted (let r' := clearTimer h r in emit (getInfo r') r')
  = room_updated (lobbyPlayers r) (gameStarted r) (inLoadoutPhase r) :: emitted r.
Proof. reflexivity. Qed.

(** X11.  [endGame] keeps the roster and the host, lowers both ready
    flags of every lobby entry and leaves the room in the lobby, so that
    [startGame] is refused until the players are ready again; the timeout
    it arms emits the room info with that roster when it fires. *)
Theorem endGame_returns_to_lobby Math w r :
  let r' := endGame w r in
  lobbyPlayers r' = map notReady (lobbyPlayers r)
  /\ hostId r' = hostId r
  /\ (gameStarted r' = false /\ inLoadoutPhase r' = false /\ countdownStarted r' = false)
  /\ (lobbyPlayers r <> [] -> startGame r' = (false, r'))
  /\ (timersWfC (timers r) (nextTimer r) ->
      forall now rnd,
        emitted (fire Math (nextTimer r) now rnd r')
        = room_updated (map notReady (lobbyPlayers r)) false false :: emitted r').
Proof.
  intro r'. subst r'.
  destruct (endGame_fields w r) as (_ & _ & Ht & _ & _ & _ & _ & Hs & Hl).
  pose proof (lobbyPlayers_endGame w r) as Lb.
  change (lobbyPlayers (endGame w r) = map notReady (lobbyPlayers r)) in Lb.
  destruct (code_endGame w r) as [_ Hh].
  pose proof (countdownStarted_endGame w r) as Hc.
  set (e := endGame w r) in *. clearbody e.
  split; [exact Lb|]. split; [exact Hh|].
  split; [split; [exact Hs | split; [exact Hl | exact Hc]]|]. split.
  - intro Hne. unfold startGame. rewrite Hs, Hl. cbn [orb]. rewrite Lb.
    destruct (lobbyPlayers r) as [|lp l]; [contradiction|]. reflexivity.
  - intros [ND F] now rnd. unfold fire. rewrite Ht.
    rewrite find_armed.
    + rewrite emitted_roomUpdated, Lb, Hs, Hl. reflexivity.
    + intros h' t' Hin. apply In_disarm_all in Hin. destruct Hin as [Hin _].
      apply In_disarm_all in Hin. destruct Hin as [Hin _].
      apply In_clearHandle_timers in Hin. apply F in Hin. lia.
Qed.

(** X12.  After [destroy] a room reached from its creation holds no
    player, projectile, obstacle or input, no timer map entry, no game
    loop and no armed interval, and it stays so whatever timers fire
    afterwards: all they can emit is the room info of an empty roster. *)
Theorem destroyed_room_stays_closed Math c h ops (fires : list (nat * Q * (string -> Q))) :
  let r := destroy (run Math ops (newGameRoom c h)) in
  let r' := run Math (map (fun f => OpFire (fst (fst f)) (snd (fst f)) (snd f)) fires) r in
  closed r /\ closed r'
  /\ exists later,
       emitted r' = later ++ emitted r
       /\ Forall (fun e => exists a b, e = room_updated [] a b) later.
Proof.
  intros r r'.
  assert (C : closed r).
  { apply destroy_closed. apply (run_loops Math ops (newGameRoom_loops c h)). }
  split; [exact C|]. subst r'. revert C. generalize r. clear r.
  induction fires as [|[[g now] rnd] fires IH]; intros r C.
  - split; [exact C|]. exists []. split; [reflexivity | constructor].
  - unfold run. cbn [map fold_left fst snd step].
    destruct (@fire_closed Math g now rnd r C) as [C1 E1].
    destruct (IH (fire Math g now rnd r) C1) as (C2 & later & E2 & F2).
    split; [exact C2|]. unfold run in E2.
    destruct E1 as [E1|(a & b0 & E1)].
    + exists later. rewrite E2, E1. split; [reflexivity | exact F2].
    + exists (later ++ [room_updated [] a b0]). rewrite E2, E1, <- app_assoc.
      split; [reflexivity|]. apply Forall_app. split; [exact F2|].
      constructor; [|constructor]. exists a, b0. reflexivity.
Qed.

(** X13.  A shot [tryShoot] accepts from a projectile weapon: with ammo,
    not reloading, the fire interval elapsed and the owner below the cap,
    one projectile is added after those in flight, with the id of the
    counter, at the muzzle and at the spread angle; the counter goes up by
    one, the ammo down by one and the shot time becomes [now]; the last
    round of the clip starts the reload; and a further shot of the player
    before the fire interval has elapsed is refused. *)
Theorem accepted_shot Math now rnd p r :
  projectilesWfC (projectiles r) (projectileIdCounter r) ->
  lookup id (id p) (players r) = Some p ->
  (0 < ammo p)%Z -> isReloading p = false ->
  1000 / WeaponStats.fireRate (WEAPON_STATS (weapon p)) <= now - lastShotOf (id p) r ->
  (countOwned (id p) (projectiles r) < MAX_PROJECTILES_PER_PLAYER)%nat ->
  WeaponStats.isHitscan (WEAPON_STATS (weapon p)) = false ->
  let r' := tryShoot Math now rnd p r in
  let a := angle p + (rnd - 0.5) * WeaponStats.spread (WEAPON_STATS (weapon p)) in
  projectiles r' = projectiles r ++ [shotOf Math now a (projectileIdCounter r) p]
  /\ countOwned (id p) (projectiles r') = S (countOwned (id p) (projectiles r))
  /\ projectileIdCounter r' = S (projectileIdCounter r)
  /\ lookup id (id p) (players r')
     = Some (with_isReloading (ammo p - 1 <=? 0)%Z (with_ammo (ammo p - 1) p))
  /\ lookup skey (id p) (lastShotTime r') = Some (id p, now)
  /\ ((1 < ammo p)%Z -> timers r' = timers r)
  /\ (ammo p = 1%Z ->
      timers r'
      = timers r
        ++ [(nextTimer r,
             ReloadTimeout (id p) (weapon p)
               (WeaponStats.reloadTime (WEAPON_STATS (weapon p)) / TICK_RATE * 1000))])
  /\ (forall now' rnd' p',
        id p' = id p -> weapon p' = weapon p ->
        now' - now < 1000 / WeaponStats.fireRate (WEAPON_STATS (weapon p)) ->
        tryShoot Math now' rnd' p' r' = r').
Proof.
  intros W L Ha Hr Hc Hn Hh r' a.
  assert (G1 : (ammo p <=? 0)%Z = false) by (apply Z.leb_gt; lia).
  assert (G2 : Qltb (now - lastShotOf (id p) r)
                 (1000 / WeaponStats.fireRate (WEAPON_STATS (weapon p))) = false)
    by (apply Qltb_ge; exact Hc).
  assert (G3 : (MAX_PROJECTILES_PER_PLAYER <=? countOwned (id p) (projectiles r))%nat
               = false) by (apply Nat.leb_gt; exact Hn).
  set (r1 := set_players
               (adjust id (id p) (fun q => with_ammo (ammo q - 1) q) (players r))
               (set_lastShotTime (insert skey (id p, now) (lastShotTime r)) r)).
  set (p1 := with_ammo (ammo p - 1) p).
  set (r2 := if (ammo p1 <=? 0)%Z then startReload p1 r1 else r1).
  assert (E : r' = set_projectiles
                     (insert ProjectileState.id
                        (shotOf Math now a (projectileIdCounter r2) p1) (projectiles r2))
                     (set_projectileIdCounter (S (projectileIdCounter r2)) r2)).
  { unfold r', tryShoot. rewrite G1, Hr. cbn [orb].
    unfold lastShotOf in G2. rewrite G2, G3. cbv zeta. fold r1. fold p1. fold r2.
    change (weapon p1) with (weapon p). rewrite Hh. reflexivity. }
  assert (P2 : projectiles r2 = projectiles r /\ projectileIdCounter r2 = projectileIdCounter r
               /\ lastShotTime r2 = insert skey (id p, now) (lastShotTime r)).
  { unfold r2. destruct (ammo p1 <=? 0)%Z; repeat split. }
  destruct P2 as (P2 & C2 & S2).
  assert (Hshot : shotOf Math now a (projectileIdCounter r2) p1
                  = shotOf Math now a (projectileIdCounter r) p)
    by (rewrite C2; reflexivity).
  destruct (@projectilesWfC_shot (projectiles r) (projectileIdCounter r)
              (shotOf Math now a (projectileIdCounter r) p) eq_refl W) as [Ei _].
  assert (Pr : projectiles r' = projectiles r ++ [shotOf Math now a (projectileIdCounter r) p]).
  { rewrite E. cbn [projectiles set_projectiles]. rewrite Hshot, P2. exact Ei. }
  assert (Ls : lookup skey (id p) (lastShotTime r') = Some (id p, now)).
  { rewrite E. cbn [lastShotTime set_projectiles set_projectileIdCounter]. rewrite S2.
    apply (lookup_insert_eq (@skey Q) (id p, now)). }
  split; [exact Pr|]. split.
  { rewrite Pr, countOwned_app. unfold countOwned at 2. simpl.
    rewrite String.eqb_refl. simpl. lia. }
  split; [rewrite E; cbn [projectileIdCounter set_projectiles set_projectileIdCounter];
          rewrite C2; reflexivity|].
  split.
  { rewrite E. cbn [players set_projectiles set_projectileIdCounter]. unfold r2.
    change (ammo p1) with (ammo p - 1)%Z.
    destruct (ammo p - 1 <=? 0)%Z.
    - unfold startReload, armTimer. cbv zeta. room_simpl. cbn [players].
      unfold r1. cbn [players set_players set_lastShotTime].
      change (id p1) with (id p).
      rewrite !lookup_adjust_eq by reflexivity. rewrite L. reflexivity.
    - unfold r1. cbn [players set_players set_lastShotTime].
      rewrite lookup_adjust_eq by reflexivity. rewrite L. cbn [option_map].
      f_equal. unfold p1. destruct p; cbn in Hr |- *. subst. reflexivity. }
  split; [exact Ls|]. split.
  { intro H1. rewrite E. cbn [timers set_projectiles set_projectileIdCounter]. unfold r2.
    change (ammo p1) with (ammo p - 1)%Z.
    destruct (ammo p - 1 <=? 0)%Z eqn:G; [apply Z.leb_le in G; lia | reflexivity]. }
  split.
  { intro H1. rewrite E. cbn [timers set_projectiles set_projectileIdCounter]. unfold r2.
    change (ammo p1) with (ammo p - 1)%Z. rewrite H1. reflexivity. }
  intros now' rnd' p' Eid Ew Hlt. unfold tryShoot.
  destruct (_ || _); [reflexivity|]. rewrite Eid, Ls, Ew.
  assert (G : Qltb (now' - now)
                (1000 / WeaponStats.fireRate (WEAPON_STATS (weapon p))) = true)
    by (apply Qltb_lt; exact Hlt).
  rewrite G. reflexivity.
Qed.

Lemma accepted_shot_witness :
  let r := arenaRoom [cappedShooter] [] in
  let r' := tryShoot exampleMath 1000 0.5 cappedShooter r in
  (projectilesWfC (projectiles r) (projectileIdCounter r)
   /\ lookup id (id cappedShooter) (players r) = Some cappedShooter)
  /\ projectiles r' = [shotOf exampleMath 1000 (0 + (0.5 - 0.5) * 0.1) 0 cappedShooter]
  /\ projectileIdCounter r' = 1%nat.
Proof.
  intros r r'.
  assert (W : projectilesWfC (projectiles r) (projectileIdCounter r))
    by (split; constructor).
  assert (L : lookup id (id cappedShooter) (players r) = Some cappedShooter)
    by reflexivity.
  split; [split; assumption|].
  destruct (@accepted_shot exampleMath 1000 0.5 cappedShooter r W L)
    as (E1 & _ & E2 & _).
  - reflexivity.
  - reflexivity.
  - vm_compute. discriminate.
  - vm_compute. lia.
  - reflexivity.
  - split; [exact E1 | exact E2].
Defined.

(** X14.  After [updateProjectiles], in a room whose projectiles carry no
    negative damage, every projectile left is one of the old ones moved
    by one step, lies inside its arena, is at most five seconds old, is in
    no wall and in no obstacle left standing; and every obstacle left is
    an old one, at the same place, with no more health than before. *)
Theorem updateProjectiles_survivors Math now r :
  Forall (fun pr => 0 <= ProjectileState.damage pr) (projectiles r) ->
  let r' := updateProjectiles Math now r in
  (forall p', In p' (projectiles r') ->
     (exists p, In p (projectiles r) /\ p' = moveProjectile Math p)
     /\ inFlight now p'
     /\ forall o, In o (obstacles r') -> inObstacle p' o = false)
  /\ (forall o', In o' (obstacles r') ->
        exists o, In o (obstacles r) /\ rectOfObstacle o' = rectOfObstacle o
                  /\ BreakableObstacle.id o' = BreakableObstacle.id o
                  /\ BreakableObstacle.health o' <= BreakableObstacle.health o).
Proof.
  intros H r'.
  apply (@updateProjectilesLoop_spec Math now (projectiles r) (obstacles r) H).
Qed.

Lemma updateProjectiles_survivors_witness :
  let r' := updateProjectiles exampleMath 16 deadOwnerRoom in
  Forall (fun pr => 0 <= ProjectileState.damage pr) (projectiles deadOwnerRoom)
  /\ projectiles r' = [moveProjectile exampleMath rocketInFlight]
  /\ inFlight 16 (moveProjectile exampleMath rocketInFlight).
Proof.
  intro r'.
  assert (H : Forall (fun pr => 0 <= ProjectileState.damage pr)
                (projectiles deadOwnerRoom))
    by (repeat constructor; vm_compute; discriminate).
  split; [exact H|]. split; [reflexivity|].
  apply (proj1 (@updateProjectiles_survivors exampleMath 16 deadOwnerRoom H)
           (moveProjectile exampleMath rocketInFlight)).
  left. reflexivity.
Defined.

(** X15.  Whatever a tick of the game loop emits, no hit and no kill it
    reports has the same player as source and target. *)
Theorem tick_reports_no_self_hit Math now rnd r :
  emits noSelfHit r (gameLoopCallback Math now rnd r).
Proof.
  unfold gameLoopCallback, update. cbv zeta.
  set (r1 := updatePlayers Math now rnd r).
  set (r2 := updateProjectiles Math now r1).
  set (r3 := checkCollisions Math r2).
  apply (@emits_trans _ r r1 _ (updatePlayers_emits Math now rnd r)).
  apply (@emits_trans _ r1 r2 _); [emits_frame|].
  apply (@emits_trans _ r2 r3 _ (checkCollisions_emits Math r2)).
  apply (@emits_trans _ r3 (broadcastState now r3) _); [apply emits_one; exact I|].
  emits_frame.
Qed.

(** X16.  In a room reached from its creation the obstacles have
    distinct ids, and each one has health left, no more than its maximum,
    and is one of the obstacles of the central arena, where the arena
    puts it. *)
Theorem obstacles_stay_sound Math c h ops :
  let r := run Math ops (newGameRoom c h) in
  NoDup (keys BreakableObstacle.id (obstacles r)) /\ Forall obstacleOk (obstacles r).
Proof.
  intro r. destruct (reachable_wf Math ops c h) as (_ & _ & A & B & _).
  split; assumption.
Qed.

(** ** Names and room codes *)

(** X17.  What [sanitizeName] returns is never empty: the argument was a
    string, and the result has between 1 and [MAX_NAME_LENGTH] characters,
    each one a letter, a digit, a hyphen, an underscore, a full stop, a
    space or a no-break space. *)
Theorem sanitizeName_shape name sanitized :
  sanitizeName name = Some sanitized ->
  (exists raw, name = JSString raw)
  /\ (1 <= String.length sanitized <= MAX_NAME_LENGTH)%nat
  /\ allChars plainNameChar sanitized = true.
Proof.
  intro H. pose proof (sanitizeName_lemma name) as X. rewrite H in X. exact X.
Qed.

Lemma sanitizeName_shape_witness :
  sanitizeName (JSString "  Ann <3 you!  ") = Some "Ann 3 you"
  /\ (1 <= String.length "Ann 3 you" <= MAX_NAME_LENGTH)%nat
  /\ allChars plainNameChar "Ann 3 you" = true.
Proof.
  assert (H : sanitizeName (JSString "  Ann <3 you!  ") = Some "Ann 3 you")
    by reflexivity.
  split; [exact H|]. apply (@sanitizeName_shape _ _ H).
Defined.

(** X18.  A name of 1 to [MAX_NAME_LENGTH] letters, digits, hyphens,
    underscores and full stops is returned as it is. *)
Theorem sanitizeName_keeps_words raw :
  allChars wordChar raw = true ->
  (1 <= String.length raw <= MAX_NAME_LENGTH)%nat ->
  sanitizeName (JSString raw) = Some raw.
Proof.
  intros H [L1 L2]. unfold sanitizeName, stripClass.
  assert (F : forall q, (forall c, wordChar c = true -> q c = true) ->
                        filterString q raw = raw).
  { intros q Hq. apply filterString_all. apply (@allChars_impl wordChar q raw Hq H). }
  rewrite (F (fun c => negb (inClass [(0, 31); (127, 159)]%N c)))
    by (intros c Hc; apply (wordChar_facts c Hc)).
  rewrite (F (fun c => negb (inClass [(8203, 8207); (8232, 8239); (65279, 65279)]%N c)))
    by (intros c Hc; apply (wordChar_facts c Hc)).
  rewrite (F (fun c => negb (inClass [(8288, 8303)]%N c)))
    by (intros c Hc; apply (wordChar_facts c Hc)).
  rewrite trim_clean
    by (apply (@allChars_impl wordChar _ raw);
        [intros c Hc; apply (wordChar_facts c Hc) | exact H]).
  rewrite slice0_short by exact L2.
  rewrite (F nameChar) by (intros c Hc; apply (wordChar_facts c Hc)).
  destruct (String.length raw =? 0)%nat eqn:E; [apply Nat.eqb_eq in E; lia|].
  reflexivity.
Qed.

Lemma sanitizeName_keeps_words_witness :
  (allChars wordChar "Ann_01" = true
   /\ (1 <= String.length "Ann_01" <= MAX_NAME_LENGTH)%nat)
  /\ sanitizeName (JSString "Ann_01") = Some "Ann_01".
Proof.
  assert (A : allChars wordChar "Ann_01" = true) by reflexivity.
  assert (B : (1 <= String.length "Ann_01" <= MAX_NAME_LENGTH)%nat)
    by (unfold MAX_NAME_LENGTH; cbn; lia).
  split; [split; assumption|]. apply (@sanitizeName_keeps_words "Ann_01" A B).
Defined.

(** X19.  With [Math.random] in [0, 1), a code [generateRoomCode] returns
    has [ROOM_CODE_LENGTH] characters, all from its alphabet, and is the
    code of no room; and the loop returns as soon as one of its draws is
    the code of no room. *)
Theorem generateRoomCode_fresh fuel rnd k rooms :
  (forall i, 0 <= rnd i /\ rnd i < 1) ->
  (forall c, generateRoomCode fuel rnd k rooms = Some c ->
     String.length c = ROOM_CODE_LENGTH
     /\ allChars roomCodeLetter c = true
     /\ lookup code c rooms = None)
  /\ ((exists j, (j < fuel)%nat
                 /\ has code (roomCodeDraw rnd (k + j * ROOM_CODE_LENGTH)) rooms = false) ->
      generateRoomCode fuel rnd k rooms <> None).
Proof.
  intro H. revert k. induction fuel as [|fuel IH]; intro k; cbn [generateRoomCode].
  { split; [discriminate|]. intros (j & Hj & _). lia. }
  cbv zeta. destruct (has code (roomCodeDraw rnd k) rooms) eqn:E.
  - split; [apply IH|]. intros ([|j] & Hj & Hfree).
    + rewrite Nat.mul_0_l, Nat.add_0_r, E in Hfree. discriminate.
    + apply (proj2 (IH (k + ROOM_CODE_LENGTH)%nat)). exists j. split; [lia|].
      replace (k + ROOM_CODE_LENGTH + j * ROOM_CODE_LENGTH)%nat
        with (k + S j * ROOM_CODE_LENGTH)%nat by lia.
      exact Hfree.
  - split; [|discriminate]. intros c [= <-].
    destruct (@roomCodeDraw_valid rnd k H) as [A B]. split; [exact A|]. split; [exact B|].
    unfold has in E. destruct (lookup code _ rooms); [discriminate | reflexivity].
Qed.

Lemma generateRoomCode_fresh_witness :
  (forall i : nat, 0 <= (fun _ : nat => 0) i /\ (fun _ : nat => 0) i < 1)
  /\ generateRoomCode 1 (fun _ => 0) 0 [] = Some "AAAA"
  /\ String.length "AAAA" = ROOM_CODE_LENGTH
  /\ allChars roomCodeLetter "AAAA" = true
  /\ lookup code "AAAA" [] = None.
Proof.
  assert (H : forall i : nat, 0 <= (fun _ : nat => 0) i /\ (fun _ : nat => 0) i < 1)
    by (intro i; split; [apply Qle_refl | reflexivity]).
  split; [exact H|]. split; [reflexivity|].
  apply (proj1 (@generateRoomCode_fresh 1 (fun _ => 0) 0%nat [] H) "AAAA").
  reflexivity.
Defined.

(** ** The entry point *)

Lemma reachable_serverOk Math toUpperCase reqs s :
  Forall validRequest reqs -> serveAll Math toUpperCase reqs newServer = Some s ->
  serverOk s.
Proof. intros V E. apply (@serveAll_ok Math toUpperCase reqs newServer s newServer_ok V E). Qed.

Lemma exampleRequests_valid : Forall validRequest exampleRequests.
Proof.
  repeat constructor; discriminate.
Qed.

Lemma exampleServer_run :
  serveAll exampleMath (fun c => c) exampleRequests newServer = Some exampleServer.
Proof. vm_compute. reflexivity. Qed.

(** X20.  Whatever valid requests the entry point has served, it holds at
    most [MAX_ROOMS] rooms, under distinct codes of [ROOM_CODE_LENGTH]
    characters, and every room it holds has between 1 and [MAX_PLAYERS]
    players in its lobby, its host among them. *)
Theorem registry_bounds Math toUpperCase reqs s :
  Forall validRequest reqs -> serveAll Math toUpperCase reqs newServer = Some s ->
  (List.length (Server.rooms s) <= MAX_ROOMS)%nat
  /\ NoDup (keys code (Server.rooms s))
  /\ forall room, In room (Server.rooms s) ->
       String.length (code room) = ROOM_CODE_LENGTH
       /\ (1 <= playerCount room <= MAX_PLAYERS)%nat
       /\ memberOf (hostId room) room.
Proof.
  intros V E. destruct (@reachable_serverOk Math toUpperCase reqs s V E) as [(ND & Len & All & _) _].
  split; [exact Len|]. split; [exact ND|].
  intros room Hin. rewrite Forall_forall in All.
  destruct (All room Hin) as (_ & A & B & C & _). auto.
Qed.

Lemma registry_bounds_witness :
  let room := hd (newGameRoom "" "") (Server.rooms exampleServer) in
  (Forall validRequest exampleRequests
   /\ serveAll exampleMath (fun c => c) exampleRequests newServer = Some exampleServer)
  /\ In room (Server.rooms exampleServer)
  /\ code room = "AAAA" /\ playerCount room = 2%nat
  /\ memberOf (hostId room) room.
Proof.
  intro room.
  split; [split; [exact exampleRequests_valid | exact exampleServer_run]|].
  assert (Hin : In room (Server.rooms exampleServer)) by (left; reflexivity).
  split; [exact Hin|]. split; [reflexivity|]. split; [reflexivity|].
  apply (proj2 (proj2 (@registry_bounds exampleMath (fun c => c) exampleRequests
                         exampleServer exampleRequests_valid exampleServer_run))
           room Hin).
Defined.

(** X21.  Whatever valid requests the entry point has served, every
    player in the lobby of a room it holds is a connected socket whose
    entry of [playerRooms] is the code of that room; so no socket is in
    the lobby of two rooms. *)
Theorem members_are_connected Math toUpperCase reqs s :
  Forall validRequest reqs -> serveAll Math toUpperCase reqs newServer = Some s ->
  (forall room socketId,
     In room (Server.rooms s) -> memberOf socketId room ->
     has skey socketId (Server.sockets s) = true
     /\ lookup skey socketId (Server.playerRooms s) = Some (socketId, code room))
  /\ (forall room room' socketId,
        In room (Server.rooms s) -> In room' (Server.rooms s) ->
        memberOf socketId room -> memberOf socketId room' -> room = room').
Proof.
  intros V E. destruct (@reachable_serverOk Math toUpperCase reqs s V E) as [(ND & _ & All & Map & _) _].
  rewrite Forall_forall in All.
  assert (M : forall room socketId,
            In room (Server.rooms s) -> memberOf socketId room ->
            lookup skey socketId (Server.playerRooms s) = Some (socketId, code room)).
  { intros room k Hin Hm. destruct (All room Hin) as (_ & _ & _ & _ & A). auto. }
  split.
  - intros room k Hin Hm. split; [|apply M; assumption].
    apply (Map k (code room)), M; assumption.
  - intros room room' k Hin Hin' Hm Hm'.
    pose proof (M room k Hin Hm) as A. pose proof (M room' k Hin' Hm') as B.
    rewrite A in B. injection B as B.
    pose proof (In_lookup code (Server.rooms s) room ND Hin) as X.
    pose proof (In_lookup code (Server.rooms s) room' ND Hin') as Y.
    rewrite B in X. congruence.
Qed.

Lemma members_are_connected_witness :
  let room := hd (newGameRoom "" "") (Server.rooms exampleServer) in
  (Forall validRequest exampleRequests
   /\ serveAll exampleMath (fun c => c) exampleRequests newServer = Some exampleServer)
  /\ (In room (Server.rooms exampleServer) /\ memberOf "s2" room)
  /\ has skey "s2" (Server.sockets exampleServer) = true
  /\ lookup skey "s2" (Server.playerRooms exampleServer) = Some ("s2", code room).
Proof.
  intro room.
  split; [split; [exact exampleRequests_valid | exact exampleServer_run]|].
  assert (Hin : In room (Server.rooms exampleServer)) by (left; reflexivity).
  assert (Hm : memberOf "s2" room) by (right; left; reflexivity).
  split; [split; assumption|].
  apply (proj1 (@members_are_connected exampleMath (fun c => c) exampleRequests
                  exampleServer exampleRequests_valid exampleServer_run)
           room "s2" Hin Hm).
Defined.

(** X22.  Whatever valid requests the entry point has served, the
    connected sockets have distinct ids, the count it keeps for an
    address is the number of connected sockets of that address, and that
    number is at most [MAX_CONNECTIONS_PER_IP]. *)
Theorem connection_count Math toUpperCase reqs s :
  Forall validRequest reqs -> serveAll Math toUpperCase reqs newServer = Some s ->
  NoDup (keys skey (Server.sockets s))
  /\ forall clientIp,
       countOf clientIp (Server.connectionsPerIp s)
       = connectionsOf clientIp (Server.sockets s)
       /\ (connectionsOf clientIp (Server.sockets s) <= MAX_CONNECTIONS_PER_IP)%nat.
Proof.
  intros V E. destruct (@reachable_serverOk Math toUpperCase reqs s V E) as [_ (A & B & C)].
  split; [exact A|]. intro ip. split; [apply B | apply C].
Qed.

Lemma connection_count_witness :
  (Forall validRequest exampleRequests
   /\ serveAll exampleMath (fun c => c) exampleRequests newServer = Some exampleServer)
  /\ connectionsOf "10.0.0.1" (Server.sockets exampleServer) = 2%nat
  /\ countOf "10.0.0.1" (Server.connectionsPerIp exampleServer)
     = connectionsOf "10.0.0.1" (Server.sockets exampleServer).
Proof.
  split; [split; [exact exampleRequests_valid | exact exampleServer_run]|].
  split; [reflexivity|].
  apply (proj2 (@connection_count exampleMath (fun c => c) exampleRequests
                  exampleServer exampleRequests_valid exampleServer_run)
           "10.0.0.1").
Defined.

(** X23.  Whatever valid requests the entry point has served, in every
    room it holds the player objects have distinct ids and are within the
    bounds on altitude, health, ammo and fuel, every obstacle left is
    sound, and every armed game loop is the one the room records. *)
Theorem registered_rooms_sound Math toUpperCase reqs s room :
  Forall validRequest reqs -> serveAll Math toUpperCase reqs newServer = Some s ->
  In room (Server.rooms s) ->
  NoDup (keys id (players room))
  /\ Forall playerOk (players room)
  /\ Forall obstacleOk (obstacles room)
  /\ oneLoop room.
Proof.
  intros V E Hin. destruct (@reachable_serverOk Math toUpperCase reqs s V E) as [(_ & _ & All & _) _].
  rewrite Forall_forall in All.
  destruct (All room Hin) as ((Ok & Wf & Lo) & _).
  destruct Ok as (A & B & _). destruct Wf as (_ & _ & _ & C & _).
  split; [exact B|]. split; [|split; [exact C | apply Lo]].
  apply Forall_forall. intros p Hp. rewrite Forall_forall in A. apply (A p Hp).
Qed.

Lemma registered_rooms_sound_witness :
  let room := hd (newGameRoom "" "") (Server.rooms exampleServer) in
  (Forall validRequest exampleRequests
   /\ serveAll exampleMath (fun c => c) exampleRequests newServer = Some exampleServer
   /\ In room (Server.rooms exampleServer))
  /\ Forall playerOk (players room).
Proof.
  intro room.
  assert (Hin : In room (Server.rooms exampleServer)) by (left; reflexivity).
  split; [split; [exact exampleRequests_valid | split; [exact exampleServer_run | exact Hin]]|].
  apply (@registered_rooms_sound exampleMath (fun c => c) exampleRequests
           exampleServer room exampleRequests_valid exampleServer_run Hin).
Defined.

(** X24.  When a connected socket disconnects, it is no longer connected,
    has no entry in [playerRooms] nor in the three rate-limit maps, and is
    in the lobby of no room the entry point holds. *)
Theorem disconnect_cleans_up Math toUpperCase reqs s socketId :
  Forall validRequest reqs -> serveAll Math toUpperCase reqs newServer = Some s ->
  has skey socketId (Server.sockets s) = true ->
  exists s',
    serve Math toUpperCase s (Disconnect socketId) = Some s'
    /\ has skey socketId (Server.sockets s') = false
    /\ lookup skey socketId (Server.playerRooms s') = None
    /\ (forall room, In room (Server.rooms s') -> ~ memberOf socketId room)
    /\ lookup skey socketId (Server.socketLastInput s') = None
    /\ lookup skey socketId (Server.socketLastRespawn s') = None
    /\ lookup skey socketId (Server.socketLastReady s') = None.
Proof.
  intros V E Hs. pose proof (@reachable_serverOk Math toUpperCase reqs s V E) as Ok.
  cbn [serve]. unfold onSocket. unfold has in Hs.
  destruct (lookup skey socketId (Server.sockets s)) as [[k ip]|] eqn:L; [|discriminate].
  destruct (lookup_In skey socketId _ L) as [_ Ek]. cbn in Ek. subst k.
  eexists. split; [reflexivity|].
  destruct (@onDisconnect_ok socketId ip s Ok L) as (_ & A & B & C).
  split; [exact A|]. split; [exact B|]. split; [exact C|].
  unfold onDisconnect. cbv zeta.
  match goal with
  | |- context [if ?b then _ else _] => destruct b
  end; srv_simpl; repeat split; apply lookup_remove_eq.
Qed.

Lemma disconnect_cleans_up_witness :
  (Forall validRequest exampleRequests
   /\ serveAll exampleMath (fun c => c) exampleRequests newServer = Some exampleServer
   /\ has skey "s2" (Server.sockets exampleServer) = true)
  /\ exists s',
       serve exampleMath (fun c => c) exampleServer (Disconnect "s2") = Some s'
       /\ has skey "s2" (Server.sockets s') = false.
Proof.
  assert (Hs : has skey "s2" (Server.sockets exampleServer) = true) by reflexivity.
  split; [split; [exact exampleRequests_valid | split; [exact exampleServer_run | exact Hs]]|].
  destruct (@disconnect_cleans_up exampleMath (fun c => c) exampleRequests
              exampleServer "s2" exampleRequests_valid exampleServer_run Hs)
    as (s' & A & B & _).
  exists s'. split; assumption.
Defined.





(** X26.  A socket that is in no room and joins a room in its lobby, not
    full, under a valid name, is added to the lobby of that room and
    mapped to it; the other rooms are untouched; the socket gets the room
    info as acknowledgement and the others in the room get it as an
    update. *)
Theorem join_adds_member toUpperCase socketId roomCode name sanitizedName now s room :
  sanitizeName name = Some sanitizedName ->
  String.length roomCode = ROOM_CODE_LENGTH ->
  lookup code (toUpperCase roomCode) (Server.rooms s) = Some room ->
  gameStarted room = false -> inLoadoutPhase room = false ->
  (playerCount room < MAX_PLAYERS)%nat ->
  lookup skey socketId (Server.playerRooms s) = None ->
  let c := toUpperCase roomCode in
  let room' := addPlayer socketId sanitizedName room in
  let s' := roomJoin toUpperCase socketId (JSString roomCode) name now s in
  lookup code c (Server.rooms s') = Some room'
  /\ memberOf socketId room'
  /\ lookup skey socketId (Server.playerRooms s') = Some (socketId, c)
  /\ (forall k, k <> c -> lookup code k (Server.rooms s') = lookup code k (Server.rooms s))
  /\ Server.sent s'
     = room_info_others socketId c (roomInfo room')
       :: callback socketId (Some (roomInfo room')) None :: Server.sent s.
Proof.
  intros Hn Hl L G1 G2 Hc Hm c room' s'.
  destruct (lookup_In code _ _ L) as [_ Ec]. fold c in Ec, L.
  assert (E : s' = send (room_info_others socketId c (roomInfo room'))
                     (send (callback socketId (Some (roomInfo room')) None)
                        (updateRoomActivity c now
                           (set_playerRooms
                              (insert skey (socketId, c) (Server.playerRooms s))
                              (putRoom room' s))))).
  { unfold s', roomJoin. rewrite Hn, Hl. cbn [Nat.eqb ROOM_CODE_LENGTH negb].
    fold c. rewrite L, G1, G2. cbn [orb].
    destruct (MAX_PLAYERS <=? playerCount room)%nat eqn:Full;
      [apply Nat.leb_le in Full; lia|].
    unfold leaveCurrentRoom. rewrite Hm. cbv zeta. rewrite L. reflexivity. }
  assert (Ec' : code room' = c) by exact Ec.
  rewrite E. srv_simpl. rewrite Ec'.
  split; [rewrite (lookup_put code room' (Server.rooms s) c Ec'), String.eqb_refl, L;
          reflexivity|].
  split; [apply memberOf_addPlayer; left; reflexivity|].
  split; [apply (lookup_insert_eq skey (socketId, c) (Server.playerRooms s))|].
  split; [|reflexivity].
  intros k Hk. rewrite (lookup_put code room' (Server.rooms s) k Ec').
  apply String.eqb_neq in Hk. rewrite Hk. reflexivity.
Qed.

Lemma join_adds_member_witness :
  let room := hd (newGameRoom "" "") (Server.rooms lobbyServer) in
  let s' := roomJoin (fun c => c) "s2" (JSString "AAAA") (JSString "Bob") 10001
              lobbyServer in
  (lookup code "AAAA" (Server.rooms lobbyServer) = Some room
   /\ lookup skey "s2" (Server.playerRooms lobbyServer) = None)
  /\ lookup code "AAAA" (Server.rooms s') = Some (addPlayer "s2" "Bob" room)
  /\ lookup skey "s2" (Server.playerRooms s') = Some ("s2", "AAAA").
Proof.
  intros room s'.
  assert (L : lookup code "AAAA" (Server.rooms lobbyServer) = Some room)
    by (vm_compute; reflexivity).
  assert (M : lookup skey "s2" (Server.playerRooms lobbyServer) = None)
    by (vm_compute; reflexivity).
  split; [split; assumption|].
  destruct (@join_adds_member (fun c => c) "s2" "AAAA" (JSString "Bob") "Bob" 10001
              lobbyServer room)
    as (A & _ & B & _); try reflexivity; try assumption.
  - vm_compute. lia.
  - split; assumption.
Defined.

(** X27.  A socket that is alone in its room, in the lobby, and joins
    that same room again closes it: the room is announced as closed and
    taken out of the registry, the socket is mapped to a code under which
    no room is registered, and it is still acknowledged with the room
    info of a room it is the only player of. *)
Theorem rejoin_closes_solo_room toUpperCase socketId roomCode name sanitizedName
    now s c room lobbyPlayer :
  sanitizeName name = Some sanitizedName ->
  String.length roomCode = ROOM_CODE_LENGTH -> toUpperCase roomCode = c ->
  c <> "" ->
  lookup skey socketId (Server.playerRooms s) = Some (socketId, c) ->
  lookup code c (Server.rooms s) = Some room ->
  lobbyPlayers room = [lobbyPlayer] -> RoomPlayer.id lobbyPlayer = socketId ->
  gameStarted room = false -> inLoadoutPhase room = false ->
  let s' := roomJoin toUpperCase socketId (JSString roomCode) name now s in
  let room' := addPlayer socketId sanitizedName (destroy (removePlayer socketId room)) in
  lookup code c (Server.rooms s') = None
  /\ lookup skey socketId (Server.playerRooms s') = Some (socketId, c)
  /\ keys RoomPlayer.id (lobbyPlayers room') = [socketId]
  /\ Server.sent s'
     = room_info_others socketId c (roomInfo room')
       :: callback socketId (Some (roomInfo room')) None
       :: room_closed c :: Server.sent s.
Proof.
  intros Hn Hl Hu Hc M L Lob Hid G1 G2 s' room'.
  assert (Cnt : playerCount room = 1%nat) by (unfold playerCount; rewrite Lob; reflexivity).
  assert (Z : playerCount (removePlayer socketId room) = 0%nat).
  { unfold playerCount, removePlayer, clearMapped. cbv zeta.
    cbn [lobbyPlayers set_spawnProtectionTimers set_reloadTimers set_playerInputs
         set_players set_lobbyPlayers clearHandle set_timers].
    rewrite Lob. cbn [remove filter]. rewrite Hid, String.eqb_refl. reflexivity. }
  set (s1 := set_playerRooms (remove skey socketId (Server.playerRooms s))
               (set_roomLastActivity (remove skey c (Server.roomLastActivity s))
                  (set_rooms (remove code c (Server.rooms s))
                     (send (room_closed c) s)))).
  assert (E1 : leaveCurrentRoom socketId s = s1).
  { unfold leaveCurrentRoom. rewrite M.
    destruct (String.eqb c "") eqn:Ee; [apply String.eqb_eq in Ee; contradiction|].
    cbv zeta. rewrite L, Z. reflexivity. }
  assert (L1 : lookup code c (Server.rooms s1) = None) by apply lookup_remove_eq.
  assert (E : s' = send (room_info_others socketId c (roomInfo room'))
                     (send (callback socketId (Some (roomInfo room')) None)
                        (updateRoomActivity c now
                           (set_playerRooms
                              (insert skey (socketId, c) (Server.playerRooms s1))
                              s1)))).
  { unfold s', roomJoin. rewrite Hn, Hl. cbn [Nat.eqb ROOM_CODE_LENGTH negb].
    rewrite Hu, L, G1, G2. cbn [orb].
    destruct (MAX_PLAYERS <=? playerCount room)%nat eqn:Full;
      [apply Nat.leb_le in Full; unfold MAX_PLAYERS in Full; lia|].
    rewrite E1. cbv zeta. rewrite L1. reflexivity. }
  rewrite E. clearbody s'. srv_simpl.
  split; [apply lookup_remove_eq|].
  split; [apply (lookup_insert_eq skey (socketId, c)
                   (remove skey socketId (Server.playerRooms s)))|].
  split; [reflexivity | reflexivity].
Qed.

Lemma rejoin_closes_solo_room_witness :
  let room := hd (newGameRoom "" "") (Server.rooms soloServer) in
  let s' := roomJoin (fun c => c) "s1" (JSString "AAAA") (JSString "Ann") 20000
              soloServer in
  (lookup skey "s1" (Server.playerRooms soloServer) = Some ("s1", "AAAA")
   /\ lookup code "AAAA" (Server.rooms soloServer) = Some room)
  /\ lookup code "AAAA" (Server.rooms s') = None
  /\ lookup skey "s1" (Server.playerRooms s') = Some ("s1", "AAAA").
Proof.
  intros room s'.
  assert (M : lookup skey "s1" (Server.playerRooms soloServer) = Some ("s1", "AAAA"))
    by (vm_compute; reflexivity).
  assert (L : lookup code "AAAA" (Server.rooms soloServer) = Some room)
    by (vm_compute; reflexivity).
  split; [split; assumption|].
  destruct (@rejoin_closes_solo_room (fun c => c) "s1" "AAAA" (JSString "Ann") "Ann"
              20000 soloServer "AAAA" room
              (hd (with_loadoutReady false
                     {| RoomPlayer.id := ""; RoomPlayer.name := "";
                        RoomPlayer.ready := false; RoomPlayer.loadoutReady := false;
                        RoomPlayer.movement := WINGS; RoomPlayer.weapon := ROCKET |})
                 (lobbyPlayers room)))
    as (A & B & _); try reflexivity; try assumption.
  - discriminate.
  - split; assumption.
Defined.
